(* ===== verification/_CoqProject ===== *)
-Q . S2P
Prelude.v
FreeQueue.v
Request.v
BlockHash.v
BlockMap.v
BlockPool.v
KVSpecs.v
SingleType.v
Coordinator.v
KVManager.v
EncoderCache.v
RequestQueue.v
KVConfig.v
Metrics.v
System.v
Scheduler.v
SchedulerCases.v
EncoderPlan.v
SchedulerInv.v
SchedulerSafety.v
SchedulerWaiting.v
SchedulerStep.v
SchedulerUpdate.v
SchedulerSafe.v
Offload.v
OffloadFacts.v
OffloadSafe.v
OffloadConnector.v
OffloadTransfer.v
OffloadWorker.v
MmaCore.v
MmaFacts.v
MmaSum.v
MmaFormats.v
MmaFormatsFacts.v
MmaExact.v
MmaGemm.v
MmaGemmFacts.v
MmaKernel.v
MmaOps.v
MmaOperator.v
MmaLayout.v
