(* ===== verification/Prelude.v ===== *)
(** * Verification of the vLLM v1 scheduling core

    The repository is vLLM with the MMA emulation kernels of its authors.  What
    is modelled is the part of vLLM that decides, in every engine step, which
    request computes which tokens and where their keys and values are stored:
    src/vllm/v1/core/, src/vllm/v1/request.py and src/vllm/v1/kv_cache_interface.py.

    ** The parts and how they interact

    The engine hands requests to the scheduler, asks it for steps, runs the model
    on a step and returns the sampled tokens to the scheduler.

    - The scheduler ([Scheduler.v]: scheduler.py, async_scheduler.py, utils.py,
      output.py) keeps the dictionary of requests, the list of running ones and a
      queue of waiting ones ([RequestQueue.v]: request_queue.py).  A request is a
      [Request] ([Request.v]: request.py).
    - For every request it schedules it asks the KV-cache manager for slots
      ([KVManager.v]: kv_cache_manager.py), which asks a coordinator
      ([Coordinator.v]: kv_cache_coordinator.py) over one manager per group of
      layers ([SingleType.v]: single_type_kv_cache_manager.py), all over one
      block pool ([BlockPool.v]: block_pool.py) with its free list
      ([FreeQueue.v]: FreeKVCacheBlockQueue) and its prefix-cache map
      ([BlockMap.v]: BlockHashToBlockMap).  Blocks are found by the chained
      hashes of their tokens ([BlockHash.v]: the hashing of kv_cache_utils.py).
    - Multi-modal inputs go through the encoder cache ([EncoderCache.v]:
      encoder_cache_manager.py).
    - The layers' specifications ([KVSpecs.v]: kv_cache_interface.py) and the
      available memory give the groups and the number of blocks ([KVConfig.v]: the
      configuration half of kv_cache_utils.py).  [Metrics.v] is
      PrefixCachingMetrics.

    A file opens with what it models.  Each file has the state of its component
    as a record, the operations in the order of the source, one definition per
    method (a long method is one definition per block of it), then the invariant
    and the lemmas, then the theorems with a run of the code they apply to.

    ** Conventions

    - An operation that can raise returns a [result]: [Err] with the class of the
      Python exception.  State is passed explicitly.
    - Python integers are [Z]; [cdiv], slices, indices and ranges are those of
      Python ([py_index], [py_slice], [py_range], ...), with their errors.
    - An object that is shared has an identity: blocks are references [ptr] into
      the store of a pool, requests are ids into the dictionary of the scheduler.
    - A dictionary whose order matters is the list of its items; one whose order
      does not is a [gmap]; where the code iterates over a set, the order is a
      parameter.

    ** What the theorems show

    - The scheduler is safe ([SchedulerSafe.v], on [SchedulerInv.v],
      [SchedulerSafety.v], [SchedulerWaiting.v], [SchedulerStep.v],
      [SchedulerUpdate.v], [EncoderPlan.v]): from a new scheduler, every
      interleaving of arrivals, steps, updates and aborts keeps the invariant
      [sched_ok] and none of the calls raises, so that every assertion in the code
      holds; a step is within its limits and has the memory for its tokens; an
      update keeps the tokens up to the end of the request and tells the client;
      an abort removes exactly the requests named.  The setups ([config_ok],
      [req_ok], [args_ok], [answer_ok]) are: FCFS, no KV connector, no
      asynchronous scheduling, no speculative decoding, no LoRA limit, decoder-only
      models, generation requests shorter than the maximum length, prefix caching
      on, KV events off.
    - What lies outside is shown to fail where it does ([SchedulerCases.v]):
      preemption by priority, prompts of the maximum length, skipped requests,
      the limit on adapters.
    - The KV cache is safe on its own ([System.v]): the calls of the scheduler, in
      any order, keep [sys_ok]; a hit in the prefix cache has the same tokens as
      the request; the check of the memory is enough, up to the null block.
    - Data structures refine what they stand for: the linked free list a FIFO list
      ([FreeQueue.v]), the map a multimap ([BlockMap.v]), the queues their orders of
      service ([RequestQueue.v]).
    - Functional correctness of each component: the longest cached prefix for each
      kind of attention ([SingleType.v]), block allocation, eviction and caching
      ([BlockPool.v]), incremental hashing ([BlockHash.v]), the partition of layers
      into groups and the search for the longest model length ([KVConfig.v]), the
      accounting of the encoder cache ([EncoderCache.v]).

    ** Fuel

    A [while] loop of the code is a [Fixpoint] with fuel, started with a bound on
    its iterations; running out is [Err OutOfFuel], and the theorems above exclude
    it.  [running_loop] has the number of running requests plus one (every
    iteration passes one or ends), [allocate_or_preempt] the number of running
    requests (every iteration preempts one), [waiting_loop] the length of the
    waiting queue plus one (every iteration takes one request off it), the walk
    over the free list the number of blocks plus one, [hasher_loop] the number of
    tokens plus one (every iteration advances by a block), the binary search over
    model lengths the length of its interval.

    ** Parameters

    The hash function over blocks and the seed [NONE_HASH] (sha256 and a random
    value; the theorems assume that there are no collisions, which
    [BlockHash.enc_hash] shows to be possible), the sizes of torch dtypes, the
    registry that gives the encoder tokens of a modality, and the [World] of the
    scheduler: the structured-output manager, the KV connector, the order in which
    sets are iterated, the tensors that are passed through.

    ** Not modelled

    Threads, processes and sockets of the engine; the workers, the models and
    their kernels; structured-output grammars; KV transfer and offloading;
    tokenizers and front ends; logging.  KV connector callbacks are parameters of
    the scheduler, so its code for them is modelled while the theorems are for
    runs without one. *)
From stdpp Require Export base gmap strings list fin_maps numbers sets sorting.
From Stdlib Require Export ZArith Lia.

#[global] Open Scope Z_scope.

(** ** Python exceptions and the error monad

    Every fallible operation of the sources returns a [result]: [Err] carries
    the Python exception class the source raises on that path.  The monad
    instances give the notation [x ← m; k] for sequencing. *)

Inductive exn : Set :=
  | AssertionError
  | ValueError
  | RuntimeError
  | IndexError
  | KeyError
  | TypeError
  | AttributeError
  | OverflowError
  | StopIteration
  | NotImplementedError
  | ZeroDivisionError
  | OutOfFuel.  (** not a Python exception: the bound of a modelled [while] loop *)

Inductive result (A : Type) : Type :=
  | Ok (a : A)
  | Err (e : exn).
Arguments Ok {A} a.
Arguments Err {A} e.

#[export] Instance exn_eq_dec : EqDecision exn.
Proof. solve_decision. Defined.
#[export] Instance result_eq_dec `{EqDecision A} : EqDecision (result A).
Proof. solve_decision. Defined.

#[export] Instance result_ret : MRet result := λ A a, Ok a.
#[export] Instance result_bind : MBind result :=
  λ A B f m, match m with Ok a => f a | Err e => Err e end.
#[export] Instance result_fmap : FMap result :=
  λ A B f m, match m with Ok a => Ok (f a) | Err e => Err e end.

Definition is_ok {A} (r : result A) : bool :=
  match r with Ok _ => true | Err _ => false end.

(** [assert b] of the sources. *)
Definition py_assert (b : bool) : result unit :=
  if b then Ok tt else Err AssertionError.

(** [x] where [None] must not reach the use: reading an attribute of [None]. *)
Definition of_option {A} (e : exn) (o : option A) : result A :=
  match o with Some a => Ok a | None => Err e end.

(** A [for] loop that threads a state and may raise. *)
Fixpoint for_each {A S} (f : A → S → result S) (l : list A) (s : S) : result S :=
  match l with
  | [] => Ok s
  | a :: l => s' ← f a s; for_each f l s'
  end.

(** A comprehension whose body threads a state and may raise. *)
Fixpoint map_acc {A B S} (f : A → S → result (B * S)) (l : list A) (s : S)
  : result (list B * S) :=
  match l with
  | [] => Ok ([], s)
  | a :: l =>
      '(b, s1) ← f a s;
      '(bs, s2) ← map_acc f l s1;
      Ok (b :: bs, s2)
  end.

(** A comprehension whose body may raise. *)
Fixpoint map_res {A B} (f : A → result B) (l : list A) : result (list B) :=
  match l with
  | [] => Ok []
  | a :: l => b ← f a; bs ← map_res f l; Ok (b :: bs)
  end.

Lemma bind_Ok {A B} (m : result A) (f : A → result B) b :
  (m ≫= f) = Ok b ↔ ∃ a, m = Ok a ∧ f a = Ok b.
Proof. destruct m; naive_solver. Qed.

Lemma bind_Err {A B} (m : result A) (f : A → result B) e :
  (m ≫= f) = Err e ↔ m = Err e ∨ ∃ a, m = Ok a ∧ f a = Err e.
Proof. destruct m; naive_solver. Qed.

Lemma Ok_bind {A B} (a : A) (f : A → result B) : (Ok a ≫= f) = f a.
Proof. done. Qed.

Lemma py_assert_Ok b u : py_assert b = Ok u ↔ b = true.
Proof. destruct b, u; naive_solver. Qed.

Lemma py_assert_true b : b = true → py_assert b = Ok tt.
Proof. by intros ->. Qed.

Lemma for_each_app {A S} (f : A → S → result S) l1 l2 s :
  for_each f (l1 ++ l2) s = (s' ← for_each f l1 s; for_each f l2 s').
Proof.
  induction l1 as [|a l1 IH] in s |- *; [done|]; simpl.
  destruct (f a s); simpl; [apply IH|done].
Qed.

(** Induction principle for loops: an invariant over the processed prefix. *)
Lemma for_each_ind {A S} (f : A → S → result S) (I : list A → S → Prop) l s :
  I [] s →
  (∀ done a rest s, l = done ++ a :: rest → I done s →
     ∃ s', f a s = Ok s' ∧ I (done ++ [a]) s') →
  ∃ s', for_each f l s = Ok s' ∧ I l s'.
Proof.
  intros H0 Hstep.
  assert (∀ rest done s, l = done ++ rest → I done s →
     ∃ s', for_each f rest s = Ok s' ∧ I l s') as Hgen.
  { induction rest as [|a rest IH]; intros dn s1 Hl HI; simpl.
    - rewrite app_nil_r in Hl. subst. eauto.
    - destruct (Hstep dn a rest s1 Hl HI) as (s2&->&HI2). simpl.
      apply (IH (dn ++ [a])); [|done]. by rewrite <-app_assoc. }
  by apply (Hgen l [] s).
Qed.

(** [res_inv] opens every successful or failed monadic hypothesis. *)
Ltac res_step :=
  match goal with
  | H : (_ ≫= _) = Ok _ |- _ => apply bind_Ok in H as (?&?&?)
  | H : py_assert _ = Ok _ |- _ => apply py_assert_Ok in H
  | H : Ok _ = Ok _ |- _ => injection H as H
  | H : Err _ = Ok _ |- _ => discriminate H
  | H : Ok _ = Err _ |- _ => discriminate H
  | x : (_ * _)%type |- _ => destruct x
  | x : unit |- _ => destruct x
  end.
Ltac res_inv := repeat (res_step; simplify_eq/=).

(** ** Python integers and sequences *)

(** [len(l)]. *)
Definition len {A} (l : list A) : Z := Z.of_nat (length l).

(** vllm/utils: [cdiv(a, b) = -(a // -b)], with Python's floor division. *)
Definition cdiv (a b : Z) : Z := - (a / (- b)).

(** [l[i]] with Python's negative indices and [IndexError]. *)
Definition py_index {A} (l : list A) (i : Z) : result A :=
  let j := if i <? 0 then len l + i else i in
  if j <? 0 then Err IndexError
  else of_option IndexError (l !! Z.to_nat j).

(** The clamping of slice bounds: negative bounds count from the end. *)
Definition slice_bound (n i : Z) : Z :=
  if i <? 0 then Z.max 0 (n + i) else Z.min i n.

(** [l[i:j]]. *)
Definition py_slice {A} (l : list A) (i j : Z) : list A :=
  let a := slice_bound (len l) i in
  let b := slice_bound (len l) j in
  take (Z.to_nat (b - a)) (drop (Z.to_nat a) l).

(** [l[i:]]. *)
Definition py_from {A} (l : list A) (i : Z) : list A :=
  drop (Z.to_nat (slice_bound (len l) i)) l.

(** [del l[i:]]. *)
Definition py_del_from {A} (l : list A) (i : Z) : list A :=
  take (Z.to_nat (slice_bound (len l) i)) l.

(** [range(a, b)] and [range(a, b, -1)]. *)
Definition py_range (a b : Z) : list Z := seqZ a (b - a).
Definition py_range_down (a b : Z) : list Z :=
  (λ k, a - k) <$> seqZ 0 (a - b).

(** [[x] * n]. *)
Definition py_repeat {A} (x : A) (n : Z) : list A := replicate (Z.to_nat n) x.

(** [l[i] = x] for an in-range non-negative index. *)
Definition py_set {A} (l : list A) (i : Z) (x : A) : result (list A) :=
  let j := if i <? 0 then len l + i else i in
  if (0 <=? j) && (j <? len l) then Ok (<[Z.to_nat j := x]> l)
  else Err IndexError.

Lemma cdiv_spec a b : 0 < b → b * (cdiv a b - 1) < a ≤ b * cdiv a b.
Proof.
  intros Hb. unfold cdiv.
  pose proof (Z.div_mod a (- b) ltac:(lia)).
  pose proof (Z.mod_neg_bound a (- b) ltac:(lia)). nia.
Qed.

Lemma cdiv_mono a a' b : 0 < b → a ≤ a' → cdiv a b ≤ cdiv a' b.
Proof.
  intros Hb Ha. pose proof (cdiv_spec a b Hb). pose proof (cdiv_spec a' b Hb). nia.
Qed.

Lemma cdiv_nonneg a b : 0 < b → 0 ≤ a → 0 ≤ cdiv a b.
Proof. intros Hb Ha. pose proof (cdiv_spec a b Hb). nia. Qed.

Lemma cdiv_mul k b : 0 < b → cdiv (k * b) b = k.
Proof. intros Hb. pose proof (cdiv_spec (k * b) b Hb). nia. Qed.

Lemma len_nonneg {A} (l : list A) : 0 ≤ len l.
Proof. unfold len. lia. Qed.
Lemma len_app {A} (l k : list A) : len (l ++ k) = len l + len k.
Proof. unfold len. rewrite length_app. lia. Qed.
Lemma len_cons {A} (a : A) l : len (a :: l) = 1 + len l.
Proof. unfold len. simpl. lia. Qed.
Lemma len_nil {A} : len (@nil A) = 0.
Proof. done. Qed.
Lemma len_reverse {A} (l : list A) : len (reverse l) = len l.
Proof. unfold len. by rewrite length_reverse. Qed.
Lemma len_fmap {A B} (f : A → B) l : len (f <$> l) = len l.
Proof. unfold len. by rewrite length_fmap. Qed.
Lemma len_take {A} n (l : list A) : 0 ≤ n → len (take (Z.to_nat n) l) = n `min` len l.
Proof. unfold len. rewrite length_take. lia. Qed.
Lemma len_drop {A} n (l : list A) : 0 ≤ n → len (drop (Z.to_nat n) l) = 0 `max` (len l - n).
Proof. unfold len. rewrite length_drop. lia. Qed.
Lemma len_replicate {A} n (x : A) : 0 ≤ n → len (py_repeat x n) = n.
Proof. unfold len, py_repeat. rewrite length_replicate. lia. Qed.
Lemma len_0_nil {A} (l : list A) : len l = 0 → l = [].
Proof. unfold len. destruct l; simpl; [done|lia]. Qed.

Create HintDb pylen.
#[export] Hint Rewrite @len_app @len_cons @len_nil @len_reverse @len_fmap
  @len_replicate using lia : pylen.
#[export] Hint Resolve len_nonneg cdiv_nonneg : pylen.

(** [len_lia] normalises lengths and closes with [lia]. *)
Ltac len_lia :=
  autorewrite with pylen in *;
  repeat match goal with
  | |- context [len ?l] => lazymatch goal with
      | H : 0 ≤ len l |- _ => fail | _ => pose proof (len_nonneg l) end
  | _ : context [len ?l] |- _ => lazymatch goal with
      | H : 0 ≤ len l |- _ => fail | _ => pose proof (len_nonneg l) end
  end; try lia; try nia.

(** Moving an element across [++]. *)
Lemma app_cons_snoc {A} (l : list A) x k : l ++ x :: k = (l ++ [x]) ++ k.
Proof. by rewrite <-app_assoc. Qed.

(** Filtering with a property all the elements have. *)
Lemma filter_id {A} (P : A → Prop) `{∀ x, Decision (P x)} (l : list A) :
  (∀ x, x ∈ l → P x) → filter P l = l.
Proof.
  induction l as [|x l IH]; [done|]. intros Hl. rewrite filter_cons_True by (apply Hl; by left).
  f_equal. apply IH. intros y Hy. apply Hl. by right.
Qed.

(** Filters that agree on the elements of the list. *)
Lemma filter_ext_elem {A} (P Q : A → Prop) `{!∀ x, Decision (P x), !∀ x, Decision (Q x)} (l : list A) :
  (∀ x, x ∈ l → P x ↔ Q x) → filter P l = filter Q l.
Proof.
  induction l as [|x l IH]; [done|]. intros Hl. rewrite !filter_cons.
  pose proof (Hl x ltac:(by left)). rewrite IH by (intros; apply Hl; by right).
  repeat case_decide; naive_solver.
Qed.

Lemma Forall2_compose {A B C} (P : A → B → Prop) (Q : B → C → Prop) (R : A → C → Prop) l k m :
  (∀ x y z, P x y → Q y z → R x z) → Forall2 P l k → Forall2 Q k m → Forall2 R l m.
Proof.
  intros HR H1. induction H1 in m |- *; intros H2; inversion H2; subst; constructor; eauto.
Qed.

(** The first and the last of three related lists. *)
Lemma Forall3_outer {A B C} (R : A → B → C → Prop) (Q : A → C → Prop) l k m :
  (∀ x y z, R x y z → Q x z) → Forall3 R l k m → Forall2 Q l m.
Proof. intros HQ. induction 1; constructor; eauto. Qed.

Lemma py_slice_nonneg {A} (l : list A) i j :
  0 ≤ i → i ≤ j → j ≤ len l →
  py_slice l i j = take (Z.to_nat (j - i)) (drop (Z.to_nat i) l).
Proof.
  intros. unfold py_slice, slice_bound.
  rewrite !(proj2 (Z.ltb_ge _ _)) by lia.
  by rewrite !Z.min_l by lia.
Qed.

Lemma py_from_nonneg {A} (l : list A) i :
  0 ≤ i → py_from l i = drop (Z.to_nat i) l.
Proof.
  intros. unfold py_from, slice_bound. rewrite (proj2 (Z.ltb_ge _ _)) by lia.
  destruct (Z.le_gt_cases i (len l)); [by rewrite Z.min_l|].
  rewrite Z.min_r by lia. rewrite !drop_ge; [done|unfold len in *; lia..].
Qed.

Lemma py_index_nonneg {A} (l : list A) i x :
  0 ≤ i → l !! Z.to_nat i = Some x → py_index l i = Ok x.
Proof.
  intros ? Hx. unfold py_index. rewrite (proj2 (Z.ltb_ge i 0)) by lia.
  rewrite (proj2 (Z.ltb_ge i 0)) by lia. by rewrite Hx.
Qed.

Lemma py_index_Ok_nonneg {A} (l : list A) i x :
  0 ≤ i → py_index l i = Ok x → l !! Z.to_nat i = Some x.
Proof.
  intros ?. unfold py_index. rewrite (proj2 (Z.ltb_ge i 0)) by lia.
  rewrite (proj2 (Z.ltb_ge i 0)) by lia. by destruct (l !! _); intros; simplify_eq/=.
Qed.

Lemma py_index_total {A} `{Inhabited A} (l : list A) i : 0 ≤ i < len l → py_index l i = Ok (l !!! Z.to_nat i).
Proof. intros Hi. apply py_index_nonneg; [lia|]. apply list_lookup_lookup_total_lt. unfold len in Hi. lia. Qed.
Lemma py_set_ok {A} (l : list A) i x : 0 ≤ i < len l → py_set l i x = Ok (<[Z.to_nat i := x]> l).
Proof. intros Hi. unfold py_set. rewrite (proj2 (Z.ltb_ge i 0)), (proj2 (Z.leb_le 0 i)), (proj2 (Z.ltb_lt i _)) by lia. done. Qed.
Lemma len_insert {A} (l : list A) i (x : A) : len (<[i := x]> l) = len l.
Proof. unfold len. by rewrite length_insert. Qed.
Lemma insert_total_eq {A} `{Inhabited A} (l : list A) i x : 0 ≤ i < len l → <[Z.to_nat i := x]> l !!! Z.to_nat i = x.
Proof. intros Hi. apply list_lookup_total_insert_eq. unfold len in Hi. lia. Qed.
Lemma insert_total_ne {A} `{Inhabited A} (l : list A) i j x : 0 ≤ i → 0 ≤ j → i ≠ j → <[Z.to_nat i := x]> l !!! Z.to_nat j = l !!! Z.to_nat j.
Proof. intros Hi Hj Hne. apply list_lookup_total_insert_ne. lia. Qed.

Lemma map_res_ok {A B} (f : A → result B) (g : A → B) l :
  (∀ x, x ∈ l → f x = Ok (g x)) → map_res f l = Ok (g <$> l).
Proof.
  induction l as [|x l IH]; intros Hf; simpl; [done|].
  rewrite (Hf x) by (by left). rewrite Ok_bind, IH by (intros; apply Hf; by right). done.
Qed.

(** ** Fixed-width integers

    The value that a field of the type holds after [x] is stored in it. *)
Definition u8 (x : Z) : Z := x mod 2 ^ 8.
Definition u32 (x : Z) : Z := x mod 2 ^ 32.
Definition u64 (x : Z) : Z := x mod 2 ^ 64.
Definition i8 (x : Z) : Z := (x + 2 ^ 7) mod 2 ^ 8 - 2 ^ 7.
Definition i32 (x : Z) : Z := (x + 2 ^ 31) mod 2 ^ 32 - 2 ^ 31.
Definition i64 (x : Z) : Z := (x + 2 ^ 63) mod 2 ^ 64 - 2 ^ 63.

Lemma u32_small x : 0 ≤ x < 2 ^ 32 → u32 x = x.
Proof. apply Z.mod_small. Qed.
Lemma u64_small x : 0 ≤ x < 2 ^ 64 → u64 x = x.
Proof. apply Z.mod_small. Qed.
Lemma i32_small x : - 2 ^ 31 ≤ x < 2 ^ 31 → i32 x = x.
Proof. intros ?. unfold i32. rewrite Z.mod_small; lia. Qed.
Lemma i64_small x : - 2 ^ 63 ≤ x < 2 ^ 63 → i64 x = x.
Proof. intros ?. unfold i64. rewrite Z.mod_small; lia. Qed.

(** ** Occurrence counting

    [occ x l] is the number of times [x] occurs in [l]; the reference counts
    of the sources are compared with such counts. *)

Section occ.
Context `{EqDecision A}.

Fixpoint occ (x : A) (l : list A) : Z :=
  match l with
  | [] => 0
  | y :: l => (if decide (x = y) then 1 else 0) + occ x l
  end.

Lemma occ_nonneg x l : 0 ≤ occ x l.
Proof. induction l; simpl; [done|]. case_decide; lia. Qed.

Lemma occ_app x l k : occ x (l ++ k) = occ x l + occ x k.
Proof. induction l; simpl; lia. Qed.

Lemma occ_reverse x l : occ x (reverse l) = occ x l.
Proof.
  induction l; [done|]. rewrite reverse_cons, occ_app. simpl. lia.
Qed.

Lemma occ_not_elem x l : x ∉ l → occ x l = 0.
Proof.
  induction l as [|y l IH]; [done|]. rewrite not_elem_of_cons. intros [? ?].
  simpl. rewrite decide_False by done. by rewrite IH.
Qed.

Lemma occ_elem x l : x ∈ l → 0 < occ x l.
Proof.
  induction l as [|y l IH]; [by intros ?%elem_of_nil|].
  pose proof (occ_nonneg x l). rewrite elem_of_cons. simpl.
  intros [->|Hin]; case_decide; simplify_eq; try lia. specialize (IH Hin). lia.
Qed.

Lemma occ_pos x l : 0 < occ x l ↔ x ∈ l.
Proof.
  split; [|apply occ_elem]. destruct (decide (x ∈ l)); [done|].
  rewrite occ_not_elem by done. lia.
Qed.

Lemma occ_NoDup x l : NoDup l → occ x l = if decide (x ∈ l) then 1 else 0.
Proof.
  induction 1 as [|y l Hy Hnd IH]; simpl; [done|].
  destruct (decide (x = y)) as [->|].
  - rewrite (occ_not_elem y l) by done. by rewrite decide_True by set_solver.
  - rewrite IH. repeat case_decide; set_solver.
Qed.

Lemma occ_filter x (P : A → Prop) `{∀ y, Decision (P y)} l :
  occ x (filter P l) = if decide (P x) then occ x l else 0.
Proof.
  induction l as [|y l IH]; [by case_decide|]; simpl.
  rewrite filter_cons. destruct (decide (P y)); simpl; rewrite IH;
    repeat case_decide; simplify_eq; done || lia.
Qed.
End occ.

(** Sum of a weight over the values of a finite map. *)
Definition map_sum {K V} `{Countable K} (f : V → Z) (m : gmap K V) : Z :=
  map_fold (λ _ v acc, f v + acc) 0 m.

Section map_sum.
Context {K V : Type} `{Countable K} (f : V → Z).

Lemma map_sum_empty : map_sum f (∅ : gmap K V) = 0.
Proof. apply map_fold_empty. Qed.

Lemma map_sum_insert_new (m : gmap K V) k v :
  m !! k = None → map_sum f (<[k:=v]> m) = f v + map_sum f m.
Proof.
  intros Hk. unfold map_sum. rewrite map_fold_insert_L; [done| |done].
  intros. lia.
Qed.

Lemma map_sum_delete (m : gmap K V) k v :
  m !! k = Some v → map_sum f (delete k m) = map_sum f m - f v.
Proof.
  intros Hk. rewrite <-(insert_delete_id m k v Hk) at 2.
  rewrite map_sum_insert_new by apply lookup_delete_eq. lia.
Qed.

Lemma map_sum_insert (m : gmap K V) k v :
  map_sum f (<[k:=v]> m) =
    map_sum f m + f v - from_option f 0 (m !! k).
Proof.
  destruct (m !! k) as [w|] eqn:Hk; simpl.
  - rewrite <-insert_delete_eq, map_sum_insert_new by apply lookup_delete_eq.
    rewrite (map_sum_delete m k w Hk). lia.
  - rewrite map_sum_insert_new by done. lia.
Qed.

Lemma map_sum_nonneg (m : gmap K V) : (∀ v, 0 ≤ f v) → 0 ≤ map_sum f m.
Proof.
  intros Hf. induction m as [|k v m Hk IH] using map_ind.
  - by rewrite map_sum_empty.
  - rewrite map_sum_insert_new by done. specialize (Hf v). lia.
Qed.

Lemma map_sum_ge (m : gmap K V) k v :
  (∀ v, 0 ≤ f v) → m !! k = Some v → f v ≤ map_sum f m.
Proof.
  intros Hf Hk. pose proof (map_sum_delete m k v Hk).
  pose proof (map_sum_nonneg (delete k m) Hf). lia.
Qed.
End map_sum.
