(* ===== verification/FreeQueue.v ===== *)
(** * KV-cache blocks and the intrusive free list

    Models [KVCacheBlock] and [FreeKVCacheBlockQueue] of
    src/vllm/v1/core/kv_cache_utils.py.  Blocks are mutable Python objects
    shared by the block pool, the free list, the prefix-cache map and the block
    tables of the requests, so the model keeps them in one store [heap] and a
    reference to a block is a [ptr].  The queue is the doubly linked list
    threaded through the [prev_free_block]/[next_free_block] fields of that
    store; [queue_rep q l] says that the pointers spell the list [l], and the
    theorems show that every operation acts on [l] as the corresponding list
    operation (a functional refinement) and touches nothing but the links. *)
From S2P Require Import Prelude.

(** A Python [bytes] value: a list of integers, each in [0, 256). *)
Abbreviation bytes := (list Z).

(** References to block objects: the [i]-th block of the pool, and the two
    sentinel objects the queue allocates (both have [block_id = -1] in the
    source, and are told apart by identity). *)
Inductive ptr : Set :=
  | Blk (i : Z)
  | FakeHead
  | FakeTail.

#[export] Instance ptr_eq_dec : EqDecision ptr.
Proof. solve_decision. Defined.
#[export] Instance ptr_countable : Countable ptr.
Proof.
  refine (inj_countable'
    (λ p, match p with Blk i => inl i | FakeHead => inr true | FakeTail => inr false end)
    (λ x, match x with inl i => Blk i | inr true => FakeHead | inr false => FakeTail end) _).
  by intros [].
Defined.

Record KVCacheBlock := mkBlock {
  block_id : Z;
  ref_cnt : Z;
  block_hash : option bytes;
  prev_free_block : option ptr;
  next_free_block : option ptr;
  is_null : bool;
}.

(** [KVCacheBlock(block_id=i)]: the dataclass defaults. *)
Definition new_block (i : Z) : KVCacheBlock := mkBlock i 0 None None None false.

Abbreviation heap := (gmap ptr KVCacheBlock).

(** Attribute reads and writes through a reference.  A reference held by the
    program always denotes an object of the store. *)
Definition nx (h : heap) (p : ptr) : option ptr := h !! p ≫= next_free_block.
Definition pv (h : heap) (p : ptr) : option ptr := h !! p ≫= prev_free_block.

Definition set_next (p : ptr) (v : option ptr) (h : heap) : heap :=
  alter (λ b, mkBlock (block_id b) (ref_cnt b) (block_hash b)
                (prev_free_block b) v (is_null b)) p h.
Definition set_prev (p : ptr) (v : option ptr) (h : heap) : heap :=
  alter (λ b, mkBlock (block_id b) (ref_cnt b) (block_hash b)
                v (next_free_block b) (is_null b)) p h.

(** [block.ref_cnt += d], [block._block_hash = v], [block.is_null = True]. *)
Definition add_ref (d : Z) (p : ptr) (h : heap) : heap :=
  alter (λ b, mkBlock (block_id b) (ref_cnt b + d) (block_hash b)
                (prev_free_block b) (next_free_block b) (is_null b)) p h.
Definition set_hash (p : ptr) (v : option bytes) (h : heap) : heap :=
  alter (λ b, mkBlock (block_id b) (ref_cnt b) v
                (prev_free_block b) (next_free_block b) (is_null b)) p h.
Definition set_null (p : ptr) (h : heap) : heap :=
  alter (λ b, mkBlock (block_id b) (ref_cnt b) (block_hash b)
                (prev_free_block b) (next_free_block b) true) p h.

(** The [block_hash] setter: a block is hashed at most once. *)
Definition assign_hash (p : ptr) (v : bytes) (h : heap) : result heap :=
  _ ← py_assert (bool_decide ((h !! p ≫= block_hash) = None));
  Ok (set_hash p (Some v) h).

(** [reset_hash]. *)
Definition reset_hash (p : ptr) (h : heap) : heap := set_hash p None h.

(** ** The queue *)

Record FreeKVCacheBlockQueue := mkQueue {
  q_heap : heap;
  num_free_blocks : Z;
}.

Module Queue.

(** The body of the loop of [__init__] that links consecutive blocks. *)
Definition link_step (blocks : list ptr) (i : Z) (h : heap) : result heap :=
  b ← py_index blocks i;
  h1 ← (if 0 <? i then
          a ← py_index blocks (i - 1); Ok (set_prev b (Some a) h)
        else Ok h);
  if i <? len blocks - 1 then
    c ← py_index blocks (i + 1); Ok (set_next b (Some c) h1)
  else Ok h1.

(** [FreeKVCacheBlockQueue.__init__]. *)
Definition init (blocks : list ptr) (h : heap) : result FreeKVCacheBlockQueue :=
  let n := len blocks in
  h1 ← for_each (link_step blocks) (py_range 0 n) h;
  let h2 := <[FakeTail := new_block (-1)]> (<[FakeHead := new_block (-1)]> h1) in
  if 0 <? n then
    first ← py_index blocks 0;
    last ← py_index blocks (-1);
    let h3 := set_prev first (Some FakeHead) (set_next FakeHead (Some first) h2) in
    let h4 := set_next last (Some FakeTail) (set_prev FakeTail (Some last) h3) in
    Ok (mkQueue h4 n)
  else
    Ok (mkQueue (set_prev FakeTail (Some FakeHead)
                   (set_next FakeHead (Some FakeTail) h2)) n).

(** [popleft]. *)
Definition popleft (q : FreeKVCacheBlockQueue) : result (ptr * FreeKVCacheBlockQueue) :=
  let h := q_heap q in
  let empty := (_ ← py_assert (num_free_blocks q =? 0); Err ValueError) in
  match nx h FakeHead with
  | None => empty
  | Some FakeTail => empty
  | Some first =>
      match nx h first with
      | None => Err RuntimeError
      | Some second =>
          let h1 := set_prev second (Some FakeHead)
                      (set_next FakeHead (Some second) h) in
          let h2 := set_prev first None (set_next first None h1) in
          Ok (first, mkQueue h2 (num_free_blocks q - 1))
      end
  end.

(** The loop of [popleft_n]: [curr_block], the store and [ret]. *)
Fixpoint popleft_n_loop (n : nat) (curr : option ptr) (h : heap) (ret : list ptr)
  : result (option ptr * heap * list ptr) :=
  match n with
  | O => Ok (curr, h, ret)
  | S n =>
      match curr with
      | None => Err AssertionError
      | Some last =>
          let curr' := nx h last in
          popleft_n_loop n curr' (set_next last None (set_prev last None h))
            (ret ++ [last])
      end
  end.

(** [popleft_n]. *)
Definition popleft_n (n : Z) (q : FreeKVCacheBlockQueue)
  : result (list ptr * FreeKVCacheBlockQueue) :=
  if n =? 0 then Ok ([], q)
  else
    _ ← py_assert (n <=? num_free_blocks q);
    '(curr, h, ret) ← popleft_n_loop (Z.to_nat n) (nx (q_heap q) FakeHead) (q_heap q) [];
    let h' := match curr with
              | Some c => set_prev c (Some FakeHead) (set_next FakeHead (Some c) h)
              | None => h
              end in
    Ok (ret, mkQueue h' (num_free_blocks q - n)).

(** [remove]. *)
Definition remove (p : ptr) (q : FreeKVCacheBlockQueue) : result FreeKVCacheBlockQueue :=
  let h := q_heap q in
  match pv h p, nx h p with
  | Some a, Some b =>
      let h1 := set_prev b (Some a) (set_next a (Some b) h) in
      Ok (mkQueue (set_prev p None (set_next p None h1)) (num_free_blocks q - 1))
  | _, _ => Err RuntimeError
  end.

(** [append]. *)
Definition append (p : ptr) (q : FreeKVCacheBlockQueue) : result FreeKVCacheBlockQueue :=
  let h := q_heap q in
  match pv h FakeTail with
  | None => Err RuntimeError
  | Some last =>
      let h1 := set_prev p (Some last) (set_next last (Some p) h) in
      let h2 := set_prev FakeTail (Some p) (set_next p (Some FakeTail) h1) in
      Ok (mkQueue h2 (num_free_blocks q + 1))
  end.

(** The loop of [append_n]: [last_block] and the store. *)
Fixpoint append_n_loop (blocks : list ptr) (last : ptr) (h : heap) : ptr * heap :=
  match blocks with
  | [] => (last, h)
  | b :: blocks =>
      append_n_loop blocks b (set_next last (Some b) (set_prev b (Some last) h))
  end.

(** [append_n]. *)
Definition append_n (blocks : list ptr) (q : FreeKVCacheBlockQueue)
  : result FreeKVCacheBlockQueue :=
  if len blocks =? 0 then Ok q
  else
    match pv (q_heap q) FakeTail with
    | None => Err AssertionError
    | Some last0 =>
        let '(last, h) := append_n_loop blocks last0 (q_heap q) in
        Ok (mkQueue (set_prev FakeTail (Some last) (set_next last (Some FakeTail) h))
              (num_free_blocks q + len blocks))
    end.

(** The [while] loop of [get_all_free_blocks], bounded by [fuel]. *)
Fixpoint walk (fuel : nat) (curr : ptr) (h : heap) (ret : list ptr) : result (list ptr) :=
  match fuel with
  | O => Err OutOfFuel
  | S fuel =>
      match nx h curr with
      | None => Ok ret
      | Some next => walk fuel next h (ret ++ [curr])
      end
  end.

(** [get_all_free_blocks]; the number of objects of the store bounds the walk. *)
Definition get_all_free_blocks (q : FreeKVCacheBlockQueue) : result (list ptr) :=
  match nx (q_heap q) FakeHead with
  | None => Err RuntimeError
  | Some first => walk (S (size (q_heap q))) first (q_heap q) []
  end.

End Queue.

(** ** Reading through updates *)

Definition meta (b : KVCacheBlock) : Z * Z * option bytes * bool :=
  (block_id b, ref_cnt b, block_hash b, is_null b).

(** Two stores with the same objects, equal up to the links of the free list. *)
Definition same_meta (h h' : heap) : Prop :=
  ∀ p, meta <$> h !! p = meta <$> h' !! p.

#[export] Instance same_meta_equiv : Equivalence same_meta.
Proof. split; [by intros ??|by intros ????|intros ??? H1 H2 p; by rewrite H1]. Qed.

Section links.
Implicit Types (h : heap) (p q : ptr) (v : option ptr).

Lemma nx_set_next h p v q :
  is_Some (h !! p) → nx (set_next p v h) q = if decide (p = q) then v else nx h q.
Proof.
  intros [b Hb]. unfold nx, set_next. rewrite lookup_alter.
  case_decide; subst; [by rewrite Hb|done].
Qed.
Lemma pv_set_prev h p v q :
  is_Some (h !! p) → pv (set_prev p v h) q = if decide (p = q) then v else pv h q.
Proof.
  intros [b Hb]. unfold pv, set_prev. rewrite lookup_alter.
  case_decide; subst; [by rewrite Hb|done].
Qed.
Lemma nx_set_prev h p v q : nx (set_prev p v h) q = nx h q.
Proof.
  unfold nx, set_prev. rewrite lookup_alter. case_decide; [subst|done].
  by destruct (h !! _).
Qed.
Lemma pv_set_next h p v q : pv (set_next p v h) q = pv h q.
Proof.
  unfold pv, set_next. rewrite lookup_alter. case_decide; [subst|done].
  by destruct (h !! _).
Qed.
Lemma is_Some_set_next h p v q : is_Some (set_next p v h !! q) ↔ is_Some (h !! q).
Proof.
  unfold set_next. rewrite lookup_alter. case_decide; subst; by rewrite ?fmap_is_Some.
Qed.
Lemma is_Some_set_prev h p v q : is_Some (set_prev p v h !! q) ↔ is_Some (h !! q).
Proof.
  unfold set_prev. rewrite lookup_alter. case_decide; subst; by rewrite ?fmap_is_Some.
Qed.
Lemma nx_Some_in h p q : nx h p = Some q → is_Some (h !! p).
Proof. unfold nx. destruct (h !! p); [eauto|done]. Qed.
Lemma pv_Some_in h p q : pv h p = Some q → is_Some (h !! p).
Proof. unfold pv. destruct (h !! p); [eauto|done]. Qed.

Lemma same_meta_set_next h p v : same_meta h (set_next p v h).
Proof.
  intros q. unfold set_next. rewrite lookup_alter. case_decide; [subst|done].
  by destruct (h !! _).
Qed.
Lemma same_meta_set_prev h p v : same_meta h (set_prev p v h).
Proof.
  intros q. unfold set_prev. rewrite lookup_alter. case_decide; [subst|done].
  by destruct (h !! _).
Qed.
Lemma same_meta_in h h' p : same_meta h h' → is_Some (h !! p) → is_Some (h' !! p).
Proof. intros Hm. rewrite <-!(fmap_is_Some meta). by rewrite Hm. Qed.
End links.

(** Stepping over a link update keeps the meta data; chains of them too. *)
Lemma same_meta_next_trans h h' p v :
  same_meta h h' → same_meta h (set_next p v h').
Proof. intros. etrans; [done|apply same_meta_set_next]. Qed.
Lemma same_meta_prev_trans h h' p v :
  same_meta h h' → same_meta h (set_prev p v h').
Proof. intros. etrans; [done|apply same_meta_set_prev]. Qed.

Create HintDb heap.
#[export] Hint Resolve same_meta_next_trans same_meta_prev_trans : heap.
#[export] Hint Extern 1 (same_meta ?h ?h) => reflexivity : heap.

Ltac heap_dom :=
  repeat first [rewrite is_Some_set_next | rewrite is_Some_set_prev];
  solve [eauto using nx_Some_in, pv_Some_in].

(** [heap_simpl] evaluates reads of links through link updates. *)
Ltac heap_simpl :=
  repeat first
    [ rewrite nx_set_prev | rewrite pv_set_next
    | rewrite nx_set_next by heap_dom | rewrite pv_set_prev by heap_dom
    | rewrite decide_True by congruence | rewrite decide_False by congruence ].

(** [heap_done] also decides which node is meant from list membership. *)
Ltac heap_done :=
  heap_simpl;
  repeat first [rewrite decide_False by set_solver | rewrite decide_True by set_solver];
  try done.

(** ** The representation predicate *)

Definition linked (h : heap) (p q : ptr) : Prop := nx h p = Some q ∧ pv h q = Some p.

Fixpoint chain (h : heap) (l : list ptr) : Prop :=
  match l with
  | a :: ((b :: _) as l') => linked h a b ∧ chain h l'
  | _ => True
  end.

Definition ring (l : list ptr) : list ptr := FakeHead :: l ++ [FakeTail].

Record queue_rep (q : FreeKVCacheBlockQueue) (l : list ptr) : Prop := {
  qr_chain : chain (q_heap q) (ring l);
  qr_nodup : NoDup (ring l);
  qr_num : num_free_blocks q = len l;
  qr_ends : pv (q_heap q) FakeHead = None ∧ nx (q_heap q) FakeTail = None;
  qr_off : ∀ p, p ∉ ring l → nx (q_heap q) p = None ∧ pv (q_heap q) p = None;
}.

Section chain.
Implicit Types (h : heap) (l : list ptr).

Lemma chain_app h l1 a l2 :
  chain h (l1 ++ a :: l2) ↔ chain h (l1 ++ [a]) ∧ chain h (a :: l2).
Proof.
  induction l1 as [|b l1 IH]; [simpl; naive_solver|].
  destruct l1 as [|c l1]; simpl in *; naive_solver.
Qed.

Lemma chain_in h l1 a b l2 : chain h (l1 ++ a :: b :: l2) → linked h a b.
Proof. rewrite chain_app. by intros [_ [? _]]. Qed.

Lemma chain_dom h a b l p :
  chain h (a :: b :: l) → p ∈ a :: b :: l → is_Some (h !! p).
Proof.
  induction l as [|c l IH] in a, b |- *; simpl; intros Hc Hin.
  - destruct Hc as [[? ?] _]. assert (p = a ∨ p = b) as [-> | ->] by set_solver;
      eauto using nx_Some_in, pv_Some_in.
  - destruct Hc as [[? ?] Hc]. apply elem_of_cons in Hin as [->|Hin];
      [eauto using nx_Some_in|]. by apply (IH b c).
Qed.
End chain.

(** Updates elsewhere keep a chain: all the forward links but the last one and
    all the backward links but the first one have to stay. *)
Lemma chain_frame_pre h h' l a :
  (∀ p, p ∈ l → nx h' p = nx h p) →
  (∀ p, p ∈ l ++ [a] → pv h' p = pv h p) →
  chain h (l ++ [a]) → chain h' (l ++ [a]).
Proof.
  induction l as [|b l IH]; [done|]. intros Hn Hp. rewrite <-app_comm_cons.
  destruct (l ++ [a]) as [|c L] eqn:E; [by destruct l|]. intros [[H1 H2] Hc]. split.
  - split; [rewrite Hn; [done|by left]|rewrite Hp; [done|]].
    rewrite <-app_comm_cons, E. right. by left.
  - apply IH; [|  |done]; intros p Hin; [apply Hn|apply Hp; rewrite <-app_comm_cons, E];
      by right.
Qed.

Lemma chain_frame_post h h' a l :
  (∀ p, p ∈ a :: l → nx h' p = nx h p) →
  (∀ p, p ∈ l → pv h' p = pv h p) →
  chain h (a :: l) → chain h' (a :: l).
Proof.
  induction l as [|b l IH] in a |- *; [done|].
  intros Hn Hp [[H1 H2] Hc]. split.
  - split; [rewrite Hn; [done|by left]|rewrite Hp; [done|by left]].
  - apply IH; [| |done]; intros p Hin; [apply Hn|apply Hp]; by right.
Qed.

(** Every queue has a first and a last edge around any of its positions. *)
Lemma ring_split l1 l2 :
  ∃ L1 a b L2, FakeHead :: l1 = L1 ++ [a] ∧ l2 ++ [FakeTail] = b :: L2.
Proof.
  destruct (exists_last (l := FakeHead :: l1)) as (L1&a&HL1); [done|].
  destruct (l2 ++ [FakeTail]) as [|b L2] eqn:E; [by destruct l2|]. eauto 10.
Qed.

Lemma queue_rep_dom q l p : queue_rep q l → p ∈ ring l → is_Some (q_heap q !! p).
Proof.
  intros Hq. unfold ring. pose proof (qr_chain q l Hq) as Hc. unfold ring in Hc.
  destruct (l ++ [FakeTail]) as [|b L] eqn:E; [by destruct l|].
  intros Hin. by eapply chain_dom.
Qed.

(** ** Each operation refines the list operation *)

Lemma remove_spec q l1 x l2 :
  queue_rep q (l1 ++ x :: l2) →
  ∃ q', Queue.remove x q = Ok q' ∧ queue_rep q' (l1 ++ l2) ∧
    same_meta (q_heap q) (q_heap q').
Proof.
  intros Hq. destruct (ring_split l1 l2) as (L1&a&b&L2&E1&E2).
  assert (ring (l1 ++ x :: l2) = L1 ++ a :: x :: b :: L2) as ER.
  { unfold ring. rewrite <-app_assoc. simpl. rewrite E2, app_comm_cons, E1.
    by rewrite <-app_assoc. }
  assert (ring (l1 ++ l2) = L1 ++ a :: b :: L2) as ER'.
  { unfold ring. rewrite <-app_assoc, E2, app_comm_cons, E1. by rewrite <-app_assoc. }
  destruct Hq as [Hc Hnd Hnum Hends Hoff]. rewrite ER in *.
  apply chain_app in Hc as [Hpre [[Hax Hxa] [[Hxb Hbx] Hpost]]].
  unfold Queue.remove. rewrite Hxa, Hxb. eexists; split; [done|].
  apply NoDup_app in Hnd as (HndL1&Hdisj&Hnd2).
  rewrite !NoDup_cons in Hnd2. destruct Hnd2 as (Ha&Hx&Hb&HndL2).
  assert (a ∉ L1 ∧ x ∉ L1 ∧ b ∉ L1) as (HaL1&HxL1&HbL1) by set_solver.
  assert (a ≠ x ∧ a ≠ b ∧ x ≠ b) as (Hne1&Hne2&Hne3) by set_solver.
  split; [|eauto 10 with heap]. split; cbn [q_heap num_free_blocks].
  - rewrite ER'. apply chain_app. split; [|split; [split|]].
    + eapply chain_frame_pre; [| |exact Hpre]; intros p Hp; heap_done.
    + by heap_simpl.
    + by heap_simpl.
    + eapply chain_frame_post; [| |exact Hpost]; intros p Hp; heap_done.
  - rewrite ER'. rewrite NoDup_app. split; [done|]. split; [set_solver|].
    rewrite !NoDup_cons. set_solver.
  - rewrite Hnum. len_lia.
  - assert (FakeHead ∈ L1 ++ [a]) by (rewrite <-E1; by left).
    assert (FakeTail ∈ b :: L2) by (rewrite <-E2; set_solver).
    split; heap_done; naive_solver.
  - intros p Hp. rewrite ER' in Hp. destruct (decide (p = x)) as [->|]; [by heap_simpl|].
    assert (p ≠ a ∧ p ≠ b) as [] by set_solver.
    heap_simpl. apply Hoff. set_solver.
Qed.

(** [popleft] is [remove] of the first block. *)
Lemma popleft_remove q x l :
  queue_rep q (x :: l) →
  Queue.popleft q = (q' ← Queue.remove x q; Ok (x, q')).
Proof.
  intros [Hc Hnd _ _ _]. simpl in Hc. destruct Hc as [[H1 H2] Hc].
  unfold Queue.popleft, Queue.remove. rewrite H1, H2.
  assert (x ≠ FakeTail) by (intros ->; unfold ring in Hnd; apply NoDup_cons in Hnd as [_ Hnd];
    apply NoDup_cons in Hnd; set_solver).
  destruct (l ++ [FakeTail]) as [|b L] eqn:E; [by destruct l|]. destruct Hc as [[-> _] _].
  by destruct x.
Qed.

Lemma popleft_spec q x l :
  queue_rep q (x :: l) →
  ∃ q', Queue.popleft q = Ok (x, q') ∧ queue_rep q' l ∧ same_meta (q_heap q) (q_heap q').
Proof.
  intros Hq. rewrite (popleft_remove q x l Hq).
  destruct (remove_spec q [] x l Hq) as (q'&->&?&?). eauto.
Qed.

(** On an empty queue [popleft] raises. *)
Lemma popleft_empty q : queue_rep q [] → Queue.popleft q = Err ValueError.
Proof.
  intros [[[H1 _] _] _ Hn _ _]. unfold Queue.popleft. rewrite H1, Hn. done.
Qed.

(** [remove] of a block that is not queued raises. *)
Lemma remove_off q l p : queue_rep q l → p ∉ ring l → Queue.remove p q = Err RuntimeError.
Proof.
  intros Hq Hp. destruct (qr_off q l Hq p Hp) as [H1 H2].
  unfold Queue.remove. by rewrite H1, H2.
Qed.

(** The last link of the ring. *)
Lemma ring_last q l :
  queue_rep q l → ∃ L a, FakeHead :: l = L ++ [a] ∧ pv (q_heap q) FakeTail = Some a ∧
    nx (q_heap q) a = Some FakeTail.
Proof.
  intros [Hc _ _ _ _]. destruct (exists_last (l := FakeHead :: l)) as (L&a&E); [done|].
  unfold ring in Hc. rewrite app_comm_cons, E, <-app_assoc in Hc.
  apply chain_in in Hc as [? ?]. eauto 10.
Qed.

(** The loop of [append_n] extends an open chain by the new blocks. *)
Lemma append_n_loop_spec blocks L a h h0 :
  chain h (L ++ [a]) → is_Some (h !! a) →
  NoDup (L ++ a :: blocks) →
  (∀ p, p ∈ blocks → is_Some (h !! p)) →
  same_meta h0 h →
  ∃ last h', Queue.append_n_loop blocks a h = (last, h') ∧
    (∃ L', L ++ a :: blocks = L' ++ [last]) ∧
    chain h' (L ++ a :: blocks) ∧ is_Some (h' !! last) ∧
    (∀ p, p ∉ a :: blocks → nx h' p = nx h p) ∧
    (∀ p, p ∉ blocks → pv h' p = pv h p) ∧
    same_meta h0 h'.
Proof.
  induction blocks as [|b blocks IH] in L, a, h |- *; simpl; intros Hc Ha Hnd Hdom Hm.
  { eexists _, _. split_and!; eauto. }
  set (h1 := set_next a (Some b) (set_prev b (Some a) h)).
  assert (is_Some (h !! b)) as Hb by set_solver.
  rewrite app_cons_snoc in Hnd. pose proof Hnd as Hnd'.
  apply NoDup_app in Hnd' as (HndL&Hdisj&[Hbb _]%NoDup_cons).
  apply NoDup_app in HndL as (HndL&HaL&_).
  assert (a ≠ b) as Hab by set_solver.
  destruct (IH (L ++ [a]) b h1) as (last&h'&->&[L' HL']&Hc'&Hl&Hn&Hp&Hm'); unfold h1.
  - rewrite <-app_assoc. simpl. apply chain_app. split; [|split; [split|done]].
    + eapply chain_frame_pre; [| |exact Hc]; intros p Hin; heap_done.
    + heap_done.
    + heap_done.
  - heap_dom.
  - done.
  - intros p Hin. repeat first [rewrite is_Some_set_next|rewrite is_Some_set_prev]. set_solver.
  - eauto with heap.
  - exists last, h'. rewrite <-app_assoc in HL', Hc'. simpl in HL', Hc'.
    split_and!; eauto; intros p Hin; [rewrite Hn by set_solver|rewrite Hp by set_solver];
      unfold h1; heap_done.
Qed.

(** Reconnecting the fake tail closes an open chain. *)
Lemma close_chain h L a :
  chain h (L ++ [a]) → NoDup (L ++ [a; FakeTail]) →
  is_Some (h !! a) → is_Some (h !! FakeTail) →
  chain (set_prev FakeTail (Some a) (set_next a (Some FakeTail) h)) (L ++ [a; FakeTail]).
Proof.
  intros Hc Hnd Ha HT. apply NoDup_app in Hnd as (_&Hd&[HaT _]%NoDup_cons).
  assert (a ≠ FakeTail) by set_solver.
  apply chain_app. split; [|split; [split|done]].
  - eapply chain_frame_pre; [| |exact Hc]; intros p Hin; heap_done.
  - heap_done.
  - heap_done.
Qed.

Lemma append_n_spec q l blocks :
  queue_rep q l → NoDup blocks →
  (∀ p, p ∈ blocks → p ∉ ring l ∧ is_Some (q_heap q !! p)) →
  ∃ q', Queue.append_n blocks q = Ok q' ∧ queue_rep q' (l ++ blocks) ∧
    same_meta (q_heap q) (q_heap q').
Proof.
  intros Hq Hndb Hb. unfold Queue.append_n. case_match eqn:Hlen.
  { apply Z.eqb_eq, len_0_nil in Hlen. subst. rewrite app_nil_r. eauto with heap. }
  destruct (ring_last q l Hq) as (L&a&E&Hpv&Hnx). rewrite Hpv.
  pose proof (queue_rep_dom q l FakeTail Hq ltac:(unfold ring; set_solver)) as HT.
  destruct Hq as [Hc Hnd Hnum [He1 He2] Hoff].
  unfold ring in *. rewrite app_comm_cons, E in *.
  rewrite <-app_assoc in Hc. apply chain_app in Hc as [Hc _].
  assert (NoDup (L ++ a :: blocks ++ [FakeTail])) as HndR.
  { rewrite app_cons_snoc, app_assoc. apply NoDup_app in Hnd as (HndL&HTL&_).
    assert (∀ x, x ∈ blocks → x ∉ L ++ [a] ∧ x ≠ FakeTail) as Hb'.
    { intros x Hx. apply Hb in Hx as [Hx _]. rewrite elem_of_app in Hx. set_solver. }
    apply NoDup_app; split_and!; [apply NoDup_app; split_and!| |apply NoDup_singleton]; try done.
    - intros x Hx Hxb. by destruct (Hb' x Hxb).
    - intros x [Hx|Hx]%elem_of_app; [by apply HTL|].
      rewrite list_elem_of_singleton. by apply Hb'. }
  destruct (append_n_loop_spec blocks L a (q_heap q) (q_heap q))
    as (last&h'&->&[L' HL']&Hc'&Hl&Hn&Hp&Hm').
  { done. } { eauto using nx_Some_in. }
  { rewrite app_comm_cons, app_assoc in HndR. by apply NoDup_app in HndR as [? _]. }
  { intros p Hp. by apply Hb. } { reflexivity. }
  eexists; split; [done|]. split; [|simpl; eauto with heap].
  assert (ring (l ++ blocks) = L' ++ [last; FakeTail]) as ER.
  { unfold ring. rewrite <-app_assoc, app_comm_cons, E, <-app_cons_snoc.
    by rewrite app_comm_cons, app_assoc, HL', <-app_cons_snoc. }
  rewrite app_comm_cons, app_assoc, HL', <-app_cons_snoc in HndR.
  assert (is_Some (h' !! FakeTail)) by (by eapply same_meta_in).
  assert (FakeTail ∉ L ++ a :: blocks) as HTb.
  { rewrite HL'. rewrite app_cons_snoc in HndR. apply NoDup_app in HndR. set_solver. }
  assert (last ∈ L ++ a :: blocks) by (rewrite HL'; set_solver).
  split; cbn [q_heap num_free_blocks]; rewrite ?ER.
  - rewrite HL' in Hc'. by apply close_chain.
  - done.
  - rewrite Hnum. len_lia.
  - assert (FakeHead ∉ blocks)
      by (intros [HH _]%Hb; apply HH; rewrite elem_of_app, <-E; left; by left).
    split; heap_simpl; [by rewrite Hp|].
    rewrite ?decide_False by (intros ->; set_solver). rewrite Hn; [done|set_solver].
  - intros p Hin. assert (p ∉ L' ++ [last] ∧ p ≠ FakeTail) as [Hin' ?] by set_solver.
    rewrite <-HL' in Hin'. destruct (Hoff p) as [Hn0 Hp0]; [set_solver|].
    split; heap_simpl; [|rewrite Hp; [done|set_solver]].
    rewrite ?decide_False by set_solver. rewrite Hn; [done|set_solver].
Qed.

Lemma set_next_prev_comm a v b w h :
  set_next a v (set_prev b w h) = set_prev b w (set_next a v h).
Proof.
  unfold set_next, set_prev. apply map_eq. intros p. rewrite !lookup_alter.
  repeat case_decide; subst; by destruct (h !! _).
Qed.

Lemma append_spec q l p :
  queue_rep q l → p ∉ ring l → is_Some (q_heap q !! p) →
  ∃ q', Queue.append p q = Ok q' ∧ queue_rep q' (l ++ [p]) ∧
    same_meta (q_heap q) (q_heap q').
Proof.
  intros Hq Hp Hin. destruct (append_n_spec q l [p]) as (q'&Heq&?&?).
  { done. } { apply NoDup_singleton. } { set_solver. }
  exists q'. split; [|done]. revert Heq. unfold Queue.append_n, Queue.append. simpl.
  destruct (pv (q_heap q) FakeTail) as [a|]; [|done]. intros <-.
  by rewrite (set_next_prev_comm a (Some p) p).
Qed.

(** The loop of [popleft_n] detaches the nodes it passes and no other. *)
Lemma popleft_n_loop_spec l1 b L2 h ret :
  chain h (l1 ++ b :: L2) → NoDup (l1 ++ b :: L2) → (∀ p, p ∈ l1 → is_Some (h !! p)) →
  ∃ h', Queue.popleft_n_loop (length l1) (head (l1 ++ [b])) h ret
          = Ok (Some b, h', ret ++ l1) ∧
    (∀ p, nx h' p = if decide (p ∈ l1) then None else nx h p) ∧
    (∀ p, pv h' p = if decide (p ∈ l1) then None else pv h p) ∧
    same_meta h h'.
Proof.
  induction l1 as [|a l1 IH] in h, ret |- *; simpl; intros Hc Hnd Hdom.
  { exists h. rewrite app_nil_r. split_and!; try done; intros p; by rewrite decide_False by set_solver. }
  assert (nx h a = head (l1 ++ [b]) ∧ chain h (l1 ++ b :: L2)) as [Ha Hc'].
  { destruct l1; destruct Hc as [[? _] ?]; done. }
  apply NoDup_cons in Hnd as [Hal Hnd].
  assert (is_Some (h !! a)) as Hda by (apply Hdom; by left).
  set (h1 := set_next a None (set_prev a None h)).
  destruct (IH h1 (ret ++ [a])) as (h'&Hrun&Hn&Hp&Hm).
  - destruct (l1 ++ b :: L2) as [|c L]; [done|].
    eapply chain_frame_post; [| |exact Hc']; intros p Hin; unfold h1; heap_done.
  - done.
  - intros p Hin. unfold h1. rewrite is_Some_set_next, is_Some_set_prev.
    apply Hdom. by right.
  - exists h'. rewrite Ha. fold h1. rewrite Hrun. split_and!.
    + by rewrite <-app_cons_snoc.
    + intros p. rewrite Hn. unfold h1. heap_simpl. repeat case_decide; set_solver.
    + intros p. rewrite Hp. unfold h1. heap_simpl. repeat case_decide; set_solver.
    + rewrite <-Hm. unfold h1. eauto with heap.
Qed.

Lemma popleft_n_spec q l1 l2 :
  queue_rep q (l1 ++ l2) →
  ∃ q', Queue.popleft_n (len l1) q = Ok (l1, q') ∧ queue_rep q' l2 ∧
    same_meta (q_heap q) (q_heap q').
Proof.
  intros Hq. unfold Queue.popleft_n. case_match eqn:Hlen.
  { apply Z.eqb_eq, len_0_nil in Hlen. subst. eauto with heap. }
  pose proof (queue_rep_dom q _ FakeHead Hq ltac:(by left)) as HH.
  assert (∀ p, p ∈ l1 → is_Some (q_heap q !! p)) as Hdom1.
  { intros p Hp. apply (queue_rep_dom q _ p Hq). unfold ring. set_solver. }
  assert (∀ p, p ∈ l2 ++ [FakeTail] → is_Some (q_heap q !! p)) as Hdom2.
  { intros p Hp. apply (queue_rep_dom q _ p Hq). unfold ring. set_solver. }
  destruct Hq as [Hc Hnd Hnum [He1 He2] Hoff].
  rewrite py_assert_true by (rewrite Hnum; len_lia). rewrite Ok_bind.
  unfold ring in *. rewrite <-app_assoc in *.
  destruct (l2 ++ [FakeTail]) as [|b L2] eqn:E2; [by destruct l2|].
  assert (nx (q_heap q) FakeHead = head (l1 ++ [b]) ∧ chain (q_heap q) (l1 ++ b :: L2))
    as [Hhd Hc'] by (destruct l1; destruct Hc as [[? _] ?]; done).
  apply NoDup_cons in Hnd as [HH' Hnd].
  destruct (popleft_n_loop_spec l1 b L2 (q_heap q) []) as (h'&Hrun&Hn&Hp&Hm); [done..|].
  replace (Z.to_nat (len l1)) with (length l1) by (unfold len; lia).
  rewrite Hhd, Hrun. simpl. eexists. split; [done|]. split; [|simpl; eauto with heap].
  apply NoDup_app in Hnd as (_&Hdisj&Hnd).
  assert (is_Some (h' !! FakeHead) ∧ is_Some (h' !! b)) as [HdH Hdb].
  { split; eapply same_meta_in; [done| |done|]; [done|apply Hdom2; by left]. }
  assert (FakeHead ∉ l1 ∧ FakeHead ∉ b :: L2) as [HHl1 HHb] by set_solver.
  assert (FakeHead ≠ b) by set_solver. apply NoDup_cons in Hnd as [HbL2 Hnd].
  split; cbn [q_heap num_free_blocks]; unfold ring; rewrite ?E2.
  - apply chain_app in Hc' as [_ Hc']. split; [split; heap_done|].
    eapply chain_frame_post; [| |exact Hc']; intros p Hin; heap_simpl;
      rewrite ?Hn, ?Hp; rewrite !decide_False by set_solver; done.
  - apply NoDup_cons. split; [done|]. by apply NoDup_cons.
  - rewrite Hnum. len_lia.
  - assert (FakeTail ∈ b :: L2) by (rewrite <-E2; set_solver).
    split; heap_simpl; rewrite ?Hn, ?Hp; rewrite decide_False by set_solver; done.
  - intros p Hin. assert (p ≠ FakeHead ∧ p ≠ b) as [] by set_solver.
    heap_simpl. rewrite Hn, Hp. case_decide; [done|]. apply Hoff. set_solver.
Qed.

Lemma walk_spec fuel h l1 l2 a L :
  chain h (l2 ++ [FakeTail]) → nx h FakeTail = None →
  l2 ++ [FakeTail] = a :: L → (length l2 < fuel)%nat →
  Queue.walk fuel a h l1 = Ok (l1 ++ l2).
Proof.
  induction fuel as [|fuel IH] in l1, l2, a, L |- *; [lia|].
  intros Hc HT Heq Hf. destruct l2 as [|x l2]; simpl in *; simplify_eq.
  - rewrite HT. by rewrite app_nil_r.
  - destruct (l2 ++ [FakeTail]) as [|b L'] eqn:E; [by destruct l2|].
    destruct Hc as [[-> _] Hc]. rewrite (app_cons_snoc l1 a l2).
    apply (IH _ l2 b L'); try done; [by rewrite E|lia].
Qed.

(** The walk along [next_free_block] terminates and yields exactly the queue. *)
Lemma get_all_free_blocks_spec q l :
  queue_rep q l → Queue.get_all_free_blocks q = Ok l.
Proof.
  intros Hq. unfold Queue.get_all_free_blocks.
  assert (length (ring l) ≤ size (q_heap q))%nat as Hsz.
  { rewrite <-size_dom, <-(size_list_to_set (C := gset ptr)) by apply Hq.
    apply subseteq_size. intros p. rewrite elem_of_list_to_set, elem_of_dom.
    by apply queue_rep_dom. }
  destruct Hq as [Hc Hnd Hnum [He1 He2] Hoff]. unfold ring in *.
  destruct (l ++ [FakeTail]) as [|b L] eqn:E; [by destruct l|].
  destruct Hc as [[-> _] Hc]. apply (walk_spec _ _ [] l b L); try done; [by rewrite E|].
  apply (f_equal length) in E. rewrite length_app in E. simpl in *. lia.
Qed.

(** ** Construction *)

Lemma chain_lookup h l :
  (∀ j a b, l !! j = Some a → l !! S j = Some b → linked h a b) → chain h l.
Proof.
  induction l as [|a l IH]; [done|]. intros H. destruct l as [|b l]; [done|].
  split; [by apply (H 0%nat)|]. apply IH. intros j. apply (H (S j)).
Qed.

(** The links after the first [k] iterations of the loop of [__init__]. *)
Definition linked_upto (blocks : list ptr) (k : nat) (h : heap) : Prop :=
  (∀ j b, blocks !! j = Some b →
     nx h b = (if decide (j < k)%nat then blocks !! S j else None) ∧
     pv h b = (if decide (j < k ∧ 0 < j)%nat then blocks !! (j - 1)%nat else None)) ∧
  (∀ p, p ∉ blocks → nx h p = None ∧ pv h p = None).

Lemma link_step_prev blocks k b h :
  is_Some (h !! b) → pv h b = None → (k < length blocks)%nat →
  ∃ h1, (if 0 <? Z.of_nat k then
           a ← py_index blocks (Z.of_nat k - 1); Ok (set_prev b (Some a) h)
         else Ok h) = Ok h1 ∧ same_meta h h1 ∧ (∀ p, nx h1 p = nx h p) ∧
    (∀ p, pv h1 p = if decide (p = b) then
                      if decide (0 < k)%nat then blocks !! (k - 1)%nat else None
                    else pv h p).
Proof.
  intros Hdb Hpv Hk. destruct (Z.ltb_spec 0 (Z.of_nat k)).
  - destruct (lookup_lt_is_Some_2 blocks (k - 1)%nat) as [a Ha]; [lia|].
    rewrite (py_index_nonneg _ _ a); [|lia|by replace (Z.to_nat (Z.of_nat k - 1)) with (k - 1)%nat by lia].
    eexists; split_and!; [done|eauto with heap|by intros p; heap_simpl|].
    intros p. heap_simpl. rewrite Ha. repeat case_decide; simplify_eq; done || lia.
  - exists h. split_and!; try done. intros p. repeat case_decide; simplify_eq; done || lia.
Qed.

Lemma link_step_next blocks k b h :
  is_Some (h !! b) → nx h b = None → (k < length blocks)%nat →
  ∃ h1, (if Z.of_nat k <? len blocks - 1 then
           c ← py_index blocks (Z.of_nat k + 1); Ok (set_next b (Some c) h)
         else Ok h) = Ok h1 ∧ same_meta h h1 ∧ (∀ p, pv h1 p = pv h p) ∧
    (∀ p, nx h1 p = if decide (p = b) then blocks !! S k else nx h p).
Proof.
  intros Hdb Hnx Hk. unfold len. destruct (Z.ltb_spec (Z.of_nat k) (Z.of_nat (length blocks) - 1)).
  - destruct (lookup_lt_is_Some_2 blocks (S k)) as [c Hc]; [lia|].
    rewrite (py_index_nonneg _ _ c); [|lia|by replace (Z.to_nat (Z.of_nat k + 1)) with (S k) by lia].
    eexists; split_and!; [done|eauto with heap|by intros p; heap_simpl|].
    intros p. heap_simpl. rewrite Hc. repeat case_decide; simplify_eq; done.
  - exists h. split_and!; try done. intros p. case_decide; subst; [|done].
    rewrite Hnx. symmetry. apply lookup_ge_None. lia.
Qed.

Lemma link_step_spec blocks k h :
  NoDup blocks → (∀ p, p ∈ blocks → is_Some (h !! p)) →
  (k < length blocks)%nat → linked_upto blocks k h →
  ∃ h', Queue.link_step blocks (Z.of_nat k) h = Ok h' ∧
    linked_upto blocks (S k) h' ∧ same_meta h h'.
Proof.
  intros Hnd Hdom Hk [Hin Hout].
  destruct (lookup_lt_is_Some_2 blocks k Hk) as [b Hb].
  assert (is_Some (h !! b)) as Hdb by (apply Hdom; by eapply list_elem_of_lookup_2).
  destruct (Hin k b Hb) as [Hnb Hpb].
  rewrite decide_False in Hnb by lia. rewrite decide_False in Hpb by lia.
  unfold Queue.link_step. rewrite (py_index_nonneg _ (Z.of_nat k) b); [|lia|by rewrite Nat2Z.id].
  rewrite Ok_bind.
  destruct (link_step_prev blocks k b h) as (h1&->&Hm1&Hn1&Hp1); [done..|]. rewrite Ok_bind.
  destruct (link_step_next blocks k b h1) as (h2&->&Hm2&Hp2&Hn2);
    [by eapply same_meta_in|by rewrite Hn1|done|].
  exists h2. split; [done|]. split; [|by etrans]. split.
  - intros j c Hc. rewrite Hn2, Hp2, Hp1, Hn1. destruct (Hin j c Hc) as [-> ->].
    destruct (decide (c = b)) as [->|Hcb].
    + assert (j = k) as -> by (by eapply NoDup_lookup).
      split; [by rewrite decide_True by lia|]. repeat case_decide; done || lia.
    + assert (j ≠ k) by congruence. split; repeat case_decide; done || lia.
  - intros p Hp. assert (p ≠ b) by (intros ->; by apply Hp, list_elem_of_lookup_2 with k).
    rewrite Hn2, Hp2, Hp1, Hn1, !decide_False by done. by apply Hout.
Qed.

Lemma link_loop_spec blocks h :
  NoDup blocks → (∀ p, p ∈ blocks → is_Some (h !! p)) →
  (∀ p, nx h p = None ∧ pv h p = None) →
  ∃ h', for_each (Queue.link_step blocks) (py_range 0 (len blocks)) h = Ok h' ∧
    linked_upto blocks (length blocks) h' ∧ same_meta h h'.
Proof.
  intros Hnd Hdom Hfresh.
  destruct (for_each_ind (Queue.link_step blocks)
    (λ dn h', linked_upto blocks (length dn) h' ∧ same_meta h h')
    (py_range 0 (len blocks)) h) as (h'&Hrun&HI&Hm).
  - split; [|done]. split; [|intros; apply Hfresh].
    intros j b _. destruct (Hfresh b) as [-> ->].
    split; case_decide as Hd; [simpl in Hd; lia|done|simpl in Hd; lia|done].
  - intros dn k rest h1 Heq [HI Hm].
    assert (k = Z.of_nat (length dn) ∧ (length dn < length blocks)%nat) as [-> Hlt].
    { pose proof (f_equal (lookup (length dn)) Heq) as Hk.
      rewrite list_lookup_middle in Hk by done.
      apply lookup_seqZ in Hk as [? ?]. unfold len in *. lia. }
    destruct (link_step_spec blocks (length dn) h1) as (h2&Hs&HI2&Hm2); try done.
    { intros p Hp. eapply same_meta_in; [done|]. by apply Hdom. }
    exists h2. rewrite length_app, Nat.add_1_r. split_and!; try done. by etrans.
  - exists h'. split_and!; try done. revert HI. unfold py_range. rewrite length_seqZ.
    unfold len. by replace (Z.to_nat (Z.of_nat (length blocks) - 0)) with (length blocks) by lia.
Qed.

(** The links of the finished queue: the ring, and nothing else. *)
Lemma init_heap_rep blocks first last h h' :
  NoDup blocks → FakeHead ∉ blocks → FakeTail ∉ blocks →
  blocks !! 0%nat = Some first → blocks !! (length blocks - 1)%nat = Some last →
  linked_upto blocks (length blocks) h →
  (∀ p, nx h' p = if decide (p = last) then Some FakeTail
                  else if decide (p = FakeHead) then Some first else nx h p) →
  (∀ p, pv h' p = if decide (p = first) then Some FakeHead
                  else if decide (p = FakeTail) then Some last else pv h p) →
  queue_rep (mkQueue h' (len blocks)) blocks.
Proof.
  intros Hnd HH HT Hf Hl [Hin Hout] Hn Hp.
  assert (first ∈ blocks ∧ last ∈ blocks) as [Hfin Hlin]
    by (split; by eapply list_elem_of_lookup_2).
  split; cbn [q_heap num_free_blocks]; [| |done| |].
  - apply chain_lookup. intros [|j] a b; unfold ring; simpl; intros Ha Hb; simplify_eq.
    { destruct blocks as [|c blocks]; simpl in *; simplify_eq.
      split; [rewrite Hn, decide_False, decide_True by set_solver; done|].
      by rewrite Hp, decide_True. }
    destruct (decide (S j < length blocks)%nat) as [Hj|Hj].
    + rewrite lookup_app_l in Ha by lia. rewrite lookup_app_l in Hb by lia.
      destruct (Hin j a Ha) as [Hna _]. destruct (Hin (S j) b Hb) as [_ Hpb].
      rewrite decide_True in Hna by lia. rewrite decide_True in Hpb by lia.
      simpl in Hpb. rewrite Nat.sub_0_r in Hpb.
      assert (a ∈ blocks ∧ b ∈ blocks) as [] by (split; by eapply list_elem_of_lookup_2).
      split.
      * rewrite Hn, !decide_False, Hna, Hb; [done|set_solver|].
        intros ->. pose proof (NoDup_lookup _ _ _ _ Hnd Ha Hl). lia.
      * rewrite Hp, !decide_False, Hpb, Ha; [done|set_solver|].
        intros ->. pose proof (NoDup_lookup _ _ _ _ Hnd Hb Hf). lia.
    + assert (S j = length blocks) as Hj'.
      { apply lookup_lt_Some in Hb. rewrite length_app in Hb. simpl in Hb. lia. }
      rewrite lookup_app_l in Ha by lia. rewrite Hj', list_lookup_middle in Hb by done.
      replace (length blocks - 1)%nat with j in Hl by lia. simplify_eq.
      split; [by rewrite Hn, decide_True|]. rewrite Hp, decide_False, decide_True; set_solver.
  - unfold ring. rewrite NoDup_cons, NoDup_app. split_and!; try done; [set_solver..|].
    apply NoDup_singleton.
  - rewrite Hn, Hp. rewrite !decide_False by set_solver. split; [apply Hout|apply Hout]; done.
  - intros p Hpr. rewrite Hn, Hp. unfold ring in Hpr. rewrite !decide_False by set_solver.
    apply Hout. set_solver.
Qed.

Lemma init_spec blocks h :
  NoDup blocks → FakeHead ∉ blocks → FakeTail ∉ blocks →
  (∀ p, p ∈ blocks → is_Some (h !! p)) →
  (∀ p, nx h p = None ∧ pv h p = None) →
  ∃ q, Queue.init blocks h = Ok q ∧ queue_rep q blocks ∧
    (∀ i, meta <$> q_heap q !! Blk i = meta <$> h !! Blk i).
Proof.
  intros Hnd HH HT Hdom Hfresh. unfold Queue.init.
  destruct (link_loop_spec blocks h) as (h1&->&Hup&Hm); [done..|]. rewrite Ok_bind.
  set (h2 := <[FakeTail:=new_block (-1)]> (<[FakeHead:=new_block (-1)]> h1)).
  assert (∀ p, nx h2 p = nx h1 p ∧ pv h2 p = pv h1 p) as H2.
  { intros p. destruct (proj2 Hup FakeHead HH), (proj2 Hup FakeTail HT).
    unfold h2, nx, pv in *. rewrite !lookup_insert. by repeat case_decide; subst. }
  assert (is_Some (h2 !! FakeHead) ∧ is_Some (h2 !! FakeTail)) as [HdH HdT].
  { unfold h2. split; [rewrite lookup_insert_ne by done|]; rewrite lookup_insert_eq; eauto. }
  assert (∀ i, meta <$> h2 !! Blk i = meta <$> h !! Blk i) as Hm2.
  { intros i. unfold h2. rewrite !lookup_insert_ne by done. by rewrite Hm. }
  destruct (Z.ltb_spec 0 (len blocks)) as [Hlen|Hlen].
  - assert (0 < length blocks)%nat by (unfold len in *; lia).
    destruct (lookup_lt_is_Some_2 blocks 0%nat) as [f Hf]; [lia|].
    destruct (lookup_lt_is_Some_2 blocks (length blocks - 1)%nat) as [l Hl]; [lia|].
    assert (f ∈ blocks ∧ l ∈ blocks) as [Hfi Hli] by (split; by eapply list_elem_of_lookup_2).
    assert (∀ p, p ∈ blocks → is_Some (h2 !! p)) as Hd2.
    { intros p Hp. unfold h2. rewrite !lookup_insert_ne by set_solver.
      eapply same_meta_in; [done|]. by apply Hdom. }
    rewrite (py_index_nonneg _ 0 f); [|lia|done]. rewrite Ok_bind.
    replace (py_index blocks (-1)) with (Ok l); [|].
    2: { unfold py_index. simpl. rewrite (proj2 (Z.ltb_ge _ 0)) by lia.
         replace (Z.to_nat (len blocks + -1)) with (length blocks - 1)%nat by (unfold len; lia).
         by rewrite Hl. }
    rewrite Ok_bind. eexists; split; [done|].
    pose proof (Hd2 f Hfi). pose proof (Hd2 l Hli). split.
    + eapply init_heap_rep; [done..| |].
      * intros p. heap_simpl. destruct (H2 p) as [-> _]. repeat case_decide; congruence.
      * intros p. heap_simpl. destruct (H2 p) as [_ ->]. repeat case_decide; congruence.
    + intros i. rewrite <-Hm2. symmetry. cbn [q_heap].
      apply (same_meta_next_trans _ _ _ _
        (same_meta_prev_trans _ _ _ _ (same_meta_prev_trans _ _ _ _ (same_meta_set_next _ _ _)))).
  - assert (blocks = []) as -> by (apply len_0_nil; len_lia).
    eexists; split; [done|]. split; [|].
    + split; cbn [q_heap num_free_blocks]; [| |done| |].
      * split; [split; heap_done|done].
      * by apply NoDup_cons; split; [set_solver|apply NoDup_singleton].
      * heap_simpl. destruct (H2 FakeHead) as [_ ->], (H2 FakeTail) as [-> _].
        split; by apply (proj2 Hup).
      * unfold ring. intros p Hp. heap_simpl. rewrite !decide_False by set_solver.
        destruct (H2 p) as [-> ->]. apply (proj2 Hup). set_solver.
    + intros i. rewrite <-Hm2. symmetry. cbn [q_heap].
      apply (same_meta_prev_trans _ _ _ _ (same_meta_set_next _ _ _)).
Qed.

(** ** Refinement of a FIFO list *)

Inductive queue_op : Set :=
  | PopLeft
  | PopLeftN (n : Z)
  | Remove (p : ptr)
  | Append (p : ptr)
  | AppendN (ps : list ptr).

(** An operation on the linked list, with the blocks it returns. *)
Definition queue_exec (o : queue_op) (q : FreeKVCacheBlockQueue)
  : result (list ptr * FreeKVCacheBlockQueue) :=
  match o with
  | PopLeft => '(p, q) ← Queue.popleft q; Ok ([p], q)
  | PopLeftN n => Queue.popleft_n n q
  | Remove p => q ← Queue.remove p q; Ok ([], q)
  | Append p => q ← Queue.append p q; Ok ([], q)
  | AppendN ps => q ← Queue.append_n ps q; Ok ([], q)
  end.

(** The specification: the queue is a list, served from its head. *)
Definition fifo_exec (o : queue_op) (l : list ptr) : result (list ptr * list ptr) :=
  match o with
  | PopLeft => match l with [] => Err ValueError | p :: l => Ok ([p], l) end
  | PopLeftN n =>
      if len l <? n then Err AssertionError
      else Ok (take (Z.to_nat n) l, drop (Z.to_nat n) l)
  | Remove p => if decide (p ∈ l) then Ok ([], filter (.≠ p) l) else Err RuntimeError
  | Append p => Ok ([], l ++ [p])
  | AppendN ps => Ok ([], l ++ ps)
  end.

(** What the callers ensure: a count is not negative, and what is put into the
    queue are distinct blocks of the store that are not queued. *)
Definition queue_op_ok (store : list ptr) (o : queue_op) (l : list ptr) : Prop :=
  match o with
  | PopLeft => True
  | PopLeftN n => 0 ≤ n
  | Remove p => p ∈ store
  | Append p => p ∈ store ∧ p ∉ l
  | AppendN ps => NoDup ps ∧ Forall (λ p, p ∈ store ∧ p ∉ l) ps
  end.

(** The operations respect that along the run of the specification. *)
Fixpoint queue_ops_ok (store : list ptr) (ops : list queue_op) (l : list ptr) : Prop :=
  match ops with
  | [] => True
  | o :: ops => queue_op_ok store o l ∧
      match fifo_exec o l with Ok (_, l') => queue_ops_ok store ops l' | Err _ => True end
  end.

#[export] Instance queue_op_ok_dec store o l : Decision (queue_op_ok store o l).
Proof. destruct o; simpl; apply _. Defined.
#[export] Instance queue_ops_ok_dec store ops l : Decision (queue_ops_ok store ops l).
Proof. revert l. induction ops; intros l; simpl; repeat case_match; apply _. Defined.

Section refinement.
Context (store : list ptr) (Hstore : ∀ p, p ∈ store → p ≠ FakeHead ∧ p ≠ FakeTail).

(** A linked list that represents [l], all of it in the store. *)
Definition refines (q : FreeKVCacheBlockQueue) (l : list ptr) : Prop :=
  queue_rep q l ∧ ∀ p, p ∈ store → is_Some (q_heap q !! p).

Lemma off_ring p l : p ∈ store → p ∉ l → p ∉ ring l.
Proof. intros [??]%Hstore Hl. unfold ring. set_solver. Qed.

Lemma refines_step q q' l' :
  (∀ p, p ∈ store → is_Some (q_heap q !! p)) → queue_rep q' l' → same_meta (q_heap q) (q_heap q') →
  refines q' l'.
Proof.
  intros Hin Hq' Hm. split; [done|]. intros p Hp. eapply same_meta_in; [done|]. by apply Hin.
Qed.

Lemma popleft_n_too_many q l n :
  queue_rep q l → len l < n → Queue.popleft_n n q = Err AssertionError.
Proof.
  intros Hq Hn. unfold Queue.popleft_n. pose proof (len_nonneg l).
  rewrite (proj2 (Z.eqb_neq n 0)), (qr_num _ _ Hq) by lia.
  by rewrite (proj2 (Z.leb_gt _ _)).
Qed.

Lemma filter_middle (l1 l2 : list ptr) p :
  NoDup (l1 ++ p :: l2) → filter (.≠ p) (l1 ++ p :: l2) = l1 ++ l2.
Proof.
  intros (Hnd1&Hdisj&[Hp Hnd2]%NoDup_cons)%NoDup_app.
  rewrite filter_app, filter_cons_False by naive_solver.
  rewrite !filter_id; [done| |]; intros x Hx ->; [done|]. by apply (Hdisj p Hx); left.
Qed.

Lemma queue_exec_refines o q l :
  refines q l → queue_op_ok store o l →
  match fifo_exec o l with
  | Ok (out, l') => ∃ q', queue_exec o q = Ok (out, q') ∧ refines q' l'
  | Err e => queue_exec o q = Err e
  end.
Proof.
  intros [Hq Hin] Hok. destruct o as [|n|p|p|ps]; simpl in *.
  - destruct l as [|p l]; [by rewrite popleft_empty|].
    destruct (popleft_spec _ _ _ Hq) as (q'&->&Hq'&Hm). eauto using refines_step.
  - destruct (Z.ltb_spec (len l) n) as [Hlt|Hle]; [by eapply popleft_n_too_many|].
    rewrite <-(take_drop (Z.to_nat n) l) in Hq.
    destruct (popleft_n_spec _ _ _ Hq) as (q'&Hrun&Hq'&Hm).
    rewrite len_take, Z.min_l in Hrun by lia.
    eauto using refines_step.
  - case_decide as Hp.
    + apply list_elem_of_split in Hp as (l1&l2&->).
      pose proof (qr_nodup _ _ Hq) as Hnd. unfold ring in Hnd.
      rewrite filter_middle by (apply NoDup_cons in Hnd as [_ [Hnd _]%NoDup_app]; done).
      destruct (remove_spec _ _ _ _ Hq) as (q'&->&Hq'&Hm). eauto using refines_step.
    + by rewrite (remove_off _ _ _ Hq) by auto using off_ring.
  - destruct Hok as [Hp Hl].
    destruct (append_spec q l p Hq) as (q'&->&Hq'&Hm); eauto using refines_step, off_ring.
  - destruct Hok as [Hnd Hps].
    destruct (append_n_spec q l ps Hq Hnd) as (q'&->&Hq'&Hm); [|by eauto using refines_step].
    rewrite Forall_forall in Hps. intros p Hp. destruct (Hps p Hp). eauto using off_ring.
Qed.

Lemma queue_run_refines ops q l :
  refines q l → queue_ops_ok store ops l →
  match map_acc fifo_exec ops l with
  | Ok (outs, l') => ∃ q', map_acc queue_exec ops q = Ok (outs, q') ∧ refines q' l'
  | Err e => map_acc queue_exec ops q = Err e
  end.
Proof.
  induction ops as [|o ops IH] in q, l |- *; simpl; [by eauto|]. intros Hr [Ho Hops].
  pose proof (queue_exec_refines o q l Hr Ho) as Hstep.
  destruct (fifo_exec o l) as [[out l']|e]; [|by rewrite Hstep].
  destruct Hstep as (q'&->&Hr'). rewrite !Ok_bind. specialize (IH q' l' Hr' Hops).
  destruct (map_acc fifo_exec ops l') as [[outs l'']|e]; [|by rewrite IH].
  destruct IH as (q''&->&Hr''). rewrite !Ok_bind. eauto.
Qed.
End refinement.

(** ** Properties *)

(** C21. The free-block queue refines a FIFO list: built over distinct blocks, it
    answers every sequence of [popleft], [popleft_n], [remove], [append] and
    [append_n] as the list does, the exceptions included (an empty queue, too
    many blocks, a block that is not queued), and then holds exactly the blocks
    of the list, in its order, with the count right. *)
Theorem free_queue_refines_fifo blocks h ops :
  NoDup blocks → FakeHead ∉ blocks → FakeTail ∉ blocks →
  (∀ p, p ∈ blocks → is_Some (h !! p)) → (∀ p, nx h p = None ∧ pv h p = None) →
  queue_ops_ok blocks ops blocks →
  ∃ q0, Queue.init blocks h = Ok q0 ∧
    match map_acc fifo_exec ops blocks with
    | Ok (outs, l) => ∃ q, map_acc queue_exec ops q0 = Ok (outs, q) ∧
        Queue.get_all_free_blocks q = Ok l ∧ num_free_blocks q = len l
    | Err e => map_acc queue_exec ops q0 = Err e
    end.
Proof.
  intros Hnd Hh Ht Hin Hfresh Hops.
  destruct (init_spec blocks h Hnd Hh Ht Hin Hfresh) as (q0&->&Hq0&Hm).
  exists q0. split; [done|].
  assert (∀ p, p ∈ blocks → p ≠ FakeHead ∧ p ≠ FakeTail) as Hst by (intros p Hp; by split; intros ->).
  assert (refines blocks q0 blocks) as Hr.
  { split; [done|]. intros p Hp. destruct p as [i| |]; [|contradiction..].
    specialize (Hm i). destruct (Hin _ Hp) as [b Hb]. rewrite Hb in Hm.
    destruct (q_heap q0 !! Blk i); [by eauto|done]. }
  pose proof (queue_run_refines blocks Hst ops q0 blocks Hr Hops) as Hrun.
  destruct (map_acc fifo_exec ops blocks) as [[outs l]|e]; [|done].
  destruct Hrun as (q&Hrun&[Hq _]). exists q.
  eauto using get_all_free_blocks_spec, qr_num.
Qed.

Definition ex_blocks : list ptr := [Blk 0; Blk 1; Blk 2; Blk 3].
Definition ex_store : heap :=
  list_to_map [(Blk 0, new_block 0); (Blk 1, new_block 1); (Blk 2, new_block 2); (Blk 3, new_block 3)].
Definition ex_queue_ops : list queue_op :=
  [PopLeft; Remove (Blk 2); AppendN [Blk 2; Blk 0]; PopLeftN 2].

Lemma free_queue_refines_fifo_witness :
  ∃ q0 q, Queue.init ex_blocks ex_store = Ok q0 ∧
    map_acc queue_exec ex_queue_ops q0 = Ok ([[Blk 0]; []; []; [Blk 1; Blk 3]], q) ∧
    Queue.get_all_free_blocks q = Ok [Blk 2; Blk 0].
Proof.
  destruct (free_queue_refines_fifo ex_blocks ex_store ex_queue_ops) as (q0&Hq0&Hrun).
  - apply (bool_decide_unpack _). by vm_compute.
  - apply (bool_decide_unpack _). by vm_compute.
  - apply (bool_decide_unpack _). by vm_compute.
  - intros p Hp.
    unfold ex_blocks in Hp. rewrite !elem_of_cons in Hp.
    destruct Hp as [->|[->|[->|[->|[]%not_elem_of_nil]]]]; by eexists.
  - assert (map_Forall (λ _ b, next_free_block b = None ∧ prev_free_block b = None) ex_store) as Hf
      by (apply (bool_decide_unpack _); by vm_compute).
    intros p. unfold nx, pv. destruct (ex_store !! p) as [b|] eqn:E; [|done].
    exact (Hf p b E).
  - apply (bool_decide_unpack _). by vm_compute.
  - change (map_acc fifo_exec ex_queue_ops ex_blocks)
      with (Ok ([[Blk 0]; []; []; [Blk 1; Blk 3]], [Blk 2; Blk 0])) in Hrun.
    destruct Hrun as (q&Hrun&Hwalk&_). exists q0, q. auto.
Defined.
