(* ===== verification/Request.v ===== *)
(** * Requests

    Models src/vllm/v1/request.py: the [Request] object with the fields the
    scheduler and the KV cache read and write, its construction, its lifecycle
    status, and [append_output_token_ids].  The block hasher is the closure of
    src/vllm/v1/core/kv_cache_utils.py ([get_request_block_hasher], modelled in
    BlockHash.v); here it is an argument, as it is in the source. *)
From Stdlib Require Import QArith Qcanon.
From S2P Require Import Prelude FreeQueue.
#[local] Open Scope Z_scope.

Inductive RequestStatus : Set :=
  | WAITING
  | WAITING_FOR_FSM
  | WAITING_FOR_REMOTE_KVS
  | RUNNING
  | PREEMPTED
  | FINISHED_STOPPED
  | FINISHED_LENGTH_CAPPED
  | FINISHED_ABORTED
  | FINISHED_IGNORED.

Inductive FinishReason : Set := STOP | LENGTH | ABORT.

#[export] Instance RequestStatus_eq_dec : EqDecision RequestStatus.
Proof. solve_decision. Defined.
#[export] Instance FinishReason_eq_dec : EqDecision FinishReason.
Proof. solve_decision. Defined.

(** [enum.auto()] numbers the members from 1 in declaration order. *)
Definition status_value (s : RequestStatus) : Z :=
  match s with
  | WAITING => 1
  | WAITING_FOR_FSM => 2
  | WAITING_FOR_REMOTE_KVS => 3
  | RUNNING => 4
  | PREEMPTED => 5
  | FINISHED_STOPPED => 6
  | FINISHED_LENGTH_CAPPED => 7
  | FINISHED_ABORTED => 8
  | FINISHED_IGNORED => 9
  end.

(** [RequestStatus.is_finished]: [status > RequestStatus.PREEMPTED]. *)
Definition status_is_finished (s : RequestStatus) : bool :=
  status_value PREEMPTED <? status_value s.

(** [_FINISHED_REASON_MAP.get(status)]. *)
Definition status_finished_reason (s : RequestStatus) : option FinishReason :=
  match s with
  | FINISHED_STOPPED => Some STOP
  | FINISHED_LENGTH_CAPPED => Some LENGTH
  | FINISHED_ABORTED => Some ABORT
  | FINISHED_IGNORED => Some LENGTH
  | _ => None
  end.

Record LoRARequest := mkLoRA { lora_name : string; lora_int_id : Z }.

Record PlaceholderRange := mkRange { mm_offset : Z; mm_length : Z }.

Record MultiModalFeatureSpec := mkMM {
  identifier : string;
  mm_position : PlaceholderRange;
}.

(** The fields of [SamplingParams] that only the workers read: a Python float is the rational number it stands for,
    [logit_bias] a dict in its order. *)
Record SamplerSettings := mkSampler {
  temperature : Qc;
  top_p : Qc;
  top_k : Z;
  min_p : Qc;
  frequency_penalty : Qc;
  presence_penalty : Qc;
  repetition_penalty : Qc;
  seed : option Z;
  min_tokens : Z;
  all_stop_token_ids : list Z;
  logit_bias : option (list (Z * Qc));
  allowed_token_ids : option (list Z);
  bad_words_token_ids : option (list (list Z));
}.
Definition default_sampler : SamplerSettings :=
  mkSampler 1%Qc 1%Qc 0 0%Qc 0%Qc 0%Qc 1%Qc None 0 [] None None None.

(** The fields of [SamplingParams] that the modelled code reads;
    [structured_outputs] is whether the field is set. *)
Record SamplingParams := mkSampling {
  sp_max_tokens : option Z;
  sp_logprobs : option Z;
  prompt_logprobs : option Z;
  ignore_eos : bool;
  stop_token_ids : option (list Z);
  structured_outputs : bool;
  extra_args : option (gmap string string);
  sampler : SamplerSettings;
}.

Record PoolingParams : Set := mkPooling {
  pooling_task : option string;
  requires_token_ids : bool;
}.

Inductive EngineCoreEventType : Set := QUEUED | SCHEDULED | EV_PREEMPTED.

Record EngineCoreEvent := mkEvent { ev_type : EngineCoreEventType; ev_time : Z }.

Record Request := mkRequest {
  request_id : string;
  client_index : Z;
  priority : Z;
  sampling_params : option SamplingParams;
  pooling_params : option PoolingParams;
  eos_token_id : option Z;
  lora_request : option LoRARequest;
  arrival_time : Z;
  status : RequestStatus;
  use_structured_output : bool;
  events : list EngineCoreEvent;
  stop_reason : option Z;
  kv_transfer_params : option string;
  max_tokens : Z;
  prompt_token_ids : option (list Z);
  num_prompt_tokens : Z;
  output_token_ids : list Z;
  all_token_ids : list Z;
  num_output_placeholders : Z;
  spec_token_ids : list Z;
  num_computed_tokens : Z;
  cache_salt : option string;
  mm_features : list MultiModalFeatureSpec;
  num_cached_tokens : Z;
  num_nans_in_logits : Z;
  block_hashes : list bytes;
}.

(** Attribute writes. *)
Definition set_status (s : RequestStatus) (r : Request) : Request :=
  mkRequest (request_id r) (client_index r) (priority r) (sampling_params r)
    (pooling_params r) (eos_token_id r) (lora_request r) (arrival_time r)
    s (use_structured_output r) (events r) (stop_reason r)
    (kv_transfer_params r) (max_tokens r) (prompt_token_ids r) (num_prompt_tokens r)
    (output_token_ids r) (all_token_ids r) (num_output_placeholders r)
    (spec_token_ids r) (num_computed_tokens r) (cache_salt r) (mm_features r)
    (num_cached_tokens r) (num_nans_in_logits r) (block_hashes r).
Definition set_events (es : list EngineCoreEvent) (r : Request) : Request :=
  mkRequest (request_id r) (client_index r) (priority r) (sampling_params r)
    (pooling_params r) (eos_token_id r) (lora_request r) (arrival_time r)
    (status r) (use_structured_output r) es (stop_reason r)
    (kv_transfer_params r) (max_tokens r) (prompt_token_ids r) (num_prompt_tokens r)
    (output_token_ids r) (all_token_ids r) (num_output_placeholders r)
    (spec_token_ids r) (num_computed_tokens r) (cache_salt r) (mm_features r)
    (num_cached_tokens r) (num_nans_in_logits r) (block_hashes r).
Definition set_stop_reason (v : option Z) (r : Request) : Request :=
  mkRequest (request_id r) (client_index r) (priority r) (sampling_params r)
    (pooling_params r) (eos_token_id r) (lora_request r) (arrival_time r)
    (status r) (use_structured_output r) (events r) v
    (kv_transfer_params r) (max_tokens r) (prompt_token_ids r) (num_prompt_tokens r)
    (output_token_ids r) (all_token_ids r) (num_output_placeholders r)
    (spec_token_ids r) (num_computed_tokens r) (cache_salt r) (mm_features r)
    (num_cached_tokens r) (num_nans_in_logits r) (block_hashes r).
Definition set_tokens (out all : list Z) (r : Request) : Request :=
  mkRequest (request_id r) (client_index r) (priority r) (sampling_params r)
    (pooling_params r) (eos_token_id r) (lora_request r) (arrival_time r)
    (status r) (use_structured_output r) (events r) (stop_reason r)
    (kv_transfer_params r) (max_tokens r) (prompt_token_ids r) (num_prompt_tokens r)
    out all (num_output_placeholders r)
    (spec_token_ids r) (num_computed_tokens r) (cache_salt r) (mm_features r)
    (num_cached_tokens r) (num_nans_in_logits r) (block_hashes r).
Definition set_num_output_placeholders (n : Z) (r : Request) : Request :=
  mkRequest (request_id r) (client_index r) (priority r) (sampling_params r)
    (pooling_params r) (eos_token_id r) (lora_request r) (arrival_time r)
    (status r) (use_structured_output r) (events r) (stop_reason r)
    (kv_transfer_params r) (max_tokens r) (prompt_token_ids r) (num_prompt_tokens r)
    (output_token_ids r) (all_token_ids r) n
    (spec_token_ids r) (num_computed_tokens r) (cache_salt r) (mm_features r)
    (num_cached_tokens r) (num_nans_in_logits r) (block_hashes r).
Definition set_spec_token_ids (l : list Z) (r : Request) : Request :=
  mkRequest (request_id r) (client_index r) (priority r) (sampling_params r)
    (pooling_params r) (eos_token_id r) (lora_request r) (arrival_time r)
    (status r) (use_structured_output r) (events r) (stop_reason r)
    (kv_transfer_params r) (max_tokens r) (prompt_token_ids r) (num_prompt_tokens r)
    (output_token_ids r) (all_token_ids r) (num_output_placeholders r)
    l (num_computed_tokens r) (cache_salt r) (mm_features r)
    (num_cached_tokens r) (num_nans_in_logits r) (block_hashes r).
Definition set_num_computed_tokens (n : Z) (r : Request) : Request :=
  mkRequest (request_id r) (client_index r) (priority r) (sampling_params r)
    (pooling_params r) (eos_token_id r) (lora_request r) (arrival_time r)
    (status r) (use_structured_output r) (events r) (stop_reason r)
    (kv_transfer_params r) (max_tokens r) (prompt_token_ids r) (num_prompt_tokens r)
    (output_token_ids r) (all_token_ids r) (num_output_placeholders r)
    (spec_token_ids r) n (cache_salt r) (mm_features r)
    (num_cached_tokens r) (num_nans_in_logits r) (block_hashes r).
Definition set_num_cached_tokens (n : Z) (r : Request) : Request :=
  mkRequest (request_id r) (client_index r) (priority r) (sampling_params r)
    (pooling_params r) (eos_token_id r) (lora_request r) (arrival_time r)
    (status r) (use_structured_output r) (events r) (stop_reason r)
    (kv_transfer_params r) (max_tokens r) (prompt_token_ids r) (num_prompt_tokens r)
    (output_token_ids r) (all_token_ids r) (num_output_placeholders r)
    (spec_token_ids r) (num_computed_tokens r) (cache_salt r) (mm_features r)
    n (num_nans_in_logits r) (block_hashes r).
Definition set_num_nans_in_logits (n : Z) (r : Request) : Request :=
  mkRequest (request_id r) (client_index r) (priority r) (sampling_params r)
    (pooling_params r) (eos_token_id r) (lora_request r) (arrival_time r)
    (status r) (use_structured_output r) (events r) (stop_reason r)
    (kv_transfer_params r) (max_tokens r) (prompt_token_ids r) (num_prompt_tokens r)
    (output_token_ids r) (all_token_ids r) (num_output_placeholders r)
    (spec_token_ids r) (num_computed_tokens r) (cache_salt r) (mm_features r)
    (num_cached_tokens r) n (block_hashes r).
Definition set_block_hashes (l : list bytes) (r : Request) : Request :=
  mkRequest (request_id r) (client_index r) (priority r) (sampling_params r)
    (pooling_params r) (eos_token_id r) (lora_request r) (arrival_time r)
    (status r) (use_structured_output r) (events r) (stop_reason r)
    (kv_transfer_params r) (max_tokens r) (prompt_token_ids r) (num_prompt_tokens r)
    (output_token_ids r) (all_token_ids r) (num_output_placeholders r)
    (spec_token_ids r) (num_computed_tokens r) (cache_salt r) (mm_features r)
    (num_cached_tokens r) (num_nans_in_logits r) l.

(** [length_from_prompt_token_ids_or_embeds] of src/vllm/utils; an embedding
    tensor counts by its length. *)
Definition length_from_prompt (prompt_token_ids : option (list Z))
    (prompt_embeds_len : option Z) : result Z :=
  match prompt_token_ids, prompt_embeds_len with
  | None, None => Err ValueError
  | None, Some n => Ok n
  | Some l, None => Ok (len l)
  | Some l, Some n => if n =? len l then Ok (len l) else Err ValueError
  end.

Section requests.
(** [block_hasher]: the closure of [get_request_block_hasher], if any. *)
Context (block_hasher : option (Request → result (list bytes))).

(** The part of [__init__] that depends on the kind of request: the maximum
    number of tokens, the initial status, [use_structured_output] and the KV
    transfer parameters. *)
Definition init_kind (sp : option SamplingParams) (pp : option PoolingParams)
  : result (Z * RequestStatus * bool * option string) :=
  match pp, sp with
  | Some _, _ => Ok (1, WAITING, false, None)
  | None, Some sp =>
      mt ← of_option AssertionError (sp_max_tokens sp);
      let kv := extra_args sp ≫= λ m, m !! "kv_transfer_params"%string in
      if structured_outputs sp then Ok (mt, WAITING_FOR_FSM, true, kv)
      else Ok (mt, WAITING, false, kv)
  | None, None => Err ValueError
  end.

(** [Request.__init__]. *)
Definition init (rid : string) (prompt : option (list Z))
    (sp : option SamplingParams) (pp : option PoolingParams) (eos : option Z)
    (client : Z) (arrival : Z) (embeds_len : option Z)
    (mm : list MultiModalFeatureSpec) (lora : option LoRARequest)
    (salt : option string) (prio : Z) : result Request :=
  '(mt, st, uso, kv) ← init_kind sp pp;
  n ← length_from_prompt prompt embeds_len;
  let all := match prompt with Some l => l | None => py_repeat 0 n end in
  let r := mkRequest rid client prio sp pp eos lora arrival st uso [] None kv mt
             prompt n [] all 0 [] 0 salt mm (-1) 0 [] in
  match block_hasher with
  | Some f => hs ← f r; Ok (set_block_hashes hs r)
  | None => Ok r
  end.

(** [append_output_token_ids]; an [int] argument is the one-element list. *)
Definition append_output_token_ids (token_ids : list Z) (r : Request) : result Request :=
  let r := set_tokens (output_token_ids r ++ token_ids) (all_token_ids r ++ token_ids) r in
  match block_hasher with
  | Some f => hs ← f r; Ok (set_block_hashes (block_hashes r ++ hs) r)
  | None => Ok r
  end.
End requests.

Definition num_tokens (r : Request) : Z := len (all_token_ids r).
Definition num_tokens_with_spec (r : Request) : Z :=
  len (all_token_ids r) + len (spec_token_ids r).
Definition num_output_tokens (r : Request) : Z := len (output_token_ids r).
Definition num_encoder_inputs (r : Request) : Z := len (mm_features r).
Definition has_encoder_inputs (r : Request) : bool := 0 <? num_encoder_inputs r.
Definition is_output_corrupted (r : Request) : bool := 0 <? num_nans_in_logits r.
Definition is_finished (r : Request) : bool := status_is_finished (status r).
Definition get_finished_reason (r : Request) : option FinishReason :=
  status_finished_reason (status r).

Definition get_num_encoder_tokens (r : Request) (input_id : Z) : result Z :=
  _ ← py_assert (input_id <? len (mm_features r));
  f ← py_index (mm_features r) input_id;
  Ok (mm_length (mm_position f)).

(** [record_event]; the clock value is an argument. *)
Definition record_event (t : EngineCoreEventType) (now : Z) (r : Request) : Request :=
  set_events (events r ++ [mkEvent t now]) r.

(** [take_events]. *)
Definition take_request_events (r : Request) : option (list EngineCoreEvent) * Request :=
  match events r with
  | [] => (None, r)
  | es => (Some es, set_events [] r)
  end.

(** ** Properties *)

(** A status has a finish reason exactly when the ordering test of
    [is_finished] calls it finished. *)
Lemma finished_iff_reason s :
  status_is_finished s = true ↔ is_Some (status_finished_reason s).
Proof. destruct s; cbv; split; naive_solver. Qed.

(** The output tokens are always the tail of all the tokens of the request,
    after the prompt. *)
Definition tokens_wf (r : Request) : Prop :=
  ∃ prompt, all_token_ids r = prompt ++ output_token_ids r ∧
    len prompt = num_prompt_tokens r ∧
    (∀ l, prompt_token_ids r = Some l → prompt = l).

Lemma init_tokens_wf bh rid prompt sp pp eos cl ar emb mm lora salt prio r :
  init bh rid prompt sp pp eos cl ar emb mm lora salt prio = Ok r →
  (∀ n, emb = Some n → 0 ≤ n) → tokens_wf r.
Proof.
  intros H Hemb. unfold init in H. res_inv.
  assert (∀ hs x, tokens_wf x → tokens_wf (set_block_hashes hs x)) as Hset by done.
  assert (tokens_wf r) as Hr; [|done].
  destruct bh; res_inv; try apply Hset.
  all: unfold length_from_prompt in *; destruct prompt, emb; simplify_eq/=;
    try case_match; simplify_eq/=;
    eexists; (split; [by rewrite app_nil_r|]); simpl; (split; [|naive_solver]); try done.
  all: rewrite len_replicate; eauto.
Qed.

Lemma append_tokens_wf bh ts r r' :
  append_output_token_ids bh ts r = Ok r' → tokens_wf r → tokens_wf r'.
Proof.
  unfold append_output_token_ids. intros H (pr&Hall&Hlen&Hpr).
  assert (∀ hs, tokens_wf (set_block_hashes hs
     (set_tokens (output_token_ids r ++ ts) (all_token_ids r ++ ts) r))) as Hs.
  { intros hs. exists pr. simpl. rewrite Hall, app_assoc. done. }
  destruct bh; res_inv; [apply Hs|]. exists pr. simpl. rewrite Hall, app_assoc. done.
Qed.

Lemma append_all_tokens bh tss r r' :
  for_each (append_output_token_ids bh) tss r = Ok r' → tokens_wf r →
  tokens_wf r' ∧ output_token_ids r' = output_token_ids r ++ concat tss ∧
  prompt_token_ids r' = prompt_token_ids r ∧ num_prompt_tokens r' = num_prompt_tokens r.
Proof.
  induction tss as [|ts tss IH] in r |- *; cbn [for_each concat]; intros Hrun Hr.
  { simplify_eq. by rewrite app_nil_r. }
  apply bind_Ok in Hrun as (r1&H1&Hrun).
  pose proof (append_tokens_wf _ _ _ _ H1 Hr) as Hr1.
  assert (output_token_ids r1 = output_token_ids r ++ ts ∧ prompt_token_ids r1 = prompt_token_ids r ∧
    num_prompt_tokens r1 = num_prompt_tokens r) as (Ho&Hp&Hn).
  { unfold append_output_token_ids in H1. destruct bh; res_inv; done. }
  destruct (IH r1 Hrun Hr1) as (?&Ho'&?&?). split_and!; [done| |congruence..].
  by rewrite Ho', Ho, <-app_assoc.
Qed.

(** A request keeps its tokens straight: however it is built (from prompt tokens
    or from embeddings) and whatever output tokens are appended to it, all its
    tokens are the prompt followed by the output tokens, the prompt is the one
    given and its length the recorded one, and the counters agree. *)
Theorem request_tokens_consistent bh rid prompt sp pp eos cl ar emb mm lora salt prio r tss r' :
  init bh rid prompt sp pp eos cl ar emb mm lora salt prio = Ok r → (∀ n, emb = Some n → 0 ≤ n) →
  for_each (append_output_token_ids bh) tss r = Ok r' →
  output_token_ids r' = concat tss ∧
  (∃ pr, all_token_ids r' = pr ++ output_token_ids r' ∧ len pr = num_prompt_tokens r' ∧
     (∀ l, prompt = Some l → pr = l)) ∧
  num_tokens r' = num_prompt_tokens r' + num_output_tokens r'.
Proof.
  intros Hr Hemb Hrun. pose proof (init_tokens_wf _ _ _ _ _ _ _ _ _ _ _ _ _ _ Hr Hemb) as Hwf.
  assert (output_token_ids r = [] ∧ prompt_token_ids r = prompt) as [Ho Hp]
    by (unfold init in Hr; destruct bh; res_inv; done).
  destruct (append_all_tokens _ _ _ _ Hrun Hwf) as ((pr&Hall&Hlen&Hpr)&Ho'&Hp'&_).
  split_and!.
  - by rewrite Ho', Ho.
  - exists pr. split_and!; [done..|]. intros l Hl. apply Hpr. congruence.
  - unfold num_tokens, num_output_tokens. rewrite Hall, len_app. lia.
Qed.

Definition ex_sampling : SamplingParams := mkSampling (Some 8) None None false None false None default_sampler.

Lemma request_tokens_consistent_witness :
  ∃ r r', init None "r" (Some [1; 2]) (Some ex_sampling) None None 0 0 None [] None None 0 = Ok r ∧
    for_each (append_output_token_ids None) [[3]; [4; 5]] r = Ok r' ∧
    output_token_ids r' = [3; 4; 5] ∧ num_tokens r' = num_prompt_tokens r' + num_output_tokens r'.
Proof.
  do 2 eexists.
  destruct (request_tokens_consistent None "r" (Some [1; 2]) (Some ex_sampling) None None 0 0 None []
    None None 0 _ [[3]; [4; 5]] _ eq_refl ltac:(by intros ?) eq_refl) as (Ho&_&Hn).
  split; [reflexivity|]. split; [reflexivity|]. split; [exact Ho|exact Hn].
Defined.
