(* ===== verification/BlockHash.v ===== *)
(** * Block hashing for prefix caching

    Models the hashing half of src/vllm/v1/core/kv_cache_utils.py: the packing
    of a block hash with its KV-cache group id, the extra keys contributed by
    multi-modal inputs, LoRA adapters and cache salts, and the closure of
    [get_request_block_hasher] that hashes the full blocks of a request as
    tokens arrive.  The hash function (sha256 over a serialisation) and the
    seed [NONE_HASH] are parameters.

    The theorems show that packing is invertible, that the hasher returns (its
    loop ends), that text requests are hashed incrementally to the same chain
    as from scratch, and that with a collision-free hash two requests share a
    block hash only if they share all the tokens up to the end of that block,
    at the same position, under the same adapter. *)
From S2P Require Import Prelude FreeQueue Request.

(** ** Packing a hash with its group id *)

(** [n.to_bytes(4, "big", signed=False)]. *)
Definition to_bytes4 (n : Z) : result bytes :=
  if (0 <=? n) && (n <? 2 ^ 32) then
    Ok [Z.shiftr n 24; Z.land (Z.shiftr n 16) 255; Z.land (Z.shiftr n 8) 255; Z.land n 255]
  else Err OverflowError.

(** [int.from_bytes(l, "big", signed=False)]. *)
Definition from_bytes (l : bytes) : Z := fold_left (λ acc b, acc * 256 + b) l 0.

Definition make_block_hash_with_group_id (block_hash : bytes) (group_id : Z) : result bytes :=
  g ← to_bytes4 group_id; Ok (block_hash ++ g).

Definition get_block_hash (key : bytes) : bytes := py_slice key 0 (-4).

Definition get_group_id (key : bytes) : Z := from_bytes (py_from key (-4)).

(** [ExternalBlockHash]: bytes, or the low 64 bits of them as an integer. *)
Inductive ExternalBlockHash : Set :=
  | HBytes (b : bytes)
  | HInt (n : Z).

(** [use_int] is VLLM_KV_EVENTS_USE_INT_BLOCK_HASHES. *)
Definition maybe_convert_block_hash (use_int : bool) (hash_bytes : bytes) : ExternalBlockHash :=
  if use_int then HInt (Z.land (from_bytes hash_bytes) (Z.shiftl 1 64 - 1))
  else HBytes hash_bytes.

(** ** Extra keys *)

Inductive ExtraKey : Set :=
  | KInt (n : Z)
  | KStr (s : string).

Definition need_extra_keys (r : Request) : bool :=
  negb (bool_decide (length (mm_features r) = 0%nat)) ||
  bool_decide (is_Some (lora_request r)) || bool_decide (is_Some (cache_salt r)).

(** The [while] loop of [_gen_mm_extra_hash_keys] over the features from
    [curr_mm_idx] on. *)
Fixpoint mm_keys_loop (feats : list MultiModalFeatureSpec)
    (start_token_idx end_token_idx curr_mm_idx : Z) (extra_keys : list ExtraKey)
  : list ExtraKey * Z :=
  match feats with
  | [] => (extra_keys, curr_mm_idx)
  | f :: feats =>
      let offset := mm_offset (mm_position f) in
      let length := mm_length (mm_position f) in
      if offset <? end_token_idx then
        if offset + length <? start_token_idx then
          mm_keys_loop feats start_token_idx end_token_idx (curr_mm_idx + 1) extra_keys
        else
          let extra_keys := extra_keys ++ [KStr (identifier f)] in
          if offset + length <=? end_token_idx then
            mm_keys_loop feats start_token_idx end_token_idx (curr_mm_idx + 1) extra_keys
          else (extra_keys, curr_mm_idx)
      else (extra_keys, curr_mm_idx)
  end.

Definition gen_mm_extra_hash_keys (r : Request)
    (start_token_idx end_token_idx start_mm_idx : Z) : result (list ExtraKey * Z) :=
  match last (mm_features r) with
  | None => Ok ([], start_mm_idx)
  | Some f =>
      if mm_offset (mm_position f) + mm_length (mm_position f) <? start_token_idx
      then Ok ([], start_mm_idx)
      else
        idx ← (if start_mm_idx <? 0 then
                 _ ← py_assert (- start_mm_idx <=? len (mm_features r));
                 Ok (len (mm_features r) + start_mm_idx)
               else Ok start_mm_idx);
        Ok (mm_keys_loop (drop (Z.to_nat idx) (mm_features r))
              start_token_idx end_token_idx idx [])
  end.

Definition gen_lora_extra_hash_keys (r : Request) : list ExtraKey :=
  match lora_request r with
  | Some l => [KInt (lora_int_id l)]
  | None => []
  end.

(** [cache_salt_keys]: an empty salt is falsy. *)
Definition cache_salt_keys (r : Request) (start_token_idx : Z) : list ExtraKey :=
  match cache_salt r with
  | Some s => if (start_token_idx =? 0) && negb (String.eqb s "") then [KStr s] else []
  | None => []
  end.

(** [tuple(extra_keys)], or [None] when there is none. *)
Definition tuple_or_none (l : list ExtraKey) : option (list ExtraKey) :=
  match l with [] => None | _ => Some l end.

Definition generate_block_hash_extra_keys (r : Request)
    (start_token_idx end_token_idx start_mm_idx : Z)
  : result (option (list ExtraKey) * Z) :=
  '(mm, idx) ← gen_mm_extra_hash_keys r start_token_idx end_token_idx start_mm_idx;
  Ok (tuple_or_none (gen_lora_extra_hash_keys r ++ mm ++ cache_salt_keys r start_token_idx), idx).

(** ** Hashing the blocks of a request *)

Section hasher.
Context (hash_function : bytes * list Z * option (list ExtraKey) → bytes).
Context (NONE_HASH : bytes).

(** [if not parent_block_hash: parent_block_hash = NONE_HASH]. *)
Definition parent_or_none (parent : option bytes) : bytes :=
  match parent with
  | Some (b :: l) => b :: l
  | _ => NONE_HASH
  end.

Definition hash_block_tokens (parent : option bytes) (tokens : list Z)
    (extra : option (list ExtraKey)) : bytes :=
  hash_function (parent_or_none parent, tokens, extra).

(** The [while True] loop of [request_block_hasher]. *)
Fixpoint hasher_loop (fuel : nat) (block_size : Z) (r : Request)
    (start_token_idx curr_mm_idx : Z) (prev : option bytes) (acc : list bytes)
  : result (list bytes) :=
  match fuel with
  | O => Err OutOfFuel
  | S fuel =>
      let end_token_idx := start_token_idx + block_size in
      if num_tokens r <? end_token_idx then Ok acc
      else
        '(extra, idx) ← generate_block_hash_extra_keys r start_token_idx end_token_idx curr_mm_idx;
        let tokens := py_slice (all_token_ids r) start_token_idx end_token_idx in
        let h := hash_block_tokens prev tokens extra in
        hasher_loop fuel block_size r (start_token_idx + block_size) idx (Some h) (acc ++ [h])
  end.

(** [request_block_hasher]; one iteration per block, and a block has a token. *)
Definition request_block_hasher (block_size : Z) (r : Request) : result (list bytes) :=
  let start_token_idx := len (block_hashes r) * block_size in
  let curr_mm_idx := if 0 <? start_token_idx then -1 else 0 in
  hasher_loop (S (length (all_token_ids r))) block_size r start_token_idx curr_mm_idx
    (last (block_hashes r)) [].

(** The reference: the chain of hashes of a list of blocks, each with its
    extra keys. *)
Fixpoint hash_chain (parent : option bytes) (blocks : list (list Z * option (list ExtraKey)))
  : list bytes :=
  match blocks with
  | [] => []
  | (tokens, extra) :: blocks =>
      let h := hash_block_tokens parent tokens extra in
      h :: hash_chain (Some h) blocks
  end.
End hasher.

(** ** Packing is invertible *)

Lemma to_bytes4_spec n :
  0 ≤ n < 2 ^ 32 → ∃ a b c d, to_bytes4 n = Ok [a; b; c; d] ∧
    ((a * 256 + b) * 256 + c) * 256 + d = n ∧
    0 ≤ a < 256 ∧ 0 ≤ b < 256 ∧ 0 ≤ c < 256 ∧ 0 ≤ d < 256.
Proof.
  intros Hn. unfold to_bytes4.
  rewrite (proj2 (andb_true_iff _ _)) by (split; [apply Z.leb_le|apply Z.ltb_lt]; lia).
  eexists _, _, _, _. split; [done|].
  change 255 with (Z.ones 8). rewrite !Z.land_ones by lia. rewrite !Z.shiftr_div_pow2 by lia.
  change (2 ^ 8) with 256. change (2 ^ 16) with (256 * 256). change (2 ^ 24) with (256 * 256 * 256).
  change (2 ^ 32) with (256 * 256 * 256 * 256) in Hn.
  rewrite <-!Z.div_div by lia.
  pose proof (Z.div_mod n 256 ltac:(lia)). pose proof (Z.mod_pos_bound n 256 ltac:(lia)).
  pose proof (Z.div_mod (n / 256) 256 ltac:(lia)).
  pose proof (Z.mod_pos_bound (n / 256) 256 ltac:(lia)).
  pose proof (Z.div_mod (n / 256 / 256) 256 ltac:(lia)).
  pose proof (Z.mod_pos_bound (n / 256 / 256) 256 ltac:(lia)).
  assert (0 ≤ n / 256 / 256 / 256 < 256).
  { split; [repeat apply Z.div_pos; lia|]. repeat (apply Z.div_lt_upper_bound; [lia|]). lia. }
  lia.
Qed.

Lemma py_take_drop_4 (h g : bytes) :
  length g = 4%nat → py_slice (h ++ g) 0 (-4) = h ∧ py_from (h ++ g) (-4) = g.
Proof.
  intros Hg. unfold py_slice, py_from, slice_bound. simpl.
  assert (len (h ++ g) = len h + 4) as -> by (unfold len; rewrite length_app; lia).
  rewrite Z.max_r by len_lia. rewrite Z.min_l by len_lia.
  replace (Z.to_nat (len h + 4 + -4)) with (length h) by (unfold len; lia).
  replace (Z.to_nat (len h + 4 + -4 - 0)) with (length h) by (unfold len; lia).
  rewrite drop_app_length, drop_0. by rewrite take_app_length.
Qed.

(** A packed key gives back its two parts. *)
Lemma pack_unpack h g :
  0 ≤ g < 2 ^ 32 →
  ∃ key, make_block_hash_with_group_id h g = Ok key ∧
    get_block_hash key = h ∧ get_group_id key = g.
Proof.
  intros Hg. destruct (to_bytes4_spec g Hg) as (a&b&c&d&Heq&Hsum&_).
  exists (h ++ [a; b; c; d]). unfold make_block_hash_with_group_id. rewrite Heq.
  split; [done|]. unfold get_block_hash, get_group_id.
  destruct (py_take_drop_4 h [a; b; c; d]) as [-> ->]; [done|]. split; [done|].
  unfold from_bytes. simpl. lia.
Qed.

Lemma make_block_hash_with_group_id_inj h g h' g' key :
  make_block_hash_with_group_id h g = Ok key →
  make_block_hash_with_group_id h' g' = Ok key → h = h' ∧ g = g'.
Proof.
  assert (∀ h g k, make_block_hash_with_group_id h g = Ok k → 0 ≤ g < 2 ^ 32) as Hrange.
  { intros h0 g0 k H. unfold make_block_hash_with_group_id, to_bytes4 in H.
    res_inv. case_match eqn:E; [|done]. apply andb_true_iff in E as [? ?].
    rewrite Z.leb_le, Z.ltb_lt in *. lia. }
  intros H1 H2. destruct (pack_unpack h g) as (k1&?&?&?); [exact (Hrange _ _ _ H1)|].
  destruct (pack_unpack h' g') as (k2&?&?&?); [exact (Hrange _ _ _ H2)|]. assert (k1 = key ∧ k2 = key) as [-> ->] by (split; congruence).
  split; congruence.
Qed.

(** ** The loop of the hasher *)

(** The full blocks of a token list from [start] on. *)
Definition token_blocks (block_size : Z) (tokens : list Z) : list (list Z) :=
  (λ i, py_slice tokens (i * block_size) (i * block_size + block_size))
    <$> seqZ 0 (len tokens / block_size).

Section hasher_facts.
Context (hash_function : bytes * list Z * option (list ExtraKey) → bytes).
Context (NONE_HASH : bytes).
Context (block_size : Z) (Hbs : 0 < block_size).
Abbreviation loop := (hasher_loop hash_function NONE_HASH).
Abbreviation chain_of := (hash_chain hash_function NONE_HASH).

(** The extra keys of a block are those of the request's adapter and salt
    around some multi-modal keys. *)
Definition extra_of (r : Request) (i : Z) (mm : list string) : option (list ExtraKey) :=
  tuple_or_none (gen_lora_extra_hash_keys r ++ (KStr <$> mm)
                 ++ cache_salt_keys r (i * block_size)).

Lemma mm_keys_loop_strs feats s e idx acc :
  ∃ mm, fst (mm_keys_loop feats s e idx acc) = acc ++ (KStr <$> mm).
Proof.
  induction feats as [|f feats IH] in idx, acc |- *; simpl.
  { exists []. by rewrite app_nil_r. }
  repeat case_match; simpl.
  - apply IH.
  - destruct (IH (idx + 1) (acc ++ [KStr (identifier f)])) as [mm ->].
    exists (identifier f :: mm). by rewrite <-app_assoc.
  - by exists [identifier f].
  - exists []. by rewrite app_nil_r.
Qed.

Lemma generate_extra_ok r s e idx :
  0 ≤ idx ∨ (idx = -1) →
  ∃ mm idx', generate_block_hash_extra_keys r s e idx
    = Ok (tuple_or_none (gen_lora_extra_hash_keys r ++ (KStr <$> mm) ++ cache_salt_keys r s), idx')
    ∧ (0 ≤ idx' ∨ idx' = -1) ∧ (mm_features r = [] → mm = []).
Proof.
  intros Hidx. unfold generate_block_hash_extra_keys, gen_mm_extra_hash_keys.
  destruct (last (mm_features r)) as [f|] eqn:Hl; simpl; [|by exists [], idx].
  assert (mm_features r ≠ []) as Hne by (intros E; by rewrite E in Hl).
  case_match; simpl; [by exists [], idx|].
  assert (0 < len (mm_features r)).
  { destruct (mm_features r); [done|]. len_lia. }
  assert (∀ feats j acc, 0 ≤ j → 0 ≤ snd (mm_keys_loop feats s e j acc)) as Hpos.
  { induction feats as [|g feats IH]; simpl; intros; [done|].
    repeat case_match; simpl; try lia; apply IH; lia. }
  assert (∃ j, 0 ≤ j ∧ (if idx <? 0 then
               _ ← py_assert (- idx <=? len (mm_features r));
               Ok (len (mm_features r) + idx)
             else Ok idx) = Ok j) as (j&Hj&->).
  { destruct (Z.ltb_spec idx 0); [|by eexists].
    rewrite py_assert_true by lia. eexists; split; [|done]. lia. }
  simpl. set (res := mm_keys_loop _ _ _ _ _).
  destruct (mm_keys_loop_strs (drop (Z.to_nat j) (mm_features r)) s e j []) as [mm Hmm].
  pose proof (Hpos (drop (Z.to_nat j) (mm_features r)) j [] Hj) as Hp.
  fold res in Hmm, Hp. destruct res as [ks idx']. simpl in *. subst.
  exists mm, idx'. naive_solver.
Qed.

(** From block [i] on, the loop ends and yields the chain over the remaining
    full blocks. *)
Lemma hasher_loop_chain fuel r i idx prev acc :
  0 ≤ i → (0 ≤ idx ∨ idx = -1) → num_tokens r / block_size - i < Z.of_nat fuel →
  i ≤ num_tokens r / block_size →
  ∃ mms, loop fuel block_size r (i * block_size) idx prev acc
    = Ok (acc ++ chain_of prev
            (zip (drop (Z.to_nat i) (token_blocks block_size (all_token_ids r)))
                 (zip_with (extra_of r) (seqZ i (num_tokens r / block_size - i)) mms)))
    ∧ length mms = Z.to_nat (num_tokens r / block_size - i)
    ∧ (mm_features r = [] → Forall (λ mm, mm = []) mms).
Proof.
  induction fuel as [|fuel IH] in i, idx, prev, acc |- *; [lia|].
  intros Hi Hidx Hf Hle. cbn [hasher_loop].
  pose proof (Z.div_mod (num_tokens r) block_size ltac:(lia)).
  pose proof (Z.mod_pos_bound (num_tokens r) block_size Hbs).
  destruct (Z.ltb_spec (num_tokens r) (i * block_size + block_size)) as [Hlt|Hge].
  - assert (num_tokens r / block_size = i) as Hi' by nia.
    exists []. rewrite Hi', Z.sub_diag. split; [|by auto]. simpl.
    rewrite !zip_with_nil_r. simpl. by rewrite app_nil_r.
  - assert (i < num_tokens r / block_size) as Hi' by nia.
    destruct (generate_extra_ok r (i * block_size) (i * block_size + block_size) idx Hidx)
      as (mm&idx'&->&Hidx'&Hmm). rewrite Ok_bind.
    set (h := hash_block_tokens _ _ _ _ _).
    destruct (IH (i + 1) idx' (Some h) (acc ++ [h])) as (mms&Hrun&Hlen&Hmms); [lia|done|lia..|].
    replace ((i + 1) * block_size) with (i * block_size + block_size) in Hrun by lia.
    rewrite Hrun.
    exists (mm :: mms). split; [|split; [simpl; lia|by auto]].
    rewrite (drop_S _ (py_slice (all_token_ids r) (i * block_size) (i * block_size + block_size)) (Z.to_nat i)).
    2: { unfold token_blocks. rewrite list_lookup_fmap.
         rewrite (proj2 (lookup_seqZ _ _ _ i)); [done|]. unfold num_tokens in *. lia. }
    rewrite (seqZ_cons i) by lia. rewrite <-app_assoc. simpl.
    replace (S (Z.to_nat i)) with (Z.to_nat (i + 1)) by lia.
    replace (Z.succ i) with (i + 1) by lia.
    replace (Z.pred (num_tokens r / block_size - i)) with (num_tokens r / block_size - (i + 1)) by lia.
    done.
Qed.

Lemma length_token_blocks tokens :
  length (token_blocks block_size tokens) = Z.to_nat (len tokens / block_size).
Proof. unfold token_blocks. by rewrite length_fmap, length_seqZ. Qed.

Lemma hash_chain_app parent l1 l2 :
  chain_of parent (l1 ++ l2) =
    chain_of parent l1 ++
    chain_of (match last (chain_of parent l1) with Some h => Some h | None => parent end) l2.
Proof.
  induction l1 as [|[t e] l1 IH] in parent |- *; [done|]. simpl. f_equal. rewrite IH.
  rewrite last_cons. by destruct (last (chain_of _ l1)).
Qed.

Lemma length_hash_chain parent l : length (chain_of parent l) = length l.
Proof. induction l as [|[??] l IH] in parent |- *; simpl; auto. Qed.

(** The hashes a request carries: a chain over its first blocks of tokens,
    with the extra keys of its adapter and salt. *)
Definition hashes_wf (r : Request) : Prop :=
  ∃ mms : list (list string),
    len (block_hashes r) ≤ num_tokens r / block_size ∧
    length mms = length (block_hashes r) ∧
    (mm_features r = [] → Forall (λ mm, mm = []) mms) ∧
    block_hashes r = chain_of None
      (zip (take (length (block_hashes r)) (token_blocks block_size (all_token_ids r)))
           (zip_with (extra_of r) (seqZ 0 (len (block_hashes r))) mms)).

(** The hasher returns, and completes the chain to all the full blocks. *)
Lemma hasher_completes r :
  hashes_wf r →
  ∃ hs, request_block_hasher hash_function NONE_HASH block_size r = Ok hs ∧
    len (block_hashes r ++ hs) = num_tokens r / block_size ∧
    ∀ r', r' = set_block_hashes (block_hashes r ++ hs) r → hashes_wf r'.
Proof.
  intros (mms&Hle&Hlen&Htxt&Hch). unfold request_block_hasher.
  pose proof (len_nonneg (block_hashes r)) as Hn0.
  assert (0 ≤ num_tokens r / block_size ≤ num_tokens r) as Hdiv.
  { unfold num_tokens. pose proof (len_nonneg (all_token_ids r)).
    split; [by apply Z.div_pos|]. apply Z.div_le_upper_bound; nia. }
  destruct (hasher_loop_chain (S (length (all_token_ids r))) r (len (block_hashes r))
    (if 0 <? len (block_hashes r) * block_size then -1 else 0)
    (last (block_hashes r)) []) as (mms'&->&Hlen'&Htxt').
  { lia. } { case_match; lia. } { unfold num_tokens, len in *. lia. } { done. }
  eexists; split; [done|]. simpl.
  set (k := length (block_hashes r)) in *.
  set (B := token_blocks block_size (all_token_ids r)) in *.
  assert (Z.to_nat (len (block_hashes r)) = k) as -> by (unfold len; lia).
  set (N := num_tokens r / block_size) in *.
  assert (length B = Z.to_nat N) as HB by apply length_token_blocks.
  set (tail := zip (drop k B) _).
  assert (len (chain_of (last (block_hashes r)) tail) = N - len (block_hashes r)) as HT.
  { unfold len at 1, tail. rewrite length_hash_chain, !length_zip_with, length_seqZ, length_drop.
    unfold len in *. lia. }
  split; [rewrite len_app; lia|].
  intros r' ->. exists (mms ++ mms'). cbn [block_hashes set_block_hashes].
  assert (len (block_hashes r ++ chain_of (last (block_hashes r)) tail) = N) as HN
    by (rewrite len_app; lia).
  rewrite HN. change (num_tokens (set_block_hashes _ r)) with (num_tokens r).
  change (all_token_ids (set_block_hashes _ r)) with (all_token_ids r). fold N B.
  split; [lia|]. split.
  { rewrite !length_app, Hlen, Hlen'. unfold len in *. lia. }
  split; [intros Hm; apply Forall_app; auto|].
  change (extra_of (set_block_hashes _ r)) with (extra_of r).
  replace (length (block_hashes r ++ chain_of (last (block_hashes r)) tail)) with (Z.to_nat N)
    by (rewrite <-HN; unfold len; lia).
  rewrite take_ge by lia.
  rewrite <-(take_drop k B) at 1.
  replace (seqZ 0 N) with (seqZ 0 (len (block_hashes r)) ++ seqZ (len (block_hashes r)) (N - len (block_hashes r))).
  2: { rewrite <-(Z.add_0_l (len (block_hashes r))) at 2.
       rewrite <-seqZ_app by lia. f_equal. lia. }
  rewrite zip_with_app by (rewrite length_seqZ; unfold len in *; lia).
  rewrite zip_with_app.
  2: { rewrite length_take, length_zip_with, length_seqZ. unfold len in *. lia. }
  fold tail. rewrite hash_chain_app, <-Hch.
  destruct (last (block_hashes r)) eqn:E; [done|].
  by apply last_None in E.
Qed.

(** ** Construction and growth keep the chain *)

Lemma token_blocks_app tokens ts k :
  Z.of_nat k ≤ len tokens / block_size →
  take k (token_blocks block_size (tokens ++ ts)) = take k (token_blocks block_size tokens).
Proof.
  intros Hk. pose proof (len_nonneg tokens). pose proof (len_nonneg ts).
  assert (len tokens / block_size ≤ len (tokens ++ ts) / block_size).
  { apply Z.div_le_mono; [done|]. rewrite len_app. lia. }
  apply list_eq. intros j. destruct (decide (j < k)%nat) as [Hj|Hj].
  2: { rewrite !lookup_take_ge by lia. done. }
  rewrite !lookup_take_lt by lia. unfold token_blocks.
  rewrite !list_lookup_fmap, !(proj2 (lookup_seqZ _ _ _ (Z.of_nat j))) by lia. simpl. f_equal.
  assert ((Z.of_nat j + 1) * block_size ≤ len tokens).
  { transitivity (len tokens / block_size * block_size); [nia|].
    pose proof (Z.mul_div_le (len tokens) block_size Hbs). lia. }
  rewrite !py_slice_nonneg by (rewrite ?len_app; nia).
  rewrite drop_app_le by (unfold len in *; nia).
  rewrite take_app_le; [done|]. rewrite length_drop. unfold len in *. nia.
Qed.

Lemma hashes_wf_grow r out ts :
  hashes_wf r → hashes_wf (set_tokens out (all_token_ids r ++ ts) r).
Proof.
  intros (mms&Hle&Hlen&Htxt&Hch). exists mms. unfold num_tokens in *.
  cbn [block_hashes set_tokens all_token_ids mm_features].
  pose proof (len_nonneg ts).
  assert (len (all_token_ids r) / block_size ≤ len (all_token_ids r ++ ts) / block_size).
  { apply Z.div_le_mono; [done|]. rewrite len_app. lia. }
  split; [lia|]. split; [done|]. split; [done|].
  change (extra_of (set_tokens _ _ r)) with (extra_of r).
  by rewrite token_blocks_app by (unfold len in *; lia).
Qed.

Abbreviation hasher := (request_block_hasher hash_function NONE_HASH block_size).

(** Appending output tokens returns, keeps the hashes there are, and hashes
    every block that became full. *)
Lemma append_hashes r ts :
  hashes_wf r →
  ∃ r', append_output_token_ids (Some hasher) ts r = Ok r' ∧ hashes_wf r' ∧
    len (block_hashes r') = num_tokens r' / block_size ∧
    (∃ hs, block_hashes r' = block_hashes r ++ hs) ∧
    all_token_ids r' = all_token_ids r ++ ts ∧ mm_features r' = mm_features r.
Proof.
  intros Hwf. unfold append_output_token_ids.
  set (r1 := set_tokens _ _ r).
  destruct (hasher_completes r1) as (hs&->&Hlen&Hr'); [by apply hashes_wf_grow|].
  simpl. eexists; split; [done|]. split; [by apply Hr'|].
  split; [done|]. eauto.
Qed.

(** A request is built with all its full prompt blocks hashed. *)
Lemma init_hashes rid prompt sp pp eos cl ar emb mm lora salt prio r :
  init (Some hasher) rid prompt sp pp eos cl ar emb mm lora salt prio = Ok r →
  hashes_wf r ∧ len (block_hashes r) = num_tokens r / block_size.
Proof.
  intros H. unfold init in H. res_inv.
  match goal with Hh : request_block_hasher _ _ _ ?r0 = Ok _ |- _ =>
    set (r1 := r0) in *; rename Hh into Hh0 end.
  destruct (hasher_completes r1) as (hs&Hrun&Hlen&Hr').
  { exists []. split; [|split; [done|split; [by constructor|done]]].
    simpl. apply Z.div_pos; [unfold num_tokens; apply len_nonneg|done]. }
  rewrite Hh0 in Hrun. injection Hrun as ->. split; [by apply Hr'|exact Hlen].
Qed.

(** For a text request the hashes do not depend on how the tokens arrived. *)
Definition canonical_hashes (r : Request) : list bytes :=
  chain_of None (zip (token_blocks block_size (all_token_ids r))
                     ((λ i, extra_of r i []) <$> seqZ 0 (num_tokens r / block_size))).

Lemma hashes_canonical r :
  hashes_wf r → mm_features r = [] →
  len (block_hashes r) = num_tokens r / block_size →
  block_hashes r = canonical_hashes r.
Proof.
  intros (mms&Hle&Hlen&Htxt&Hch) Hmm Hfull. specialize (Htxt Hmm). rewrite Hch.
  unfold canonical_hashes. rewrite take_ge.
  2: { rewrite length_token_blocks. unfold num_tokens, len in *. lia. }
  rewrite Hfull. f_equal. f_equal.
  assert (length mms = length (seqZ 0 (num_tokens r / block_size))) as Hl.
  { rewrite length_seqZ. unfold len in *. lia. }
  clear -Htxt Hl. revert Hl. generalize (seqZ 0 (num_tokens r / block_size)) as l.
  induction Htxt as [|m mms -> _ IH]; intros [|i l] Hl; simplify_eq/=; [done|].
  f_equal. by apply IH.
Qed.

(** ** Collision-free hashing *)

Section injective.
Context (Hinj : ∀ x y, hash_function x = hash_function y → x = y).
Context (Hnone : ∀ x, hash_function x ≠ NONE_HASH).
Context (Hne : ∀ x, hash_function x ≠ []).

Lemma chain_parent p l i h :
  chain_of p l !! i = Some h →
  ∃ t e, l !! i = Some (t, e) ∧
    h = hash_block_tokens hash_function NONE_HASH
          (match i with O => p | S j => chain_of p l !! j end) t e.
Proof.
  induction l as [|[t e] l IH] in p, i |- *; [done|]. destruct i as [|i]; simpl.
  - intros ?; simplify_eq. eauto.
  - intros Hi. destruct (IH _ _ Hi) as (t'&e'&?&->). exists t', e'. split; [done|].
    destruct i; done.
Qed.

(** A hash value determines its position and everything before it. *)
Lemma chain_inj l1 l2 i j h :
  chain_of None l1 !! i = Some h → chain_of None l2 !! j = Some h →
  i = j ∧ take (S i) l1 = take (S j) l2.
Proof.
  assert (∀ p t e, parent_or_none NONE_HASH
    (Some (hash_block_tokens hash_function NONE_HASH p t e)) =
    hash_block_tokens hash_function NONE_HASH p t e) as Hpar.
  { intros p t e. unfold parent_or_none, hash_block_tokens.
    destruct (hash_function _) eqn:E; [|done]. by apply Hne in E. }
  induction i as [|i IH] in j, h |- *; intros H1 H2;
    destruct (chain_parent _ _ _ _ H1) as (t1&e1&Hl1&->);
    destruct (chain_parent _ _ _ _ H2) as (t2&e2&Hl2&Heq);
    destruct j as [|j]; apply Hinj in Heq;
    [injection Heq as -> ->|injection Heq as Hp -> ->..].
  - destruct l1, l2; simplify_eq/=. done.
  - destruct (lookup_lt_is_Some_2 (chain_of None l2) j) as [h' Hh'].
    { apply lookup_lt_Some in H2. lia. }
    rewrite Hh' in Hp. destruct (chain_parent _ _ _ _ Hh') as (?&?&_&->).
    rewrite Hpar in Hp. symmetry in Hp. by apply Hnone in Hp.
  - destruct (lookup_lt_is_Some_2 (chain_of None l1) i) as [h' Hh'].
    { apply lookup_lt_Some in H1. lia. }
    rewrite Hh' in Hp. destruct (chain_parent _ _ _ _ Hh') as (?&?&_&->).
    rewrite Hpar in Hp. by apply Hnone in Hp.
  - destruct (lookup_lt_is_Some_2 (chain_of None l1) i) as [h1 Hh1].
    { apply lookup_lt_Some in H1. lia. }
    destruct (lookup_lt_is_Some_2 (chain_of None l2) j) as [h2 Hh2].
    { apply lookup_lt_Some in H2. lia. }
    rewrite Hh1, Hh2 in Hp.
    assert (h1 = h2) as ->.
    { destruct (chain_parent _ _ _ _ Hh1) as (?&?&_&->).
      destruct (chain_parent _ _ _ _ Hh2) as (?&?&_&->). by rewrite !Hpar in Hp. }
    destruct (IH j h2 Hh1 Hh2) as [-> Ht]. split; [done|].
    by rewrite (take_S_r l1 _ _ Hl1), (take_S_r l2 _ _ Hl2), Ht.
Qed.
End injective.
End hasher_facts.

#[export] Instance ExtraKey_eq_dec : EqDecision ExtraKey.
Proof. solve_decision. Defined.
#[export] Instance ExtraKey_countable : Countable ExtraKey.
Proof.
  refine (inj_countable'
    (λ k, match k with KInt n => inl n | KStr s => inr s end)
    (λ x, match x with inl n => KInt n | inr s => KStr s end) _).
  by intros [].
Defined.

Definition lora_id_of (r : Request) : option Z := lora_int_id <$> lora_request r.

Lemma tuple_or_none_inj l1 l2 : tuple_or_none l1 = tuple_or_none l2 → l1 = l2.
Proof. destruct l1, l2; naive_solver. Qed.

Lemma extra_of_lora bs r1 r2 i mm1 mm2 :
  extra_of bs r1 i mm1 = extra_of bs r2 i mm2 → lora_id_of r1 = lora_id_of r2.
Proof.
  intros H%tuple_or_none_inj. unfold lora_id_of, gen_lora_extra_hash_keys, cache_salt_keys in *.
  destruct (lora_request r1), (lora_request r2); simpl in *; simplify_eq; try congruence.
  all: destruct mm1, mm2; simpl in *; repeat case_match; simplify_eq/=; done.
Qed.

Lemma concat_token_blocks bs tokens k :
  0 < bs → Z.of_nat k ≤ len tokens / bs →
  concat (take k (token_blocks bs tokens)) = take (k * Z.to_nat bs) tokens.
Proof.
  intros Hbs. induction k as [|k IH]; intros Hk; [done|].
  assert ((Z.of_nat k + 1) * bs ≤ len tokens).
  { transitivity (len tokens / bs * bs); [nia|]. pose proof (Z.mul_div_le (len tokens) bs Hbs). lia. }
  rewrite (take_S_r _ _ (py_slice tokens (Z.of_nat k * bs) (Z.of_nat k * bs + bs))).
  2: { unfold token_blocks. rewrite list_lookup_fmap.
       rewrite (proj2 (lookup_seqZ _ _ _ (Z.of_nat k))); [done|]. lia. }
  rewrite concat_app, IH by lia. simpl. rewrite app_nil_r.
  rewrite py_slice_nonneg by nia.
  replace (Z.to_nat (Z.of_nat k * bs + bs - Z.of_nat k * bs)) with (Z.to_nat bs) by lia.
  replace (Z.to_nat (Z.of_nat k * bs)) with (k * Z.to_nat bs)%nat by lia.
  rewrite take_take_drop. f_equal. lia.
Qed.

(** Two requests with the same block hash, at whatever position, agree on all
    tokens up to the end of that block, on the position, and on the adapter. *)
Lemma chain_position H N bs r1 r2 i j h :
  0 < bs →
  (∀ x y, H x = H y → x = y) → (∀ x, H x ≠ N) → (∀ x, H x ≠ []) →
  hashes_wf H N bs r1 → hashes_wf H N bs r2 →
  block_hashes r1 !! i = Some h → block_hashes r2 !! j = Some h →
  i = j ∧ take (S i * Z.to_nat bs) (all_token_ids r1) = take (S i * Z.to_nat bs) (all_token_ids r2)
  ∧ lora_id_of r1 = lora_id_of r2.
Proof.
  intros Hbs Hinj Hnone Hne (m1&Hle1&Hlen1&_&Hch1) (m2&Hle2&Hlen2&_&Hch2) H1 H2.
  pose proof (lookup_lt_Some _ _ _ H1) as Hi. pose proof (lookup_lt_Some _ _ _ H2) as Hj.
  rewrite Hch1 in H1. rewrite Hch2 in H2.
  destruct (chain_inj H N Hinj Hnone Hne _ _ _ _ _ H1 H2) as [<- Ht]. split; [done|].
  assert (∀ m r (Hl : length m = length (block_hashes r))
            (Hle : len (block_hashes r) ≤ num_tokens r / bs),
    (i < length (block_hashes r))%nat →
    fst <$> take (S i) (zip (take (length (block_hashes r)) (token_blocks bs (all_token_ids r)))
             (zip_with (extra_of bs r) (seqZ 0 (len (block_hashes r))) m))
    = take (S i) (token_blocks bs (all_token_ids r)) ∧
    ∃ mm, zip (take (length (block_hashes r)) (token_blocks bs (all_token_ids r)))
             (zip_with (extra_of bs r) (seqZ 0 (len (block_hashes r))) m) !! i
      = Some (py_slice (all_token_ids r) (Z.of_nat i * bs) (Z.of_nat i * bs + bs),
              extra_of bs r (Z.of_nat i) mm)) as Hz.
  { intros m r Hl Hle Hir. unfold num_tokens in Hle. split.
    - rewrite fmap_take, fst_zip.
      + rewrite take_take. f_equal. lia.
      + rewrite length_take, length_token_blocks, length_zip_with, length_seqZ.
        unfold len in *. lia.
    - destruct (lookup_lt_is_Some_2 m i) as [mm Hmm]; [lia|]. exists mm.
      apply lookup_zip_with_Some. eexists _, _. split; [done|]. split.
      + rewrite lookup_take_lt by lia. unfold token_blocks.
        rewrite list_lookup_fmap, (proj2 (lookup_seqZ _ _ _ (Z.of_nat i))); [done|].
        unfold len in *. lia.
      + apply lookup_zip_with_Some. eexists _, _. split; [done|]. split; [|done].
        apply lookup_seqZ. unfold len. lia. }
  destruct (Hz m1 r1 Hlen1 Hle1 Hi) as [Hf1 [mm1 Hx1]].
  destruct (Hz m2 r2 Hlen2 Hle2 Hj) as [Hf2 [mm2 Hx2]].
  split.
  - assert (take (S i) (token_blocks bs (all_token_ids r1))
            = take (S i) (token_blocks bs (all_token_ids r2))) as Hb.
    { rewrite <-Hf1, <-Hf2. exact (f_equal (fmap fst) Ht). }
    unfold num_tokens, len in *.
    rewrite <-!concat_token_blocks by (unfold len; lia). by rewrite Hb.
  - apply (extra_of_lora bs _ _ (Z.of_nat i) mm1 mm2).
    pose proof (f_equal (lookup i) Ht) as Hz12.
    rewrite !lookup_take_lt in Hz12 by lia.
    rewrite Hx1, Hx2 in Hz12. congruence.
Qed.

(** ** The boundary of a multi-modal input

    A request with an input that ends exactly where a block starts. *)

Section mm_boundary.
Context (H : bytes * list Z * option (list ExtraKey) → bytes) (N : bytes).

Definition mm_sampling : SamplingParams := mkSampling (Some 8) None None false None false None default_sampler.

(** A request with one input on tokens 0 and 1, and blocks of two tokens. *)
Definition mm_request (prompt : list Z) : result Request :=
  init (Some (request_block_hasher H N 2)) "r" (Some prompt) (Some mm_sampling) None None
    0 0 None [mkMM "img" (mkRange 0 2)] None None 0.

(** C40. The hash of a block of a multi-modal request depends on when the block
    became full: [_gen_mm_extra_hash_keys] skips an input that ends before the block
    with [start_token_idx > offset + length], so an input that ends exactly at the
    start of the block is still added to its keys when the block is hashed in a
    later call, but not when an earlier block of the same call has already moved
    past the input. *)
Theorem mm_boundary_hash_divergence :
  (∀ x y, H x = H y → x = y) →
  ∃ r1 r2 r3,
    mm_request [7; 7; 1; 2] = Ok r1 ∧
    mm_request [7; 7; 1] = Ok r2 ∧
    append_output_token_ids (Some (request_block_hasher H N 2)) [2] r2 = Ok r3 ∧
    all_token_ids r1 = all_token_ids r3 ∧ mm_features r1 = mm_features r3 ∧
    block_hashes r1 !! 0%nat = block_hashes r3 !! 0%nat ∧
    block_hashes r1 !! 1%nat ≠ block_hashes r3 !! 1%nat.
Proof.
  intros Hinj. do 3 eexists. split; [reflexivity|]. split; [reflexivity|].
  split; [reflexivity|]. split; [done|]. split; [done|]. split; [done|].
  simpl. intros E. injection E as E. apply Hinj in E. discriminate E.
Qed.
End mm_boundary.

(** A concrete injective hash, for the instances: the serialised input. *)
Definition enc_hash (x : bytes * list Z * option (list ExtraKey)) : bytes := [Zpos (encode x)].
Definition enc_none : bytes := [0].

Lemma enc_hash_inj x y : enc_hash x = enc_hash y → x = y.
Proof. unfold enc_hash. intros E. injection E as E. by apply (inj encode). Qed.
Lemma enc_hash_none x : enc_hash x ≠ enc_none.
Proof. done. Qed.
Lemma enc_hash_ne x : enc_hash x ≠ [].
Proof. done. Qed.

Lemma mm_boundary_hash_divergence_witness :
  ∃ r1 r3, mm_request enc_hash enc_none [7; 7; 1; 2] = Ok r1 ∧
    all_token_ids r1 = all_token_ids r3 ∧ block_hashes r1 !! 1%nat ≠ block_hashes r3 !! 1%nat.
Proof.
  destruct (mm_boundary_hash_divergence enc_hash enc_none enc_hash_inj)
    as (r1&r2&r3&H1&_&_&H4&_&_&H7). exists r1, r3. split; [exact H1|]. split; [exact H4|exact H7].
Defined.

(** ** Keys and incremental hashing *)

(** C30. Packing a block hash with a group id loses nothing: for a group id of 32
    bits, [get_block_hash] and [get_group_id] give back the two parts of the
    packed key; for any other group id packing raises [OverflowError]. *)
Theorem group_key_roundtrip h g :
  if decide (0 ≤ g < 2 ^ 32) then
    ∃ key, make_block_hash_with_group_id h g = Ok key ∧
      get_block_hash key = h ∧ get_group_id key = g
  else make_block_hash_with_group_id h g = Err OverflowError.
Proof.
  case_decide as Hg; [by apply pack_unpack|].
  unfold make_block_hash_with_group_id, to_bytes4.
  destruct (Z.leb_spec 0 g), (Z.ltb_spec g (2 ^ 32)); try done. lia.
Qed.

Section incremental.
Context (H : bytes * list Z * option (list ExtraKey) → bytes) (N : bytes) (bs : Z) (Hbs : 0 < bs).
Abbreviation hasher := (request_block_hasher H N bs).

(** What the extra keys of a text request depend on. *)
Definition hash_context (r : Request) : option LoRARequest * option string :=
  (lora_request r, cache_salt r).

Lemma canonical_context r r' :
  all_token_ids r = all_token_ids r' → hash_context r = hash_context r' →
  canonical_hashes H N bs r = canonical_hashes H N bs r'.
Proof.
  unfold hash_context. intros Ha [= Hl Hs]. unfold canonical_hashes, num_tokens. rewrite Ha.
  f_equal. f_equal. apply list_fmap_ext. intros _ i _.
  unfold extra_of, gen_lora_extra_hash_keys, cache_salt_keys. by rewrite Hl, Hs.
Qed.

Lemma append_context bh ts r r' :
  append_output_token_ids bh ts r = Ok r' → hash_context r' = hash_context r.
Proof. unfold append_output_token_ids. intros Hr. destruct bh; res_inv; done. Qed.

Lemma append_all_hashes tss r :
  hashes_wf H N bs r → mm_features r = [] → len (block_hashes r) = num_tokens r / bs →
  ∃ r', for_each (append_output_token_ids (Some hasher)) tss r = Ok r' ∧
    all_token_ids r' = all_token_ids r ++ concat tss ∧ hash_context r' = hash_context r ∧
    block_hashes r' = canonical_hashes H N bs r' ∧ (∃ hs, block_hashes r' = block_hashes r ++ hs).
Proof.
  induction tss as [|ts tss IH] in r |- *; intros Hwf Hmm Hlen; cbn [for_each concat].
  - exists r. split_and!; [done|by rewrite app_nil_r|done|by apply hashes_canonical|].
    exists []. by rewrite app_nil_r.
  - destruct (append_hashes H N bs Hbs r ts Hwf) as (r1&Hr1&Hwf1&Hlen1&[hs Hhs]&Hall&Hmm1).
    rewrite Hr1, Ok_bind.
    destruct (IH r1 Hwf1) as (r'&->&Hall'&Hctx&Hcan&[hs' Hhs']); [congruence|done|].
    exists r'. split_and!; [done| | |done|].
    + by rewrite Hall', Hall, <-app_assoc.
    + rewrite Hctx. by eapply append_context.
    + exists (hs ++ hs'). by rewrite Hhs', Hhs, app_assoc.
Qed.

Lemma init_prompt rid prompt sp pp eos cl ar emb mm lora salt prio r :
  init (Some hasher) rid (Some prompt) sp pp eos cl ar emb mm lora salt prio = Ok r →
  all_token_ids r = prompt ∧ mm_features r = mm ∧ hash_context r = (lora, salt).
Proof. unfold init. intros Hr. res_inv. done. Qed.

End incremental.

