(* ===== verification/BlockMap.v ===== *)
(** * The prefix-cache map

    Models [BlockHashToBlockMap] of src/vllm/v1/core/block_pool.py: a
    dictionary from a packed block hash either directly to a block, or, once
    several blocks carry the same hash, to an insertion-ordered dictionary of
    them by block id.  [entries m key] is the abstract content (the blocks under
    a key, oldest first); the theorems give every operation on it. *)
From S2P Require Import Prelude FreeQueue.

(** The value of the map: [Union[KVCacheBlock, dict[int, KVCacheBlock]]]. *)
Inductive CacheEntry : Set :=
  | One (p : ptr)
  | Many (d : list (Z * ptr)).

Abbreviation BlockHashToBlockMap := (gmap bytes CacheEntry).

(** [d[k] = v] on an insertion-ordered dictionary. *)
Fixpoint dict_set (k : Z) (v : ptr) (d : list (Z * ptr)) : list (Z * ptr) :=
  match d with
  | [] => [(k, v)]
  | (k', v') :: d => if k' =? k then (k, v) :: d else (k', v') :: dict_set k v d
  end.

(** [d.pop(k, None)]. *)
Fixpoint dict_pop (k : Z) (d : list (Z * ptr)) : option ptr * list (Z * ptr) :=
  match d with
  | [] => (None, [])
  | (k', v') :: d =>
      if k' =? k then (Some v', d)
      else let '(r, d') := dict_pop k d in (r, (k', v') :: d')
  end.

(** [block.block_id]. *)
Definition id_of (h : heap) (p : ptr) : Z := from_option block_id (-1) (h !! p).

Module BlockMap.

(** [get_one_block]: [next(iter(blocks.values()))] on the inner dictionary. *)
Definition get_one_block (key : bytes) (m : BlockHashToBlockMap) : result (option ptr) :=
  match m !! key with
  | None => Ok None
  | Some (One p) => Ok (Some p)
  | Some (Many ((_, p) :: _)) => Ok (Some p)
  | Some (Many []) => Err StopIteration
  end.

Definition insert (h : heap) (key : bytes) (p : ptr) (m : BlockHashToBlockMap)
  : BlockHashToBlockMap :=
  match m !! key with
  | None => <[key := One p]> m
  | Some (One q) => <[key := Many (dict_set (id_of h p) p [(id_of h q, q)])]> m
  | Some (Many d) => <[key := Many (dict_set (id_of h p) p d)]> m
  end.

Definition pop (h : heap) (key : bytes) (block_id : Z) (m : BlockHashToBlockMap)
  : option ptr * BlockHashToBlockMap :=
  match m !! key with
  | None => (None, m)
  | Some (One q) =>
      if id_of h q =? block_id then (Some q, delete key m)
      else (None, <[key := One q]> (delete key m))
  | Some (Many d) =>
      let '(r, d') := dict_pop block_id d in
      if 0 <? len d' then (r, <[key := Many d']> (delete key m))
      else (r, delete key m)
  end.

End BlockMap.

(** ** Abstract content *)

Definition entry_ptrs (e : CacheEntry) : list ptr :=
  match e with One p => [p] | Many d => d.*2 end.
Definition entries (m : BlockHashToBlockMap) (key : bytes) : list ptr :=
  from_option entry_ptrs [] (m !! key).

(** Blocks are keyed by their own id, without duplicates, and a key that is
    present has a block. *)
Definition entry_ok (e : CacheEntry) : Prop :=
  match e with
  | One p => ∃ k, p = Blk k
  | Many d => d ≠ [] ∧ NoDup d.*1 ∧ Forall (λ x, x.2 = Blk x.1) d
  end.
Definition map_ok (m : BlockHashToBlockMap) : Prop :=
  ∀ key e, m !! key = Some e → entry_ok e.

(** The ids in the store are those of the references. *)
Definition ids_ok (h : heap) (p : ptr) : Prop := p = Blk (id_of h p).

Lemma map_ok_empty : map_ok ∅.
Proof. intros key e. by rewrite lookup_empty. Qed.

Lemma map_ok_insert m key e : map_ok m → entry_ok e → map_ok (<[key:=e]> m).
Proof. intros Hm He key' e'. rewrite lookup_insert. case_decide; naive_solver. Qed.
Lemma map_ok_delete m key : map_ok m → map_ok (delete key m).
Proof. intros Hm key' e'. rewrite lookup_delete. case_decide; naive_solver. Qed.

Lemma entries_insert m key e key' :
  entries (<[key:=e]> m) key' = if decide (key = key') then entry_ptrs e else entries m key'.
Proof. unfold entries. rewrite lookup_insert. by case_decide. Qed.
Lemma entries_delete m key key' :
  entries (delete key m) key' = if decide (key = key') then [] else entries m key'.
Proof. unfold entries. rewrite lookup_delete. by case_decide. Qed.

Lemma dict_set_new k v d : k ∉ d.*1 → dict_set k v d = d ++ [(k, v)].
Proof.
  induction d as [|[k' v'] d IH]; [done|]. cbn. rewrite not_elem_of_cons. intros [? ?].
  destruct (Z.eqb_spec k' k); [congruence|]. by rewrite IH.
Qed.

Lemma Forall_ptr_keys d p k :
  Forall (λ x : Z * ptr, x.2 = Blk x.1) d → p = Blk k → p ∈ d.*2 ↔ k ∈ d.*1.
Proof.
  intros Hd ->. induction Hd as [|[k' v'] d Hv Hd IH]; cbn; [set_solver|].
  simpl in Hv. subst. rewrite !elem_of_cons, IH. naive_solver.
Qed.

Lemma dict_pop_spec k d :
  NoDup d.*1 → Forall (λ x : Z * ptr, x.2 = Blk x.1) d →
  (dict_pop k d).1 = (if decide (Blk k ∈ d.*2) then Some (Blk k) else None) ∧
  ((dict_pop k d).2).*2 = filter (.≠ Blk k) d.*2 ∧
  NoDup ((dict_pop k d).2).*1 ∧ Forall (λ x : Z * ptr, x.2 = Blk x.1) (dict_pop k d).2 ∧
  (∀ k', k' ∈ ((dict_pop k d).2).*1 → k' ∈ d.*1).
Proof.
  intros Hnd Hd. induction Hd as [|[k' v'] d Hv Hd IH]; csimpl in *; [done|].
  subst. apply NoDup_cons in Hnd as [Hk' Hnd].
  destruct (Z.eqb_spec k' k) as [->|Hne].
  - simpl. rewrite decide_True by (by left). rewrite filter_cons_False by naive_solver.
    split_and!; try done; [|by right].
    rewrite filter_id; [done|]. intros p Hp ->.
    apply Hk'. by apply (Forall_ptr_keys d (Blk k)).
  - destruct (IH Hnd) as (H1&H2&H3&H4&H5). destruct (dict_pop k d) as [r d']. csimpl in *.
    split_and!.
    + rewrite H1. repeat case_decide; set_solver.
    + rewrite filter_cons_True by congruence. by rewrite H2.
    + apply NoDup_cons. split; [|done]. naive_solver.
    + by constructor.
    + set_solver.
Qed.

(** ** The operations on the content *)

Lemma get_one_block_spec key m :
  map_ok m → BlockMap.get_one_block key m = Ok (head (entries m key)).
Proof.
  intros Hm. unfold BlockMap.get_one_block, entries.
  destruct (m !! key) as [[p|d]|] eqn:E; try done.
  destruct (Hm _ _ E) as [Hd _]. by destruct d as [|[??] ?].
Qed.

Lemma insert_spec h key p m :
  map_ok m → ids_ok h p → (∀ q, q ∈ entries m key → ids_ok h q) → p ∉ entries m key →
  map_ok (BlockMap.insert h key p m) ∧
  ∀ key', entries (BlockMap.insert h key p m) key' =
    if decide (key = key') then entries m key ++ [p] else entries m key'.
Proof.
  intros Hm Hp Hq Hnin. unfold BlockMap.insert. unfold entries in Hq, Hnin.
  destruct (m !! key) as [[q|d]|] eqn:E; simpl in Hq, Hnin.
  - assert (ids_ok h q) as Hqi by set_solver.
    assert (id_of h q ≠ id_of h p) as Hne.
    { intros Hid. unfold ids_ok in *. rewrite Hid, <-Hp in Hqi. set_solver. }
    rewrite dict_set_new by set_solver. split.
    + apply map_ok_insert; [done|]. split_and!; [done| |].
      * apply NoDup_cons. split; [set_solver|apply NoDup_singleton].
      * by repeat constructor.
    + intros key'. rewrite entries_insert. unfold entries. rewrite E. by repeat case_decide.
  - destruct (Hm _ _ E) as (Hd1&Hd2&Hd3).
    rewrite dict_set_new by (by rewrite <-(Forall_ptr_keys d p)). split.
    + apply map_ok_insert; [done|]. split_and!; [by destruct d| |].
      * rewrite fmap_app, NoDup_app. split; [done|]. split; [|apply NoDup_singleton].
        intros k Hk. simpl. rewrite list_elem_of_singleton. intros ->.
        apply Hnin. by apply (Forall_ptr_keys d p (id_of h p)).
      * rewrite Forall_app, Forall_singleton. done.
    + intros key'. rewrite entries_insert. unfold entries. rewrite E. simpl.
      rewrite fmap_app. by repeat case_decide.
  - split; [apply map_ok_insert; [done|by eexists]|].
    intros key'. rewrite entries_insert. unfold entries. rewrite E. by repeat case_decide.
Qed.

Lemma pop_spec h key p m :
  map_ok m → ids_ok h p → (∀ q, q ∈ entries m key → ids_ok h q) →
  let '(r, m') := BlockMap.pop h key (id_of h p) m in
  r = (if decide (p ∈ entries m key) then Some p else None) ∧ map_ok m' ∧
  ∀ key', entries m' key' =
    if decide (key = key') then filter (.≠ p) (entries m key) else entries m key'.
Proof.
  intros Hm Hp Hq. unfold BlockMap.pop. unfold entries in Hq.
  destruct (m !! key) as [[q|d]|] eqn:E; simpl in Hq.
  - assert (ids_ok h q) as Hqi by set_solver. unfold ids_ok in *.
    assert (entries m key = [q]) as -> by (unfold entries; by rewrite E).
    destruct (Z.eqb_spec (id_of h q) (id_of h p)) as [Hid|Hid].
    + assert (q = p) as -> by congruence.
      rewrite decide_True by set_solver. split; [done|]. split; [by apply map_ok_delete|].
      intros key'. rewrite entries_delete. rewrite filter_cons_False by naive_solver.
      by repeat case_decide.
    + assert (p ≠ q) by congruence. rewrite decide_False by set_solver. split; [done|].
      split; [apply map_ok_insert; [by apply map_ok_delete|by eexists]|].
      intros key'. rewrite entries_insert, entries_delete.
      rewrite filter_cons_True by done. by repeat case_decide.
  - destruct (Hm _ _ E) as (Hd1&Hd2&Hd3).
    assert (entries m key = d.*2) as Hen by (unfold entries; by rewrite E).
    destruct (dict_pop_spec (id_of h p) d Hd2 Hd3) as (H1&H2&H3&H4&_).
    destruct (dict_pop (id_of h p) d) as [r d']. cbn in *. rewrite <-Hp in H1, H2.
    rewrite Hen. destruct (Z.ltb_spec 0 (len d')) as [Hl|Hl].
    + split; [done|]. split.
      { apply map_ok_insert; [by apply map_ok_delete|]. split; [by destruct d'|done]. }
      intros key'. rewrite entries_insert, entries_delete. simpl. rewrite H2. by repeat case_decide.
    + assert (d' = []) as -> by (apply len_0_nil; len_lia).
      split; [done|]. split; [by apply map_ok_delete|].
      intros key'. rewrite entries_delete, <-H2. by repeat case_decide.
  - assert (entries m key = []) as Hen by (unfold entries; by rewrite E).
    rewrite Hen, decide_False by set_solver. split; [done|]. split; [done|].
    intros key'. case_decide; [subst; by rewrite Hen|done].
Qed.

(** ** Refinement of a multimap *)

Inductive map_op : Set :=
  | MapInsert (key : bytes) (p : ptr)
  | MapPop (key : bytes) (p : ptr)
  | MapGet (key : bytes).

Definition map_exec (h : heap) (o : map_op) (m : BlockHashToBlockMap)
  : result (option ptr * BlockHashToBlockMap) :=
  match o with
  | MapInsert key p => Ok (None, BlockMap.insert h key p m)
  | MapPop key p => Ok (BlockMap.pop h key (id_of h p) m)
  | MapGet key => r ← BlockMap.get_one_block key m; Ok (r, m)
  end.

(** The specification: the blocks of a key, oldest first. *)
Abbreviation Multimap := (gmap bytes (list ptr)).
Definition blocks_at (key : bytes) (f : Multimap) : list ptr := default [] (f !! key).

Definition multimap_exec (o : map_op) (f : Multimap) : result (option ptr * Multimap) :=
  match o with
  | MapInsert key p => Ok (None, <[key := blocks_at key f ++ [p]]> f)
  | MapPop key p =>
      Ok (if decide (p ∈ blocks_at key f) then Some p else None,
          <[key := filter (.≠ p) (blocks_at key f)]> f)
  | MapGet key => Ok (head (blocks_at key f), f)
  end.

(** The callers insert a block under a hash once, and pop by the block's id. *)
Definition map_op_ok (h : heap) (o : map_op) (f : Multimap) : Prop :=
  match o with
  | MapInsert key p => ids_ok h p ∧ p ∉ blocks_at key f
  | MapPop key p => ids_ok h p
  | MapGet _ => True
  end.
Fixpoint map_ops_ok (h : heap) (ops : list map_op) (f : Multimap) : Prop :=
  match ops with
  | [] => True
  | o :: ops => map_op_ok h o f ∧
      match multimap_exec o f with Ok (_, f') => map_ops_ok h ops f' | Err _ => True end
  end.

#[export] Instance map_op_ok_dec h o f : Decision (map_op_ok h o f).
Proof. destruct o; simpl; unfold ids_ok; apply _. Defined.
#[export] Instance map_ops_ok_dec h ops f : Decision (map_ops_ok h ops f).
Proof. revert f. induction ops; intros f; simpl; repeat case_match; apply _. Defined.

Definition map_refines (h : heap) (m : BlockHashToBlockMap) (f : Multimap) : Prop :=
  map_ok m ∧ (∀ key, entries m key = blocks_at key f) ∧
  (∀ key q, q ∈ blocks_at key f → ids_ok h q).

Lemma blocks_at_insert key key' l f :
  blocks_at key' (<[key:=l]> f) = if decide (key = key') then l else blocks_at key' f.
Proof. unfold blocks_at. rewrite lookup_insert. by case_decide. Qed.

Lemma map_exec_refines h o m f :
  map_refines h m f → map_op_ok h o f →
  ∃ r m' f', multimap_exec o f = Ok (r, f') ∧ map_exec h o m = Ok (r, m') ∧ map_refines h m' f'.
Proof.
  intros (Hm&He&Hids) Hok. destruct o as [key p|key p|key]; simpl in *.
  - destruct Hok as [Hp Hnin]. rewrite <-He in Hnin.
    assert (∀ q, q ∈ entries m key → ids_ok h q) as Hq by (intros q; rewrite He; by eauto).
    destruct (insert_spec h key p m Hm Hp Hq Hnin) as [Hm' He'].
    eexists _, _, _. split; [done|]. split; [done|]. split; [done|split].
    + intros key'. rewrite He', blocks_at_insert, !He. done.
    + intros key' q. rewrite blocks_at_insert. case_decide; [|by eauto].
      rewrite elem_of_app, list_elem_of_singleton. naive_solver.
  - pose proof (pop_spec h key p m Hm Hok) as Hpop. rewrite He in Hpop.
    destruct (BlockMap.pop h key (id_of h p) m) as [r m'].
    destruct Hpop as (->&Hm'&He'); [by eauto|].
    eexists _, _, _. split; [done|]. split; [done|]. split; [done|split].
    + intros key'. rewrite He', blocks_at_insert, He. done.
    + intros key' q. rewrite blocks_at_insert. case_decide; [|by eauto].
      rewrite list_elem_of_filter. naive_solver.
  - rewrite (get_one_block_spec _ _ Hm), He, Ok_bind. eexists _, _, _. by split_and!.
Qed.

Lemma map_run_refines h ops m f :
  map_refines h m f → map_ops_ok h ops f →
  ∃ rs m' f', map_acc multimap_exec ops f = Ok (rs, f') ∧
    map_acc (map_exec h) ops m = Ok (rs, m') ∧ map_refines h m' f'.
Proof.
  induction ops as [|o ops IH] in m, f |- *; simpl; [by eauto 8|]. intros Hr [Ho Hops].
  destruct (map_exec_refines h o m f Hr Ho) as (r&m'&f'&Hs&->&Hr').
  rewrite Hs in Hops |- *. rewrite !Ok_bind.
  destruct (IH m' f' Hr' Hops) as (rs&m''&f''&->&->&Hr''). rewrite !Ok_bind. eauto 8.
Qed.

(** C22. The prefix-cache map refines a multimap from packed hashes to blocks: from
    the empty map, every sequence of [insert], [pop] and [get_one_block] answers
    as the multimap does (a lookup gives the oldest block of the hash, a removal
    the block if it is there), never raises, and never keeps a hash without a
    block, although the map stores one block directly and only several in a
    dictionary. *)
Theorem block_map_refines_multimap h ops :
  map_ops_ok h ops ∅ →
  ∃ rs m f, map_acc multimap_exec ops ∅ = Ok (rs, f) ∧ map_acc (map_exec h) ops ∅ = Ok (rs, m) ∧
    (∀ key, BlockMap.get_one_block key m = Ok (head (blocks_at key f))) ∧
    (∀ key, is_Some (m !! key) ↔ blocks_at key f ≠ []).
Proof.
  intros Hops. destruct (map_run_refines h ops ∅ ∅) as (rs&m&f&Hs&Hrun&Hm&He&_); [|done|].
  { split; [apply map_ok_empty|]. unfold entries, blocks_at.
    split; intros key; rewrite ?lookup_empty; [done|]. intros q []%not_elem_of_nil. }
  exists rs, m, f. split_and!; [done..| |].
  - intros key. by rewrite get_one_block_spec, He.
  - intros key. rewrite <-He. unfold entries.
    destruct (m !! key) as [[p|d]|] eqn:E; simpl; rewrite ?is_Some_alt; [done| |done].
    destruct (Hm _ _ E) as (Hd&_). by destruct d.
Qed.

Definition ex_map_ops : list map_op :=
  [MapInsert [7] (Blk 1); MapInsert [7] (Blk 2); MapGet [7]; MapPop [7] (Blk 1); MapGet [7];
   MapPop [7] (Blk 1); MapPop [7] (Blk 2); MapGet [7]].

Lemma block_map_refines_multimap_witness :
  ∃ m, map_acc (map_exec ex_store) ex_map_ops ∅ =
    Ok ([None; None; Some (Blk 1); Some (Blk 1); Some (Blk 2); None; Some (Blk 2); None], m) ∧
    m !! [7] = None.
Proof.
  destruct (block_map_refines_multimap ex_store ex_map_ops) as (rs&m&f&Hs&Hrun&_&Hkeys).
  { apply (bool_decide_unpack _). by vm_compute. }
  assert (∃ f0, map_acc multimap_exec ex_map_ops ∅ =
    Ok ([None; None; Some (Blk 1); Some (Blk 1); Some (Blk 2); None; Some (Blk 2); None], f0) ∧
    blocks_at [7] f0 = []) as (f0&Hf0&Hempty) by (eexists; split; vm_compute; reflexivity).
  rewrite Hf0 in Hs. injection Hs as <- <-. exists m. split; [exact Hrun|].
  destruct (m !! [7]) eqn:E; [|done]. exfalso. apply (Hkeys [7]); [by rewrite E|done].
Defined.
