(* ===== verification/BlockPool.v ===== *)
(** * The block pool

    Models [BlockPool] of src/vllm/v1/core/block_pool.py: allocation of blocks
    from the free list with eviction from the prefix cache, reference counting,
    caching of full blocks, and the KV events.  [pool_inv P fl] is the invariant
    that ties the free list [fl], the reference counts, the block hashes and the
    prefix-cache map together. *)
From S2P Require Import Prelude FreeQueue Request BlockHash BlockMap.

(** KV cache events (src/vllm/distributed/kv_events.py). *)
Inductive KVCacheEvent : Set :=
  | BlockStored (ev_hashes : list ExternalBlockHash) (parent : option ExternalBlockHash)
      (token_ids : list Z) (block_size : Z) (lora_id : option Z) (medium : string)
  | BlockRemoved (ev_hashes : list ExternalBlockHash) (medium : string)
  | AllBlocksCleared.

Definition MEDIUM_GPU : string := "GPU".

Record BlockPool := mkPool {
  num_gpu_blocks : Z;
  enable_caching : bool;
  blocks : list ptr;
  free_block_queue : FreeKVCacheBlockQueue;
  cached_block_hash_to_block : BlockHashToBlockMap;
  null_block : ptr;
  enable_kv_cache_events : bool;
  kv_event_queue : list KVCacheEvent;
}.

Definition pool_heap (P : BlockPool) : heap := q_heap (free_block_queue P).

Definition with_queue (q : FreeKVCacheBlockQueue) (P : BlockPool) : BlockPool :=
  mkPool (num_gpu_blocks P) (enable_caching P) (blocks P) q
    (cached_block_hash_to_block P) (null_block P) (enable_kv_cache_events P) (kv_event_queue P).
Definition with_heap (h : heap) (P : BlockPool) : BlockPool :=
  with_queue (mkQueue h (num_free_blocks (free_block_queue P))) P.
Definition with_cache (m : BlockHashToBlockMap) (P : BlockPool) : BlockPool :=
  mkPool (num_gpu_blocks P) (enable_caching P) (blocks P) (free_block_queue P)
    m (null_block P) (enable_kv_cache_events P) (kv_event_queue P).
Definition with_events (es : list KVCacheEvent) (P : BlockPool) : BlockPool :=
  mkPool (num_gpu_blocks P) (enable_caching P) (blocks P) (free_block_queue P)
    (cached_block_hash_to_block P) (null_block P) (enable_kv_cache_events P) es.

(** Attribute reads of a block. *)
Definition rc (P : BlockPool) (p : ptr) : Z := from_option ref_cnt 0 (pool_heap P !! p).
Definition hash_at (P : BlockPool) (p : ptr) : option bytes := pool_heap P !! p ≫= block_hash.
Definition null_at (P : BlockPool) (p : ptr) : bool := from_option is_null false (pool_heap P !! p).

Module Pool.

(** [BlockPool.__init__]. *)
Definition init (n : Z) (caching events : bool) : result BlockPool :=
  _ ← py_assert (0 <? n);
  let refs := Blk <$> py_range 0 n in
  let h := list_to_map ((λ i, (Blk i, new_block i)) <$> py_range 0 n) in
  q ← Queue.init refs h;
  '(null, q) ← Queue.popleft q;
  let q := mkQueue (set_null null (q_heap q)) (num_free_blocks q) in
  Ok (mkPool n caching refs q ∅ null events []).

Definition get_num_free_blocks (P : BlockPool) : Z := num_free_blocks (free_block_queue P).

(** [get_cached_block]: a block per group, or nothing if a group misses. *)
Fixpoint get_cached_block (h : bytes) (gids : list Z) (P : BlockPool)
  : result (option (list ptr)) :=
  match gids with
  | [] => Ok (Some [])
  | g :: gids =>
      key ← make_block_hash_with_group_id h g;
      b ← BlockMap.get_one_block key (cached_block_hash_to_block P);
      match b with
      | None => Ok None
      | Some p => rest ← get_cached_block h gids P; Ok (option_map (cons p) rest)
      end
  end.

(** The loop of [cache_full_blocks] over the new full blocks, from the [i]-th. *)
Fixpoint cache_loop (use_int : bool) (gid : Z) (new_hashes : list bytes) (i : Z)
    (blks : list ptr) (acc : list ExternalBlockHash) (P : BlockPool)
  : result (list ExternalBlockHash * BlockPool) :=
  match blks with
  | [] => Ok (acc, P)
  | blk :: blks =>
      _ ← py_assert (bool_decide (hash_at P blk = None));
      h ← py_index new_hashes i;
      key ← make_block_hash_with_group_id h gid;
      heap ← assign_hash blk key (pool_heap P);
      let P := with_heap heap P in
      let P := with_cache
        (BlockMap.insert (pool_heap P) key blk (cached_block_hash_to_block P)) P in
      let acc := if enable_kv_cache_events P
                 then acc ++ [maybe_convert_block_hash use_int h] else acc in
      cache_loop use_int gid new_hashes (i + 1) blks acc P
  end.

(** [request.lora_request.id if request.lora_request else None]:
    [LoRARequest] has no attribute [id]. *)
Definition event_lora_id (r : Request) : result (option Z) :=
  match lora_request r with
  | Some _ => Err AttributeError
  | None => Ok None
  end.

(** [cache_full_blocks]. *)
Definition cache_full_blocks (use_int : bool) (r : Request) (blks : list ptr)
    (num_cached_blocks num_full_blocks block_size gid : Z) (P : BlockPool)
  : result BlockPool :=
  if num_cached_blocks =? num_full_blocks then Ok P
  else
    let new_full_blocks := py_slice blks num_cached_blocks num_full_blocks in
    _ ← py_assert (num_full_blocks <=? len (block_hashes r));
    let new_block_hashes := py_from (block_hashes r) num_cached_blocks in
    '(new_hashes, P) ← cache_loop use_int gid new_block_hashes 0 new_full_blocks [] P;
    if enable_kv_cache_events P then
      parent ← (if num_cached_blocks =? 0 then Ok None
                else
                  b ← py_index blks (num_cached_blocks - 1);
                  key ← of_option AssertionError (hash_at P b);
                  Ok (Some (maybe_convert_block_hash use_int (get_block_hash key))));
      lora ← event_lora_id r;
      let ev := BlockStored new_hashes parent
        (py_slice (all_token_ids r) (num_cached_blocks * block_size)
                  (num_full_blocks * block_size))
        block_size lora MEDIUM_GPU in
      Ok (with_events (kv_event_queue P ++ [ev]) P)
    else Ok P.

(** [_maybe_evict_cached_block]. *)
Definition maybe_evict_cached_block (use_int : bool) (p : ptr) (P : BlockPool)
  : bool * BlockPool :=
  match hash_at P p with
  | None => (false, P)
  | Some key =>
      let '(r, m) := BlockMap.pop (pool_heap P) key (id_of (pool_heap P) p)
                       (cached_block_hash_to_block P) in
      let P := with_cache m P in
      match r with
      | None => (false, P)
      | Some _ =>
          let P := with_heap (reset_hash p (pool_heap P)) P in
          let P := if enable_kv_cache_events P then
                     with_events (kv_event_queue P ++
                       [BlockRemoved [maybe_convert_block_hash use_int (get_block_hash key)]
                          MEDIUM_GPU]) P
                   else P in
          (true, P)
      end
  end.

(** The loop of [get_new_blocks] on one popped block. *)
Definition take_block (use_int : bool) (p : ptr) (P : BlockPool) : result BlockPool :=
  let P := if enable_caching P then snd (maybe_evict_cached_block use_int p P) else P in
  _ ← py_assert (rc P p =? 0);
  Ok (with_heap (add_ref 1 p (pool_heap P)) P).

Definition get_new_blocks (use_int : bool) (num_blocks : Z) (P : BlockPool)
  : result (list ptr * BlockPool) :=
  if get_num_free_blocks P <? num_blocks then Err ValueError
  else
    '(ret, q) ← Queue.popleft_n num_blocks (free_block_queue P);
    P ← for_each (take_block use_int) ret (with_queue q P);
    Ok (ret, P).

(** The body of [touch]. *)
Definition touch_block (p : ptr) (P : BlockPool) : result BlockPool :=
  P ← (if (rc P p =? 0) && negb (null_at P p) then
         q ← Queue.remove p (free_block_queue P); Ok (with_queue q P)
       else Ok P);
  Ok (with_heap (add_ref 1 p (pool_heap P)) P).

Definition touch (blocks : list (list ptr)) (P : BlockPool) : result BlockPool :=
  for_each (λ blocks_per_group, for_each touch_block blocks_per_group) blocks P.

(** [free_blocks]. *)
Definition free_blocks (ordered_blocks : list ptr) (P : BlockPool) : result BlockPool :=
  let h := fold_left (λ h p, add_ref (-1) p h) ordered_blocks (pool_heap P) in
  let P := with_heap h P in
  q ← Queue.append_n (filter (λ p, rc P p = 0 ∧ null_at P p = false) ordered_blocks)
        (free_block_queue P);
  Ok (with_queue q P).

Definition reset_prefix_cache (P : BlockPool) : bool * BlockPool :=
  let num_used_blocks := num_gpu_blocks P - get_num_free_blocks P in
  if num_used_blocks =? 1 then
    let P := with_cache ∅ P in
    let P := with_heap (fold_left (λ h p, reset_hash p h) (blocks P) (pool_heap P)) P in
    let P := if enable_kv_cache_events P
             then with_events (kv_event_queue P ++ [AllBlocksCleared]) P else P in
    (true, P)
  else (false, P).

(** [get_usage], as the numerator and denominator of the fraction in use. *)
Definition get_usage (P : BlockPool) : Z * Z :=
  let total_gpu_blocks := num_gpu_blocks P - 1 in
  if total_gpu_blocks =? 0 then (0, 1)
  else (total_gpu_blocks - get_num_free_blocks P, total_gpu_blocks).

Definition take_events (P : BlockPool) : list KVCacheEvent * BlockPool :=
  if enable_kv_cache_events P then (kv_event_queue P, with_events [] P) else ([], P).

End Pool.

(** ** Attributes through updates *)

(** Attribute updates leave the links alone, so they keep every queue. *)
Definition same_links (h h' : heap) : Prop :=
  ∀ p, nx h' p = nx h p ∧ pv h' p = pv h p.

(** Block ids and null flags never change after construction. *)
Definition static (b : KVCacheBlock) : Z * bool := (block_id b, is_null b).
Definition same_static (h h' : heap) : Prop :=
  ∀ p, static <$> h !! p = static <$> h' !! p.

#[export] Instance same_links_preorder : PreOrder same_links.
Proof.
  split; [by intros h p|]. intros h1 h2 h3 H12 H23 p.
  destruct (H12 p), (H23 p). split; congruence.
Qed.
#[export] Instance same_static_equiv : Equivalence same_static.
Proof. split; [by intros ??|by intros ????|intros ??? H1 H2 p; by rewrite H1]. Qed.

Lemma queue_rep_links h h' n l :
  same_links h h' → queue_rep (mkQueue h n) l → queue_rep (mkQueue h' n) l.
Proof.
  intros Hl [Hc Hnd Hn [He1 He2] Hoff]. split; cbn [q_heap num_free_blocks] in *; try done.
  - unfold ring in *. eapply chain_frame_post; [| |exact Hc]; intros; apply Hl.
  - by rewrite (proj1 (Hl _)), (proj2 (Hl _)).
  - intros p Hp. rewrite (proj1 (Hl _)), (proj2 (Hl _)). by apply Hoff.
Qed.

Definition rcH (h : heap) (p : ptr) : Z := from_option ref_cnt 0 (h !! p).
Definition hashH (h : heap) (p : ptr) : option bytes := h !! p ≫= block_hash.

Ltac upd_cases := intros; unfold add_ref, set_hash, reset_hash, set_null, rcH, hashH, nx, pv;
  rewrite lookup_alter; case_decide; subst; [|done]; by destruct (_ !! _).

Section updates.
Implicit Types (h : heap) (p q : ptr).

Lemma same_links_add_ref h d p : same_links h (add_ref d p h).
Proof. intros q; split; upd_cases. Qed.
Lemma same_links_set_hash h v p : same_links h (set_hash p v h).
Proof. intros q; split; upd_cases. Qed.
Lemma same_links_set_null h p : same_links h (set_null p h).
Proof. intros q; split; upd_cases. Qed.
Lemma same_static_add_ref h d p : same_static h (add_ref d p h).
Proof. intros q; upd_cases. Qed.
Lemma same_static_set_hash h v p : same_static h (set_hash p v h).
Proof. intros q; upd_cases. Qed.
Lemma hash_add_ref h d p q : hashH (add_ref d p h) q = hashH h q.
Proof. upd_cases. Qed.
Lemma rc_set_hash h v p q : rcH (set_hash p v h) q = rcH h q.
Proof. upd_cases. Qed.
Lemma rc_add_ref h d p q :
  is_Some (h !! p) → rcH (add_ref d p h) q = rcH h q + (if decide (q = p) then d else 0).
Proof.
  intros [b Hb]. unfold rcH, add_ref. rewrite lookup_alter. repeat case_decide; simplify_eq; try lia.
  rewrite Hb. simpl. lia.
Qed.
Lemma hash_set_hash h v p q :
  is_Some (h !! p) → hashH (set_hash p v h) q = if decide (q = p) then v else hashH h q.
Proof.
  intros [b Hb]. unfold hashH, set_hash. rewrite lookup_alter.
  repeat case_decide; simplify_eq; try done. by rewrite Hb.
Qed.
Lemma same_static_in h h' p : same_static h h' → is_Some (h !! p) → is_Some (h' !! p).
Proof. intros Hm. rewrite <-!(fmap_is_Some static). by rewrite Hm. Qed.
End updates.

(** What the links do not determine is kept by a queue operation. *)
Lemma same_meta_static h h' : same_meta h h' → same_static h h'.
Proof.
  intros Hm p. specialize (Hm p). destruct (h !! p), (h' !! p); simpl in *; try done.
  unfold meta, static in *. congruence.
Qed.
Lemma same_meta_rc h h' p : same_meta h h' → rcH h' p = rcH h p.
Proof.
  intros Hm. specialize (Hm p). unfold rcH. destruct (h !! p), (h' !! p); simpl in *; try done.
  unfold meta in *. congruence.
Qed.
Lemma same_meta_hash h h' p : same_meta h h' → hashH h' p = hashH h p.
Proof.
  intros Hm. specialize (Hm p). unfold hashH. destruct (h !! p), (h' !! p); simpl in *; try done.
  unfold meta in *. congruence.
Qed.

#[export] Hint Resolve same_links_add_ref same_links_set_hash same_links_set_null
  same_static_add_ref same_static_set_hash same_meta_static : heap.

(** ** The invariant *)

Definition valid (P : BlockPool) (p : ptr) : Prop :=
  ∃ i, p = Blk i ∧ 0 ≤ i < num_gpu_blocks P.

(** [fl] is the free list, in eviction order; [pend] are blocks taken from it
    that have no reference yet (inside [get_new_blocks]). *)
Record pool_ok (P : BlockPool) (fl pend : list ptr) : Prop := {
  pi_pos : 0 < num_gpu_blocks P;
  pi_blocks : blocks P = Blk <$> seqZ 0 (num_gpu_blocks P);
  pi_null : null_block P = Blk 0;
  pi_static : ∀ i, static <$> pool_heap P !! Blk i =
    if decide (0 ≤ i < num_gpu_blocks P) then Some (i, bool_decide (i = 0)) else None;
  pi_null_hash : hash_at P (Blk 0) = None;
  pi_queue : queue_rep (free_block_queue P) fl;
  pi_free : ∀ p, p ∈ fl ∨ p ∈ pend ↔ valid P p ∧ p ≠ Blk 0 ∧ rc P p = 0;
  pi_disj : ∀ p, p ∈ fl → p ∉ pend;
  pi_rc : ∀ p, valid P p → p ≠ Blk 0 → 0 ≤ rc P p;
  pi_map : map_ok (cached_block_hash_to_block P);
  pi_cache : ∀ key p, p ∈ entries (cached_block_hash_to_block P) key ↔
    valid P p ∧ hash_at P p = Some key;
}.

Definition pool_inv (P : BlockPool) (fl : list ptr) : Prop := pool_ok P fl [].

(** The configuration of the pool, which no operation changes. *)
Definition same_cfg (P P' : BlockPool) : Prop :=
  num_gpu_blocks P' = num_gpu_blocks P ∧ enable_caching P' = enable_caching P ∧
  blocks P' = blocks P ∧ null_block P' = null_block P ∧
  enable_kv_cache_events P' = enable_kv_cache_events P.

#[export] Instance same_cfg_equiv : Equivalence same_cfg.
Proof.
  split; unfold same_cfg; [by intros P|intros P Q (?&?&?&?&?)|intros P Q R (?&?&?&?&?) (?&?&?&?&?)];
    split_and!; congruence.
Qed.

Lemma rc_rcH P p : rc P p = rcH (pool_heap P) p.
Proof. done. Qed.
Lemma hash_hashH P p : hash_at P p = hashH (pool_heap P) p.
Proof. done. Qed.

Section inv_facts.
Context (P : BlockPool) (fl pend : list ptr) (HP : pool_ok P fl pend).

Lemma valid_in p : valid P p → is_Some (pool_heap P !! p).
Proof.
  intros (i&->&Hi). pose proof (pi_static _ _ _ HP i) as Hs. rewrite decide_True in Hs by done.
  rewrite <-(fmap_is_Some static), Hs. eauto.
Qed.

Lemma valid_null p : valid P p → null_at P p = bool_decide (p = Blk 0).
Proof.
  intros (i&->&Hi). pose proof (pi_static _ _ _ HP i) as Hs. rewrite decide_True in Hs by done.
  unfold null_at. destruct (pool_heap P !! Blk i) as [b|]; simpl in *; [|done].
  unfold static in Hs. injection Hs as _ ->. apply bool_decide_ext. naive_solver.
Qed.

Lemma valid_id p : valid P p → ids_ok (pool_heap P) p.
Proof.
  intros (i&->&Hi). pose proof (pi_static _ _ _ HP i) as Hs. rewrite decide_True in Hs by done.
  unfold ids_ok, id_of. destruct (pool_heap P !! Blk i) as [b|]; simpl in *; [|done].
  unfold static in Hs. by injection Hs as ->.
Qed.

Lemma fl_nodup : NoDup fl.
Proof.
  pose proof (qr_nodup _ _ (pi_queue _ _ _ HP)) as [_ Hnd]%NoDup_cons.
  by apply NoDup_app in Hnd as [? _].
Qed.

Lemma valid_off_ring p : valid P p → p ∉ fl → p ∉ ring fl.
Proof. intros (i&->&_) Hp. unfold ring. set_solver. Qed.

Lemma num_free : Pool.get_num_free_blocks P = len fl.
Proof. apply (qr_num _ _ (pi_queue _ _ _ HP)). Qed.
End inv_facts.

(** One lemma rebuilds the invariant after any change of queue, cache and
    events that keeps the block identities. *)
Lemma pool_ok_update P fl pend q m es fl' pend' :
  pool_ok P fl pend →
  same_static (pool_heap P) (q_heap q) → queue_rep q fl' →
  hashH (q_heap q) (Blk 0) = None →
  (∀ p, p ∈ fl' ∨ p ∈ pend' ↔ valid P p ∧ p ≠ Blk 0 ∧ rcH (q_heap q) p = 0) →
  (∀ p, p ∈ fl' → p ∉ pend') →
  (∀ p, valid P p → p ≠ Blk 0 → 0 ≤ rcH (q_heap q) p) →
  map_ok m →
  (∀ key p, p ∈ entries m key ↔ valid P p ∧ hashH (q_heap q) p = Some key) →
  pool_ok (with_events es (with_cache m (with_queue q P))) fl' pend'.
Proof.
  intros [] Hst Hq Hnh Hfree Hdisj Hrc Hm Hc. split; try done.
  intros i. cbn. rewrite <-pi_static0. symmetry. apply Hst.
Qed.

Lemma with_same P :
  with_events (kv_event_queue P) (with_cache (cached_block_hash_to_block P)
    (with_queue (free_block_queue P) P)) = P.
Proof. by destruct P. Qed.
Lemma with_queue_same P q :
  with_queue q P = with_events (kv_event_queue P) (with_cache (cached_block_hash_to_block P)
    (with_queue q P)).
Proof. by destruct P. Qed.

(** ** Construction *)

Lemma init_store n :
  let h : heap := list_to_map ((λ i, (Blk i, new_block i)) <$> py_range 0 n) in
  (∀ i, h !! Blk i = if decide (0 ≤ i < n) then Some (new_block i) else None) ∧
  (∀ p, nx h p = None ∧ pv h p = None).
Proof.
  intros h.
  assert (∀ i, h !! Blk i = if decide (0 ≤ i < n) then Some (new_block i) else None) as Hb.
  { intros i. case_decide as Hi.
    - apply elem_of_list_to_map_1.
      + rewrite <-list_fmap_compose. apply NoDup_fmap; [by intros ???; simplify_eq|apply NoDup_seqZ].
      + apply list_elem_of_fmap. exists i. split; [done|]. apply elem_of_seqZ. lia.
    - apply not_elem_of_list_to_map_1. rewrite <-list_fmap_compose.
      intros (j&?&Hj)%list_elem_of_fmap. simplify_eq/=. apply elem_of_seqZ in Hj. lia. }
  split; [done|]. intros p. unfold nx, pv. destruct (h !! p) as [b|] eqn:E; [|done].
  apply elem_of_list_to_map_2, list_elem_of_fmap in E as (j&?&_). by simplify_eq/=.
Qed.

Lemma hashH_new h p : (∀ b, h !! p = Some b → block_hash b = None) → hashH h p = None.
Proof. intros H. unfold hashH. destruct (h !! p) eqn:E; simpl; [by apply H|done]. Qed.

Lemma init_pool n caching events :
  0 < n →
  ∃ P, Pool.init n caching events = Ok P ∧ pool_inv P (Blk <$> seqZ 1 (n - 1)) ∧
    num_gpu_blocks P = n ∧ enable_caching P = caching ∧ enable_kv_cache_events P = events ∧
    (∀ p, valid P p → rc P p = 0 ∧ hash_at P p = None) ∧ kv_event_queue P = [].
Proof.
  intros Hn. unfold Pool.init. rewrite py_assert_true by (by apply Z.ltb_lt). rewrite Ok_bind.
  destruct (init_store n) as [Hlk Hfresh]. set (h := list_to_map _) in *. cbn zeta.
  set (refs := Blk <$> py_range 0 n).
  assert (refs = Blk 0 :: (Blk <$> seqZ 1 (n - 1))) as Hrefs.
  { unfold refs, py_range. rewrite Z.sub_0_r. by rewrite seqZ_cons by lia. }
  destruct (init_spec refs h) as (q&->&Hq&Hm).
  { apply NoDup_fmap; [by intros ???; simplify_eq|apply NoDup_seqZ]. }
  { by intros (?&?&_)%list_elem_of_fmap. } { by intros (?&?&_)%list_elem_of_fmap. }
  { intros p (i&->&Hi)%list_elem_of_fmap. apply elem_of_seqZ in Hi.
    rewrite Hlk, decide_True by lia. eauto. } { done. }
  rewrite Ok_bind. rewrite Hrefs in Hq. destruct (popleft_spec _ _ _ Hq) as (q1&->&Hq1&Hm1).
  rewrite Ok_bind. set (h1 := set_null (Blk 0) (q_heap q1)).
  assert (∀ i, meta <$> h1 !! Blk i =
    if decide (0 ≤ i < n) then Some (i, 0, None, bool_decide (i = 0)) else None) as Hh1.
  { intros i. specialize (Hm1 (Blk i)). rewrite Hm, Hlk in Hm1. unfold h1, set_null.
    rewrite lookup_alter. destruct (decide (Blk 0 = Blk i)) as [Hi|Hi]; simplify_eq.
    - rewrite !decide_True by lia. rewrite decide_True in Hm1 by lia.
      destruct (q_heap q1 !! Blk 0) as [b|]; simpl in *; [|discriminate Hm1].
      unfold meta in *. simpl in *. congruence.
    - rewrite <-Hm1. case_decide; [|done]. simpl. rewrite bool_decide_false; [done|congruence]. }
  assert (∀ p, p = Blk 0 ∨ p ∈ Blk <$> seqZ 1 (n - 1) ↔ ∃ i, p = Blk i ∧ 0 ≤ i < n) as Hval.
  { intros p. rewrite <-elem_of_cons, <-Hrefs. unfold refs.
    rewrite list_elem_of_fmap. setoid_rewrite elem_of_seqZ. split; intros (i&?&?); exists i; (split; [done|lia]). }
  eexists. split; [done|].
  assert (∀ i, 0 ≤ i < n → rcH h1 (Blk i) = 0 ∧ hashH h1 (Blk i) = None ∧
    static <$> h1 !! Blk i = Some (i, bool_decide (i = 0))) as Hattr.
  { intros i Hi. specialize (Hh1 i). rewrite decide_True in Hh1 by done.
    unfold rcH, hashH. destruct (h1 !! Blk i) as [b|]; [|done].
    unfold meta, static in *. simpl in *. split_and!; congruence. }
  assert (same_links (q_heap q1) h1) as Hl by eauto with heap.
  split; [split|]; try done; cbn -[h1].
  - unfold refs, py_range. by rewrite Z.sub_0_r.
  - intros i. fold h1. case_decide; [by apply Hattr|].
    specialize (Hh1 i). rewrite decide_False in Hh1 by done. by destruct (h1 !! Blk i).
  - by apply Hattr.
  - apply (queue_rep_links (q_heap q1)); [done|]. by destruct q1.
  - intros p. split.
    + intros [(i&->&Hi)%list_elem_of_fmap|[]%elem_of_nil]. apply elem_of_seqZ in Hi.
      split; [exists i; simpl; split; [done|lia]|]. split; [intros ?; simplify_eq; lia|].
      apply Hattr. lia.
    + intros ((i&->&Hi)&Hne&_). left. apply list_elem_of_fmap. exists i. split; [done|].
      apply elem_of_seqZ. simpl in Hi. assert (i ≠ 0) by congruence. lia.
  - by intros p _ ?%elem_of_nil.
  - intros p (i&->&Hi) _. destruct (Hattr i Hi) as [H0 _]. unfold rc, pool_heap. cbn -[h1].
    unfold rcH in H0. lia.
  - intros key p. unfold entries. rewrite lookup_empty. simpl. split; [by intros ?%elem_of_nil|].
    intros [(i&->&Hi) Hh]. destruct (Hattr i Hi) as (_&H0&_). by rewrite hash_hashH in Hh; cbn -[h1] in Hh; rewrite H0 in Hh.
  - split_and!; try done. intros p (i&->&Hi). by destruct (Hattr i Hi) as (?&?&_).
Qed.

(** ** Eviction and allocation *)

Lemma same_cfg_valid P P' p : same_cfg P P' → valid P' p ↔ valid P p.
Proof. intros (Hn&_). unfold valid. by rewrite Hn. Qed.

Lemma queue_eta P fl pend :
  pool_ok P fl pend →
  queue_rep (mkQueue (pool_heap P) (num_free_blocks (free_block_queue P))) fl.
Proof. intros HP. pose proof (pi_queue _ _ _ HP). unfold pool_heap. by destruct (free_block_queue P). Qed.

(** Evicting a block that is in the store removes it from the cache map and
    clears its hash, whether or not it had one. *)
Lemma evict_spec use_int P fl pend p :
  pool_ok P fl pend → valid P p →
  ∃ P', Pool.maybe_evict_cached_block use_int p P
      = (bool_decide (is_Some (hash_at P p)), P') ∧
    pool_ok P' fl pend ∧ same_cfg P P' ∧ (∀ q, rc P' q = rc P q) ∧
    (∀ q, hash_at P' q = if decide (q = p) then None else hash_at P q).
Proof.
  intros HP Hv. unfold Pool.maybe_evict_cached_block.
  destruct (hash_at P p) as [key|] eqn:Hh.
  2: { exists P. split_and!; try done. intros q. by case_decide; subst. }
  assert (∀ q, q ∈ entries (cached_block_hash_to_block P) key → ids_ok (pool_heap P) q) as Hids.
  { intros q Hq. apply (pi_cache _ _ _ HP) in Hq as [? _]. by eapply valid_id. }
  pose proof (pop_spec (pool_heap P) key p (cached_block_hash_to_block P)
    (pi_map _ _ _ HP) (valid_id _ _ _ HP p Hv) Hids) as Hpop.
  destruct (BlockMap.pop _ _ _ _) as [r m]. destruct Hpop as (->&Hm&Hent).
  rewrite decide_True by (apply (pi_cache _ _ _ HP); done).
  set (es := if enable_kv_cache_events P then
    kv_event_queue P ++ [BlockRemoved [maybe_convert_block_hash use_int (get_block_hash key)] MEDIUM_GPU]
    else kv_event_queue P).
  set (q' := mkQueue (reset_hash p (pool_heap P)) (num_free_blocks (free_block_queue P))).
  exists (with_events es (with_cache m (with_queue q' P))).
  pose proof (valid_in _ _ _ HP p Hv) as Hin.
  assert (∀ q, hashH (q_heap q') q = if decide (q = p) then None else hash_at P q) as Hhash.
  { intros q. by apply hash_set_hash. }
  split_and!.
  - unfold es. by destruct P as [? ? ? ? ? ? [] ?].
  - apply (pool_ok_update P fl pend); try done.
    + apply same_static_set_hash.
    + eapply queue_rep_links; [|by eapply queue_eta]. unfold reset_hash. eauto with heap.
    + rewrite Hhash. case_decide; [done|]. apply HP.
    + intros q. cbn [q_heap q']. unfold q', reset_hash. rewrite rc_set_hash. apply HP.
    + apply HP.
    + intros q. unfold q', reset_hash. cbn [q_heap]. rewrite rc_set_hash. apply HP.
    + intros key' q. rewrite Hent, Hhash. case_decide; subst.
      * rewrite list_elem_of_filter, (pi_cache _ _ _ HP). case_decide; naive_solver.
      * rewrite (pi_cache _ _ _ HP). case_decide; naive_solver.
  - done.
  - intros q. apply rc_set_hash.
  - apply Hhash.
Qed.

(** Adding references to a block, with the change of the free list it implies. *)
Lemma add_ref_ok P fl pend fl' pend' p d :
  pool_ok P fl pend → valid P p →
  queue_rep (mkQueue (pool_heap P) (num_free_blocks (free_block_queue P))) fl' →
  (∀ q, q ∈ fl' ∨ q ∈ pend' ↔
     valid P q ∧ q ≠ Blk 0 ∧ rc P q + (if decide (q = p) then d else 0) = 0) →
  (∀ q, q ∈ fl' → q ∉ pend') →
  (p ≠ Blk 0 → 0 ≤ rc P p + d) →
  let P' := with_heap (add_ref d p (pool_heap P)) P in
  pool_ok P' fl' pend' ∧ same_cfg P P' ∧
  (∀ q, rc P' q = rc P q + if decide (q = p) then d else 0) ∧
  (∀ q, hash_at P' q = hash_at P q).
Proof.
  intros HP Hv Hq Hfree Hdisj Hd P'. pose proof (valid_in _ _ _ HP p Hv) as Hin.
  assert (∀ q, rcH (add_ref d p (pool_heap P)) q
    = rc P q + if decide (q = p) then d else 0) as Hrc by (intros; by apply rc_add_ref).
  split_and!; try done; [|intros; apply hash_add_ref].
  unfold P', with_heap. rewrite with_queue_same. apply (pool_ok_update P fl pend); try done.
  - apply same_static_add_ref.
  - eapply queue_rep_links; [|exact Hq]. eauto with heap.
  - cbn [q_heap]. rewrite hash_add_ref. apply HP.
  - intros q. cbn [q_heap]. rewrite Hrc. apply Hfree.
  - intros q Hvq Hne. cbn [q_heap]. rewrite Hrc. pose proof (pi_rc _ _ _ HP q Hvq Hne).
    case_decide; subst; [by apply Hd|lia].
  - apply HP.
  - intros key q. cbn [q_heap]. rewrite hash_add_ref. apply HP.
Qed.

(** One iteration of the loop of [get_new_blocks]. *)
Lemma take_block_spec use_int P fl p pend :
  pool_ok P fl (p :: pend) → p ∉ pend →
  ∃ P', Pool.take_block use_int p P = Ok P' ∧ pool_ok P' fl pend ∧ same_cfg P P' ∧
    (∀ q, rc P' q = rc P q + if decide (q = p) then 1 else 0) ∧
    (∀ q, hash_at P' q =
       if decide (q = p) then (if enable_caching P then None else hash_at P q) else hash_at P q).
Proof.
  intros HP Hnp. unfold Pool.take_block.
  destruct (proj1 (pi_free _ _ _ HP p)) as (Hv&Hne&Hrc0); [right; by left|].
  destruct (evict_spec use_int P fl (p :: pend) p HP Hv) as (P1&He&HP1&Hcfg&Hrc&Hh).
  set (P2 := if enable_caching P then _ else _).
  assert (pool_ok P2 fl (p :: pend) ∧ same_cfg P P2 ∧ (∀ q, rc P2 q = rc P q) ∧
    (∀ q, hash_at P2 q =
       if decide (q = p) then (if enable_caching P then None else hash_at P q) else hash_at P q))
    as (HP2&Hcfg2&Hrc2&Hh2).
  { unfold P2. rewrite He. destruct (enable_caching P); [done|]. split_and!; try done.
    intros q. by case_decide. }
  rewrite py_assert_true by (apply Z.eqb_eq; by rewrite Hrc2). rewrite Ok_bind.
  assert (valid P2 p) as Hv2 by by apply (same_cfg_valid P).
  destruct (add_ref_ok P2 fl (p :: pend) fl pend p 1 HP2 Hv2) as (H1&H2&H3&H4).
  - by eapply queue_eta.
  - intros q. pose proof (pi_free _ _ _ HP2 q) as Hf. rewrite elem_of_cons in Hf.
    pose proof (pi_disj _ _ _ HP2 q). case_decide; subst.
    + split; [|rewrite Hrc2, Hrc0; lia]. intros [?|?]; [|done]. set_solver.
    + rewrite Z.add_0_r, <-Hf. naive_solver.
  - intros q Hq. pose proof (pi_disj _ _ _ HP2 q Hq). set_solver.
  - intros _. rewrite Hrc2. lia.
  - eexists. split; [done|]. split_and!; [done|by etrans| |]; intros q.
    + by rewrite H3, Hrc2.
    + by rewrite H4, Hh2.
Qed.

Lemma take_blocks_spec use_int P fl pend :
  pool_ok P fl pend → NoDup pend →
  ∃ P', for_each (Pool.take_block use_int) pend P = Ok P' ∧ pool_inv P' fl ∧ same_cfg P P' ∧
    (∀ q, rc P' q = rc P q + occ q pend) ∧
    (∀ q, q ∉ pend → hash_at P' q = hash_at P q) ∧
    (∀ q, q ∈ pend → hash_at P' q = if enable_caching P then None else hash_at P q).
Proof.
  induction pend as [|p pend IH] in P |- *; intros HP Hnd; simpl.
  { exists P. split_and!; try done; [intros; lia|]. by intros q ?%elem_of_nil. }
  apply NoDup_cons in Hnd as [Hp Hnd].
  destruct (take_block_spec use_int P fl p pend HP Hp) as (P1&->&HP1&Hcfg&Hrc&Hh). rewrite Ok_bind.
  destruct (IH P1 HP1 Hnd) as (P2&->&HP2&Hcfg2&Hrc2&Hh2&Hh2').
  exists P2. split_and!; [done|done|by etrans| | |].
  - intros q. rewrite Hrc2, Hrc. lia.
  - intros q [Hq1 Hq2]%not_elem_of_cons. rewrite Hh2, Hh by done. by rewrite decide_False.
  - assert (enable_caching P1 = enable_caching P) as Hc1 by apply Hcfg.
    intros q Hq. destruct (decide (q ∈ pend)) as [Hin|Hin].
    + assert (q ≠ p) by (by intros ->). rewrite Hh2', Hc1, Hh by done. by rewrite decide_False.
    + rewrite Hh2, Hh by done. apply elem_of_cons in Hq as [->|?]; [|done].
      by rewrite decide_True.
Qed.

(** [get_new_blocks n] takes the first [n] blocks of the free list, each with
    one reference and, with caching on, no longer in the cache. *)
Lemma get_new_blocks_spec use_int P fl n :
  pool_inv P fl → 0 ≤ n ≤ len fl →
  ∃ P', let l := take (Z.to_nat n) fl in
    Pool.get_new_blocks use_int n P = Ok (l, P') ∧ pool_inv P' (drop (Z.to_nat n) fl) ∧
    same_cfg P P' ∧ (∀ q, rc P' q = rc P q + occ q l) ∧
    (∀ q, q ∉ l → hash_at P' q = hash_at P q) ∧
    (∀ q, q ∈ l → hash_at P' q = if enable_caching P then None else hash_at P q).
Proof.
  intros HP Hn. set (l := take (Z.to_nat n) fl). set (fl' := drop (Z.to_nat n) fl).
  assert (fl = l ++ fl') as Hfl by (symmetry; apply take_drop).
  unfold Pool.get_new_blocks. rewrite (num_free _ _ _ HP).
  rewrite (proj2 (Z.ltb_ge _ _)) by lia.
  pose proof (pi_queue _ _ _ HP) as Hq. rewrite Hfl in Hq.
  destruct (popleft_n_spec _ _ _ Hq) as (q'&Hpop&Hq'&Hm).
  assert (len l = n) as Hl by (unfold l; rewrite len_take by lia; lia).
  rewrite Hl in Hpop. rewrite Hpop, Ok_bind.
  pose proof (fl_nodup _ _ _ HP) as Hnd. rewrite Hfl in Hnd. apply NoDup_app in Hnd as (Hnd1&Hnd2&_).
  destruct (take_blocks_spec use_int (with_queue q' P) fl' l) as (P'&Hrun&HP'&Hcfg&Hrc&Hh&Hh'); [|done|].
  - rewrite with_queue_same. apply (pool_ok_update P fl []); try done.
    + eauto with heap.
    + rewrite (same_meta_hash _ _ _ Hm). apply HP.
    + intros p. rewrite (same_meta_rc _ _ _ Hm). rewrite <-(pi_free _ _ _ HP p), Hfl, elem_of_app. set_solver.
    + intros p Hp Hp'. by destruct (Hnd2 p).
    + intros p. rewrite (same_meta_rc _ _ _ Hm). apply HP.
    + apply HP.
    + intros key p. rewrite (same_meta_hash _ _ _ Hm). apply HP.
  - exists P'. rewrite Hrun. split_and!; try done.
    + intros p. rewrite Hrc. f_equal. apply (same_meta_rc _ _ _ Hm).
    + intros p Hp. rewrite Hh by done. apply (same_meta_hash _ _ _ Hm).
    + intros p Hp. rewrite Hh' by done. change (enable_caching (with_queue q' P)) with (enable_caching P).
      destruct (enable_caching P); [done|]. apply (same_meta_hash _ _ _ Hm).
Qed.

(** Asking for more blocks than are free raises and changes nothing. *)
Lemma get_new_blocks_short use_int P fl n :
  pool_inv P fl → len fl < n → Pool.get_new_blocks use_int n P = Err ValueError.
Proof.
  intros HP Hn. unfold Pool.get_new_blocks. rewrite (num_free _ _ _ HP).
  by rewrite (proj2 (Z.ltb_lt _ _)).
Qed.

(** ** References *)

(** Removing one block from the free list. *)
Lemma remove_filter q l x :
  queue_rep q l → x ∈ l →
  ∃ q', Queue.remove x q = Ok q' ∧ queue_rep q' (filter (.≠ x) l) ∧
    same_meta (q_heap q) (q_heap q').
Proof.
  intros Hq (l1&l2&->)%list_elem_of_split.
  assert (NoDup (l1 ++ x :: l2)) as Hnd.
  { pose proof (qr_nodup _ _ Hq) as [_ Hnd]%NoDup_cons. by apply NoDup_app in Hnd as [? _]. }
  apply NoDup_app in Hnd as (_&Hd&[Hx _]%NoDup_cons).
  rewrite filter_app, filter_cons_False by naive_solver.
  rewrite !filter_id; [by apply remove_spec|..].
  - intros y Hy ->. done.
  - intros y Hy ->. by apply (Hd x Hy), list_elem_of_here.
Qed.

(** One step of [touch]. *)
Lemma touch_block_spec P fl p :
  pool_inv P fl → valid P p →
  ∃ P', Pool.touch_block p P = Ok P' ∧ pool_inv P' (filter (.≠ p) fl) ∧ same_cfg P P' ∧
    (∀ q, rc P' q = rc P q + if decide (q = p) then 1 else 0) ∧
    (∀ q, hash_at P' q = hash_at P q).
Proof.
  intros HP Hv. unfold Pool.touch_block. rewrite (valid_null _ _ _ HP p Hv).
  pose proof (pi_free _ _ _ HP) as Hfree.
  assert (∀ fl', fl' = filter (.≠ p) fl → ∀ q, rc P p = 0 ∨ q ≠ p ∨ p = Blk 0 ∨ 0 < rc P p →
    q ∈ fl' ∨ q ∈ [] ↔ valid P q ∧ q ≠ Blk 0 ∧ rc P q + (if decide (q = p) then 1 else 0) = 0) as Hf.
  { intros fl' -> q Hq. specialize (Hfree q). rewrite list_elem_of_filter, elem_of_nil in *.
    case_decide; subst; [|rewrite Z.add_0_r; naive_solver].
    split; [naive_solver|]. intros (_&?&?). destruct Hq as [?|[?|[?|?]]]; try done; lia. }
  destruct ((rc P p =? 0) && negb (bool_decide (p = Blk 0))) eqn:Hc.
  - apply andb_true_iff in Hc as [H0%Z.eqb_eq Hn%negb_true_iff%bool_decide_eq_false].
    assert (p ∈ fl) as Hin by (destruct (proj2 (Hfree p)) as [|?%elem_of_nil]; done).
    destruct (remove_filter _ _ _ (pi_queue _ _ _ HP) Hin) as (q'&->&Hq'&Hm). rewrite !Ok_bind.
    assert (pool_ok (with_queue q' P) (filter (.≠ p) fl) [p]) as HP1.
    { rewrite with_queue_same. apply (pool_ok_update P fl []); try done.
      - eauto with heap.
      - rewrite (same_meta_hash _ _ _ Hm). apply HP.
      - intros q. rewrite (same_meta_rc _ _ _ Hm), <-(Hfree q).
        rewrite list_elem_of_filter, elem_of_nil, list_elem_of_singleton.
        destruct (decide (q = p)); naive_solver.
      - intros q. rewrite list_elem_of_filter, list_elem_of_singleton. naive_solver.
      - intros q. rewrite (same_meta_rc _ _ _ Hm). apply HP.
      - apply HP.
      - intros key q. rewrite (same_meta_hash _ _ _ Hm). apply HP. }
    assert (∀ q, rc (with_queue q' P) q = rc P q) as Hrc1 by (intros; by apply same_meta_rc).
    destruct (add_ref_ok _ _ _ (filter (.≠ p) fl) [] p 1 HP1 Hv) as (H1&H2&H3&H4).
    + by destruct q'.
    + intros q. rewrite Hrc1. apply (Hf _ eq_refl q). by left.
    + by intros q _ ?%elem_of_nil.
    + intros _. rewrite Hrc1. lia.
    + eexists. split; [done|]. split_and!; [done|done| |]; intros q.
      * by rewrite H3, Hrc1.
      * rewrite H4. by apply same_meta_hash.
  - rewrite Ok_bind. assert (filter (.≠ p) fl = fl) as Hff.
    { apply filter_id. intros q Hq ->. destruct (proj1 (Hfree p) (or_introl Hq)) as (_&Hn&H0).
      rewrite H0, bool_decide_false in Hc by done. done. }
    destruct (add_ref_ok P fl [] (filter (.≠ p) fl) [] p 1 HP Hv) as (H1&H2&H3&H4).
    + rewrite Hff. by eapply queue_eta.
    + intros q. apply (Hf _ eq_refl q). apply andb_false_iff in Hc as [Hc|Hc].
      * apply Z.eqb_neq in Hc. destruct (decide (p = Blk 0)) as [|Hne]; [by auto|].
        pose proof (pi_rc _ _ _ HP p Hv Hne). right; right; right. lia.
      * apply negb_false_iff, bool_decide_eq_true in Hc. auto.
    + by intros q _ ?%elem_of_nil.
    + intros Hn. pose proof (pi_rc _ _ _ HP p Hv Hn). lia.
    + eexists. split; [done|]. done.
Qed.

Lemma touch_blocks_spec P fl l :
  pool_inv P fl → Forall (valid P) l →
  ∃ P', for_each Pool.touch_block l P = Ok P' ∧ pool_inv P' (filter (.∉ l) fl) ∧ same_cfg P P' ∧
    (∀ q, rc P' q = rc P q + occ q l) ∧ (∀ q, hash_at P' q = hash_at P q).
Proof.
  induction l as [|p l IH] in P, fl |- *; intros HP Hl; simpl.
  { exists P. rewrite filter_id by set_solver. split_and!; try done. intros; lia. }
  apply Forall_cons in Hl as [Hp Hl].
  destruct (touch_block_spec P fl p HP Hp) as (P1&->&HP1&Hcfg&Hrc&Hh). rewrite Ok_bind.
  assert (Forall (valid P1) l) as Hl1 by (eapply Forall_impl; [done|]; intros; by apply (same_cfg_valid P)).
  destruct (IH P1 _ HP1 Hl1) as (P2&->&HP2&Hcfg2&Hrc2&Hh2).
  exists P2. split_and!; [done| |by etrans| |].
  - rewrite list_filter_filter in HP2. erewrite list_filter_iff; [exact HP2|].
    intros q. set_solver.
  - intros q. rewrite Hrc2, Hrc. lia.
  - intros q. by rewrite Hh2, Hh.
Qed.

(** [touch] gives every block one reference per occurrence and takes the
    blocks that were eviction candidates off the free list. *)
Lemma touch_spec P fl ls :
  pool_inv P fl → Forall (valid P) (concat ls) →
  ∃ P', Pool.touch ls P = Ok P' ∧ pool_inv P' (filter (.∉ concat ls) fl) ∧ same_cfg P P' ∧
    (∀ q, rc P' q = rc P q + occ q (concat ls)) ∧ (∀ q, hash_at P' q = hash_at P q).
Proof.
  intros HP Hl. destruct (touch_blocks_spec P fl (concat ls) HP Hl) as (P'&Hrun&?).
  exists P'. split; [|done]. rewrite <-Hrun. clear. unfold Pool.touch.
  induction ls as [|l ls IH] in P |- *; simpl; [done|]. rewrite for_each_app.
  destruct (for_each Pool.touch_block l P); simpl; [apply IH|done].
Qed.

(** The decrements of [free_blocks]. *)
Lemma dec_refs_spec l h :
  Forall (λ p, is_Some (h !! p)) l →
  let h' := fold_left (λ h p, add_ref (-1) p h) l h in
  same_links h h' ∧ same_static h h' ∧
  (∀ q, rcH h' q = rcH h q - occ q l) ∧ (∀ q, hashH h' q = hashH h q).
Proof.
  induction l as [|p l IH] in h |- *; intros Hl; simpl.
  { split_and!; try done. intros; lia. }
  apply Forall_cons in Hl as [Hp Hl]. destruct (IH (add_ref (-1) p h)) as (H1&H2&H3&H4).
  { eapply Forall_impl; [done|]. intros q Hq. eapply same_static_in; [apply same_static_add_ref|done]. }
  split_and!.
  - etrans; [apply same_links_add_ref|done].
  - etrans; [apply same_static_add_ref|done].
  - intros q. rewrite H3, rc_add_ref by done. case_decide; lia.
  - intros q. by rewrite H4, hash_add_ref.
Qed.

(** [free_blocks l] drops one reference per occurrence and appends the blocks
    left without any to the free list, in the order of [l]. *)
Lemma free_blocks_spec P fl l :
  pool_inv P fl → Forall (valid P) l →
  NoDup (filter (.≠ Blk 0) l) → (∀ p, p ∈ l → p ≠ Blk 0 → 0 < rc P p) →
  ∃ P', Pool.free_blocks l P = Ok P' ∧
    pool_inv P' (fl ++ filter (λ p, p ≠ Blk 0 ∧ rc P p = 1) l) ∧ same_cfg P P' ∧
    (∀ q, rc P' q = rc P q - occ q l) ∧ (∀ q, hash_at P' q = hash_at P q).
Proof.
  intros HP Hl Hnd Hpos. unfold Pool.free_blocks.
  assert (Forall (λ p, is_Some (pool_heap P !! p)) l) as Hin.
  { eapply Forall_impl; [done|]. intros; by eapply valid_in. }
  destruct (dec_refs_spec l (pool_heap P) Hin) as (Hlk&Hst&Hrc&Hh).
  set (h := fold_left _ l (pool_heap P)) in *. cbn zeta.
  assert (∀ q, q ≠ Blk 0 → occ q l = if decide (q ∈ l) then 1 else 0) as Hocc.
  { intros q Hq. pose proof (occ_NoDup q _ Hnd) as Ho. rewrite occ_filter, decide_True in Ho by done.
    rewrite Ho. apply decide_ext. rewrite list_elem_of_filter. naive_solver. }
  set (F := filter (λ p, rc (with_heap h P) p = 0 ∧ null_at (with_heap h P) p = false) l).
  assert (F = filter (λ p, p ≠ Blk 0 ∧ rc P p = 1) l) as HF.
  { unfold F. apply filter_ext_elem. rewrite Forall_forall in Hl. intros p Hp.
    change (rc (with_heap h P) p) with (rcH h p). rewrite Hrc, <-rc_rcH.
    assert (null_at (with_heap h P) p = null_at P p) as ->.
    { unfold null_at. change (pool_heap (with_heap h P)) with h. specialize (Hst p).
      destruct (pool_heap P !! p), (h !! p); simpl in *; try done. unfold static in Hst. congruence. }
    rewrite (valid_null _ _ _ HP p) by auto. rewrite bool_decide_eq_false.
    destruct (decide (p = Blk 0)) as [->|Hne]; [naive_solver|].
    rewrite Hocc, decide_True by done. split; intros [??]; (split; [|]); done || lia. }
  rewrite HF. clear F HF. set (F := filter _ l).
  assert (NoDup F) as HndF.
  { unfold F. eapply sublist_NoDup; [exact Hnd|]. clear.
    induction l as [|x l IH]; [done|]. rewrite !filter_cons. repeat case_decide; try naive_solver.
    all: by constructor. }
  assert (∀ p, p ∈ F ↔ p ≠ Blk 0 ∧ rc P p = 1 ∧ p ∈ l) as HinF.
  { intros p. unfold F. rewrite list_elem_of_filter. naive_solver. }
  assert (queue_rep (mkQueue h (num_free_blocks (free_block_queue P))) fl) as Hq1.
  { eapply queue_rep_links; [exact Hlk|]. by eapply queue_eta. }
  destruct (append_n_spec _ fl F Hq1 HndF) as (q'&Ha&Hq'&Hm).
  { intros p Hp. apply HinF in Hp as (Hne&Hrc1&Hpl). rewrite Forall_forall in Hl. split.
    - eapply (valid_off_ring P fl [] HP); [by apply Hl|]. intros Hfl.
      destruct (proj1 (pi_free _ _ _ HP p) (or_introl Hfl)) as (_&_&?). lia.
    - cbn. eapply same_static_in; [exact Hst|]. eapply valid_in; [done|]. by apply Hl. }
  cbn [free_block_queue with_heap with_queue]. unfold with_heap in Ha |- *. cbn in Ha |- *. rewrite Ha.
  rewrite Ok_bind. eexists. split; [done|].
  assert (∀ q, rcH (q_heap q') q = rc P q - occ q l) as Hrc'.
  { intros q. rewrite (same_meta_rc _ _ _ Hm). apply Hrc. }
  assert (∀ q, hashH (q_heap q') q = hash_at P q) as Hh'.
  { intros q. rewrite (same_meta_hash _ _ _ Hm). apply Hh. }
  split_and!; try done.
  unfold pool_inv.
  change (pool_ok (with_queue q' P) (fl ++ F) []). rewrite with_queue_same.
  apply (pool_ok_update P fl []); try done.
  - etrans; [exact Hst|]. by apply same_meta_static.
  - rewrite Hh'. apply HP.
  - intros p. rewrite Hrc', elem_of_app, HinF, elem_of_nil. pose proof (pi_free _ _ _ HP p) as Hf.
    rewrite elem_of_nil in Hf. rewrite Forall_forall in Hl. specialize (Hpos p).
    destruct (decide (p = Blk 0)) as [->|Hne]; [naive_solver|]. rewrite Hocc by done.
    case_decide as Hpl; [|rewrite Z.sub_0_r; naive_solver].
    specialize (Hpos Hpl Hne). split; [|naive_solver lia].
    intros [[Hf0|(_&?&_)]|[]]; [apply proj1 in Hf; naive_solver lia|]. split_and!; [auto|done|lia].
  - by intros p _ ?%elem_of_nil.
  - intros p Hv Hne. rewrite Hrc', Hocc by done. pose proof (pi_rc _ _ _ HP p Hv Hne).
    case_decide; [|lia]. specialize (Hpos p). naive_solver lia.
  - apply HP.
  - intros key p. rewrite Hh'. apply HP.
Qed.

(** ** The prefix cache *)

Lemma pack_ok h g : 0 ≤ g < 2 ^ 32 → ∃ key, make_block_hash_with_group_id h g = Ok key.
Proof. intros Hg. destruct (pack_unpack h g Hg) as (key&?&_). eauto. Qed.

Lemma with_cache_queue_same P q m :
  with_cache m (with_queue q P) =
  with_events (kv_event_queue P) (with_cache m (with_queue q P)).
Proof. by destruct P. Qed.

(** Hashing one block that has none and entering it into the cache. *)
Lemma cache_one_ok P fl p key :
  pool_inv P fl → valid P p → p ≠ Blk 0 → hash_at P p = None →
  let h := set_hash p (Some key) (pool_heap P) in
  let P1 := with_heap h P in
  let P' := with_cache (BlockMap.insert (pool_heap P1) key p (cached_block_hash_to_block P1)) P1 in
  pool_inv P' fl ∧ same_cfg P P' ∧ (∀ q, rc P' q = rc P q) ∧
  (∀ q, hash_at P' q = if decide (q = p) then Some key else hash_at P q) ∧
  kv_event_queue P' = kv_event_queue P.
Proof.
  intros HP Hv Hne Hnone h P1 P'. pose proof (valid_in _ _ _ HP p Hv) as Hin.
  assert (same_static (pool_heap P) h) as Hst by apply same_static_set_hash.
  assert (∀ q, valid P q → ids_ok h q) as Hids.
  { intros q Hq. pose proof (valid_id _ _ _ HP q Hq) as Hid. unfold ids_ok, id_of in *.
    specialize (Hst q). destruct (pool_heap P !! q), (h !! q); simpl in *; try done.
    unfold static in Hst. congruence. }
  destruct (insert_spec h key p (cached_block_hash_to_block P) (pi_map _ _ _ HP)) as [Hm Hent].
  { by apply Hids. } { intros q Hq. apply Hids. by apply (pi_cache _ _ _ HP) in Hq as [? _]. }
  { rewrite (pi_cache _ _ _ HP). rewrite Hnone. naive_solver. }
  assert (∀ q, hashH h q = if decide (q = p) then Some key else hash_at P q) as Hh.
  { intros q. by apply hash_set_hash. }
  split_and!; try done; [|intros; apply rc_set_hash].
  set (q' := mkQueue h (num_free_blocks (free_block_queue P))).
  unfold pool_inv, P', P1, with_heap. fold q'. rewrite with_cache_queue_same.
  apply (pool_ok_update P fl []); try done.
  - eapply queue_rep_links; [apply same_links_set_hash|]. by eapply queue_eta.
  - cbn [q_heap q']. rewrite Hh, decide_False by congruence. apply HP.
  - intros q. unfold q', h. cbn [q_heap]. rewrite rc_set_hash. apply HP.
  - by intros q _ ?%elem_of_nil.
  - intros q. unfold q', h. cbn [q_heap]. rewrite rc_set_hash. apply HP.
  - intros key' q. cbn [q_heap q']. cbn. rewrite Hent, Hh.
    pose proof (pi_cache _ _ _ HP key' q) as Hc.
    destruct (decide (q = p)) as [->|]; case_decide; subst;
      rewrite ?elem_of_app, ?list_elem_of_singleton, Hc, ?Hnone; naive_solver.
Qed.

(** What [cache_loop] leaves in the hash of each of the blocks it visits. *)
Definition cached_as (gid : Z) (new_hashes : list bytes) (i : Z) (blks : list ptr) (P : BlockPool) : Prop :=
  ∀ j p, blks !! j = Some p → ∃ h key, new_hashes !! Z.to_nat (i + Z.of_nat j) = Some h ∧
    make_block_hash_with_group_id h gid = Ok key ∧ hash_at P p = Some key.

Lemma cache_loop_spec use_int gid new_hashes i blks acc P fl :
  pool_inv P fl → 0 ≤ gid < 2 ^ 32 → 0 ≤ i → i + len blks ≤ len new_hashes →
  NoDup blks → Forall (λ p, valid P p ∧ p ≠ Blk 0 ∧ hash_at P p = None) blks →
  ∃ P', Pool.cache_loop use_int gid new_hashes i blks acc P =
      Ok (acc ++ (if enable_kv_cache_events P then
            maybe_convert_block_hash use_int <$> take (length blks) (drop (Z.to_nat i) new_hashes)
          else []), P') ∧
    pool_inv P' fl ∧ same_cfg P P' ∧ (∀ q, rc P' q = rc P q) ∧
    cached_as gid new_hashes i blks P' ∧
    (∀ q, q ∉ blks → hash_at P' q = hash_at P q) ∧ kv_event_queue P' = kv_event_queue P.
Proof.
  induction blks as [|p blks IH] in i, acc, P |- *; intros HP Hg Hi Hlen Hnd Hall; simpl.
  { exists P. destruct (enable_kv_cache_events P); rewrite app_nil_r; split_and!; try done;
      intros j q Hj; by rewrite lookup_nil in Hj. }
  apply NoDup_cons in Hnd as [Hp Hnd]. apply Forall_cons in Hall as [(Hv&Hne&Hnone) Hall].
  rewrite py_assert_true by (by rewrite bool_decide_eq_true). rewrite Ok_bind.
  destruct (lookup_lt_is_Some_2 new_hashes (Z.to_nat i)) as [h Hh]; [unfold len in *; simpl in *; lia|].
  rewrite (py_index_nonneg _ _ h) by done. rewrite Ok_bind.
  destruct (pack_ok h gid Hg) as [key Hkey]. rewrite Hkey, Ok_bind.
  unfold assign_hash. change (pool_heap P !! p ≫= block_hash) with (hash_at P p).
  rewrite py_assert_true by (by rewrite bool_decide_eq_true). rewrite !Ok_bind.
  destruct (cache_one_ok P fl p key HP Hv Hne Hnone) as (HP1&Hcfg&Hrc&Hhash&Hev).
  match type of HP1 with pool_inv ?Q _ => set (P1 := Q) in * end.
  set (acc' := if enable_kv_cache_events P1
               then acc ++ [maybe_convert_block_hash use_int h] else acc).
  match goal with |- context [Pool.cache_loop _ _ _ _ _ ?a ?Q] =>
    change Q with P1; change a with acc' end.
  destruct (IH (i + 1) acc' P1) as (P2&->&HP2&Hcfg2&Hrc2&Hcached&Hh2&Hev2); try done; [lia|len_lia| |].
  { rewrite Forall_forall in Hall |- *. intros q Hq. destruct (Hall q Hq) as (?&?&?).
    split_and!; [by apply (same_cfg_valid P)|done|]. rewrite Hhash, decide_False; [done|]. by intros ->. }
  exists P2. split_and!.
  - unfold acc'. destruct Hcfg as (_&_&_&_&->). destruct (enable_kv_cache_events P); [|done].
    rewrite <-app_assoc. f_equal. f_equal. rewrite (drop_S _ h (Z.to_nat i)) by done. simpl.
    by replace (Z.to_nat (i + 1)) with (S (Z.to_nat i)) by lia.
  - done.
  - by etrans.
  - intros q. by rewrite Hrc2, Hrc.
  - intros [|j] q Hj; simpl in Hj.
    + simplify_eq. exists h, key. rewrite Z.add_0_r. split_and!; [done|done|].
      by rewrite Hh2, Hhash, decide_True.
    + destruct (Hcached j q Hj) as (h'&key'&?&?&?). exists h', key'.
      by replace (i + Z.of_nat (S j)) with (i + 1 + Z.of_nat j) by lia.
  - intros q [Hq1 Hq2]%not_elem_of_cons. by rewrite Hh2, Hhash, decide_False.
  - by rewrite Hev2.
Qed.

Lemma with_events_ok P fl es : pool_inv P fl → pool_inv (with_events es P) fl ∧ same_cfg P (with_events es P).
Proof. intros []. split; [by split|done]. Qed.

(** The event recorded by [cache_full_blocks]. *)
Definition stored_event (use_int : bool) (r : Request) (parent : option ExternalBlockHash)
    (nc nf bs : Z) : KVCacheEvent :=
  BlockStored (maybe_convert_block_hash use_int <$> py_slice (block_hashes r) nc nf) parent
    (py_slice (all_token_ids r) (nc * bs) (nf * bs)) bs None MEDIUM_GPU.

(** [cache_full_blocks] hashes the new full blocks with the request's hashes
    and touches no other block.  With events on it also records them, which
    needs a request without LoRA adapter and the previous block hashed. *)
Lemma cache_full_blocks_spec use_int r blks nc nf bs gid P fl :
  pool_inv P fl → 0 ≤ gid < 2 ^ 32 → 0 ≤ nc ≤ nf → nf ≤ len blks → nf ≤ len (block_hashes r) →
  let new := py_slice blks nc nf in
  NoDup new → Forall (λ p, valid P p ∧ p ≠ Blk 0 ∧ hash_at P p = None) new →
  (enable_kv_cache_events P = true → lora_request r = None ∧
     (0 < nc → ∃ p key, blks !! Z.to_nat (nc - 1) = Some p ∧ hash_at P p = Some key)) →
  ∃ P', Pool.cache_full_blocks use_int r blks nc nf bs gid P = Ok P' ∧
    pool_inv P' fl ∧ same_cfg P P' ∧ (∀ q, rc P' q = rc P q) ∧
    cached_as gid (block_hashes r) nc new P' ∧
    (∀ q, q ∉ new → hash_at P' q = hash_at P q) ∧
    (enable_kv_cache_events P = true → nc < nf → ∃ parent, (parent = None ↔ nc = 0) ∧
       kv_event_queue P' = kv_event_queue P ++ [stored_event use_int r parent nc nf bs]) ∧
    (enable_kv_cache_events P = false → kv_event_queue P' = kv_event_queue P).
Proof.
  intros HP Hg Hnc Hnf Hh new Hnd Hall Hev. unfold Pool.cache_full_blocks.
  destruct (Z.eqb_spec nc nf) as [->|Hne].
  { exists P. assert (new = []) as -> by (unfold new; rewrite py_slice_nonneg by lia; by rewrite Z.sub_diag).
    split_and!; try done; lia. }
  cbn zeta. fold new. rewrite py_assert_true by (by apply Z.leb_le). rewrite Ok_bind.
  rewrite py_from_nonneg by lia.
  assert (len new = nf - nc) as Hlnew.
  { unfold new. rewrite py_slice_nonneg by lia. rewrite len_take by lia. rewrite len_drop by lia. lia. }
  destruct (cache_loop_spec use_int gid (drop (Z.to_nat nc) (block_hashes r)) 0 new [] P fl)
    as (P1&->&HP1&Hcfg&Hrc&Hcached&Hh1&Hev1); try done.
  { rewrite len_drop by lia. lia. }
  rewrite Ok_bind. assert (cached_as gid (block_hashes r) nc new P1) as Hc1.
  { intros j p Hj. destruct (Hcached j p Hj) as (h&key&Hl&?&?). exists h, key. split_and!; [|done..].
    rewrite lookup_drop in Hl. rewrite <-Hl. f_equal. lia. }
  destruct Hcfg as (Hc_n&Hc_c&Hc_b&Hc_nb&Hc_e). rewrite Hc_e.
  destruct (enable_kv_cache_events P) eqn:He.
  2: { exists P1. split_and!; try done. unfold same_cfg. split_and!; congruence. }
  destruct (Hev eq_refl) as [Hlora Hpar].
  set (mp := if nc =? 0 then _ else _).
  assert (∃ parent, mp = Ok parent ∧ (parent = None ↔ nc = 0)) as (parent&->&Hp).
  { unfold mp. destruct (Z.eqb_spec nc 0) as [->|]; [by exists None|].
    destruct Hpar as (p&key&Hb&Hk); [lia|]. rewrite (py_index_nonneg _ _ p) by (done || lia).
    rewrite Ok_bind. rewrite Hh1, Hk; [simpl; eexists; split; [done|]; naive_solver|].
    intros Hin. rewrite Forall_forall in Hall. destruct (Hall p Hin) as (_&_&?). congruence. }
  rewrite Ok_bind. unfold Pool.event_lora_id. rewrite Hlora, Ok_bind.
  eexists. split; [done|]. destruct (with_events_ok P1 fl (kv_event_queue P1 ++ [stored_event use_int r parent nc nf bs]) HP1) as [HP2 Hcfg2].
  assert (maybe_convert_block_hash use_int <$>
    take (length new) (drop (Z.to_nat 0) (drop (Z.to_nat nc) (block_hashes r))) =
    maybe_convert_block_hash use_int <$> py_slice (block_hashes r) nc nf) as ->.
  { rewrite drop_0, py_slice_nonneg by lia. by replace (length new) with (Z.to_nat (nf - nc)) by (unfold len in *; lia). }
  simpl app. split_and!; try done.
  - etrans; [|done]. unfold same_cfg. split_and!; congruence.
  - intros _ _. exists parent. split; [done|]. by rewrite <-Hev1.
Qed.

(** With events on, caching the blocks of a request with a LoRA adapter fails:
    the attribute [id] the event reads does not exist. *)
Lemma cache_full_blocks_lora use_int r l blks nc nf bs gid P :
  enable_kv_cache_events P = true → lora_request r = Some l → nc ≠ nf →
  is_ok (Pool.cache_full_blocks use_int r blks nc nf bs gid P) = false.
Proof.
  intros He Hl Hne. destruct (Pool.cache_full_blocks _ _ _ _ _ _ _ _) as [P'|] eqn:E; [|done].
  exfalso. unfold Pool.cache_full_blocks in E. rewrite (proj2 (Z.eqb_neq _ _)) in E by done.
  cbn zeta in E. res_inv. unfold Pool.event_lora_id in *. rewrite Hl in *.
  case_match; [by res_inv|].
  assert (∀ b gid hs i bl acc P acc' P', Pool.cache_loop b gid hs i bl acc P = Ok (acc', P') →
    enable_kv_cache_events P' = enable_kv_cache_events P) as Hcl.
  { clear. intros b gid hs i bl. induction bl as [|x bl IH] in i |- *; intros acc P acc' P' H; simpl in H.
    - by simplify_eq.
    - res_inv. match goal with H : Pool.cache_loop _ _ _ _ _ _ _ = _ |- _ => by apply IH in H end. }
  match goal with H : Pool.cache_loop _ _ _ _ _ _ _ = _ |- _ => apply Hcl in H end. congruence.
Qed.

(** A lookup answers with a block per group that carries the hash, or tells
    that some group has none. *)
Definition hit (P : BlockPool) (h : bytes) (g : Z) (p : ptr) : Prop :=
  ∃ key, make_block_hash_with_group_id h g = Ok key ∧ valid P p ∧ p ≠ Blk 0 ∧
         hash_at P p = Some key.

Lemma hit_inj P h1 g1 h2 g2 p : hit P h1 g1 p → hit P h2 g2 p → h1 = h2 ∧ g1 = g2.
Proof.
  intros (k1&H1&_&_&Hk1) (k2&H2&_&_&Hk2). assert (k1 = k2) as -> by congruence.
  by eapply make_block_hash_with_group_id_inj.
Qed.

Lemma get_cached_block_spec P fl h gids :
  pool_inv P fl → Forall (λ g, 0 ≤ g < 2 ^ 32) gids →
  ∃ o, Pool.get_cached_block h gids P = Ok o ∧
    match o with
    | Some l => Forall2 (hit P h) gids l
    | None => ∃ g, g ∈ gids ∧ ∀ p, ¬ hit P h g p
    end.
Proof.
  intros HP. induction gids as [|g gids IH]; intros Hg; simpl; [by exists (Some [])|].
  apply Forall_cons in Hg as [Hg Hgs]. destruct (pack_ok h g Hg) as [key Hkey].
  rewrite Hkey, Ok_bind, (get_one_block_spec _ _ (pi_map _ _ _ HP)), Ok_bind.
  destruct (entries (cached_block_hash_to_block P) key) as [|p l] eqn:E; simpl.
  - exists None. split; [done|]. exists g. split; [by left|].
    intros p (key'&Hk&Hv&_&Hh). assert (key' = key) as -> by congruence.
    apply (elem_of_nil p). rewrite <-E. by apply (pi_cache _ _ _ HP).
  - assert (p ∈ entries (cached_block_hash_to_block P) key) as Hp by (rewrite E; by left).
    apply (pi_cache _ _ _ HP) in Hp as [Hv Hh].
    destruct (IH Hgs) as ([l'|]&->&Ho); simpl; eexists; (split; [done|]).
    + constructor; [|done]. exists key. split_and!; try done.
      intros ->. by rewrite (pi_null_hash _ _ _ HP) in Hh.
    + destruct Ho as (g'&?&?). exists g'. split; [by right|done].
Qed.

(** ** Resetting *)

Lemma clear_hashes_spec l h :
  Forall (λ p, is_Some (h !! p)) l →
  let h' := fold_left (λ h p, reset_hash p h) l h in
  same_links h h' ∧ same_static h h' ∧ (∀ q, rcH h' q = rcH h q) ∧
  (∀ q, hashH h' q = if decide (q ∈ l) then None else hashH h q).
Proof.
  induction l as [|p l IH] in h |- *; intros Hl; simpl; [done|].
  apply Forall_cons in Hl as [Hp Hl]. destruct (IH (reset_hash p h)) as (H1&H2&H3&H4).
  { eapply Forall_impl; [done|]. intros q Hq. eapply same_static_in; [apply same_static_set_hash|done]. }
  split_and!.
  - etrans; [apply same_links_set_hash|done].
  - etrans; [apply same_static_set_hash|done].
  - intros q. rewrite H3. apply rc_set_hash.
  - intros q. rewrite H4. unfold reset_hash. rewrite hash_set_hash by done.
    assert (q ∈ p :: l ↔ q = p ∨ q ∈ l) as Hiff by apply elem_of_cons.
    repeat case_decide; naive_solver.
Qed.

Lemma all_free_length P fl :
  pool_inv P fl → len fl = num_gpu_blocks P - 1 ↔ ∀ p, valid P p → p ≠ Blk 0 → rc P p = 0.
Proof.
  intros HP. pose proof (pi_pos _ _ _ HP) as HN.
  set (all := Blk <$> seqZ 1 (num_gpu_blocks P - 1)).
  assert (∀ p, p ∈ all ↔ valid P p ∧ p ≠ Blk 0) as Hall.
  { intros p. unfold all. rewrite list_elem_of_fmap. unfold valid. split.
    - intros (i&->&Hi). apply elem_of_seqZ in Hi. split; [exists i; split; [done|lia]|].
      intros ?. simplify_eq. lia.
    - intros [(i&->&Hi) Hne]. exists i. split; [done|]. apply elem_of_seqZ.
      assert (i ≠ 0) by congruence. lia. }
  assert (NoDup all) as Hnd by (apply NoDup_fmap; [by intros ???; simplify_eq|apply NoDup_seqZ]).
  assert (len all = num_gpu_blocks P - 1) as Hlen.
  { unfold all. rewrite len_fmap. unfold len. rewrite length_seqZ. lia. }
  pose proof (fl_nodup _ _ _ HP) as Hndf.
  assert (∀ p, p ∈ fl ↔ valid P p ∧ p ≠ Blk 0 ∧ rc P p = 0) as Hf.
  { intros p. rewrite <-(pi_free _ _ _ HP p), elem_of_nil. naive_solver. }
  assert (fl ⊆+ all) as Hsub.
  { apply NoDup_submseteq; [done|]. intros p Hp%Hf. apply Hall. naive_solver. }
  split.
  - intros Heq p Hv Hne. assert (fl ≡ₚ all) as Hperm.
    { apply submseteq_length_Permutation; [done|]. unfold len in *. lia. }
    apply Hf. rewrite Hperm. by apply Hall.
  - intros H0. rewrite <-Hlen. unfold len. f_equal. apply Permutation_length, NoDup_Permutation; [done..|].
    intros p. rewrite Hf, Hall. naive_solver.
Qed.

(** [reset_prefix_cache] succeeds exactly when no block is referenced; it then
    forgets every hash, and otherwise changes nothing. *)
Lemma reset_prefix_cache_spec P fl :
  pool_inv P fl →
  ∃ b P', Pool.reset_prefix_cache P = (b, P') ∧
    (b = true ↔ ∀ p, valid P p → p ≠ Blk 0 → rc P p = 0) ∧
    pool_inv P' fl ∧ same_cfg P P' ∧ (∀ q, rc P' q = rc P q) ∧
    (if b then (∀ q, valid P q → hash_at P' q = None) ∧ cached_block_hash_to_block P' = ∅
     else P' = P).
Proof.
  intros HP. unfold Pool.reset_prefix_cache. rewrite (num_free _ _ _ HP).
  pose proof (all_free_length P fl HP) as Hall.
  destruct (Z.eqb_spec (num_gpu_blocks P - len fl) 1) as [H1|H1].
  2: { exists false, P. split_and!; try done. split; [done|]. intros H0. apply (proj2 Hall) in H0. lia. }
  eexists true, _. split; [done|]. pose proof (proj1 Hall ltac:(lia)) as H0.
  assert (∀ p, valid P p ↔ p ∈ blocks P) as Hvalid.
  { intros p. rewrite (pi_blocks _ _ _ HP), list_elem_of_fmap. unfold valid.
    by setoid_rewrite elem_of_seqZ. }
  destruct (clear_hashes_spec (blocks P) (pool_heap P)) as (Hlk&Hst&Hrc&Hh).
  { rewrite Forall_forall. intros p Hp%Hvalid. by eapply valid_in. }
  cbn. fold (pool_heap P). set (h := fold_left _ _ _) in *.
  set (es := kv_event_queue P ++ (if enable_kv_cache_events P then [AllBlocksCleared] else [])).
  set (q' := mkQueue h (num_free_blocks (free_block_queue P))).
  match goal with |- context [pool_inv ?X] =>
    assert (X = with_events es (with_cache ∅ (with_queue q' P))) as -> end.
  { unfold es. destruct (enable_kv_cache_events P) eqn:E; destruct P; cbn in *; rewrite ?E; [done|].
    by rewrite app_nil_r. }
  split_and!; try done.
  - apply (pool_ok_update P fl []); try done.
    + eapply queue_rep_links; [exact Hlk|]. by eapply queue_eta.
    + cbn. rewrite Hh. case_decide; [done|]. apply HP.
    + intros p. cbn [q_heap q']. rewrite Hrc. apply HP.
    + by intros p _ ?%elem_of_nil.
    + intros p. cbn [q_heap q']. rewrite Hrc. apply HP.
    + intros key p. cbn [q_heap q']. unfold entries. rewrite lookup_empty, Hh. simpl.
      rewrite elem_of_nil, Hvalid. case_decide; naive_solver.
  - intros q Hq. change (hash_at _ q) with (hashH h q). rewrite Hh, decide_True; [done|].
    by apply Hvalid.
Qed.

(** ** Properties *)

(** C23. [get_new_blocks]: when enough blocks are free it returns the [n] blocks that
    have been free longest, distinct and each with one reference more, and evicts
    their hashes (with caching on) and no other's; otherwise it raises
    [ValueError].  The pool's invariant is kept. *)
Theorem get_new_blocks_correct use_int P fl n :
  pool_inv P fl → 0 ≤ n →
  if decide (n ≤ len fl) then
    ∃ P' l, Pool.get_new_blocks use_int n P = Ok (l, P') ∧ l = take (Z.to_nat n) fl ∧ NoDup l ∧
      pool_inv P' (drop (Z.to_nat n) fl) ∧
      (∀ q, rc P' q = rc P q + (if decide (q ∈ l) then 1 else 0)) ∧
      (∀ q, hash_at P' q = if decide (q ∈ l ∧ enable_caching P = true) then None else hash_at P q)
  else Pool.get_new_blocks use_int n P = Err ValueError.
Proof.
  intros HP Hn. case_decide as Hle; [|by eapply get_new_blocks_short; [exact HP|lia]].
  destruct (get_new_blocks_spec use_int P fl n HP (conj Hn Hle)) as (P'&Hrun&HP'&_&Hrc&Hoff&Hon).
  assert (NoDup (take (Z.to_nat n) fl)) as Hnd.
  { pose proof (fl_nodup _ _ _ HP) as Hnd. rewrite <-(take_drop (Z.to_nat n) fl), NoDup_app in Hnd.
    apply Hnd. }
  exists P', (take (Z.to_nat n) fl). split_and!; [done..| |].
  - intros q. rewrite Hrc. by rewrite (occ_NoDup q _ Hnd).
  - intros q. destruct (decide (q ∈ take (Z.to_nat n) fl)) as [Hq|Hq].
    + rewrite (Hon q Hq). destruct (enable_caching P); [by rewrite decide_True|].
      by rewrite decide_False by naive_solver.
    + rewrite (Hoff q Hq), decide_False by naive_solver. done.
Qed.

(** C24. [free_blocks]: every block loses one reference, and the blocks left without
    any join the end of the free list in the order they are given, so that the
    first of them is evicted first; their hashes stay until then. *)
Theorem free_blocks_correct P fl l :
  pool_inv P fl → Forall (valid P) l → NoDup (filter (.≠ Blk 0) l) →
  (∀ p, p ∈ l → p ≠ Blk 0 → 0 < rc P p) →
  ∃ P', Pool.free_blocks l P = Ok P' ∧
    pool_inv P' (fl ++ filter (λ p, p ≠ Blk 0 ∧ rc P p = 1) l) ∧
    Pool.get_num_free_blocks P' =
      Pool.get_num_free_blocks P + len (filter (λ p, p ≠ Blk 0 ∧ rc P p = 1) l) ∧
    (∀ q, rc P' q = rc P q - occ q l) ∧ (∀ q, hash_at P' q = hash_at P q).
Proof.
  intros HP Hv Hnd Hpos. destruct (free_blocks_spec P fl l HP Hv Hnd Hpos) as (P'&?&HP'&_&?&?).
  exists P'. split_and!; [done|done| |done|done].
  unfold Pool.get_num_free_blocks. rewrite (qr_num _ _ (pi_queue _ _ _ HP)).
  by rewrite (qr_num _ _ (pi_queue _ _ _ HP')), len_app.
Qed.

(** C25. What is cached can be looked up: after [cache_full_blocks] of new full
    blocks, the lookup of the hash of each of them in its group returns a block
    that carries exactly that hash, no reference count changes, and no block but
    the new ones changes its hash. *)
Theorem cached_blocks_found use_int r blks nc nf bs gid P fl :
  pool_inv P fl → 0 ≤ gid < 2 ^ 32 → 0 ≤ nc ≤ nf → nf ≤ len blks → nf ≤ len (block_hashes r) →
  enable_kv_cache_events P = false → NoDup (py_slice blks nc nf) →
  Forall (λ p, valid P p ∧ p ≠ Blk 0 ∧ hash_at P p = None) (py_slice blks nc nf) →
  ∃ P', Pool.cache_full_blocks use_int r blks nc nf bs gid P = Ok P' ∧ pool_inv P' fl ∧
    (∀ i h, nc ≤ Z.of_nat i < nf → block_hashes r !! i = Some h →
       ∃ p, Pool.get_cached_block h [gid] P' = Ok (Some [p]) ∧ hit P' h gid p) ∧
    (∀ q, rc P' q = rc P q) ∧ (∀ q, q ∉ py_slice blks nc nf → hash_at P' q = hash_at P q).
Proof.
  intros HP Hgid Hnc Hblks Hhs Hev Hnd Hnew.
  destruct (cache_full_blocks_spec use_int r blks nc nf bs gid P fl HP Hgid Hnc Hblks Hhs Hnd Hnew)
    as (P'&Hrun&HP'&Hcfg&Hrc&Hcached&Hoff&_); [by rewrite Hev|].
  exists P'. split_and!; [done|done| |done|done]. intros i h Hi Hh.
  destruct (get_cached_block_spec P' fl h [gid] HP') as (o&Ho&Hspec); [by apply Forall_singleton|].
  assert (∃ p, hit P' h gid p) as [p Hp].
  { destruct (lookup_lt_is_Some_2 (py_slice blks nc nf) (i - Z.to_nat nc)) as [p Hp].
    { rewrite py_slice_nonneg by lia. rewrite length_take, length_drop. unfold len in *. lia. }
    destruct (Hcached _ _ Hp) as (h'&key&Hh'&Hkey&Hat).
    replace (Z.to_nat (nc + Z.of_nat (i - Z.to_nat nc))) with i in Hh' by lia.
    rewrite Forall_lookup in Hnew. destruct (Hnew _ _ Hp) as (Hv&Hnn&_).
    exists p, key. simplify_eq. split_and!; [done|by apply (same_cfg_valid P)|done|done]. }
  destruct o as [l|].
  - apply Forall2_cons_inv_l in Hspec as (p'&l'&Hp'&->%Forall2_nil_inv_l&->).
    exists p'. by rewrite Ho.
  - destruct Hspec as (g&->%list_elem_of_singleton&Hno). by destruct (Hno p).
Qed.

(** With KV events on, caching the new full blocks of a request with a LoRA
    adapter always raises: the event reads an attribute [id] that the adapter's
    request object does not have. *)
Theorem lora_events_raise use_int r l blks nc nf bs gid P :
  enable_kv_cache_events P = true → lora_request r = Some l → nc ≠ nf →
  is_ok (Pool.cache_full_blocks use_int r blks nc nf bs gid P) = false.
Proof. intros ???. by eapply cache_full_blocks_lora. Qed.

(** [reset_prefix_cache] succeeds exactly when every block but the null block is
    free; then no block can be found any more, and otherwise nothing changes. *)
Theorem reset_prefix_cache_correct P fl :
  pool_inv P fl →
  ∃ b P', Pool.reset_prefix_cache P = (b, P') ∧
    (b = true ↔ Pool.get_num_free_blocks P = num_gpu_blocks P - 1) ∧ pool_inv P' fl ∧
    (b = false → P' = P) ∧
    (b = true → ∀ h g, 0 ≤ g < 2 ^ 32 → Pool.get_cached_block h [g] P' = Ok None).
Proof.
  intros HP. destruct (reset_prefix_cache_spec P fl HP) as (b&P'&Hrun&Hb&HP'&Hcfg&_&Hif).
  exists b, P'. split_and!; [done| |done| |].
  - rewrite Hb, <-(all_free_length P fl HP). unfold Pool.get_num_free_blocks.
    by rewrite (qr_num _ _ (pi_queue _ _ _ HP)).
  - by intros ->.
  - intros -> h g Hg. destruct Hif as [Hnone _].
    destruct (get_cached_block_spec P' fl h [g] HP') as ([l|]&Ho&Hspec); [by apply Forall_singleton| |done].
    apply Forall2_cons_inv_l in Hspec as (p&?&(key&_&Hv&_&Hat)&_).
    rewrite Hnone in Hat; [discriminate|]. by apply (same_cfg_valid P P' p Hcfg).
Qed.

(** ** A pool of four blocks *)

Definition no_pool : BlockPool := mkPool 0 false [] (mkQueue ∅ 0) ∅ (Blk 0) false [].
Definition get_pool (r : result BlockPool) : BlockPool :=
  match r with Ok P => P | Err _ => no_pool end.
Definition ex_pool : BlockPool := get_pool (Pool.init 4 true false).
Definition ex_pool_1 : BlockPool :=
  match Pool.get_new_blocks false 2 ex_pool with Ok (_, P) => P | Err _ => no_pool end.
Definition ex_pool_request (lora : option LoRARequest) : Request :=
  mkRequest "r" 0 0 None None None lora 0 RUNNING false [] None None 8 None 0 [] [] 0 [] 0 None []
    (-1) 0 [[9]; [10]].

Lemma ex_pool_inv : pool_inv ex_pool [Blk 1; Blk 2; Blk 3].
Proof.
  destruct (init_pool 4 true false) as (P&HP&Hinv&_); [done|].
  unfold ex_pool. rewrite HP. exact Hinv.
Qed.
Lemma ex_pool_1_inv : pool_inv ex_pool_1 [Blk 3].
Proof.
  destruct (get_new_blocks_spec false ex_pool [Blk 1; Blk 2; Blk 3] 2 ex_pool_inv) as (P&Hrun&Hinv&_); [done|].
  unfold ex_pool_1. rewrite Hrun. exact Hinv.
Qed.
Lemma ex_pool_valid i : 0 ≤ i < 4 → valid ex_pool_1 (Blk i).
Proof. intros Hi. by exists i. Qed.

Lemma get_new_blocks_correct_witness :
  (∃ P', Pool.get_new_blocks false 2 ex_pool = Ok ([Blk 1; Blk 2], P') ∧ pool_inv P' [Blk 3]) ∧
  Pool.get_new_blocks false 4 ex_pool = Err ValueError.
Proof.
  split.
  - destruct (get_new_blocks_correct false ex_pool [Blk 1; Blk 2; Blk 3] 2 ex_pool_inv ltac:(lia))
      as (P'&l&Hrun&->&_&Hinv&_).
    exists P'. split; [exact Hrun|exact Hinv].
  - exact (get_new_blocks_correct false ex_pool [Blk 1; Blk 2; Blk 3] 4 ex_pool_inv ltac:(lia)).
Defined.

Lemma free_blocks_correct_witness :
  ∃ P', Pool.free_blocks [Blk 2; Blk 1] ex_pool_1 = Ok P' ∧ pool_inv P' [Blk 3; Blk 2; Blk 1].
Proof.
  destruct (free_blocks_correct ex_pool_1 [Blk 3] [Blk 2; Blk 1] ex_pool_1_inv) as (P'&Hrun&Hinv&_).
  - repeat constructor; by apply ex_pool_valid.
  - apply (bool_decide_unpack _). by vm_compute.
  - intros p Hp _. rewrite !elem_of_cons in Hp.
    destruct Hp as [->|[->|[]%not_elem_of_nil]]; by vm_compute.
  - exists P'. split; [exact Hrun|].
    assert (filter (λ p, p ≠ Blk 0 ∧ rc ex_pool_1 p = 1) [Blk 2; Blk 1] = [Blk 2; Blk 1]) as E
      by (vm_compute; reflexivity).
    rewrite E in Hinv. exact Hinv.
Defined.

Lemma cached_blocks_found_witness :
  ∃ P' p, Pool.cache_full_blocks false (ex_pool_request None) [Blk 1; Blk 2] 0 2 4 0 ex_pool_1 = Ok P' ∧
    Pool.get_cached_block [10] [0] P' = Ok (Some [p]) ∧ hit P' [10] 0 p.
Proof.
  destruct (cached_blocks_found false (ex_pool_request None) [Blk 1; Blk 2] 0 2 4 0 ex_pool_1 [Blk 3]
    ex_pool_1_inv) as (P'&Hrun&_&Hfound&_); [lia|lia|by vm_compute|by vm_compute|reflexivity| | |].
  - apply (bool_decide_unpack _). by vm_compute.
  - change (py_slice [Blk 1; Blk 2] 0 2) with [Blk 1; Blk 2].
    repeat constructor; try (by apply ex_pool_valid); by vm_compute.
  - destruct (Hfound 1%nat [10]) as (p&Hget&Hp); [lia|reflexivity|].
    exists P', p. split; [exact Hrun|]. split; [exact Hget|exact Hp].
Defined.

Lemma lora_events_raise_witness :
  is_ok (Pool.cache_full_blocks false (ex_pool_request (Some (mkLoRA "a" 1))) [Blk 1] 0 1 4 0
    (get_pool (Pool.init 4 true true))) = false.
Proof.
  apply (lora_events_raise false _ (mkLoRA "a" 1)); [by vm_compute|reflexivity|done].
Defined.

Lemma reset_prefix_cache_correct_witness :
  ∃ b P', Pool.reset_prefix_cache ex_pool_1 = (b, P') ∧ b = false ∧ P' = ex_pool_1.
Proof.
  destruct (reset_prefix_cache_correct ex_pool_1 [Blk 3] ex_pool_1_inv)
    as (b&P'&Hrun&Hb&_&Hsame&_).
  assert (b = false) as -> by (destruct b; [|reflexivity]; destruct Hb as [Hb _];
    specialize (Hb eq_refl); by vm_compute in Hb).
  exists false, P'. split; [exact Hrun|]. split; [reflexivity|apply Hsame; reflexivity].
Defined.
