(* ===== verification/KVSpecs.v ===== *)
(** * KV-cache specifications

    Models src/vllm/v1/kv_cache_interface.py: the specification a layer gives of
    its KV cache (block size, page size, worst-case memory), merging the
    specifications of the layers of a group, and the uniform-type grouping.
    The specification of a layer is a [KVCacheSpec]; that of a group is a
    [GroupSpec], which is a layer's or a [UniformTypeKVCacheSpecs].  The size of
    a torch dtype in bytes is a parameter. *)
From S2P Require Import Prelude.

(** A torch dtype, by name. *)
Abbreviation dtype := string.

(** The fields of [AttentionSpec], [block_size] of the base class included. *)
Record AttentionSpec := mkAttn {
  attn_block_size : Z;
  num_kv_heads : Z;
  head_size : Z;
  attn_dtype : dtype;
  use_mla : bool;
}.

#[export] Instance AttentionSpec_eq_dec : EqDecision AttentionSpec.
Proof. solve_decision. Defined.

Inductive KVCacheSpec :=
  | FullAttentionSpec (a : AttentionSpec) (sliding_window attention_chunk_size : option Z)
  | ChunkedLocalAttentionSpec (a : AttentionSpec) (attention_chunk_size : Z)
  | SlidingWindowSpec (a : AttentionSpec) (sliding_window : Z)
  | MambaSpec (mamba_block_size : Z) (shapes : list (list Z)) (dtypes : list dtype)
      (page_size_padded : option Z) (mamba_type : string) (num_speculative_blocks : Z)
  | EncoderOnlyAttentionSpec (a : AttentionSpec)
  | CrossAttentionSpec (a : AttentionSpec).

(** Frozen dataclasses compare by class and fields. *)
#[export] Instance KVCacheSpec_eq_dec : EqDecision KVCacheSpec.
Proof. solve_decision. Defined.

Inductive GroupSpec :=
  | LayerSpec (s : KVCacheSpec)
  | UniformTypeKVCacheSpecs (uniform_block_size : Z) (kv_cache_specs : list (string * KVCacheSpec)).

#[export] Instance GroupSpec_eq_dec : EqDecision GroupSpec.
Proof. solve_decision. Defined.

Definition block_size (s : KVCacheSpec) : Z :=
  match s with
  | FullAttentionSpec a _ _ | ChunkedLocalAttentionSpec a _ | SlidingWindowSpec a _
  | EncoderOnlyAttentionSpec a | CrossAttentionSpec a => attn_block_size a
  | MambaSpec b _ _ _ _ _ => b
  end.

Definition group_block_size (g : GroupSpec) : Z :=
  match g with LayerSpec s => block_size s | UniformTypeKVCacheSpecs b _ => b end.

(** [SlidingWindowSpec.__post_init__]. *)
Definition mk_sliding_window_spec (a : AttentionSpec) (w : Z) : result KVCacheSpec :=
  _ ← py_assert (negb (use_mla a)); Ok (SlidingWindowSpec a w).

(** The fields of [VllmConfig] the KV-cache configuration reads. *)
Record VllmConfig := mkConfig {
  max_model_len : Z;
  decode_context_parallel_size : Z;
  max_num_batched_tokens : Z;
  max_num_encoder_input_tokens : Z;
  num_gpu_blocks_override : option Z;
  disable_hybrid_kv_cache_manager : bool;
}.

Definition set_max_model_len (n : Z) (c : VllmConfig) : VllmConfig :=
  mkConfig n (decode_context_parallel_size c) (max_num_batched_tokens c)
    (max_num_encoder_input_tokens c) (num_gpu_blocks_override c)
    (disable_hybrid_kv_cache_manager c).

Definition sumZ (l : list Z) : Z := fold_right Z.add 0 l.
Lemma sumZ_cons x l : sumZ (x :: l) = x + sumZ l.
Proof. done. Qed.
Lemma sumZ_app l k : sumZ (l ++ k) = sumZ l + sumZ k.
Proof. induction l; simpl; lia. Qed.

Definition prodZ (l : list Z) : Z := fold_right Z.mul 1 l.
(** [max(l)] of a non-empty sequence. *)
Definition py_max (l : list Z) : result Z :=
  match l with [] => Err ValueError | x :: l => Ok (fold_left Z.max l x) end.
Definition py_min (l : list Z) : result Z :=
  match l with [] => Err ValueError | x :: l => Ok (fold_left Z.min l x) end.

Lemma py_max_spec l m : py_max l = Ok m → m ∈ l ∧ ∀ x, x ∈ l → x ≤ m.
Proof.
  destruct l as [|x l]; [done|]. simpl. intros [= <-]. induction l as [|y l IH] in x |- *; simpl.
  - split; [by left|]. intros y ->%list_elem_of_singleton. lia.
  - destruct (IH (Z.max x y)) as [H1 H2]. split.
    + apply elem_of_cons in H1 as [->|?]; [|set_solver].
      destruct (Z.max_spec x y) as [[_ ->]|[_ ->]]; set_solver.
    + intros z Hz. destruct (decide (z = x ∨ z = y)) as [Hxy|].
      * pose proof (H2 (Z.max x y) ltac:(by left)). lia.
      * apply H2. set_solver.
Qed.

Lemma py_min_spec l m : py_min l = Ok m → m ∈ l ∧ ∀ x, x ∈ l → m ≤ x.
Proof.
  destruct l as [|x l]; [done|]. simpl. intros [= <-]. induction l as [|y l IH] in x |- *; simpl.
  - split; [by left|]. intros y ->%list_elem_of_singleton. lia.
  - destruct (IH (Z.min x y)) as [H1 H2]. split.
    + apply elem_of_cons in H1 as [->|?]; [|set_solver].
      destruct (Z.min_spec x y) as [[_ ->]|[_ ->]]; set_solver.
    + intros z Hz. destruct (decide (z = x ∨ z = y)) as [Hxy|].
      * pose proof (H2 (Z.min x y) ltac:(by left)). lia.
      * apply H2. set_solver.
Qed.

Section specs.
Context (get_dtype_size : dtype → Z).

(** [AttentionSpec.page_size_bytes]. *)
Definition attn_page_size_bytes (a : AttentionSpec) : Z :=
  let coef := if use_mla a then 1 else 2 in
  coef * attn_block_size a * num_kv_heads a * head_size a * get_dtype_size (attn_dtype a).

(** [MambaSpec.page_size_bytes]. *)
Definition mamba_page_size_bytes (shapes : list (list Z)) (dtypes : list dtype)
    (page_size_padded : option Z) : result Z :=
  let page_size := sumZ (zip_with (λ shape d, prodZ shape * get_dtype_size d) shapes dtypes) in
  match page_size_padded with
  | Some p => _ ← py_assert (page_size <=? p); Ok p
  | None => Ok page_size
  end.

Definition page_size_bytes (s : KVCacheSpec) : result Z :=
  match s with
  | FullAttentionSpec a _ _ | ChunkedLocalAttentionSpec a _ | SlidingWindowSpec a _
  | EncoderOnlyAttentionSpec a | CrossAttentionSpec a => Ok (attn_page_size_bytes a)
  | MambaSpec _ shapes dtypes padded _ _ => mamba_page_size_bytes shapes dtypes padded
  end.

Definition group_page_size_bytes (g : GroupSpec) : result Z :=
  match g with
  | LayerSpec s => page_size_bytes s
  | UniformTypeKVCacheSpecs _ specs => ps ← map_res page_size_bytes specs.*2; Ok (sumZ ps)
  end.

(** [FullAttentionSpec.max_memory_usage_bytes]. *)
Definition full_max_memory_usage_bytes (c : VllmConfig) (a : AttentionSpec) : Z :=
  let dcp := decode_context_parallel_size c in
  let n := if 1 <? dcp then cdiv (max_model_len c) dcp else max_model_len c in
  cdiv n (attn_block_size a) * attn_page_size_bytes a.

(** [ChunkedLocalAttentionSpec.max_memory_usage_bytes]. *)
Definition chunked_max_memory_usage_bytes (c : VllmConfig) (a : AttentionSpec) (chunk : Z) : Z :=
  let num_tokens := Z.min (chunk + max_num_batched_tokens c) (max_model_len c) in
  cdiv num_tokens (attn_block_size a) * attn_page_size_bytes a.

(** [SlidingWindowSpec.max_memory_usage_bytes]. *)
Definition sliding_max_memory_usage_bytes (c : VllmConfig) (a : AttentionSpec) (window : Z)
  : result Z :=
  _ ← py_assert (decode_context_parallel_size c =? 1);
  let num_tokens := Z.min (window - 1 + max_num_batched_tokens c) (max_model_len c) in
  Ok ((cdiv num_tokens (attn_block_size a) + 1) * attn_page_size_bytes a).

(** [CrossAttentionSpec.max_memory_usage_bytes]. *)
Definition cross_max_memory_usage_bytes (c : VllmConfig) (a : AttentionSpec) : Z :=
  cdiv (max_num_encoder_input_tokens c) (attn_block_size a) * attn_page_size_bytes a.

Definition max_memory_usage_bytes (c : VllmConfig) (s : KVCacheSpec) : result Z :=
  match s with
  | FullAttentionSpec a _ _ => Ok (full_max_memory_usage_bytes c a)
  | ChunkedLocalAttentionSpec a chunk => Ok (chunked_max_memory_usage_bytes c a chunk)
  | SlidingWindowSpec a window => sliding_max_memory_usage_bytes c a window
  | MambaSpec _ shapes dtypes padded _ _ => mamba_page_size_bytes shapes dtypes padded
  | EncoderOnlyAttentionSpec _ => Ok 0
  | CrossAttentionSpec a => Ok (cross_max_memory_usage_bytes c a)
  end.

(** [UniformTypeKVCacheSpecs.max_memory_usage_bytes]. *)
Definition group_max_memory_usage_bytes (c : VllmConfig) (g : GroupSpec) : result Z :=
  match g with
  | LayerSpec s => max_memory_usage_bytes c s
  | UniformTypeKVCacheSpecs _ specs =>
      pages ← map_res (λ s, m ← max_memory_usage_bytes c s; p ← page_size_bytes s;
                            if p =? 0 then Err ZeroDivisionError else Ok (cdiv m p)) specs.*2;
      max_num_pages ← py_max pages;
      page ← group_page_size_bytes g;
      Ok (max_num_pages * page)
  end.
End specs.

(** ** Merging *)

(** [FullAttentionSpec.merge_window_sizes] on the set of the given sizes. *)
Definition merge_window_sizes (sizes : list Z) : result (option Z) :=
  match remove_dups sizes with
  | [] => Ok None
  | [w] => Ok (Some w)
  | _ => Err ValueError
  end.

Definition is_full (s : KVCacheSpec) : bool :=
  match s with FullAttentionSpec _ _ _ => true | _ => false end.
Definition full_attn (s : KVCacheSpec) : option AttentionSpec :=
  match s with FullAttentionSpec a _ _ => Some a | _ => None end.
Definition full_window (s : KVCacheSpec) : option Z :=
  match s with FullAttentionSpec _ w _ => w | _ => None end.
Definition full_chunk (s : KVCacheSpec) : option Z :=
  match s with FullAttentionSpec _ _ k => k | _ => None end.

(** [FullAttentionSpec.merge]; [a] are the attention fields of [specs[0]]. *)
Definition merge_full (a : AttentionSpec) (specs : list KVCacheSpec) : result KVCacheSpec :=
  _ ← py_assert (forallb is_full specs);
  sw ← merge_window_sizes (omap full_window specs);
  ch ← merge_window_sizes (omap full_chunk specs);
  _ ← py_assert (forallb (λ s, bool_decide (full_attn s = Some a)) specs);
  _ ← py_assert (negb (bool_decide (is_Some sw) && bool_decide (is_Some ch)));
  Ok (FullAttentionSpec a sw ch).

(** [specs[0].merge(specs)]. *)
Definition merge (specs : list KVCacheSpec) : result KVCacheSpec :=
  match specs with
  | [] => Err IndexError
  | FullAttentionSpec a _ _ :: _ => merge_full a specs
  | s :: rest => _ ← py_assert (forallb (λ s', bool_decide (s' = s)) rest); Ok s
  end.

(** ** Uniform types *)

(** Whether [s'] has the same type as [s], for [is_uniform_type]. *)
Definition same_type (s s' : KVCacheSpec) : bool :=
  match s, s' with
  | FullAttentionSpec _ _ _, FullAttentionSpec _ _ _ => true
  | CrossAttentionSpec _, CrossAttentionSpec _ => true
  | SlidingWindowSpec _ w, SlidingWindowSpec _ w' => w' =? w
  | ChunkedLocalAttentionSpec _ k, ChunkedLocalAttentionSpec _ k' => k' =? k
  | MambaSpec _ _ _ _ _ n, MambaSpec _ _ _ _ _ n' => n' =? n
  | _, _ => false
  end.

Definition is_uniform_type (specs : list (string * KVCacheSpec)) : result bool :=
  if 1 <? len (remove_dups (block_size <$> specs.*2)) then Ok false
  else
    match specs.*2 with
    | [] => Err StopIteration
    | EncoderOnlyAttentionSpec _ :: _ => Err NotImplementedError
    | s :: _ => Ok (forallb (same_type s) specs.*2)
    end.

Definition from_specs (specs : list (string * KVCacheSpec)) : result (option GroupSpec) :=
  is_uniform_type specs ≫= λ b : bool,
  if b then
    match specs with
    | [] => Err StopIteration
    | (_, s) :: _ => Ok (Some (UniformTypeKVCacheSpecs (block_size s) specs))
    end
  else Ok None.

(** ** Configurations *)

Record KVCacheTensor := mkTensor {
  size : Z;
  shared_by : list string;
}.

Record KVCacheGroupSpec := mkGroup {
  layer_names : list string;
  kv_cache_spec : GroupSpec;
}.

Record KVCacheConfig := mkKVConfig {
  num_blocks : Z;
  kv_cache_tensors : list KVCacheTensor;
  kv_cache_groups : list KVCacheGroupSpec;
}.
