(* ===== verification/SingleType.v ===== *)
(** * Single-type KV-cache managers

    Models src/vllm/v1/core/single_type_kv_cache_manager.py: the block tables of
    the requests for one KV-cache group, one [Manager] per group.  The classes of
    the source differ in how they size an allocation, look up the prefix cache
    and drop skipped blocks; the class of a manager is given by its
    specification, so each method is one definition that branches on it.  The
    block pool is shared by all managers, so every method takes and returns it.

    Reading [self.req_to_blocks[id]] on the [defaultdict] inserts an empty list;
    [table_entry] models it.  [blocks[i] == self._null_block] compares the
    dataclass fields, [block_id] first; ids are distinct, so this is equality of
    references. *)
From S2P Require Import Prelude FreeQueue Request BlockHash BlockMap BlockPool KVSpecs.

Record Manager := mkManager {
  m_spec : KVCacheSpec;
  m_block_size : Z;
  dcp_world_size : Z;
  req_to_blocks : gmap string (list ptr);
  num_cached_block : gmap string Z;
  kv_cache_group_id : Z;
  m_null_block : ptr;
}.

Definition set_table (t : gmap string (list ptr)) (M : Manager) : Manager :=
  mkManager (m_spec M) (m_block_size M) (dcp_world_size M) t (num_cached_block M)
    (kv_cache_group_id M) (m_null_block M).
Definition set_cached (c : gmap string Z) (M : Manager) : Manager :=
  mkManager (m_spec M) (m_block_size M) (dcp_world_size M) (req_to_blocks M) c
    (kv_cache_group_id M) (m_null_block M).

(** [isinstance(manager, CrossAttentionManager)]. *)
Definition is_cross (M : Manager) : bool :=
  match m_spec M with CrossAttentionSpec _ => true | _ => false end.

(** [self.req_to_blocks[request_id]]. *)
Definition table_entry (request_id : string) (M : Manager) : list ptr * Manager :=
  match req_to_blocks M !! request_id with
  | Some bl => (bl, M)
  | None => ([], set_table (<[request_id := []]> (req_to_blocks M)) M)
  end.

Module Mgr.

(** [SingleTypeKVCacheManager.__init__]. *)
Definition init (spec : KVCacheSpec) (P : BlockPool) (group_id dcp : Z) : Manager :=
  let bs := block_size spec in
  mkManager spec (if 1 <? dcp then bs * dcp else bs) dcp ∅ ∅ group_id (null_block P).

(** [get_manager_for_kv_cache_spec]: the types in [spec_manager_map]. *)
Definition get_manager_for_kv_cache_spec (g : GroupSpec) (P : BlockPool) (group_id dcp : Z)
  : result Manager :=
  match g with
  | LayerSpec (EncoderOnlyAttentionSpec _) | UniformTypeKVCacheSpecs _ _ => Err KeyError
  | LayerSpec s => Ok (init s P group_id dcp)
  end.

(** The tokens [MambaManager] adds for its speculative blocks. *)
Definition with_spec_tokens (M : Manager) (num_tokens : Z) : Z :=
  match m_spec M with
  | MambaSpec bs _ _ _ _ nspec => if 0 <? nspec then num_tokens + bs * nspec else num_tokens
  | _ => num_tokens
  end.

(** [sum(blk.ref_cnt == 0 and not blk.is_null for blk in l)]. *)
Definition num_evictable (P : BlockPool) (l : list ptr) : Z :=
  len (filter (λ p, rc P p = 0 ∧ null_at P p = false) l).

Definition get_num_blocks_to_allocate (request_id : string) (num_tokens : Z)
    (new_computed_blocks : list ptr) (P : BlockPool) (M : Manager) : Z * Manager :=
  let num_required_blocks := cdiv (with_spec_tokens M num_tokens) (m_block_size M) in
  let '(bl, M) := table_entry request_id M in
  let num_new_blocks := num_required_blocks - len new_computed_blocks - len bl in
  (num_new_blocks + num_evictable P new_computed_blocks, M).

Definition save_new_computed_blocks (request_id : string) (new_computed_blocks : list ptr)
    (M : Manager) : result Manager :=
  if is_cross M then
    _ ← py_assert (len new_computed_blocks =? 0); Ok M
  else
    match num_cached_block M !! request_id with
    | None =>
        let '(bl, M) := table_entry request_id M in
        _ ← py_assert (len bl =? 0);
        let M := set_table (<[request_id := bl ++ new_computed_blocks]> (req_to_blocks M)) M in
        Ok (set_cached (<[request_id := len new_computed_blocks]> (num_cached_block M)) M)
    | Some _ => _ ← py_assert (len new_computed_blocks =? 0); Ok M
    end.

Definition allocate_new_blocks (use_int : bool) (request_id : string) (num_tokens : Z)
    (M : Manager) (P : BlockPool) : result (list ptr * Manager * BlockPool) :=
  let num_tokens := with_spec_tokens M num_tokens in
  let '(bl, M) := table_entry request_id M in
  let num_required_blocks := cdiv num_tokens (m_block_size M) in
  let num_new_blocks := num_required_blocks - len bl in
  if num_new_blocks <=? 0 then Ok ([], M, P)
  else
    '(new_blocks, P) ← Pool.get_new_blocks use_int num_new_blocks P;
    Ok (new_blocks, set_table (<[request_id := bl ++ new_blocks]> (req_to_blocks M)) M, P).

Definition cache_blocks (use_int : bool) (r : Request) (num_tokens : Z)
    (M : Manager) (P : BlockPool) : result (Manager * BlockPool) :=
  if is_cross M then Err ValueError
  else
    num_cached_blocks ← of_option KeyError (num_cached_block M !! request_id r);
    let num_full_blocks := num_tokens / m_block_size M in
    let '(bl, M) := table_entry (request_id r) M in
    P ← Pool.cache_full_blocks use_int r bl num_cached_blocks num_full_blocks
          (m_block_size M) (kv_cache_group_id M) P;
    Ok (set_cached (<[request_id r := num_full_blocks]> (num_cached_block M)) M, P).

Definition free (request_id : string) (M : Manager) (P : BlockPool)
  : result (Manager * BlockPool) :=
  let req_blocks := default [] (req_to_blocks M !! request_id) in
  let M := set_table (delete request_id (req_to_blocks M)) M in
  P ← Pool.free_blocks (reverse req_blocks) P;
  Ok (set_cached (delete request_id (num_cached_block M)) M, P).

(** The loop of [FullAttentionManager.get_num_common_prefix_blocks]. *)
Fixpoint common_prefix (P : BlockPool) (num_running_requests : Z) (bl : list ptr) : Z :=
  match bl with
  | [] => 0
  | p :: bl => if rc P p =? num_running_requests
               then 1 + common_prefix P num_running_requests bl else 0
  end.

Definition get_num_common_prefix_blocks (request_id : string) (num_running_requests : Z)
    (P : BlockPool) (M : Manager) : Z * Manager :=
  match m_spec M with
  | FullAttentionSpec _ _ _ =>
      let '(bl, M) := table_entry request_id M in
      (common_prefix P num_running_requests bl, M)
  | _ => (0, M)
  end.

(** The loops of [remove_skipped_blocks] over the indices of [range(k - 1, -1, -1)]:
    the table and [removed_blocks]. *)
Fixpoint remove_loop (null : ptr) (idx : list Z) (bl removed : list ptr)
  : result (list ptr * list ptr) :=
  match idx with
  | [] => Ok (bl, removed)
  | i :: idx =>
      b ← py_index bl i;
      if decide (b = null) then Ok (bl, removed)
      else
        bl ← py_set bl i null;
        remove_loop null idx bl (removed ++ [b])
  end.

(** The number of leading blocks that are no longer needed; the managers that
    keep everything have none. *)
Definition first_useful_block (request_id : string) (num_computed_tokens : Z) (M : Manager)
  : option Z :=
  match m_spec M with
  | SlidingWindowSpec _ sliding_window =>
      Some ((num_computed_tokens - sliding_window + 1) / m_block_size M)
  | ChunkedLocalAttentionSpec _ attention_chunk_size =>
      let num_cached := default 0 (num_cached_block M !! request_id) in
      let local_attention_start_idx :=
        num_computed_tokens / attention_chunk_size * attention_chunk_size in
      let first_useful_block_idx := local_attention_start_idx / m_block_size M in
      Some (if 0 <? num_cached then Z.min first_useful_block_idx (num_cached - 1)
            else first_useful_block_idx)
  | _ => None
  end.

Definition remove_skipped_blocks (request_id : string) (num_computed_tokens : Z)
    (M : Manager) (P : BlockPool) : result (Manager * BlockPool) :=
  match first_useful_block request_id num_computed_tokens M with
  | None => Ok (M, P)
  | Some k =>
      let '(bl, M) := table_entry request_id M in
      '(bl, removed) ← remove_loop (m_null_block M) (py_range_down (k - 1) (-1)) bl [];
      P ← Pool.free_blocks removed P;
      Ok (set_table (<[request_id := bl]> (req_to_blocks M)) M, P)
  end.

End Mgr.

(** ** Looking up the prefix cache *)

Module Hit.

(** [for computed, cached in zip(computed_blocks, cached_block): computed.append(cached)]. *)
Fixpoint append_each (computed : list (list ptr)) (cached : list ptr) : list (list ptr) :=
  match computed, cached with
  | c :: computed, b :: cached => (c ++ [b]) :: append_each computed cached
  | _, _ => computed
  end.

(** [... computed[i] = cached]. *)
Fixpoint set_each (i : Z) (computed : list (list ptr)) (cached : list ptr)
  : result (list (list ptr)) :=
  match computed, cached with
  | c :: computed, b :: cached =>
      c ← py_set c i b; rest ← set_each i computed cached; Ok (c :: rest)
  | _, _ => Ok computed
  end.

(** [l.pop()]. *)
Definition py_pop (l : list ptr) : result (list ptr) :=
  match l with [] => Err IndexError | _ => Ok (take (length l - 1) l) end.

(** [if use_eagle and computed_blocks[0]: for c in computed_blocks: c.pop()]. *)
Definition eagle_pop (use_eagle : bool) (computed : list (list ptr))
  : result (list (list ptr)) :=
  if use_eagle then
    first ← py_index computed 0;
    match first with [] => Ok computed | _ => map_res py_pop computed end
  else Ok computed.

(** [block_pool.get_cached_block] used as a condition: an empty list is falsy. *)
Definition lookup_cached (h : bytes) (gids : list Z) (P : BlockPool) : result (option (list ptr)) :=
  o ← Pool.get_cached_block h gids P;
  Ok (match o with Some [] => None | _ => o end).

(** The [for] loop of [FullAttentionManager]. *)
Fixpoint full_loop (hashes : list bytes) (gids : list Z) (P : BlockPool)
    (computed : list (list ptr)) : result (list (list ptr)) :=
  match hashes with
  | [] => Ok computed
  | h :: hashes =>
      o ← lookup_cached h gids P;
      match o with
      | Some cached => full_loop hashes gids P (append_each computed cached)
      | None => Ok computed
      end
  end.

Definition full (block_hashes : list bytes) (max_length : Z) (gids : list Z) (P : BlockPool)
    (spec : KVCacheSpec) (use_eagle : bool) (dcp : Z) : result (list (list ptr)) :=
  _ ← py_assert (match spec with
                 | FullAttentionSpec _ _ _ | ChunkedLocalAttentionSpec _ _ => true
                 | _ => false end);
  let bs := if 1 <? dcp then block_size spec * dcp else block_size spec in
  let max_num_blocks := max_length / bs in
  if max_num_blocks <? 0 then Err ValueError
  else
    computed ← full_loop (take (Z.to_nat max_num_blocks) block_hashes) gids P
                 (replicate (length gids) []);
    eagle_pop use_eagle computed.

(** The right-to-left loop of [SlidingWindowManager]: the blocks, the number of
    contiguous hits, and whether a match was found. *)
Fixpoint sliding_loop (block_hashes : list bytes) (gids : list Z) (P : BlockPool)
    (contiguous_needed : Z) (idx : list Z) (computed : list (list ptr)) (num_contiguous : Z)
  : result (list (list ptr) * Z * bool) :=
  match idx with
  | [] => Ok (computed, num_contiguous, false)
  | i :: idx =>
      h ← py_index block_hashes i;
      o ← lookup_cached h gids P;
      match o with
      | Some cached =>
          computed ← set_each i computed cached;
          let num_contiguous := num_contiguous + 1 in
          if contiguous_needed <=? num_contiguous then
            Ok ((λ c, py_del_from c (i + num_contiguous)) <$> computed, num_contiguous, true)
          else sliding_loop block_hashes gids P contiguous_needed idx computed num_contiguous
      | None => sliding_loop block_hashes gids P contiguous_needed idx computed 0
      end
  end.

Definition sliding (block_hashes : list bytes) (max_length : Z) (gids : list Z) (P : BlockPool)
    (spec : KVCacheSpec) (use_eagle : bool) (dcp : Z) : result (list (list ptr)) :=
  match spec with
  | SlidingWindowSpec a sliding_window =>
      _ ← py_assert (dcp =? 1);
      let contiguous := cdiv (sliding_window - 1) (attn_block_size a) in
      let contiguous := if use_eagle then contiguous + 1 else contiguous in
      let max_num_blocks := max_length / attn_block_size a in
      let computed := replicate (length gids) (py_repeat (null_block P) max_num_blocks) in
      '(computed, num_contiguous, match_found) ←
        sliding_loop block_hashes gids P contiguous (py_range_down (max_num_blocks - 1) (-1))
          computed 0;
      let computed := if (match_found : bool) then computed
                      else (λ c, py_del_from c num_contiguous) <$> computed in
      eagle_pop use_eagle computed
  | _ => Err AssertionError
  end.

(** The [for] loop of [ChunkedLocalAttentionManager]. *)
Fixpoint chunked_loop (block_hashes : list bytes) (gids : list Z) (P : BlockPool)
    (idx : list Z) (computed : list (list ptr)) : result (list (list ptr)) :=
  match idx with
  | [] => Ok computed
  | i :: idx =>
      h ← py_index block_hashes i;
      o ← lookup_cached h gids P;
      match o with
      | Some cached => chunked_loop block_hashes gids P idx (append_each computed cached)
      | None => Ok computed
      end
  end.

Definition chunked (block_hashes : list bytes) (max_length : Z) (gids : list Z) (P : BlockPool)
    (spec : KVCacheSpec) (use_eagle : bool) (dcp : Z) : result (list (list ptr)) :=
  match spec with
  | ChunkedLocalAttentionSpec a attention_chunk_size =>
      _ ← py_assert (negb use_eagle);
      _ ← py_assert (dcp =? 1);
      let max_num_blocks := max_length / attn_block_size a in
      let local_attention_start_idx :=
        if 0 <? max_length then max_length / attention_chunk_size * attention_chunk_size else 0 in
      let local_attention_start_block_idx := local_attention_start_idx / attn_block_size a in
      let computed :=
        replicate (length gids) (py_repeat (null_block P) local_attention_start_block_idx) in
      chunked_loop block_hashes gids P
        (py_range local_attention_start_block_idx max_num_blocks) computed
  | _ => Err AssertionError
  end.

Definition mamba (block_hashes : list bytes) (max_length : Z) (gids : list Z) (P : BlockPool)
    (spec : KVCacheSpec) (use_eagle : bool) (dcp : Z) : result (list (list ptr)) :=
  match spec with
  | MambaSpec _ _ _ _ _ _ => _ ← py_assert (dcp =? 1); Ok (replicate (length gids) [])
  | _ => Err AssertionError
  end.

Definition cross (block_hashes : list bytes) (max_length : Z) (gids : list Z) (P : BlockPool)
    (spec : KVCacheSpec) (use_eagle : bool) (dcp : Z) : result (list (list ptr)) :=
  match spec with
  | CrossAttentionSpec _ => Err NotImplementedError
  | _ => Err AssertionError
  end.

(** [cls.find_longest_cache_hit] for the class that manages [cls_spec]. *)
Definition find_longest_cache_hit (cls_spec : KVCacheSpec) :=
  match cls_spec with
  | FullAttentionSpec _ _ _ => full
  | SlidingWindowSpec _ _ => sliding
  | ChunkedLocalAttentionSpec _ _ => chunked
  | MambaSpec _ _ _ _ _ _ => mamba
  | _ => cross
  end.

End Hit.

(** ** Lookups: the shape of a hit *)

Lemma py_range_down_S k :
  py_range_down (Z.of_nat (S k) - 1) (-1) = Z.of_nat k :: py_range_down (Z.of_nat k - 1) (-1).
Proof.
  unfold py_range_down. replace (Z.of_nat (S k) - 1 - -1) with (Z.of_nat (S k)) by lia.
  replace (Z.of_nat k - 1 - -1) with (Z.of_nat k) by lia.
  rewrite seqZ_cons by lia. rewrite fmap_cons. f_equal; [lia|].
  replace (Z.pred (Z.of_nat (S k))) with (Z.of_nat k) by lia.
  rewrite <-(fmap_add_seqZ 1 0), <-list_fmap_compose. apply list_fmap_ext. intros i x _. simpl. lia.
Qed.

Lemma py_range_down_0 : py_range_down (Z.of_nat 0 - 1) (-1) = [].
Proof. done. Qed.

(** A bound below zero is an empty range. *)
Lemma py_range_down_nat k :
  py_range_down (k - 1) (-1) = py_range_down (Z.of_nat (Z.to_nat k) - 1) (-1).
Proof.
  destruct (Z.le_gt_cases 0 k); [by rewrite Z2Nat.id|].
  assert (Z.to_nat k = 0%nat) as -> by lia. unfold py_range_down, seqZ.
  by replace (Z.to_nat (k - 1 - -1)) with 0%nat by lia.
Qed.

(** Every group of [gids] has a block with hash [h]. *)
Definition all_hit (P : BlockPool) (h : bytes) (gids : list Z) : Prop :=
  Forall (λ g, ∃ p, hit P h g p) gids.

(** The [i]-th hash of [hashes] is known and in the cache for all groups. *)
Definition hit_at (P : BlockPool) (hashes : list bytes) (gids : list Z) (i : nat) : Prop :=
  ∃ h, hashes !! i = Some h ∧ all_hit P h gids.

(** A row of computed blocks of length [m]: null below [a], and from there on
    a block that carries the hash of its position. *)
Definition row (P : BlockPool) (hashes : list bytes) (a m : nat) (g : Z) (c : list ptr) : Prop :=
  length c = m ∧ ∀ i p, c !! i = Some p →
    if decide (i < a)%nat then p = Blk 0 else ∃ h, hashes !! i = Some h ∧ hit P h g p.

Section hits.
Context (P : BlockPool) (fl : list ptr) (HP : pool_inv P fl).
Context (gids : list Z) (Hgids : Forall (λ g, 0 ≤ g < 2 ^ 32) gids) (Hne : gids ≠ []).
Context (hashes : list bytes).

Lemma lookup_cached_spec h :
  ∃ o, Hit.lookup_cached h gids P = Ok o ∧
    match o with Some cached => Forall2 (hit P h) gids cached | None => ¬ all_hit P h gids end.
Proof.
  destruct (get_cached_block_spec P fl h gids HP Hgids) as (o&Ho&Hspec).
  unfold Hit.lookup_cached. rewrite Ho, Ok_bind.
  destruct o as [[|b cached]|].
  - exfalso. apply Forall2_nil_inv_r in Hspec. done.
  - by exists (Some (b :: cached)).
  - exists None. split; [done|]. destruct Hspec as (g&Hg&Hno). unfold all_hit.
    rewrite Forall_forall. intros Hall. destruct (Hall g Hg) as [p Hp]. by apply (Hno p).
Qed.

Lemma hits_all_hit h cached : Forall2 (hit P h) gids cached → all_hit P h gids.
Proof.
  clear Hgids Hne. unfold all_hit. intros H2. induction H2; constructor; eauto.
Qed.

Lemma append_each_rows a m h computed cached :
  Forall2 (row P hashes a m) gids computed → (a ≤ m)%nat → hashes !! m = Some h →
  Forall2 (hit P h) gids cached →
  Forall2 (row P hashes a (S m)) gids (Hit.append_each computed cached).
Proof.
  clear Hne Hgids. intros Hrows Ha Hh Hc. induction Hrows as [|g c gs cs [Hlen Hrow] Hrows IH] in cached, Hc |- *.
  { by constructor. }
  inversion Hc as [|? b ? cached' Hb Hc']; subst. simpl. constructor; [|by apply IH].
  split; [rewrite length_app; simpl; lia|]. intros i p Hi.
  apply lookup_app_Some in Hi as [Hi|[Hge Hi]]; [by apply Hrow|].
  apply list_lookup_singleton_Some in Hi as [Hz ->].
  assert (i = length c) as -> by lia. rewrite decide_False by lia. eauto.
Qed.

(** The loop of the full-attention lookup extends the rows block by block and
    stops at the first miss. *)
Lemma full_loop_spec hs pre computed rest :
  hashes = pre ++ hs ++ rest →
  Forall2 (row P hashes 0 (length pre)) gids computed →
  (∀ i, (i < length pre)%nat → hit_at P hashes gids i) →
  ∃ cs n, Hit.full_loop hs gids P computed = Ok cs ∧
    Forall2 (row P hashes 0 n) gids cs ∧ (length pre ≤ n ≤ length pre + length hs)%nat ∧
    (∀ i, (i < n)%nat → hit_at P hashes gids i) ∧
    (n < length pre + length hs → ¬ hit_at P hashes gids n)%nat.
Proof.
  induction hs as [|h hs IH] in pre, computed |- *; intros Heq Hrows Hpre; simpl.
  { exists computed, (length pre). split_and!; try done; lia. }
  assert (hashes !! length pre = Some h) as Hh by (rewrite Heq; by apply list_lookup_middle).
  destruct (lookup_cached_spec h) as ([cached|]&->&Ho); rewrite Ok_bind.
  - destruct (IH (pre ++ [h]) (Hit.append_each computed cached)) as (cs&n&Hrun&Hcs&Hn&Hhit&Hmiss).
    + by rewrite <-app_assoc.
    + rewrite length_app, Nat.add_1_r. eapply append_each_rows; [done|lia|done|done].
    + intros i. rewrite length_app. simpl. intros Hi. destruct (decide (i = length pre)) as [->|].
      * exists h. split; [done|]. by eapply hits_all_hit.
      * apply Hpre. lia.
    + rewrite length_app in *. simpl in *. exists cs, n. split_and!; try done; [lia..|].
      intros Hlt. apply Hmiss. lia.
  - exists computed, (length pre). split_and!; try done; [lia..|].
    intros _ (h'&Hh'&Hall). simplify_eq.
Qed.

Lemma rows_length a m cs : Forall2 (row P hashes a m) gids cs → length cs = length gids.
Proof. intros H2. symmetry. by eapply Forall2_length. Qed.

Lemma rows_take a m k cs :
  (k ≤ m)%nat → Forall2 (row P hashes a m) gids cs →
  Forall2 (row P hashes a k) gids (take k <$> cs).
Proof.
  intros Hk H2. apply Forall2_fmap_r. eapply Forall2_impl; [done|]. intros g c [Hlen Hrow]. split.
  - rewrite length_take. lia.
  - intros i p [Hi _]%lookup_take_Some. by apply Hrow.
Qed.

(** Dropping the last block for Eagle. *)
Definition eagle_len (use_eagle : bool) (n : nat) : nat := if use_eagle then (n - 1)%nat else n.

Lemma eagle_pop_spec use_eagle a m cs :
  Forall2 (row P hashes a m) gids cs →
  ∃ cs', Hit.eagle_pop use_eagle cs = Ok cs' ∧
    Forall2 (row P hashes a (eagle_len use_eagle m)) gids cs'.
Proof.
  intros Hrows. unfold Hit.eagle_pop. destruct use_eagle; [|by exists cs].
  destruct cs as [|c cs]; [by apply Forall2_nil_inv_r in Hrows|].
  rewrite (py_index_nonneg (c :: cs) 0 c), Ok_bind; [|lia|done].
  assert (length c = m) as Hc.
  { destruct gids as [|g gs]; [done|]. by apply Forall2_cons in Hrows as [[? _] _]. }
  destruct c as [|x c]; simpl in Hc.
  { exists ([] :: cs). split; [done|]. simpl. by replace (m - 1)%nat with m by lia. }
  exists (take (m - 1) <$> ((x :: c) :: cs)). split; [|eapply rows_take; [|exact Hrows]; lia].
  clear - Hrows Hc. assert (Forall (λ c, length c = m) ((x :: c) :: cs)) as Hall.
  { clear Hc. induction Hrows as [|? ? ? ? [? _]]; by constructor. }
  assert (0 < m)%nat as Hm by lia. clear Hc Hrows. induction Hall as [|d l Hd Hall IH]; [done|].
  simpl. rewrite IH. destruct d; simpl in *; [lia|]. subst. done.
Qed.
End hits.

(** The full-attention lookup finds, within the bound, the longest prefix of
    blocks all groups have; Eagle gives up the last one. *)
Lemma full_spec P fl gids hashes max_length spec use_eagle dcp :
  pool_inv P fl → Forall (λ g, 0 ≤ g < 2 ^ 32) gids → gids ≠ [] →
  (∃ a w k, spec = FullAttentionSpec a w k) → 0 < block_size spec → 0 ≤ max_length →
  let bs := if 1 <? dcp then block_size spec * dcp else block_size spec in
  let bound := (Z.to_nat (max_length / bs) `min` length hashes)%nat in
  ∃ cs n, Hit.full hashes max_length gids P spec use_eagle dcp = Ok cs ∧
    Forall2 (row P hashes 0 (eagle_len use_eagle n)) gids cs ∧ (n ≤ bound)%nat ∧
    (∀ i, (i < n)%nat → hit_at P hashes gids i) ∧
    ((n < bound)%nat → ¬ hit_at P hashes gids n).
Proof.
  intros HP Hg Hne (a&w&k&->) Hbs Hml bs bound. unfold Hit.full. rewrite py_assert_true, Ok_bind by done. fold bs.
  assert (0 < bs) as Hbs'.
  { unfold bs. destruct (Z.ltb_spec 1 dcp); simpl in *; nia. }
  pose proof (Z.div_pos max_length bs Hml Hbs').
  rewrite (proj2 (Z.ltb_ge _ _)) by lia.
  set (hs := take (Z.to_nat (max_length / bs)) hashes).
  destruct (full_loop_spec P fl HP gids Hg Hne hashes hs [] (replicate (length gids) [])
    (drop (Z.to_nat (max_length / bs)) hashes)) as (cs&n&Hrun&Hcs&Hn&Hhit&Hmiss).
  - simpl. symmetry. apply take_drop.
  - simpl. apply Forall2_replicate_r; [done|]. rewrite Forall_forall. intros g _. split; [done|].
    intros i p Hi. by rewrite lookup_nil in Hi.
  - simpl. lia.
  - rewrite Hrun, Ok_bind. destruct (eagle_pop_spec P gids Hg Hne hashes use_eagle 0 n cs Hcs) as (cs'&->&?).
    assert (length hs = bound) as Hb by apply length_take. simpl in *. rewrite Hb in *.
    exists cs', n. split_and!; try done. lia.
Qed.

(** *** Sliding windows *)

(** The last [c] blocks of a prefix of [n] blocks are all in the cache. *)
Definition covers (P : BlockPool) (hashes : list bytes) (gids : list Z) (c n : nat) : Prop :=
  ∀ i, (n - c ≤ i < n)%nat → hit_at P hashes gids i.

(** A row in the middle of the right-to-left scan: null left of [k], and the
    [num] blocks from [k] on are hits. *)
Definition srow (P : BlockPool) (hashes : list bytes) (m k num : nat) (g : Z) (c : list ptr) : Prop :=
  length c = m ∧ ∀ j p, c !! j = Some p →
    ((j < k)%nat → p = Blk 0) ∧
    ((k ≤ j < k + num)%nat → ∃ h, hashes !! j = Some h ∧ hit P h g p).

Lemma srow_del P hashes m k num g c :
  srow P hashes m k num g c → (k + num ≤ m)%nat →
  row P hashes k (k + num) g (py_del_from c (Z.of_nat (k + num))).
Proof.
  intros [Hlen Hrow] Hm. unfold py_del_from, slice_bound.
  rewrite (proj2 (Z.ltb_ge _ _)) by lia. rewrite Z.min_l by (unfold len; lia). rewrite Nat2Z.id. split.
  - rewrite length_take. lia.
  - intros i p [Hi Hlt]%lookup_take_Some. destruct (Hrow i p Hi) as [H1 H2].
    case_decide; [by apply H1|]. apply H2. lia.
Qed.

Lemma srow_set P hashes m k num g c h b :
  srow P hashes m (S k) num g c → (S k ≤ m)%nat → hashes !! k = Some h → hit P h g b →
  ∃ c', py_set c (Z.of_nat k) b = Ok c' ∧ srow P hashes m k (S num) g c'.
Proof.
  intros [Hlen Hrow] Hk Hh Hb. unfold py_set. rewrite (proj2 (Z.ltb_ge _ 0)) by lia.
  rewrite (proj2 (andb_true_iff _ _)).
  2: { split; [apply Z.leb_le; lia|apply Z.ltb_lt; unfold len; lia]. }
  rewrite Nat2Z.id. eexists. split; [done|]. split; [by rewrite length_insert|].
  intros j p Hj. apply list_lookup_insert_Some in Hj as [(->&->&_)|[Hne Hj]].
  - split; [lia|]. eauto.
  - destruct (Hrow j p Hj) as [H1 H2]. split; intros ?; [apply H1; lia|apply H2; lia].
Qed.

Lemma set_each_spec P hashes m k num gids cs h cached :
  Forall2 (srow P hashes m (S k) num) gids cs → (S k ≤ m)%nat → hashes !! k = Some h →
  Forall2 (hit P h) gids cached →
  ∃ cs', Hit.set_each (Z.of_nat k) cs cached = Ok cs' ∧
    Forall2 (srow P hashes m k (S num)) gids cs'.
Proof.
  intros Hrows Hk Hh Hc. induction Hrows as [|g c gs cs Hrow Hrows IH] in cached, Hc |- *.
  { exists []. by split; [|constructor]. }
  inversion Hc as [|? b ? cached' Hb Hc']; subst. simpl.
  destruct (srow_set P hashes m k num g c h b Hrow Hk Hh Hb) as (c'&->&Hc0). rewrite Ok_bind.
  destruct (IH cached' Hc') as (cs'&->&Hcs'). rewrite Ok_bind.
  exists (c' :: cs'). split; [done|]. by constructor.
Qed.

Section sliding.
Context (P : BlockPool) (fl : list ptr) (HP : pool_inv P fl).
Context (gids : list Z) (Hgids : Forall (λ g, 0 ≤ g < 2 ^ 32) gids) (Hne : gids ≠ []).
Context (hashes : list bytes) (m : nat) (Hm : (m ≤ length hashes)%nat).
Context (need : Z).
Abbreviation cw := (Z.to_nat need `max` 1)%nat.
Abbreviation covered := (covers P hashes gids cw).

(** The scan returns the longest covered prefix. *)
Lemma sliding_loop_spec k num cs :
  (k + num ≤ m)%nat → (num < cw)%nat →
  Forall2 (srow P hashes m k num) gids cs →
  (∀ i, (k ≤ i < k + num)%nat → hit_at P hashes gids i) →
  (∀ n, (k + num < n ≤ m)%nat → ¬ covered n) →
  ∃ cs' num' found, Hit.sliding_loop hashes gids P need (py_range_down (Z.of_nat k - 1) (-1)) cs
      (Z.of_nat num) = Ok (cs', num', found) ∧
    ∃ n, (n ≤ m)%nat ∧ covered n ∧ (∀ n', (n < n' ≤ m)%nat → ¬ covered n') ∧
      Forall2 (row P hashes (n - cw) n) gids
        (if found then cs' else (λ c0, py_del_from c0 num') <$> cs').
Proof.
  induction k as [|k IH] in num, cs |- *; intros Hk Hnum Hrows Hhits Hnone.
  { rewrite py_range_down_0. cbn [Hit.sliding_loop]. eexists _, _, false. split; [done|].
    exists num. split_and!; [lia| | |].
    - intros i Hi. apply Hhits. lia.
    - intros n' Hn'. apply Hnone. lia.
    - replace (num - cw)%nat with 0%nat by lia. apply Forall2_fmap_r.
      eapply Forall2_impl; [exact Hrows|]. intros g d Hd. by apply (srow_del P hashes m 0 num). }
  rewrite py_range_down_S. cbn [Hit.sliding_loop].
  destruct (lookup_lt_is_Some_2 hashes k) as [h Hh]; [lia|].
  rewrite (py_index_nonneg _ _ h), Ok_bind; [|lia|by rewrite Nat2Z.id].
  destruct (lookup_cached_spec P fl HP gids Hgids Hne h) as ([cached|]&->&Ho); rewrite Ok_bind.
  - assert (hit_at P hashes gids k) as Hk0.
    { exists h. split; [done|]. by eapply hits_all_hit. }
    destruct (set_each_spec P hashes m k num gids cs h cached Hrows ltac:(lia) Hh Ho)
      as (cs'&->&Hcs'). rewrite Ok_bind.
    replace (Z.of_nat num + 1) with (Z.of_nat (S num)) by lia.
    assert (∀ i, (k ≤ i < k + S num)%nat → hit_at P hashes gids i) as Hhits'.
    { intros i Hi. destruct (decide (i = k)) as [->|]; [done|]. apply Hhits. lia. }
    destruct (Z.leb_spec need (Z.of_nat (S num))) as [Hle|Hgt].
    + eexists _, _, true. split; [done|]. exists (k + S num)%nat.
      assert (cw = S num) as Hc by lia. rewrite Hc. split_and!; [lia| | |].
      * intros i Hi. apply Hhits'. lia.
      * intros n' Hn'. rewrite <-Hc. apply Hnone. lia.
      * replace (k + S num - S num)%nat with k by lia. apply Forall2_fmap_r.
        eapply Forall2_impl; [exact Hcs'|]. intros g d Hd.
        replace (Z.of_nat k + Z.of_nat (S num)) with (Z.of_nat (k + S num)) by lia.
        apply (srow_del P hashes m k (S num)); [done|lia].
    + apply IH; try done; [lia..|]. intros n' Hn'. apply Hnone. lia.
  - assert (¬ hit_at P hashes gids k) as Hmiss by (intros (h'&?&?); simplify_eq; done).
    apply (IH 0%nat); [lia|lia| |lia|].
    + eapply Forall2_impl; [exact Hrows|]. intros g d [Hl Hr]. split; [done|].
      intros j p Hj. split; [|lia]. intros Hjk. apply (Hr j p Hj). lia.
    + intros n' Hn' Hcov. destruct (decide (S k + num < n')%nat) as [Hlt|Hge].
      * by apply (Hnone n'); [lia|].
      * apply Hmiss, Hcov. lia.
Qed.
End sliding.

(** The sliding-window lookup finds, within the bound, the longest prefix whose
    last blocks, as many as the window needs (one more under Eagle), are cached
    for all groups; the blocks before are null. *)
Lemma sliding_spec P fl gids hashes max_length a window (use_eagle : bool) :
  pool_inv P fl → Forall (λ g, 0 ≤ g < 2 ^ 32) gids → gids ≠ [] →
  0 < attn_block_size a → 0 ≤ max_length → max_length / attn_block_size a ≤ len hashes →
  let need := cdiv (window - 1) (attn_block_size a) + (if use_eagle then 1 else 0) in
  let c := (Z.to_nat need `max` 1)%nat in
  let bound := Z.to_nat (max_length / attn_block_size a) in
  ∃ cs n, Hit.sliding hashes max_length gids P (SlidingWindowSpec a window) use_eagle 1 = Ok cs ∧
    Forall2 (row P hashes (n - c) (eagle_len use_eagle n)) gids cs ∧ (n ≤ bound)%nat ∧
    covers P hashes gids c n ∧
    (∀ n', (n < n' ≤ bound)%nat → ¬ covers P hashes gids c n').
Proof.
  intros HP Hg Hne Hbs Hml Hlen need c bound.
  pose proof (Z.div_pos max_length (attn_block_size a) Hml Hbs).
  unfold Hit.sliding. rewrite py_assert_true, Ok_bind by done. cbn zeta.
  replace (if use_eagle then cdiv (window - 1) (attn_block_size a) + 1
           else cdiv (window - 1) (attn_block_size a)) with need
    by (unfold need; destruct use_eagle; lia).
  assert (max_length / attn_block_size a = Z.of_nat bound) as -> by (unfold bound; lia).
  rewrite (pi_null _ _ _ HP).
  destruct (sliding_loop_spec P fl HP gids Hg Hne hashes bound ltac:(unfold len in *; lia) need
    bound 0 (replicate (length gids) (py_repeat (Blk 0) (Z.of_nat bound))))
    as (cs&num&found&Hrun&n&Hn&Hcov&Hmax&Hrows); try lia.
  { apply Forall2_replicate_r; [done|]. rewrite Forall_forall. intros g _. split.
    - unfold py_repeat. rewrite length_replicate. lia.
    - intros j p Hj. unfold py_repeat in Hj. apply lookup_replicate in Hj as [-> _].
      split; [done|lia]. }
  change (Z.of_nat 0) with 0 in Hrun. rewrite Hrun, Ok_bind.
  destruct (eagle_pop_spec P gids Hg Hne hashes use_eagle _ n _ Hrows) as (cs'&->&?).
  exists cs', n. done.
Qed.

(** *** Chunked local attention *)

Lemma chunked_loop_spec P fl gids hashes a d m computed :
  pool_inv P fl → Forall (λ g, 0 ≤ g < 2 ^ 32) gids → gids ≠ [] →
  (a ≤ m)%nat → (m + d ≤ length hashes)%nat →
  Forall2 (row P hashes a m) gids computed →
  ∃ cs n, Hit.chunked_loop hashes gids P (py_range (Z.of_nat m) (Z.of_nat (m + d))) computed = Ok cs ∧
    Forall2 (row P hashes a n) gids cs ∧ (m ≤ n ≤ m + d)%nat ∧
    (∀ i, (m ≤ i < n)%nat → hit_at P hashes gids i) ∧
    ((n < m + d)%nat → ¬ hit_at P hashes gids n).
Proof.
  intros HP Hg Hne. induction d as [|d IH] in m, computed |- *; intros Ha Hlen Hrows.
  { unfold py_range. rewrite Nat.add_0_r, Z.sub_diag. exists computed, m. split_and!; try done; lia. }
  unfold py_range. rewrite seqZ_cons by lia. cbn [Hit.chunked_loop].
  destruct (lookup_lt_is_Some_2 hashes m) as [h Hh]; [lia|].
  rewrite (py_index_nonneg _ _ h), Ok_bind; [|lia|by rewrite Nat2Z.id].
  destruct (lookup_cached_spec P fl HP gids Hg Hne h) as ([cached|]&->&Ho); rewrite Ok_bind.
  - destruct (IH (S m) (Hit.append_each computed cached)) as (cs&n&Hrun&Hcs&Hn&Hhit&Hmiss); [lia..| |].
    { eapply append_each_rows; try done. }
    exists cs, n. split_and!; try done; [|lia..| |].
    + rewrite <-Hrun. unfold py_range. do 2 f_equal; lia.
    + intros i Hi. destruct (decide (i = m)) as [->|]; [|apply Hhit; lia].
      exists h. split; [done|]. by eapply hits_all_hit.
    + intros Hlt. apply Hmiss. lia.
  - exists computed, m. split_and!; try done; [lia..|]. intros _ (h'&?&?). by simplify_eq.
Qed.

(** The chunked-local lookup takes the blocks before the current chunk as null
    and finds the longest run of cached blocks inside it. *)
Lemma chunked_spec P fl gids hashes max_length a chunk :
  pool_inv P fl → Forall (λ g, 0 ≤ g < 2 ^ 32) gids → gids ≠ [] →
  0 < attn_block_size a → 0 < chunk → 0 ≤ max_length → max_length / attn_block_size a ≤ len hashes →
  let start := Z.to_nat (max_length / chunk * chunk / attn_block_size a) in
  let bound := Z.to_nat (max_length / attn_block_size a) in
  ∃ cs n, Hit.chunked hashes max_length gids P (ChunkedLocalAttentionSpec a chunk) false 1 = Ok cs ∧
    Forall2 (row P hashes start n) gids cs ∧ (start ≤ n ≤ bound)%nat ∧
    (∀ i, (start ≤ i < n)%nat → hit_at P hashes gids i) ∧
    ((n < bound)%nat → ¬ hit_at P hashes gids n).
Proof.
  intros HP Hg Hne Hbs Hck Hml Hlen start bound.
  pose proof (Z.div_pos max_length (attn_block_size a) Hml Hbs).
  assert (0 ≤ max_length / chunk * chunk ≤ max_length) as Hstart.
  { pose proof (Z.div_pos max_length chunk Hml Hck). pose proof (Z.mul_div_le max_length chunk Hck). nia. }
  pose proof (Z.div_pos (max_length / chunk * chunk) (attn_block_size a) ltac:(lia) Hbs).
  pose proof (Z.div_le_mono (max_length / chunk * chunk) max_length (attn_block_size a) ltac:(lia) ltac:(lia)).
  unfold Hit.chunked. rewrite !py_assert_true, !Ok_bind by done. cbn zeta.
  replace (if 0 <? max_length then max_length / chunk * chunk else 0) with (max_length / chunk * chunk).
  2: { destruct (Z.ltb_spec 0 max_length); [done|]. replace max_length with 0 by lia. done. }
  assert (max_length / chunk * chunk / attn_block_size a = Z.of_nat start) as -> by (unfold start; lia).
  assert (max_length / attn_block_size a = Z.of_nat (start + (bound - start))) as ->
    by (unfold start, bound; lia).
  rewrite (pi_null _ _ _ HP).
  destruct (chunked_loop_spec P fl gids hashes start (bound - start) start
    (replicate (length gids) (py_repeat (Blk 0) (Z.of_nat start)))) as (cs&n&->&Hrows&Hn&Hhit&Hmiss); try done.
  - unfold bound, len in *. lia.
  - apply Forall2_replicate_r; [done|]. rewrite Forall_forall. intros g _. unfold py_repeat. split.
    + rewrite length_replicate. lia.
    + intros i p [-> Hi]%lookup_replicate. by rewrite decide_True by lia.
  - exists cs, n. split_and!; try done; try lia. intros Hlt. apply Hmiss. lia.
Qed.

(** ** Block tables and their invariant *)

Definition blocks_of (M : Manager) (rid : string) : list ptr := default [] (req_to_blocks M !! rid).
Definition cached_of (M : Manager) (rid : string) : Z := default 0 (num_cached_block M !! rid).

(** The references a manager holds to a block. *)
Definition uses (p : ptr) (M : Manager) : Z := map_sum (occ p) (req_to_blocks M).

(** A block table: null blocks, then distinct blocks.  The blocks that are not
    cached yet carry no hash and are referenced only here. *)
Record table_inv (P : BlockPool) (nc : Z) (bl : list ptr) : Prop := {
  ti_shape : ∃ z b, bl = replicate z (Blk 0) ++ b ∧ Blk 0 ∉ b ∧ NoDup b ∧
    (enable_caching P = true → Z.of_nat z ≤ nc);
  ti_valid : Forall (valid P) bl;
  ti_tail : ∀ j p, nc ≤ Z.of_nat j → bl !! j = Some p → p ≠ Blk 0 →
    hash_at P p = None ∧ rc P p = 1;
  ti_cached : 0 ≤ nc;
}.

Record mgr_inv (P : BlockPool) (M : Manager) : Prop := {
  mi_bs : 0 < m_block_size M;
  mi_gid : 0 ≤ kv_cache_group_id M < 2 ^ 32;
  mi_null : m_null_block M = Blk 0;
  mi_table : ∀ rid, table_inv P (cached_of M rid) (blocks_of M rid);
  mi_new : ∀ rid, is_cross M = false → num_cached_block M !! rid = None → blocks_of M rid = [];
}.

(** What a manager and the pool guarantee together, when the rest of the system
    holds [ext p] references to [p]. *)
Record mgr_sys (M : Manager) (P : BlockPool) (fl : list ptr) (ext : ptr → Z) : Prop := {
  ms_pool : pool_inv P fl;
  ms_mgr : mgr_inv P M;
  ms_rc : ∀ p, valid P p → p ≠ Blk 0 → rc P p = uses p M + ext p;
  ms_ext : ∀ p, 0 ≤ ext p;
  ms_nohash : enable_caching P = false → ∀ p, valid P p → hash_at P p = None;
}.

(** What a step of one manager promises the holders of the other references:
    a block without hash that only they reference stays so. *)
Definition keeps (sel : ptr → Prop) (P P' : BlockPool) : Prop :=
  ∀ q, valid P q → q ≠ Blk 0 → sel q → hash_at P q = None ∧ rc P q = 1 →
       hash_at P' q = None ∧ rc P' q = 1.

Lemma uses_nonneg p M : 0 ≤ uses p M.
Proof. apply map_sum_nonneg. intros. apply occ_nonneg. Qed.

Lemma map_sum_split {V} (f : V → Z) (m : gmap string V) k :
  map_sum f m = map_sum f (delete k m) + from_option f 0 (m !! k).
Proof.
  destruct (m !! k) as [v|] eqn:E; simpl.
  - rewrite (map_sum_delete f m k v E). lia.
  - rewrite delete_id by done. lia.
Qed.

Lemma occ_default p (o : option (list ptr)) : from_option (occ p) 0 o = occ p (default [] o).
Proof. by destruct o. Qed.

(** A manager's references to a block, by request. *)
Lemma uses_split p M rid :
  uses p M = map_sum (occ p) (delete rid (req_to_blocks M)) + occ p (blocks_of M rid).
Proof. unfold uses, blocks_of. by rewrite (map_sum_split _ _ rid), occ_default. Qed.

Lemma uses_entry p M rid : occ p (blocks_of M rid) ≤ uses p M.
Proof.
  rewrite (uses_split p M rid).
  pose proof (map_sum_nonneg (occ p) (delete rid (req_to_blocks M)) (occ_nonneg p)). lia.
Qed.

Lemma uses_two p M rid rid' :
  rid ≠ rid' → occ p (blocks_of M rid) + occ p (blocks_of M rid') ≤ uses p M.
Proof.
  intros Hne. rewrite (uses_split p M rid).
  rewrite (map_sum_split (occ p) (delete rid _) rid'), occ_default, lookup_delete_ne by done.
  pose proof (map_sum_nonneg (occ p) (delete rid' (delete rid (req_to_blocks M))) (occ_nonneg p)).
  unfold blocks_of. lia.
Qed.

Lemma table_entry_spec rid M :
  table_entry rid M =
    (blocks_of M rid, set_table (<[rid := blocks_of M rid]> (req_to_blocks M)) M).
Proof.
  unfold table_entry, blocks_of. destruct (req_to_blocks M !! rid) as [bl|] eqn:E; simpl; [|done].
  rewrite insert_id by done. by destruct M.
Qed.

Lemma table_inv_frame P P' nc bl :
  table_inv P nc bl → same_cfg P P' → keeps (λ q, q ∈ bl) P P' → table_inv P' nc bl.
Proof.
  intros [Hs Hv Ht Hc] Hcfg Hk. split; try done.
  - destruct Hcfg as (_&->&_). done.
  - eapply Forall_impl; [exact Hv|]. intros p. by apply (same_cfg_valid P).
  - intros j p Hj Hp Hne. assert (p ∈ bl) as Hin by by eapply list_elem_of_lookup_2.
    rewrite Forall_forall in Hv. apply Hk; auto. by apply (Ht j).
Qed.

Lemma table_inv_nil P nc : 0 ≤ nc → table_inv P nc [].
Proof.
  intros Hn. split; [|done| |done].
  - exists 0%nat, []. split_and!; [done|by intros ?%elem_of_nil|constructor|lia].
  - intros j p _ Hj. by rewrite lookup_nil in Hj.
Qed.

(** Only the entries of one request differ between two states of a manager. *)
Definition mgr_frame (rid : string) (M M' : Manager) : Prop :=
  m_spec M' = m_spec M ∧ m_block_size M' = m_block_size M ∧
  kv_cache_group_id M' = kv_cache_group_id M ∧ m_null_block M' = m_null_block M ∧
  delete rid (req_to_blocks M') = delete rid (req_to_blocks M) ∧
  delete rid (num_cached_block M') = delete rid (num_cached_block M).

#[export] Instance mgr_frame_equiv rid : Equivalence (mgr_frame rid).
Proof.
  split; unfold mgr_frame; [by intros M|intros M N (?&?&?&?&?&?)|
    intros M N O (?&?&?&?&?&?) (?&?&?&?&?&?)]; split_and!; congruence.
Qed.

Lemma mgr_frame_other rid M M' r :
  mgr_frame rid M M' → r ≠ rid →
  blocks_of M' r = blocks_of M r ∧ num_cached_block M' !! r = num_cached_block M !! r.
Proof.
  intros (_&_&_&_&Htab&Hcac) Hr. unfold blocks_of.
  rewrite <-(lookup_delete_ne (req_to_blocks M') rid r), Htab, lookup_delete_ne by done.
  by rewrite <-(lookup_delete_ne (num_cached_block M') rid r), Hcac, lookup_delete_ne by done.
Qed.

(** One table of a manager changes, together with the pool: the generic step. *)
Lemma mgr_sys_step M P fl ext rid M' P' fl' ext' :
  mgr_sys M P fl ext → pool_inv P' fl' → same_cfg P P' →
  mgr_frame rid M M' →
  table_inv P' (cached_of M' rid) (blocks_of M' rid) →
  (is_cross M = false → num_cached_block M' !! rid = None → blocks_of M' rid = []) →
  (∀ p, valid P p → p ≠ Blk 0 →
     rc P' p = rc P p + occ p (blocks_of M' rid) - occ p (blocks_of M rid) + ext' p - ext p) →
  (∀ p, 0 ≤ ext' p) →
  keeps (λ q, q ∉ blocks_of M rid) P P' →
  (enable_caching P = false → ∀ p, valid P p → hash_at P' p = None) →
  mgr_sys M' P' fl' ext' ∧ keeps (λ q, 0 < ext q) P P'.
Proof.
  intros [HP HM Hrc Hext Hnh] HP' Hcfg Hfr Htbl Hnew Hrc' Hext' Hk Hnh'.
  assert (∀ r, r ≠ rid → blocks_of M' r = blocks_of M r ∧ cached_of M' r = cached_of M r ∧
    num_cached_block M' !! r = num_cached_block M !! r) as Hoff.
  { intros r Hr. unfold cached_of. destruct (mgr_frame_other rid M M' r Hfr Hr) as [-> ->]. done. }
  destruct Hfr as (Hspec&Hbs&Hgid&Hnull&Htab&_).
  split; [split; [done| | |done|]|].
  - split; [by rewrite Hbs; apply HM|by rewrite Hgid; apply HM|by rewrite Hnull; apply HM| |].
    + intros r. destruct (decide (r = rid)) as [->|Hr]; [done|].
      destruct (Hoff r Hr) as (->&->&_). eapply table_inv_frame; [apply HM|done|].
      intros q Hv Hne Hin [Hh Hr1]. apply Hk; try done. intros Hq. apply occ_elem in Hin, Hq.
      pose proof (uses_two q M rid r ltac:(done)). specialize (Hrc q Hv Hne). specialize (Hext q). lia.
    + intros r Hcr. assert (is_cross M = false) by (unfold is_cross in *; by rewrite <-Hspec).
      destruct (decide (r = rid)) as [->|Hr]; [auto|].
      destruct (Hoff r Hr) as (->&_&->). by apply HM.
  - intros p Hv Hne. apply (same_cfg_valid P P') in Hv; [|done].
    rewrite Hrc', (Hrc p) by done. rewrite (uses_split p M' rid), (uses_split p M rid), Htab. lia.
  - destruct Hcfg as (HN&->&_). intros Hc p Hv. apply Hnh'; [done|]. unfold valid in *. by rewrite <-HN.
  - intros q Hv Hne Hq Hh. apply Hk; try done. intros Hin. apply occ_elem in Hin.
    pose proof (uses_entry q M rid). specialize (Hrc q Hv Hne). lia.
Qed.

(** Blocks that nothing references are the free ones. *)
Lemma entry_rc_pos M P fl ext rid p :
  mgr_sys M P fl ext → p ∈ blocks_of M rid → p ≠ Blk 0 → valid P p ∧ 0 < rc P p.
Proof.
  intros [HP HM Hrc Hext _] Hin Hne.
  pose proof (ti_valid _ _ _ (mi_table _ _ HM rid)) as Hv. rewrite Forall_forall in Hv.
  split; [by apply Hv|]. rewrite Hrc by auto. apply occ_elem in Hin.
  pose proof (uses_entry p M rid). specialize (Hext p). lia.
Qed.

Lemma fl_rc P fl p : pool_inv P fl → p ∈ fl → valid P p ∧ p ≠ Blk 0 ∧ rc P p = 0.
Proof. intros HP Hp. apply (pi_free _ _ _ HP). by left. Qed.

(** Growing a table by fresh blocks. *)
Lemma table_inv_grow P P' fl n nc bl :
  pool_inv P fl → table_inv P nc bl → (∀ p, p ∈ bl → p ≠ Blk 0 → 0 < rc P p) →
  same_cfg P P' →
  let l := take n fl in
  (∀ q, rc P' q = rc P q + occ q l) → (∀ q, q ∉ l → hash_at P' q = hash_at P q) →
  (∀ q, q ∈ l → hash_at P' q = None) →
  table_inv P' nc (bl ++ l).
Proof.
  intros HP Ht Hpos Hcfg l Hrc Hh Hl.
  assert (∀ q, q ∈ l → valid P q ∧ q ≠ Blk 0 ∧ rc P q = 0) as Hfl.
  { intros q Hq. eapply fl_rc; [done|]. by eapply subseteq_take. }
  assert (NoDup l) as Hndl by (eapply sublist_NoDup; [by eapply fl_nodup|apply sublist_take]).
  assert (∀ q, q ∈ bl → q ≠ Blk 0 → q ∉ l) as Hdisj.
  { intros q Hq Hne Hql. specialize (Hpos q Hq Hne). apply Hfl in Hql as (_&_&?). lia. }
  assert (table_inv P' nc bl) as Ht'.
  { eapply table_inv_frame; [done..|]. intros q Hv Hne Hin [??]. specialize (Hdisj q Hin Hne).
    rewrite Hh, Hrc, occ_not_elem by done. split; [done|lia]. }
  destruct Ht' as [(z&b&->&Hb0&Hndb&Hz) Hv Htail Hc]. split; try done.
  - exists z, (b ++ l). rewrite <-app_assoc. split_and!; try done.
    + rewrite not_elem_of_app. split; [done|]. intros ?%Hfl. naive_solver.
    + apply NoDup_app. split_and!; try done. intros q Hq. apply Hdisj; [set_solver|]. by intros ->.
  - apply Forall_app. split; [done|]. rewrite Forall_forall. intros q Hq.
    apply (same_cfg_valid P); [done|]. by apply Hfl.
  - intros j p Hj Hp Hne. apply lookup_app_Some in Hp as [Hp|[_ Hp]]; [by apply (Htail j)|].
    apply list_elem_of_lookup_2 in Hp. split; [by apply Hl|].
    rewrite Hrc, (occ_NoDup p) by done. rewrite decide_True by done. apply Hfl in Hp. lia.
Qed.

(** [allocate_new_blocks] extends the request's table to the size needed, with
    blocks from the front of the free list, if there are enough. *)
Lemma allocate_spec use_int M P fl ext rid num_tokens :
  mgr_sys M P fl ext →
  let required := cdiv (Mgr.with_spec_tokens M num_tokens) (m_block_size M) in
  let n := Z.to_nat (required - len (blocks_of M rid)) in
  (n ≤ length fl)%nat → (is_cross M = false → is_Some (num_cached_block M !! rid)) →
  ∃ M' P', let l := take n fl in
    Mgr.allocate_new_blocks use_int rid num_tokens M P = Ok (l, M', P') ∧
    mgr_sys M' P' (drop n fl) ext ∧ keeps (λ q, 0 < ext q) P P' ∧ same_cfg P P' ∧
    mgr_frame rid M M' ∧ blocks_of M' rid = blocks_of M rid ++ l ∧
    num_cached_block M' = num_cached_block M ∧ (∀ q, q ∉ l → hash_at P' q = hash_at P q).
Proof.
  intros HS required n Hn Hnc. unfold Mgr.allocate_new_blocks. rewrite table_entry_spec. cbn [fst snd].
  set (M1 := set_table (<[rid:=blocks_of M rid]> (req_to_blocks M)) M).
  assert (∀ bl, mgr_frame rid M (set_table (<[rid:=bl]> (req_to_blocks M1)) M1)) as Hfr.
  { intros bl. unfold mgr_frame. cbn. by rewrite !delete_insert_eq. }
  change (m_block_size M1) with (m_block_size M). fold required.
  pose proof (ms_pool _ _ _ _ HS) as HP. pose proof (ms_mgr _ _ _ _ HS) as HM.
  destruct (Z.leb_spec (required - len (blocks_of M rid)) 0) as [Hle|Hgt].
  - assert (n = 0%nat) as -> by lia. exists M1, P. cbn [take drop].
    assert (mgr_frame rid M M1) as Hfr1 by (unfold mgr_frame; cbn; by rewrite delete_insert_eq).
    assert (blocks_of M1 rid = blocks_of M rid) as Hb by (unfold blocks_of at 1; cbn; by rewrite lookup_insert_eq).
    destruct (mgr_sys_step M P fl ext rid M1 P fl ext HS HP) as [HS' Hk]; try done.
    + rewrite Hb. apply HM.
    + rewrite Hb. apply HM.
    + intros p _ _. rewrite Hb. lia.
    + apply HS.
    + by intros q.
    + apply HS.
    + eexists; split; [done|]. by rewrite app_nil_r.
  - destruct (get_new_blocks_spec use_int P fl (required - len (blocks_of M rid)) HP)
      as (P'&->&HP'&Hcfg&Hrc&Hh&Hl); [unfold len in *; lia|]. fold n in HP', Hrc, Hh, Hl |- *. rewrite Ok_bind. cbn [fst snd].
    set (l := take n fl) in *. set (M2 := set_table _ M1).
    assert (blocks_of M2 rid = blocks_of M rid ++ l) as Hb by (unfold blocks_of at 1; cbn; by rewrite lookup_insert_eq).
    assert (∀ q, q ∈ l → valid P q ∧ q ≠ Blk 0 ∧ rc P q = 0) as Hfl.
    { intros q Hq. eapply fl_rc; [done|]. by eapply subseteq_take. }
    assert (∀ q, q ∈ l → hash_at P' q = None) as Hl0.
    { intros q Hq. rewrite Hl by done. destruct (enable_caching P) eqn:Hc; [done|].
      apply (ms_nohash _ _ _ _ HS Hc). by apply Hfl. }
    exists M2, P'. destruct (mgr_sys_step M P fl ext rid M2 P' (drop n fl) ext HS HP' Hcfg) as [HS' Hk]; try done.
    + apply Hfr.
    + rewrite Hb. apply (table_inv_grow P P' fl n); try done; [apply HM|].
      intros p Hp Hne. by eapply entry_rc_pos.
    + intros Hcr Hnone. destruct (Hnc Hcr) as [x Hx]. cbn in Hnone. congruence.
    + intros p _ _. rewrite Hb, occ_app, Hrc. lia.
    + apply HS.
    + intros q Hv Hne _ [Hq0 Hq1]. assert (q ∉ l) as Hql by (intros ?%Hfl; naive_solver lia).
      rewrite Hh, Hrc, occ_not_elem by done. split; [done|lia].
    + intros Hc p Hv. destruct (decide (p ∈ l)); [by apply Hl0|]. rewrite Hh by done.
      by apply (ms_nohash _ _ _ _ HS).
    + split_and!; try done. apply Hfr.
Qed.

(** The non-null blocks of a table are distinct. *)
Lemma table_nodup P nc bl : table_inv P nc bl → NoDup (filter (.≠ Blk 0) bl).
Proof.
  intros [(z&b&->&Hb0&Hnd&_) _ _ _]. rewrite filter_app.
  assert (filter (.≠ Blk 0) (replicate z (Blk 0)) = []) as ->.
  { induction z; [done|]. simpl. by rewrite filter_cons_False by naive_solver. }
  rewrite filter_id; [done|]. by intros x Hx ->.
Qed.

(** [free] returns all the blocks of a request, the last block first. *)
Lemma free_spec M P fl ext rid :
  mgr_sys M P fl ext →
  ∃ M' P', Mgr.free rid M P = Ok (M', P') ∧
    mgr_sys M' P' (fl ++ filter (λ p, p ≠ Blk 0 ∧ rc P p = 1) (reverse (blocks_of M rid))) ext ∧
    keeps (λ q, 0 < ext q) P P' ∧ same_cfg P P' ∧ mgr_frame rid M M' ∧
    blocks_of M' rid = [] ∧ num_cached_block M' !! rid = None ∧
    (∀ q, hash_at P' q = hash_at P q).
Proof.
  intros HS. pose proof (ms_pool _ _ _ _ HS) as HP. pose proof (ms_mgr _ _ _ _ HS) as HM.
  pose proof (mi_table _ _ HM rid) as Ht. unfold Mgr.free.
  change (default [] (req_to_blocks M !! rid)) with (blocks_of M rid).
  destruct (free_blocks_spec P fl (reverse (blocks_of M rid)) HP) as (P'&->&HP'&Hcfg&Hrc&Hh).
  - apply Forall_reverse, Ht.
  - rewrite filter_reverse. rewrite reverse_Permutation. by eapply table_nodup.
  - intros p Hp Hne. rewrite elem_of_reverse in Hp. by eapply entry_rc_pos.
  - rewrite Ok_bind. set (M' := set_cached _ _). exists M', P'.
    assert (mgr_frame rid M M') as Hfr by (unfold mgr_frame; cbn; by rewrite !delete_delete_eq).
    assert (blocks_of M' rid = []) as Hb by (unfold blocks_of; cbn; by rewrite lookup_delete_eq).
    assert (num_cached_block M' !! rid = None) as Hn by (cbn; by rewrite lookup_delete_eq).
    destruct (mgr_sys_step M P fl ext rid M' P' _ ext HS HP' Hcfg Hfr) as [HS' Hk]; try done.
    + rewrite Hb. apply table_inv_nil. unfold cached_of. by rewrite Hn.
    + intros p _ _. rewrite Hb, Hrc, occ_reverse. simpl. lia.
    + apply HS.
    + intros q Hv Hne Hq [??]. rewrite Hh, Hrc, occ_reverse, occ_not_elem by done. split; [done|lia].
    + intros Hc p Hv. rewrite Hh. by apply (ms_nohash _ _ _ _ HS).
Qed.

(** ** Skipped blocks *)

Lemma py_index_middle {A} (l1 : list A) x l2 i :
  i = Z.of_nat (length l1) → py_index (l1 ++ x :: l2) i = Ok x.
Proof. intros ->. apply py_index_nonneg; [lia|]. rewrite Nat2Z.id. by apply list_lookup_middle. Qed.

Lemma py_set_middle {A} (l1 : list A) x y l2 i :
  i = Z.of_nat (length l1) → py_set (l1 ++ x :: l2) i y = Ok (l1 ++ y :: l2).
Proof.
  intros ->. unfold py_set. rewrite (proj2 (Z.ltb_ge _ 0)) by lia.
  rewrite (proj2 (andb_true_iff _ _)).
  2: { unfold len. rewrite length_app. simpl. split; [apply Z.leb_le|apply Z.ltb_lt]; lia. }
  rewrite Nat2Z.id. f_equal. rewrite insert_app_r_alt, Nat.sub_diag by lia. done.
Qed.

(** The loop replaces a run of blocks by null, right to left, and stops at the
    null blocks before it. *)
Lemma remove_loop_spec null z b1 post removed :
  null ∉ b1 →
  Mgr.remove_loop null (py_range_down (Z.of_nat (z + length b1) - 1) (-1))
    (replicate z null ++ b1 ++ post) removed
  = Ok (replicate (z + length b1) null ++ post, removed ++ reverse b1).
Proof.
  induction b1 as [|x b1 IH] using rev_ind in post, removed |- *; intros Hn.
  - simpl. rewrite Nat.add_0_r, app_nil_r. destruct z as [|z]; [done|].
    rewrite py_range_down_S. cbn [Mgr.remove_loop].
    rewrite replicate_S_end, <-app_assoc. simpl. rewrite py_index_middle, Ok_bind.
    2: { by rewrite length_replicate. } by rewrite decide_True.
  - rewrite not_elem_of_app, not_elem_of_cons in Hn. destruct Hn as (Hn&Hx&_).
    rewrite length_app. simpl. replace (z + (length b1 + 1))%nat with (S (z + length b1)) by lia.
    rewrite py_range_down_S. cbn [Mgr.remove_loop].
    replace (replicate z null ++ (b1 ++ [x]) ++ post) with ((replicate z null ++ b1) ++ x :: post)
      by (by rewrite <-!app_assoc).
    assert (Z.of_nat (z + length b1) = Z.of_nat (length (replicate z null ++ b1))) as Hlen
      by (by rewrite length_app, length_replicate).
    rewrite (py_index_middle _ _ _ _ Hlen), Ok_bind, decide_False by congruence.
    rewrite (py_set_middle _ _ _ _ _ Hlen), Ok_bind, <-app_assoc, IH by done.
    rewrite reverse_snoc, <-app_assoc. simpl. f_equal. f_equal.
    rewrite (app_cons_snoc (replicate _ null) null post), <-replicate_S_end. done.
Qed.

(** With a bound [k] inside the table, the first [k] blocks become null. *)
Lemma remove_skipped_table null z b k :
  null ∉ b → (k ≤ z + length b)%nat →
  Mgr.remove_loop null (py_range_down (Z.of_nat k - 1) (-1)) (replicate z null ++ b) []
  = Ok (replicate (z `max` k) null ++ drop (k - z) b, reverse (take (k - z) b)).
Proof.
  intros Hn Hk. destruct (decide (k ≤ z)%nat) as [Hle|Hgt].
  - replace (k - z)%nat with 0%nat by lia. replace (z `max` k)%nat with z by lia.
    pose proof (remove_loop_spec null k [] (replicate (z - k) null ++ b) []) as Hr.
    simpl in Hr. rewrite Nat.add_0_r, app_assoc, <-replicate_add in Hr.
    replace (k + (z - k))%nat with z in Hr by lia. rewrite Hr by set_solver. done.
  - pose proof (remove_loop_spec null z (take (k - z) b) (drop (k - z) b) []) as Hr.
    rewrite take_drop, length_take in Hr.
    replace (z + (k - z) `min` length b)%nat with k in Hr by lia.
    replace (z `max` k)%nat with k by lia. apply Hr. intros Hin. apply Hn.
    by eapply subseteq_take.
Qed.

Lemma occ_replicate_ne (p q : ptr) n : p ≠ q → occ p (replicate n q) = 0.
Proof. intros Hne. apply occ_not_elem. intros [? _]%elem_of_replicate. done. Qed.

(** [remove_skipped_blocks] frees the blocks before the bound and puts null
    blocks in their place.  The bound must lie in the table and, with caching
    on, must not pass the blocks cached so far. *)
Lemma remove_skipped_spec M P fl ext rid nct :
  mgr_sys M P fl ext →
  (∀ k, Mgr.first_useful_block rid nct M = Some k →
     k ≤ len (blocks_of M rid) ∧ (enable_caching P = true → k ≤ cached_of M rid)) →
  ∃ M' P' fl', Mgr.remove_skipped_blocks rid nct M P = Ok (M', P') ∧
    mgr_sys M' P' (fl ++ fl') ext ∧ keeps (λ q, 0 < ext q) P P' ∧ same_cfg P P' ∧
    mgr_frame rid M M' ∧ length (blocks_of M' rid) = length (blocks_of M rid) ∧
    (∀ j k, Mgr.first_useful_block rid nct M = Some k → Z.of_nat j < k →
       blocks_of M' rid !! j = Some (Blk 0)) ∧
    (∀ j p, blocks_of M' rid !! j = Some p → p = Blk 0 ∨ blocks_of M rid !! j = Some p) ∧
    num_cached_block M' = num_cached_block M ∧ (∀ q, hash_at P' q = hash_at P q).
Proof.
  intros HS Hbound. pose proof (ms_pool _ _ _ _ HS) as HP. pose proof (ms_mgr _ _ _ _ HS) as HM.
  pose proof (mi_table _ _ HM rid) as Ht. unfold Mgr.remove_skipped_blocks.
  destruct (Mgr.first_useful_block rid nct M) as [k|] eqn:Hk.
  2: { exists M, P, []. rewrite app_nil_r. split_and!; try done; try apply HS; eauto. by intros q. }
  destruct (Hbound k eq_refl) as [Hklen Hkc]. rewrite table_entry_spec. cbn [fst snd].
  change (m_null_block (set_table _ M)) with (m_null_block M). rewrite (mi_null _ _ HM).
  pose proof (ti_shape _ _ _ Ht) as (z&b&Hbl&Hb0&Hndb&Hz).
  rewrite py_range_down_nat.
  set (kn := Z.to_nat k).
  assert (kn ≤ z + length b)%nat as Hkn.
  { rewrite Hbl in Hklen. unfold len in Hklen. rewrite length_app, length_replicate in Hklen. lia. }
  rewrite Hbl, (remove_skipped_table (Blk 0) z b kn Hb0 Hkn), Ok_bind. cbn [fst snd].
  set (rem := reverse (take (kn - z) b)). set (bl' := replicate (z `max` kn) (Blk 0) ++ drop (kn - z) b).
  assert (∀ p, p ∈ rem → p ∈ blocks_of M rid ∧ p ≠ Blk 0) as Hrem.
  { intros p Hp. unfold rem in Hp. rewrite elem_of_reverse in Hp.
    assert (p ∈ b) by exact (subseteq_take _ _ _ Hp).
    split; [rewrite Hbl; set_solver|]. by intros ->. }
  destruct (free_blocks_spec P fl rem HP) as (P'&->&HP'&Hcfg&Hrc&Hh).
  - rewrite Forall_forall. intros p [Hp _]%Hrem.
    pose proof (ti_valid _ _ _ Ht) as Hv. rewrite Forall_forall in Hv. by apply Hv.
  - rewrite filter_id by (intros p Hp; by apply Hrem). unfold rem. rewrite reverse_Permutation.
    eapply sublist_NoDup; [exact Hndb|apply sublist_take].
  - intros p Hp Hne. eapply entry_rc_pos; [done|by apply Hrem|done].
  - rewrite Ok_bind. set (M' := set_table _ _). eexists M', P', _. split; [done|].
    assert (mgr_frame rid M M') as Hfr by (unfold mgr_frame; cbn; by rewrite !delete_insert_eq).
    assert (blocks_of M' rid = bl') as Hb by (unfold blocks_of; cbn; by rewrite lookup_insert_eq).
    assert (∀ p, p ≠ Blk 0 → occ p bl' = occ p (blocks_of M rid) - occ p rem) as Hocc.
    { intros p Hp. unfold bl', rem. rewrite Hbl, occ_reverse, !occ_app, !occ_replicate_ne by done.
      rewrite <-(take_drop (kn - z) b) at 2. rewrite occ_app. lia. }
    assert (length bl' = length (blocks_of M rid)) as Hlen.
    { rewrite Hbl. unfold bl'. rewrite !length_app, !length_replicate, length_drop. lia. }
    assert (∀ j p, bl' !! j = Some p → p = Blk 0 ∨ ((z `max` kn ≤ j)%nat ∧ blocks_of M rid !! j = Some p)) as Hlk.
    { intros j p Hj. unfold bl' in Hj. apply lookup_app_Some in Hj as [[-> _]%lookup_replicate|[Hge Hj]]; [by left|].
      right. rewrite length_replicate in Hge, Hj. split; [done|]. rewrite Hbl.
      rewrite lookup_app_r; rewrite length_replicate; [|lia]. rewrite lookup_drop in Hj.
      rewrite <-Hj. f_equal. lia. }
    destruct (mgr_sys_step M P fl ext rid M' P' _ ext HS HP' Hcfg Hfr) as [HS' Hkeep]; try done.
    + rewrite Hb. change (cached_of M' rid) with (cached_of M rid). split.
      * exists (z `max` kn)%nat, (drop (kn - z) b). split_and!; [done| | |].
        -- intros ?. by eapply Hb0, subseteq_drop.
        -- eapply sublist_NoDup; [exact Hndb|apply sublist_drop].
        -- intros Hc. assert (enable_caching P = true) as Hc' by (destruct Hcfg as (_&<-&_); done).
           specialize (Hz Hc'). specialize (Hkc Hc'). pose proof (ti_cached _ _ _ Ht). lia.
      * rewrite Forall_forall. intros p Hp. apply (same_cfg_valid P P' p Hcfg).
        apply list_elem_of_lookup_1 in Hp as [j Hj]. destruct (Hlk j p Hj) as [->|[_ Hj']].
        -- exists 0. pose proof (pi_pos _ _ _ HP). split; [done|lia].
        -- eapply Forall_lookup_1; [apply Ht|done].
      * intros j p Hj Hp Hne. destruct (Hlk j p Hp) as [->|[Hge Hj']]; [done|].
        destruct (ti_tail _ _ _ Ht j p Hj Hj' Hne) as [Hh0 Hr1]. rewrite Hh, Hrc. split; [done|].
        pose proof (Hocc p Hne) as Ho. pose proof (occ_nonneg p rem).
        assert (0 < occ p bl') by (apply occ_elem; by eapply list_elem_of_lookup_2).
        assert (occ p (blocks_of M rid) ≤ 1); [|lia].
        rewrite Hbl, occ_app, occ_replicate_ne, occ_NoDup by done. case_decide; lia.
      * apply Ht.
    + rewrite Hb. intros Hcr Hnone. pose proof (mi_new _ _ HM rid Hcr Hnone) as Hnil.
      rewrite Hnil in Hlen. by destruct bl'.
    + intros p _ Hne. rewrite Hb, Hrc, Hocc by done. lia.
    + apply HS.
    + intros q Hv Hne Hq [??]. assert (q ∉ rem) by (intros ?%Hrem; naive_solver).
      rewrite Hh, Hrc, occ_not_elem by done. split; [done|lia].
    + intros Hc p Hv. rewrite Hh. by apply (ms_nohash _ _ _ _ HS).
    + rewrite Hb, <-?Hbl. split_and!; try done.
      * intros j k' Hk' Hj. injection Hk' as <-. unfold bl'. rewrite lookup_app_l; [|rewrite length_replicate; lia].
        apply lookup_replicate. split; [done|lia].
      * intros j p Hj. destruct (Hlk j p Hj) as [?|[_ ?]]; auto.
Qed.

(** ** Caching *)

(** The part of a table that is not cached yet, with caching on. *)
Lemma table_tail P nc bl :
  table_inv P nc bl → enable_caching P = true →
  NoDup (drop (Z.to_nat nc) bl) ∧
  Forall (λ p, valid P p ∧ p ≠ Blk 0 ∧ hash_at P p = None) (drop (Z.to_nat nc) bl).
Proof.
  intros [(z&b&->&Hb0&Hnd&Hz) Hv Ht Hc] Hcc. specialize (Hz Hcc).
  assert (drop (Z.to_nat nc) (replicate z (Blk 0) ++ b) = drop (Z.to_nat nc - z) b) as Hd.
  { rewrite drop_app_ge; rewrite length_replicate; [done|lia]. }
  rewrite Hd. split; [eapply sublist_NoDup; [exact Hnd|apply sublist_drop]|].
  rewrite Forall_forall. intros p Hp. assert (p ≠ Blk 0) as Hne.
  { intros ->. by eapply Hb0, subseteq_drop. }
  rewrite <-Hd in Hp. apply list_elem_of_lookup_1 in Hp as [j Hj]. rewrite lookup_drop in Hj.
  split_and!; [by eapply (Forall_lookup_1 _ _ _ _ Hv)|done|]. apply (Ht (Z.to_nat nc + j)%nat p); [lia|done..].
Qed.

(** [cache_blocks] hashes the request's blocks that became full with the
    request's own block hashes. *)
Lemma cache_blocks_spec use_int M P fl ext r num_tokens nc :
  let rid := request_id r in
  let nf := num_tokens / m_block_size M in
  mgr_sys M P fl ext → enable_caching P = true → enable_kv_cache_events P = false →
  is_cross M = false → num_cached_block M !! rid = Some nc →
  nc ≤ nf → nf ≤ len (blocks_of M rid) → nf ≤ len (block_hashes r) →
  ∃ M' P', Mgr.cache_blocks use_int r num_tokens M P = Ok (M', P') ∧
    mgr_sys M' P' fl ext ∧ keeps (λ q, 0 < ext q) P P' ∧ same_cfg P P' ∧ mgr_frame rid M M' ∧
    blocks_of M' rid = blocks_of M rid ∧ num_cached_block M' !! rid = Some nf ∧
    cached_as (kv_cache_group_id M) (block_hashes r) nc (py_slice (blocks_of M rid) nc nf) P' ∧
    (∀ q, q ∉ py_slice (blocks_of M rid) nc nf → hash_at P' q = hash_at P q) ∧
    (∀ q, rc P' q = rc P q).
Proof.
  intros rid nf HS Hc Hev Hcr Hnc Hle Hlen Hh.
  pose proof (ms_pool _ _ _ _ HS) as HP. pose proof (ms_mgr _ _ _ _ HS) as HM.
  pose proof (mi_table _ _ HM rid) as Ht. assert (cached_of M rid = nc) as Hco by (unfold cached_of; by rewrite Hnc).
  rewrite Hco in Ht. pose proof (ti_cached _ _ _ Ht) as Hnc0.
  destruct (table_tail P nc _ Ht Hc) as [Hnd Htail].
  set (new := py_slice (blocks_of M rid) nc nf).
  assert (new = take (Z.to_nat (nf - nc)) (drop (Z.to_nat nc) (blocks_of M rid))) as Hnew
    by (apply py_slice_nonneg; lia).
  unfold Mgr.cache_blocks. rewrite Hcr. fold rid. rewrite Hnc. simpl of_option. rewrite Ok_bind.
  rewrite table_entry_spec. cbn [fst snd].
  destruct (cache_full_blocks_spec use_int r (blocks_of M rid) nc nf (m_block_size M)
    (kv_cache_group_id M) P fl) as (P'&HrunP&HP'&Hcfg&Hrc&Has&Hh'&_&_); try done.
  { apply HM. }
  { fold new. rewrite Hnew. eapply sublist_NoDup; [exact Hnd|apply sublist_take]. }
  { fold new. rewrite Hnew. by apply Forall_take. }
  { by rewrite Hev. }
  change (m_block_size (set_table _ M)) with (m_block_size M). fold nf.
  change (kv_cache_group_id (set_table _ M)) with (kv_cache_group_id M).
  rewrite HrunP, Ok_bind. fold new in Has, Hh' |- *. set (M' := set_cached _ _).
  assert (mgr_frame rid M M') as Hfr by (unfold mgr_frame; cbn; by rewrite !delete_insert_eq).
  assert (blocks_of M' rid = blocks_of M rid) as Hb by (unfold blocks_of at 1; cbn; by rewrite lookup_insert_eq).
  assert (num_cached_block M' !! rid = Some nf) as Hn by (cbn; by rewrite lookup_insert_eq).
  assert (∀ q, q ∈ new → q ∈ blocks_of M rid) as Hsub.
  { intros q Hq. rewrite Hnew in Hq. eapply subseteq_drop, subseteq_take, Hq. }
  exists M', P'. destruct (mgr_sys_step M P fl ext rid M' P' fl ext HS HP' Hcfg Hfr) as [HS' Hk]; try done.
  - rewrite Hb. unfold cached_of. rewrite Hn. simpl. destruct Ht as [(z&b&Hbl&Hb0&Hndb&Hz) Hv Htl _]. split.
    + exists z, b. split_and!; try done. intros _. specialize (Hz Hc). lia.
    + eapply Forall_impl; [exact Hv|]. intros p. by apply (same_cfg_valid P).
    + intros j p Hj Hp Hne. destruct (Htl j p ltac:(lia) Hp Hne) as [??]. rewrite Hh', Hrc; [done|].
      rewrite Hnew. intros Hin. apply list_elem_of_lookup_1 in Hin as [i Hi].
      apply lookup_take_Some in Hi as [Hi Hlt]. rewrite lookup_drop in Hi.
      assert ((drop (Z.to_nat nc) (blocks_of M rid)) !! (j - Z.to_nat nc)%nat = Some p) as Hj'.
      { rewrite lookup_drop. rewrite <-Hp. f_equal. lia. }
      assert (i = j - Z.to_nat nc)%nat; [|lia].
      eapply NoDup_lookup; [exact Hnd| |exact Hj']. by rewrite lookup_drop.
    + lia.
  - intros _ Hnone. congruence.
  - intros p _ _. rewrite Hb, Hrc. lia.
  - apply HS.
  - intros q Hv Hne Hq [??]. rewrite Hh', Hrc; [done|]. by intros ?%Hsub.
  - intros Hc'. congruence.
Qed.

(** ** Admitting the blocks of a prefix-cache hit *)

(** Blocks a lookup may return: null blocks, then distinct hashed blocks. *)
Record hit_table (P : BlockPool) (bl : list ptr) : Prop := {
  ht_shape : ∃ z b, bl = replicate z (Blk 0) ++ b ∧ Blk 0 ∉ b ∧ NoDup b;
  ht_valid : Forall (valid P) bl;
  ht_hash : ∀ p, p ∈ bl → p ≠ Blk 0 → is_Some (hash_at P p);
}.

Lemma hit_table_nil P : hit_table P [].
Proof.
  split; [|done|by intros p ?%elem_of_nil].
  exists 0%nat, []. split_and!; [done|by intros ?%elem_of_nil|constructor].
Qed.

Lemma hit_table_cfg P P' bl :
  hit_table P bl → same_cfg P P' → (∀ q, hash_at P' q = hash_at P q) → hit_table P' bl.
Proof.
  intros [Hs Hv Hh] Hcfg Hhash. split; [done| |].
  - eapply Forall_impl; [exact Hv|]. intros p. by apply (same_cfg_valid P).
  - intros p Hp Hne. rewrite Hhash. by apply Hh.
Qed.

(** A row of a lookup is such a table, when the request's hashes differ. *)
Lemma row_hit_table P fl hashes a m g c :
  pool_inv P fl → NoDup hashes → row P hashes a m g c → hit_table P c.
Proof.
  intros HP Hnd [Hlen Hrow].
  assert (∀ i p, (a ≤ i)%nat → c !! i = Some p → ∃ h, hashes !! i = Some h ∧ hit P h g p) as Hhit.
  { intros i p Hi Hp. specialize (Hrow i p Hp). by rewrite decide_False in Hrow by lia. }
  assert (∀ p, p ∈ drop a c → ∃ h, hit P h g p) as Hdrop.
  { intros p [j Hj]%list_elem_of_lookup_1. rewrite lookup_drop in Hj.
    destruct (Hhit (a + j)%nat p ltac:(lia) Hj) as (h&_&?). eauto. }
  assert (∀ p, p ∈ c → p = Blk 0 ∨ ∃ h, hit P h g p) as Hin.
  { intros p [j Hj]%list_elem_of_lookup_1. specialize (Hrow j p Hj).
    case_decide; [by left|]. destruct Hrow as (h&_&?). eauto. }
  split.
  - exists (a `min` m)%nat, (drop a c). split_and!.
    + apply list_eq. intros i. destruct (decide (i < a `min` m)%nat) as [Hlt|Hge].
      * rewrite lookup_app_l by (rewrite length_replicate; lia).
        destruct (lookup_lt_is_Some_2 c i) as [p Hp]; [lia|]. rewrite Hp. symmetry.
        specialize (Hrow i p Hp). rewrite decide_True in Hrow by lia. subst. apply lookup_replicate. split; [done|lia].
      * rewrite lookup_app_r by (rewrite length_replicate; lia). rewrite length_replicate, lookup_drop.
        destruct (decide (i < m)%nat); [f_equal; lia|].
        rewrite !lookup_ge_None_2; [done|lia..].
    + intros (h&_&_&_&?&_)%Hdrop. done.
    + apply NoDup_alt. intros i j p Hi Hj. rewrite lookup_drop in Hi, Hj.
      destruct (Hhit (a + i)%nat p ltac:(lia) Hi) as (h1&Hh1&Hp1).
      destruct (Hhit (a + j)%nat p ltac:(lia) Hj) as (h2&Hh2&Hp2).
      destruct (hit_inj _ _ _ _ _ _ Hp1 Hp2) as [-> _].
      pose proof (NoDup_lookup _ _ _ _ Hnd Hh1 Hh2). lia.
  - rewrite Forall_forall. intros p [->|(h&key&_&Hv&_)]%Hin; [|done].
    exists 0. pose proof (pi_pos _ _ _ HP). split; [done|lia].
  - intros p [->|(h&key&_&_&_&->)]%Hin Hne; [done|eauto].
Qed.

(** [save_new_computed_blocks] of a request without tables: its references
    move from the outside into the manager. *)
Lemma save_new_spec M P fl ext rid new :
  mgr_sys M P fl ext → is_cross M = false → num_cached_block M !! rid = None →
  hit_table P new → (∀ p, occ p new ≤ ext p) →
  ∃ M', Mgr.save_new_computed_blocks rid new M = Ok M' ∧
    mgr_sys M' P fl (λ p, ext p - occ p new) ∧ mgr_frame rid M M' ∧
    blocks_of M' rid = new ∧ num_cached_block M' !! rid = Some (len new).
Proof.
  intros HS Hcr Hnone Hht Hocc.
  pose proof (ms_pool _ _ _ _ HS) as HP. pose proof (ms_mgr _ _ _ _ HS) as HM.
  pose proof (mi_new _ _ HM rid Hcr Hnone) as Hnil.
  unfold Mgr.save_new_computed_blocks. rewrite Hcr, Hnone, table_entry_spec, Hnil. cbn [fst snd].
  rewrite py_assert_true, Ok_bind by done. simpl app. set (M' := set_cached _ _). exists M'.
  assert (mgr_frame rid M M') as Hfr by (unfold mgr_frame; cbn; by rewrite !delete_insert_eq).
  assert (blocks_of M' rid = new) as Hb by (unfold blocks_of; cbn; by rewrite lookup_insert_eq).
  assert (num_cached_block M' !! rid = Some (len new)) as Hn by (cbn; by rewrite lookup_insert_eq).
  split; [done|]. destruct (mgr_sys_step M P fl ext rid M' P fl (λ p, ext p - occ p new) HS HP)
    as [HS' _]; try done.
  - rewrite Hb. unfold cached_of. rewrite Hn. simpl. destruct Hht as [(z&b&->&Hb0&Hnd) Hv Hh]. split.
    + exists z, b. split_and!; try done. intros _. unfold len. rewrite length_app, length_replicate. lia.
    + done.
    + intros j p Hj Hp. apply lookup_lt_Some in Hp. unfold len in Hj. lia.
    + apply len_nonneg.
  - intros _ Hx. congruence.
  - intros p _ _. rewrite Hb, Hnil. simpl. lia.
  - intros p. specialize (Hocc p). lia.
  - by intros q.
  - apply HS.
Qed.

(** For a request that already has its tables there is nothing to save. *)
Lemma save_running_spec M rid :
  is_cross M = true ∨ is_Some (num_cached_block M !! rid) →
  Mgr.save_new_computed_blocks rid [] M = Ok M.
Proof.
  intros Hr. unfold Mgr.save_new_computed_blocks. destruct (is_cross M); [done|].
  destruct Hr as [?|[nc ->]]; done.
Qed.

(** The estimate of [get_num_blocks_to_allocate]. *)
(** Reading the table of a request, which creates it when it is not there. *)
Lemma touched_table M P fl ext rid :
  mgr_sys M P fl ext →
  let M' := set_table (<[rid := blocks_of M rid]> (req_to_blocks M)) M in
  mgr_sys M' P fl ext ∧ mgr_frame rid M M' ∧ blocks_of M' rid = blocks_of M rid ∧
  num_cached_block M' = num_cached_block M.
Proof.
  intros HS M'. pose proof (ms_pool _ _ _ _ HS) as HP. pose proof (ms_mgr _ _ _ _ HS) as HM.
  assert (mgr_frame rid M M') as Hfr by (unfold mgr_frame; cbn; by rewrite !delete_insert_eq).
  assert (blocks_of M' rid = blocks_of M rid) as Hb by (unfold blocks_of at 1; cbn; by rewrite lookup_insert_eq).
  split; [|done]. destruct (mgr_sys_step M P fl ext rid M' P fl ext HS HP) as [HS' _]; try done.
  - rewrite Hb. apply HM.
  - rewrite Hb. apply HM.
  - intros p _ _. rewrite Hb. lia.
  - apply HS.
  - by intros q.
  - apply HS.
Qed.

Lemma get_num_spec M P fl ext rid num_tokens new :
  mgr_sys M P fl ext → Forall (valid P) new →
  ∃ M', Mgr.get_num_blocks_to_allocate rid num_tokens new P M =
      (cdiv (Mgr.with_spec_tokens M num_tokens) (m_block_size M) - len new - len (blocks_of M rid)
       + len (filter (λ p, p ≠ Blk 0 ∧ rc P p = 0) new), M') ∧
    mgr_sys M' P fl ext ∧ mgr_frame rid M M' ∧ blocks_of M' rid = blocks_of M rid ∧
    num_cached_block M' = num_cached_block M.
Proof.
  intros HS Hv. pose proof (ms_pool _ _ _ _ HS) as HP.
  unfold Mgr.get_num_blocks_to_allocate. rewrite table_entry_spec. cbn [fst snd].
  eexists. split; [|by apply touched_table].
  f_equal. f_equal. unfold Mgr.num_evictable. f_equal. apply filter_ext_elem.
  rewrite Forall_forall in Hv. intros p Hp. rewrite (valid_null _ _ _ HP p) by auto.
  rewrite bool_decide_eq_false. naive_solver.
Qed.

Lemma common_prefix_spec M P fl ext rid n :
  mgr_sys M P fl ext →
  ∃ k M', Mgr.get_num_common_prefix_blocks rid n P M = (k, M') ∧
    mgr_sys M' P fl ext ∧ mgr_frame rid M M' ∧ blocks_of M' rid = blocks_of M rid ∧
    num_cached_block M' = num_cached_block M.
Proof.
  intros HS. unfold Mgr.get_num_common_prefix_blocks.
  destruct (m_spec M); try (by exists 0, M).
  rewrite table_entry_spec. cbn [fst snd]. do 2 eexists. split; [done|]. by apply touched_table.
Qed.

(** ** Fresh managers *)

(** A manager nobody has used yet. *)
Definition fresh_mgr (M : Manager) : Prop := req_to_blocks M = ∅ ∧ num_cached_block M = ∅.

Lemma fresh_uses M p : fresh_mgr M → uses p M = 0.
Proof. intros [Ht _]. unfold uses. by rewrite Ht, map_sum_empty. Qed.

Lemma fresh_mgr_inv P M :
  fresh_mgr M → 0 < m_block_size M → 0 ≤ kv_cache_group_id M < 2 ^ 32 → m_null_block M = Blk 0 →
  mgr_inv P M.
Proof.
  intros [Ht Hn] Hb Hg Hz.
  assert (∀ rid, blocks_of M rid = [] ∧ cached_of M rid = 0) as Hempty.
  { intros rid. unfold blocks_of, cached_of. by rewrite Ht, Hn, !lookup_empty. }
  split; try done.
  - intros rid. destruct (Hempty rid) as [-> ->]. by apply table_inv_nil.
  - intros rid _ _. apply Hempty.
Qed.

(** ** Properties of the lookups and of the windows *)

(** C26. The full-attention lookup is exact: within the length bound it returns, for
    every group, the blocks of the longest prefix of hashes that all groups have
    (one block less under Eagle), never raising. *)
Theorem full_lookup_longest P fl gids hashes max_length a w k use_eagle dcp :
  pool_inv P fl → Forall (λ g, 0 ≤ g < 2 ^ 32) gids → gids ≠ [] →
  0 < attn_block_size a → 0 ≤ max_length →
  let bs := if 1 <? dcp then attn_block_size a * dcp else attn_block_size a in
  let bound := (Z.to_nat (max_length / bs) `min` length hashes)%nat in
  ∃ cs n, Hit.find_longest_cache_hit (FullAttentionSpec a w k) hashes max_length gids P
      (FullAttentionSpec a w k) use_eagle dcp = Ok cs ∧
    Forall2 (row P hashes 0 (eagle_len use_eagle n)) gids cs ∧ (n ≤ bound)%nat ∧
    (∀ i, (i < n)%nat → hit_at P hashes gids i) ∧ ((n < bound)%nat → ¬ hit_at P hashes gids n).
Proof. intros HP Hg Hne Hbs Hml. apply (full_spec P fl); eauto. Qed.

(** C27. The sliding-window lookup is exact: within the length bound it returns the
    longest prefix whose last blocks, as many as the window needs (one more under
    Eagle), all groups have, with null blocks before them, so that no longer
    prefix would do. *)
Theorem sliding_lookup_longest P fl gids hashes max_length a window (use_eagle : bool) :
  pool_inv P fl → Forall (λ g, 0 ≤ g < 2 ^ 32) gids → gids ≠ [] →
  0 < attn_block_size a → 0 ≤ max_length → max_length / attn_block_size a ≤ len hashes →
  let need := cdiv (window - 1) (attn_block_size a) + (if use_eagle then 1 else 0) in
  let c := (Z.to_nat need `max` 1)%nat in
  let bound := Z.to_nat (max_length / attn_block_size a) in
  ∃ cs n, Hit.find_longest_cache_hit (SlidingWindowSpec a window) hashes max_length gids P
      (SlidingWindowSpec a window) use_eagle 1 = Ok cs ∧
    Forall2 (row P hashes (n - c) (eagle_len use_eagle n)) gids cs ∧ (n ≤ bound)%nat ∧
    covers P hashes gids c n ∧ (∀ n', (n < n' ≤ bound)%nat → ¬ covers P hashes gids c n').
Proof. intros HP Hg Hne Hbs Hml Hlen. by apply (sliding_spec P fl). Qed.

(** The chunked-local lookup is exact: the blocks before the chunk of the next
    token are null blocks, and from there on it returns the longest run of blocks
    that all groups have. *)
Theorem chunked_lookup_longest P fl gids hashes max_length a chunk :
  pool_inv P fl → Forall (λ g, 0 ≤ g < 2 ^ 32) gids → gids ≠ [] →
  0 < attn_block_size a → 0 < chunk → 0 ≤ max_length → max_length / attn_block_size a ≤ len hashes →
  let start := Z.to_nat (max_length / chunk * chunk / attn_block_size a) in
  let bound := Z.to_nat (max_length / attn_block_size a) in
  ∃ cs n, Hit.find_longest_cache_hit (ChunkedLocalAttentionSpec a chunk) hashes max_length gids P
      (ChunkedLocalAttentionSpec a chunk) false 1 = Ok cs ∧
    Forall2 (row P hashes start n) gids cs ∧ (start ≤ n ≤ bound)%nat ∧
    (∀ i, (start ≤ i < n)%nat → hit_at P hashes gids i) ∧ ((n < bound)%nat → ¬ hit_at P hashes gids n).
Proof. intros HP Hg Hne Hbs Hc Hml Hlen. by apply (chunked_spec P fl). Qed.

(** The table after [remove_skipped_blocks]: null blocks up to the bound. *)
Lemma remove_skipped_result M P fl ext rid nct M' P' :
  mgr_sys M P fl ext →
  (∀ k, Mgr.first_useful_block rid nct M = Some k → k ≤ len (blocks_of M rid)) →
  Mgr.remove_skipped_blocks rid nct M P = Ok (M', P') →
  blocks_of M' rid = from_option (λ k, replicate (Z.to_nat k) (Blk 0) ++
    drop (Z.to_nat k) (blocks_of M rid)) (blocks_of M rid) (Mgr.first_useful_block rid nct M).
Proof.
  intros HS Hbound Hrun. pose proof (ms_mgr _ _ _ _ HS) as HM.
  unfold Mgr.remove_skipped_blocks in Hrun.
  destruct (Mgr.first_useful_block rid nct M) as [k|] eqn:Hk; [|by simplify_eq].
  specialize (Hbound k eq_refl). rewrite table_entry_spec in Hrun. cbn [fst snd] in Hrun.
  change (m_null_block (set_table _ M)) with (m_null_block M) in Hrun. rewrite (mi_null _ _ HM) in Hrun.
  pose proof (ti_shape _ _ _ (mi_table _ _ HM rid)) as (z&b&Hbl&Hb0&_).
  rewrite py_range_down_nat in Hrun.
  rewrite Hbl in Hrun, Hbound. unfold len in Hbound. rewrite length_app, length_replicate in Hbound.
  rewrite (remove_skipped_table (Blk 0) z b (Z.to_nat k)) in Hrun by (done || lia).
  rewrite Ok_bind in Hrun. cbn [fst snd] in Hrun.
  apply bind_Ok in Hrun as (P1&_&Hrun). simplify_eq. unfold blocks_of at 1. cbn.
  rewrite lookup_insert_eq. cbn. rewrite Hbl.
  destruct (Nat.le_gt_cases z (Z.to_nat k)).
  - rewrite drop_app_ge, length_replicate by (rewrite length_replicate; lia).
    by replace (z `max` Z.to_nat k)%nat with (Z.to_nat k) by lia.
  - rewrite drop_app_le, drop_replicate by (rewrite length_replicate; lia).
    rewrite app_assoc, <-replicate_add. replace (Z.to_nat k - z)%nat with 0%nat by lia.
    by replace (Z.to_nat k + (z - Z.to_nat k))%nat with (z `max` Z.to_nat k)%nat by lia.
Qed.

(** The first token whose keys a manager still needs; the other managers keep
    everything. *)
Definition needed_from (num_computed_tokens : Z) (M : Manager) : option Z :=
  match m_spec M with
  | SlidingWindowSpec _ window => Some (num_computed_tokens - window + 1)
  | ChunkedLocalAttentionSpec _ chunk => Some (num_computed_tokens / chunk * chunk)
  | _ => None
  end.

Lemma useful_needed rid nct M k :
  Mgr.first_useful_block rid nct M = Some k →
  ∃ s, needed_from nct M = Some s ∧ k ≤ s / m_block_size M ∧
    (∀ a w, m_spec M = SlidingWindowSpec a w → k = s / m_block_size M).
Proof.
  unfold Mgr.first_useful_block, needed_from. intros H. destruct (m_spec M); simplify_eq.
  - eexists. split; [done|]. case_match; split; try done; lia.
  - eexists. split; [done|]. split; [lia|]. by intros ?? [= -> ->].
Qed.

(** C28. [remove_skipped_blocks] keeps every block that holds a token the attention
    still needs, in its place, and keeps the length of the table; for a sliding
    window every block entirely before the window becomes a null block.  The
    released blocks join the end of the free list and keep their hashes. *)
Theorem window_blocks_kept M P fl ext rid nct :
  mgr_sys M P fl ext →
  (∀ k, Mgr.first_useful_block rid nct M = Some k →
     k ≤ len (blocks_of M rid) ∧ (enable_caching P = true → k ≤ cached_of M rid)) →
  ∃ M' P' fl', Mgr.remove_skipped_blocks rid nct M P = Ok (M', P') ∧ mgr_sys M' P' (fl ++ fl') ext ∧
    length (blocks_of M' rid) = length (blocks_of M rid) ∧
    (∀ t, 0 ≤ t → from_option (λ s, s ≤ t) True (needed_from nct M) →
       blocks_of M' rid !! Z.to_nat (t / m_block_size M) =
       blocks_of M rid !! Z.to_nat (t / m_block_size M)) ∧
    (∀ a w j, m_spec M = SlidingWindowSpec a w → (j < length (blocks_of M rid))%nat →
       (Z.of_nat j + 1) * m_block_size M ≤ nct - w + 1 → blocks_of M' rid !! j = Some (Blk 0)) ∧
    (∀ q, hash_at P' q = hash_at P q).
Proof.
  intros HS Hbound. pose proof (mi_bs _ _ (ms_mgr _ _ _ _ HS)) as Hbs.
  destruct (remove_skipped_spec M P fl ext rid nct HS Hbound)
    as (M'&P'&fl'&Hrun&HS'&_&_&_&Hlen&Hnull&_&_&Hh).
  pose proof (remove_skipped_result M P fl ext rid nct M' P' HS (λ k Hk, proj1 (Hbound k Hk)) Hrun) as Hres.
  exists M', P', fl'. split_and!; [done|done|done| | |done].
  - intros t Ht Hneed. rewrite Hres. destruct (Mgr.first_useful_block rid nct M) as [k|] eqn:Hk; [|done].
    destruct (useful_needed _ _ _ _ Hk) as (s&Hs&Hks&_). rewrite Hs in Hneed. simpl in *.
    pose proof (Z.div_le_mono s t (m_block_size M) Hbs Hneed).
    pose proof (Z.div_pos t (m_block_size M) Ht Hbs).
    rewrite lookup_app_r, length_replicate, lookup_drop by (rewrite length_replicate; lia).
    f_equal. lia.
  - intros a w j Hspec Hj Hle. assert (∃ k, Mgr.first_useful_block rid nct M = Some k) as [k Hk].
    { unfold Mgr.first_useful_block. rewrite Hspec. by eexists. }
    apply (Hnull j k Hk). destruct (useful_needed _ _ _ _ Hk) as (s&Hs&_&Hw).
    rewrite (Hw a w Hspec). unfold needed_from in Hs. rewrite Hspec in Hs. simplify_eq.
    pose proof (Z.div_le_lower_bound (nct - w + 1) (m_block_size M) (Z.of_nat j + 1) Hbs). lia.
Qed.

(** ** Examples *)

Definition ex_pool_2 : BlockPool :=
  get_pool (Pool.cache_full_blocks false (ex_pool_request None) [Blk 1; Blk 2] 0 2 4 0 ex_pool_1).
Definition ex_layer : AttentionSpec := mkAttn 4 1 8 "half" false.
Definition ex_hashes : list bytes := [[9]; [10]; [11]].

Lemma ex_pool_2_inv : pool_inv ex_pool_2 [Blk 3].
Proof.
  destruct (cache_full_blocks_spec false (ex_pool_request None) [Blk 1; Blk 2] 0 2 4 0 ex_pool_1 [Blk 3]
    ex_pool_1_inv) as (P&Hrun&Hinv&_); [lia|lia|by vm_compute|by vm_compute| | |by intros ?|].
  - apply (bool_decide_unpack _). by vm_compute.
  - change (py_slice [Blk 1; Blk 2] 0 2) with [Blk 1; Blk 2].
    repeat constructor; try (by apply ex_pool_valid); by vm_compute.
  - unfold ex_pool_2. rewrite Hrun. exact Hinv.
Qed.
Lemma ex_gids : Forall (λ g, 0 ≤ g < 2 ^ 32) [0].
Proof. by apply Forall_singleton. Qed.

Lemma full_lookup_longest_witness :
  ∃ cs n, Hit.find_longest_cache_hit (FullAttentionSpec ex_layer None None) ex_hashes 12 [0] ex_pool_2
      (FullAttentionSpec ex_layer None None) false 1 = Ok cs ∧ cs = [[Blk 1; Blk 2]] ∧
    (n ≤ 3)%nat ∧ ((n < 3)%nat → ¬ hit_at ex_pool_2 ex_hashes [0] n).
Proof.
  destruct (full_lookup_longest ex_pool_2 [Blk 3] [0] ex_hashes 12 ex_layer None None false 1
    ex_pool_2_inv ex_gids) as (cs&n&Hrun&_&Hn&_&Hmax); [discriminate|reflexivity|discriminate|].
  exists cs, n. split; [exact Hrun|]. split; [|split; [exact Hn|exact Hmax]].
  assert (Ok cs = Ok [[Blk 1; Blk 2]]) as E by (rewrite <-Hrun; vm_compute; reflexivity).
  injection E as ->. reflexivity.
Defined.

Lemma sliding_lookup_longest_witness :
  ∃ cs n, Hit.find_longest_cache_hit (SlidingWindowSpec ex_layer 5) ex_hashes 12 [0] ex_pool_2
      (SlidingWindowSpec ex_layer 5) false 1 = Ok cs ∧ cs = [[Blk 0; Blk 2]] ∧
    covers ex_pool_2 ex_hashes [0] 1 n ∧ (n ≤ 3)%nat.
Proof.
  destruct (sliding_lookup_longest ex_pool_2 [Blk 3] [0] ex_hashes 12 ex_layer 5 false
    ex_pool_2_inv ex_gids) as (cs&n&Hrun&_&Hn&Hcov&_);
    [discriminate|reflexivity|discriminate|by vm_compute|].
  exists cs, n. split; [exact Hrun|]. split; [|split; [exact Hcov|exact Hn]].
  assert (Ok cs = Ok [[Blk 0; Blk 2]]) as E by (rewrite <-Hrun; vm_compute; reflexivity).
  injection E as ->. reflexivity.
Defined.

Lemma chunked_lookup_longest_witness :
  ∃ cs n, Hit.find_longest_cache_hit (ChunkedLocalAttentionSpec ex_layer 8) ex_hashes 7 [0] ex_pool_2
      (ChunkedLocalAttentionSpec ex_layer 8) false 1 = Ok cs ∧ cs = [[Blk 1]] ∧ (0 ≤ n ≤ 1)%nat.
Proof.
  destruct (chunked_lookup_longest ex_pool_2 [Blk 3] [0] ex_hashes 7 ex_layer 8
    ex_pool_2_inv ex_gids) as (cs&n&Hrun&_&Hn&_);
    [discriminate|reflexivity|reflexivity|discriminate|by vm_compute|].
  exists cs, n. split; [exact Hrun|]. split; [|exact Hn].
  assert (Ok cs = Ok [[Blk 1]]) as E by (rewrite <-Hrun; vm_compute; reflexivity).
  injection E as ->. reflexivity.
Defined.

(** A sliding window of three tokens over blocks of two, with a table of four. *)
Definition ex_window_pool : BlockPool := get_pool (Pool.init 7 false false).
Definition ex_window_mgr : Manager :=
  Mgr.init (SlidingWindowSpec (mkAttn 2 1 8 "half" false) 3) ex_window_pool 0 1.
Definition ex_window_state : Manager * BlockPool :=
  match (M ← Mgr.save_new_computed_blocks "r" [] ex_window_mgr;
         Mgr.allocate_new_blocks false "r" 8 M ex_window_pool) with
  | Ok (_, M, P) => (M, P)
  | Err _ => (ex_window_mgr, no_pool)
  end.

Lemma ex_window_sys : mgr_sys ex_window_state.1 ex_window_state.2 [Blk 5; Blk 6] (λ _, 0).
Proof.
  destruct (init_pool 7 false false) as (P&HP&Hinv&_&_&_&Hfresh&_); [done|].
  assert (ex_window_pool = P) as <- by (unfold ex_window_pool; by rewrite HP).
  assert (mgr_sys ex_window_mgr ex_window_pool (Blk <$> seqZ 1 6) (λ _, 0)) as HS.
  { assert (fresh_mgr ex_window_mgr) as Hf by done. split; [done| | |done|].
    - apply fresh_mgr_inv; [done|reflexivity|done|exact (pi_null _ _ _ Hinv)].
    - intros p Hp _. rewrite fresh_uses by done. by apply Hfresh.
    - intros _ p Hp. by apply Hfresh. }
  destruct (save_new_spec _ _ _ _ "r" [] HS) as (M&HM&HSM&Hfr&Hb&Hc);
    [done|done|apply hit_table_nil|done|].
  destruct Hfr as (Hspec&Hbs&_).
  destruct (allocate_spec false M ex_window_pool (Blk <$> seqZ 1 6) _ "r" 8 HSM)
    as (M'&P'&Hrun&HS'&_).
  - unfold Mgr.with_spec_tokens. rewrite Hb, Hspec, Hbs. vm_compute. lia.
  - intros _. by rewrite Hc.
  - unfold Mgr.with_spec_tokens in HS', Hrun. rewrite Hb, Hspec, Hbs in HS'.
    unfold ex_window_state. rewrite HM, Ok_bind, Hrun. simpl fst. simpl snd. exact HS'.
Qed.

Lemma window_blocks_kept_witness :
  blocks_of ex_window_state.1 "r" = [Blk 1; Blk 2; Blk 3; Blk 4] ∧
  ∃ M' P', Mgr.remove_skipped_blocks "r" 6 ex_window_state.1 ex_window_state.2 = Ok (M', P') ∧
    blocks_of M' "r" !! 1%nat = Some (Blk 0) ∧ blocks_of M' "r" !! 2%nat = Some (Blk 3).
Proof.
  assert (blocks_of ex_window_state.1 "r" = [Blk 1; Blk 2; Blk 3; Blk 4]) as Hb by (vm_compute; reflexivity).
  assert (m_block_size ex_window_state.1 = 2) as Hbs by (vm_compute; reflexivity).
  assert (m_spec ex_window_state.1 = SlidingWindowSpec (mkAttn 2 1 8 "half" false) 3) as Hspec
    by (vm_compute; reflexivity).
  split; [exact Hb|].
  destruct (window_blocks_kept ex_window_state.1 ex_window_state.2 [Blk 5; Blk 6] (λ _, 0) "r" 6 ex_window_sys)
    as (M'&P'&fl'&Hrun&_&_&Hkept&Hnull&_).
  - intros k Hk. assert (Some k = Some 2) as [= ->] by (rewrite <-Hk; vm_compute; reflexivity).
    rewrite Hb. split; [by vm_compute|]. by vm_compute.
  - exists M', P'. split; [exact Hrun|]. split.
    + apply (Hnull _ _ 1%nat Hspec); rewrite ?Hb, ?Hbs; [simpl; lia|lia].
    + specialize (Hkept 4 ltac:(lia)). rewrite Hb, Hbs in Hkept. apply Hkept.
      unfold needed_from. rewrite Hspec. simpl. lia.
Defined.
