(* ===== verification/Coordinator.v ===== *)
(** * The KV-cache coordinators

    Models src/vllm/v1/core/kv_cache_coordinator.py: one block pool shared by a
    manager per KV-cache group, and the three ways the prefix cache is searched
    (not at all, for the single group, for full attention plus one other type).
    A subclass of the source is a [CoordKind].

    [sys_inv Ms P fl pend] is the invariant of the whole KV cache: the pool and
    every manager are well formed, and the reference count of a block is the
    number of its occurrences in the tables of all managers plus [pend].  A step
    of one manager is lifted to the system by [sys_focus] and [sys_unfocus]. *)
From S2P Require Import Prelude FreeQueue Request BlockHash BlockMap BlockPool KVSpecs SingleType.

Record HybridSplit := mkSplit {
  full_attention_group_ids : list Z;
  other_group_ids : list Z;
  full_attention_spec : KVCacheSpec;
  other_spec : KVCacheSpec;
  full_attn_first : bool;
}.

Inductive CoordKind :=
  | NoPrefixCache
  | Unitary (u_spec : KVCacheSpec) (u_block_size : Z)
  | Hybrid (s : HybridSplit).

Record KVCacheCoordinator := mkCoord {
  c_kind : CoordKind;
  c_config : KVCacheConfig;
  c_use_eagle : bool;
  c_enable_caching : bool;
  c_dcp_world_size : Z;
  block_pool : BlockPool;
  single_type_managers : list Manager;
}.

Definition with_state (Ms : list Manager) (P : BlockPool) (C : KVCacheCoordinator)
  : KVCacheCoordinator :=
  mkCoord (c_kind C) (c_config C) (c_use_eagle C) (c_enable_caching C) (c_dcp_world_size C) P Ms.

(** [max(l) < min(k)]. *)
Definition all_before (l k : list Z) : result bool :=
  a ← py_max l; b ← py_min k; Ok (a <? b).

Module Coord.

(** [enumerate(kv_cache_groups)] in [__init__]. *)
Fixpoint init_managers (groups : list KVCacheGroupSpec) (i : Z) (P : BlockPool) (dcp : Z)
  : result (list Manager) :=
  match groups with
  | [] => Ok []
  | g :: groups =>
      M ← Mgr.get_manager_for_kv_cache_spec (kv_cache_spec g) P i dcp;
      Ms ← init_managers groups (i + 1) P dcp;
      Ok (M :: Ms)
  end.

(** [KVCacheCoordinator.__init__]. *)
Definition init (kind : CoordKind) (cfg : KVCacheConfig) (use_eagle caching events : bool)
    (dcp : Z) : result KVCacheCoordinator :=
  P ← Pool.init (num_blocks cfg) caching events;
  Ms ← init_managers (kv_cache_groups cfg) 0 P dcp;
  Ok (mkCoord kind cfg use_eagle caching dcp P Ms).

(** [isinstance(g.kv_cache_spec, FullAttentionSpec)]. *)
Definition is_full_group (g : GroupSpec) : bool :=
  match g with LayerSpec s => is_full s | _ => false end.

(** The loop of [verify_and_split_kv_cache_groups]. *)
Fixpoint split_loop (groups : list KVCacheGroupSpec) (i : Z)
    (full other : option GroupSpec) (fulls others : list Z)
  : result (option GroupSpec * option GroupSpec * list Z * list Z) :=
  match groups with
  | [] => Ok (full, other, fulls, others)
  | g :: groups =>
      let spec := kv_cache_spec g in
      if is_full_group spec then
        match full with
        | None => split_loop groups (i + 1) (Some spec) other (fulls ++ [i]) others
        | Some s =>
            _ ← py_assert (bool_decide (s = spec));
            split_loop groups (i + 1) full other (fulls ++ [i]) others
        end
      else
        match other with
        | None => split_loop groups (i + 1) full (Some spec) fulls (others ++ [i])
        | Some s =>
            _ ← py_assert (bool_decide (s = spec));
            split_loop groups (i + 1) full other fulls (others ++ [i])
        end
  end.

Definition verify_and_split_kv_cache_groups (cfg : KVCacheConfig) (caching : bool)
  : result HybridSplit :=
  '(full, other, fulls, others) ← split_loop (kv_cache_groups cfg) 0 None None [] [];
  match full, other with
  | Some (LayerSpec fs), Some (LayerSpec os) =>
      _ ← (if caching : bool then py_assert (block_size os mod block_size fs =? 0) else Ok tt);
      all_before fulls others ≫= λ before : bool,
      if before then Ok (mkSplit fulls others fs os true)
      else
        all_before others fulls ≫= λ after : bool,
        if after then Ok (mkSplit fulls others fs os false) else Err ValueError
  | _, _ => Err AssertionError
  end.

(** [UnitaryKVCacheCoordinator.__init__]. *)
Definition init_unitary (cfg : KVCacheConfig) (use_eagle caching events : bool) (dcp : Z)
  : result KVCacheCoordinator :=
  C ← init NoPrefixCache cfg use_eagle caching events dcp;
  g ← py_index (kv_cache_groups cfg) 0;
  match kv_cache_spec g with
  | LayerSpec s =>
      let bs := if 1 <? dcp then block_size s * dcp else block_size s in
      _ ← py_assert (len (kv_cache_groups cfg) =? 1);
      Ok (mkCoord (Unitary s bs) cfg use_eagle caching dcp (block_pool C) (single_type_managers C))
  | _ => Err KeyError
  end.

(** [HybridKVCacheCoordinator.__init__]. *)
Definition init_hybrid (cfg : KVCacheConfig) (use_eagle caching events : bool) (dcp : Z)
  : result KVCacheCoordinator :=
  C ← init NoPrefixCache cfg use_eagle caching events dcp;
  _ ← py_assert (dcp =? 1);
  s ← verify_and_split_kv_cache_groups cfg caching;
  Ok (mkCoord (Hybrid s) cfg use_eagle caching dcp (block_pool C) (single_type_managers C)).

(** [get_kv_cache_coordinator]. *)
Definition get_kv_cache_coordinator (cfg : KVCacheConfig) (use_eagle caching events : bool)
    (dcp : Z) : result KVCacheCoordinator :=
  if negb caching then init NoPrefixCache cfg use_eagle false events dcp
  else if len (kv_cache_groups cfg) =? 1 then init_unitary cfg use_eagle caching events dcp
  else init_hybrid cfg use_eagle caching events dcp.

(** ** The loops over the managers *)

Fixpoint get_num_blocks_to_allocate (request_id : string) (num_tokens : Z)
    (new_computed_blocks : list (list ptr)) (num_encoder_tokens : Z) (P : BlockPool)
    (i : Z) (Ms : list Manager) : result (Z * list Manager) :=
  match Ms with
  | [] => Ok (0, [])
  | M :: Ms =>
      '(n, M) ← (if is_cross M then
                   Ok (Mgr.get_num_blocks_to_allocate request_id num_encoder_tokens [] P M)
                 else
                   new ← py_index new_computed_blocks i;
                   Ok (Mgr.get_num_blocks_to_allocate request_id num_tokens new P M));
      '(rest, Ms) ← get_num_blocks_to_allocate request_id num_tokens new_computed_blocks
                      num_encoder_tokens P (i + 1) Ms;
      Ok (n + rest, M :: Ms)
  end.

Fixpoint save_new_computed_blocks (request_id : string) (new_computed_blocks : list (list ptr))
    (i : Z) (Ms : list Manager) : result (list Manager) :=
  match Ms with
  | [] => Ok []
  | M :: Ms =>
      new ← py_index new_computed_blocks i;
      M ← Mgr.save_new_computed_blocks request_id new M;
      Ms ← save_new_computed_blocks request_id new_computed_blocks (i + 1) Ms;
      Ok (M :: Ms)
  end.

Fixpoint allocate_new_blocks (use_int : bool) (request_id : string)
    (num_tokens num_encoder_tokens : Z) (Ms : list Manager) (P : BlockPool)
  : result (list (list ptr) * list Manager * BlockPool) :=
  match Ms with
  | [] => Ok ([], [], P)
  | M :: Ms =>
      '(new, M, P) ← Mgr.allocate_new_blocks use_int request_id
                       (if is_cross M then num_encoder_tokens else num_tokens) M P;
      '(news, Ms, P) ← allocate_new_blocks use_int request_id num_tokens num_encoder_tokens Ms P;
      Ok (new :: news, M :: Ms, P)
  end.

(** [for manager in self.single_type_managers: ...]. *)
Fixpoint each_manager (f : Manager → BlockPool → result (Manager * BlockPool))
    (Ms : list Manager) (P : BlockPool) : result (list Manager * BlockPool) :=
  match Ms with
  | [] => Ok ([], P)
  | M :: Ms =>
      '(M, P) ← f M P;
      '(Ms, P) ← each_manager f Ms P;
      Ok (M :: Ms, P)
  end.

Definition cache_blocks (use_int : bool) (r : Request) (num_computed_tokens : Z) :=
  each_manager (Mgr.cache_blocks use_int r num_computed_tokens).
Definition free (request_id : string) := each_manager (Mgr.free request_id).
Definition remove_skipped_blocks (request_id : string) (num_computed_tokens : Z) :=
  each_manager (Mgr.remove_skipped_blocks request_id num_computed_tokens).

Fixpoint common_prefix_blocks (request_id : string) (num_running_requests : Z) (P : BlockPool)
    (Ms : list Manager) : list Z * list Manager :=
  match Ms with
  | [] => ([], [])
  | M :: Ms =>
      let '(n, M) := Mgr.get_num_common_prefix_blocks request_id num_running_requests P M in
      let '(ns, Ms) := common_prefix_blocks request_id num_running_requests P Ms in
      (n :: ns, M :: Ms)
  end.

(** [get_num_common_prefix_blocks], with the override without prefix caching. *)
Definition get_num_common_prefix_blocks (request_id : string) (num_running_requests : Z)
    (C : KVCacheCoordinator) : list Z * KVCacheCoordinator :=
  match c_kind C with
  | NoPrefixCache => (replicate (length (single_type_managers C)) 0, C)
  | _ =>
      let '(ns, Ms) := common_prefix_blocks request_id num_running_requests (block_pool C)
                         (single_type_managers C) in
      (ns, with_state Ms (block_pool C) C)
  end.

(** [get_blocks]. *)
Definition get_blocks (request_id : string) (C : KVCacheCoordinator) : list (list ptr) :=
  (λ M, default [] (req_to_blocks M !! request_id)) <$> single_type_managers C.

(** ** Searching the prefix cache *)

Definition find_unitary (spec : KVCacheSpec) (bs : Z) (block_hashes : list bytes)
    (max_cache_hit_length : Z) (C : KVCacheCoordinator) : result (list (list ptr) * Z) :=
  M ← py_index (single_type_managers C) 0;
  hits ← Hit.find_longest_cache_hit (m_spec M) block_hashes max_cache_hit_length [0]
           (block_pool C) spec (c_use_eagle C) (c_dcp_world_size C);
  first ← py_index hits 0;
  Ok (hits, len first * bs).

Definition find_hybrid (s : HybridSplit) (block_hashes : list bytes)
    (max_cache_hit_length : Z) (C : KVCacheCoordinator) : result (list (list ptr) * Z) :=
  full_hits ← Hit.full block_hashes max_cache_hit_length (full_attention_group_ids s)
                (block_pool C) (full_attention_spec s) (c_use_eagle C) 1;
  first ← py_index full_hits 0;
  let hit_length := len first * block_size (full_attention_spec s) in
  other_hits ← Hit.find_longest_cache_hit (other_spec s) block_hashes hit_length
                 (other_group_ids s) (block_pool C) (other_spec s) (c_use_eagle C) 1;
  first ← py_index other_hits 0;
  let hit_length := len first * block_size (other_spec s) in
  _ ← py_assert (hit_length mod block_size (full_attention_spec s) =? 0);
  let full_hits :=
    (λ c, py_del_from c (hit_length / block_size (full_attention_spec s))) <$> full_hits in
  Ok (if full_attn_first s then full_hits ++ other_hits else other_hits ++ full_hits, hit_length).

Definition find_longest_cache_hit (block_hashes : list bytes) (max_cache_hit_length : Z)
    (C : KVCacheCoordinator) : result (list (list ptr) * Z) :=
  match c_kind C with
  | NoPrefixCache => Ok (replicate (length (single_type_managers C)) [], 0)
  | Unitary spec bs => find_unitary spec bs block_hashes max_cache_hit_length C
  | Hybrid s => find_hybrid s block_hashes max_cache_hit_length C
  end.

End Coord.

(** ** The invariant of the KV cache *)

(** All the references of the managers to a block. *)
Definition total_uses (Ms : list Manager) (p : ptr) : Z := sumZ (uses p <$> Ms).

Record sys_inv (Ms : list Manager) (P : BlockPool) (fl : list ptr) (pend : ptr → Z) : Prop := {
  si_pool : pool_inv P fl;
  si_mgrs : Forall (mgr_inv P) Ms;
  si_rc : ∀ p, valid P p → p ≠ Blk 0 → rc P p = total_uses Ms p + pend p;
  si_pend : ∀ p, 0 ≤ pend p;
  si_nohash : enable_caching P = false → ∀ p, valid P p → hash_at P p = None;
}.

Definition no_pend : ptr → Z := λ _, 0.

Lemma total_uses_app Ms Ns p : total_uses (Ms ++ Ns) p = total_uses Ms p + total_uses Ns p.
Proof. unfold total_uses. by rewrite fmap_app, sumZ_app. Qed.

Lemma total_uses_cons M Ms p : total_uses (M :: Ms) p = uses p M + total_uses Ms p.
Proof. done. Qed.

Lemma total_uses_nonneg Ms p : 0 ≤ total_uses Ms p.
Proof.
  induction Ms as [|M Ms IH]; [done|]. rewrite total_uses_cons.
  pose proof (uses_nonneg p M). lia.
Qed.

Lemma total_uses_in M Ms p : M ∈ Ms → uses p M ≤ total_uses Ms p.
Proof.
  intros (L1&L2&->)%list_elem_of_split. rewrite total_uses_app, total_uses_cons.
  pose proof (total_uses_nonneg L1 p). pose proof (total_uses_nonneg L2 p). lia.
Qed.

(** The references a manager sees from outside. *)
Definition ext_of (L1 L2 : list Manager) (pend : ptr → Z) (p : ptr) : Z :=
  total_uses L1 p + total_uses L2 p + pend p.

(** A system step is a step of one of its managers with the pool. *)
Lemma sys_focus L1 M L2 P fl pend :
  sys_inv (L1 ++ M :: L2) P fl pend → mgr_sys M P fl (ext_of L1 L2 pend).
Proof.
  intros [HP HM Hrc Hpend Hnh]. split; try done.
  - by apply Forall_app in HM as [_ [? _]%Forall_cons].
  - intros p Hv Hne. rewrite Hrc by done. rewrite total_uses_app, total_uses_cons. unfold ext_of. lia.
  - intros p. unfold ext_of. pose proof (total_uses_nonneg L1 p).
    pose proof (total_uses_nonneg L2 p). specialize (Hpend p). lia.
Qed.

Lemma mgr_inv_frame M P P' :
  mgr_inv P M → same_cfg P P' → keeps (λ q, 0 < uses q M) P P' → mgr_inv P' M.
Proof.
  intros [H1 H2 H3 H4 H5] Hcfg Hk. split; try done.
  intros rid. eapply table_inv_frame; [done..|]. intros q Hv Hne Hin. apply Hk; try done.
  apply occ_elem in Hin. pose proof (uses_entry q M rid). lia.
Qed.

Lemma sys_unfocus L1 M L2 P fl pend M' P' fl' pend' :
  sys_inv (L1 ++ M :: L2) P fl pend →
  mgr_sys M' P' fl' (ext_of L1 L2 pend') → (∀ p, 0 ≤ pend' p) →
  keeps (λ q, 0 < ext_of L1 L2 pend q) P P' → same_cfg P P' →
  sys_inv (L1 ++ M' :: L2) P' fl' pend'.
Proof.
  intros [HP HM Hrc Hpend Hnh] [HP' HM' Hrc' Hext' Hnh'] Hpend' Hk Hcfg. split; try done.
  - apply Forall_app in HM as [HM1 [_ HM2]%Forall_cons].
    assert (∀ L, Forall (mgr_inv P) L → (∀ N, N ∈ L → N ∈ L1 ++ L2) → Forall (mgr_inv P') L) as Hfr.
    { intros L HL Hsub. rewrite Forall_forall in HL |- *. intros N HN.
      eapply mgr_inv_frame; [by apply HL|done|]. intros q Hv Hne Hq. apply Hk; try done.
      pose proof (total_uses_in N (L1 ++ L2) q (Hsub N HN)) as Hu. rewrite total_uses_app in Hu.
      unfold ext_of. specialize (Hpend q). lia. }
    apply Forall_app. split; [apply Hfr; [done|set_solver]|]. constructor; [done|].
    apply Hfr; [done|set_solver].
  - intros p Hv Hne. rewrite Hrc' by done. rewrite total_uses_app, total_uses_cons. unfold ext_of. lia.
Qed.

(** A loop over the managers, each step of which preserves the invariant. *)
Lemma each_manager_ok f (pre : Manager → Prop) (T : BlockPool → BlockPool → Prop)
    (R : Manager → Manager → Prop) `{!PreOrder T} P0 :
  (∀ M P fl ext, mgr_sys M P fl ext → T P0 P → pre M →
     ∃ M' P' fl', f M P = Ok (M', P') ∧ mgr_sys M' P' (fl ++ fl') ext ∧
       keeps (λ q, 0 < ext q) P P' ∧ same_cfg P P' ∧ T P P' ∧ R M M') →
  ∀ Ms fl pend, sys_inv Ms P0 fl pend → Forall pre Ms →
  ∃ Ms' P' fl', Coord.each_manager f Ms P0 = Ok (Ms', P') ∧ sys_inv Ms' P' (fl ++ fl') pend ∧
    same_cfg P0 P' ∧ T P0 P' ∧ Forall2 R Ms Ms'.
Proof.
  intros Hf Ms fl pend HS Hpre.
  assert (∀ L2 L1 P fl, sys_inv (L1 ++ L2) P fl pend → same_cfg P0 P → T P0 P → Forall pre L2 →
    ∃ Ms' P' fl', Coord.each_manager f L2 P = Ok (Ms', P') ∧
      sys_inv (L1 ++ Ms') P' (fl ++ fl') pend ∧ same_cfg P0 P' ∧ T P0 P' ∧ Forall2 R L2 Ms') as Hgen.
  { clear fl Ms HS Hpre. induction L2 as [|M L2 IH]; intros L1 P fl HS Hcfg HT Hpre.
    - exists [], P, []. rewrite !app_nil_r in *. done.
    - apply Forall_cons in Hpre as [HpM Hpre]. cbn [Coord.each_manager].
      destruct (Hf M P fl _ (sys_focus _ _ _ _ _ _ HS) HT HpM) as (M'&P1&fl1&->&HM1&Hk&Hcfg1&HT1&HR).
      rewrite Ok_bind. pose proof (sys_unfocus _ _ _ _ _ _ _ _ _ _ HS HM1 (si_pend _ _ _ _ HS) Hk Hcfg1) as HS1.
      rewrite (app_cons_snoc L1 M' L2) in HS1.
      destruct (IH (L1 ++ [M']) P1 _ HS1) as (Ms'&P'&fl2&->&HS2&Hcfg2&HT2&HR2); [by etrans|by etrans|done|].
      rewrite Ok_bind. exists (M' :: Ms'), P', (fl1 ++ fl2). rewrite <-app_assoc in HS2. simpl in HS2.
      rewrite (app_assoc fl). split_and!; try done. by constructor. }
  by apply (Hgen Ms [] P0 fl).
Qed.

(** ** The operations on the system *)

(** Steps that change no hash, and steps that change no reference count. *)
Definition same_hashes (P P' : BlockPool) : Prop :=
  same_cfg P P' ∧ ∀ q, hash_at P' q = hash_at P q.
Definition same_rcs (P P' : BlockPool) : Prop :=
  same_cfg P P' ∧ ∀ q, rc P' q = rc P q.

#[export] Instance same_hashes_preorder : PreOrder same_hashes.
Proof.
  split; [by intros P|]. intros P Q R [H1 H2] [H3 H4].
  split; [by etrans|]. intros q. by rewrite H4.
Qed.
#[export] Instance same_rcs_preorder : PreOrder same_rcs.
Proof.
  split; [by intros P|]. intros P Q R [H1 H2] [H3 H4].
  split; [by etrans|]. intros q. by rewrite H4.
Qed.

(** [free]: no manager keeps anything of the request. *)
Lemma sys_free rid Ms P fl pend :
  sys_inv Ms P fl pend →
  ∃ Ms' P' fl', Coord.free rid Ms P = Ok (Ms', P') ∧ sys_inv Ms' P' (fl ++ fl') pend ∧
    same_cfg P P' ∧ same_hashes P P' ∧
    Forall2 (λ M M', mgr_frame rid M M' ∧ blocks_of M' rid = [] ∧
                     num_cached_block M' !! rid = None) Ms Ms'.
Proof.
  intros HS. apply (each_manager_ok _ (λ _, True) same_hashes); [apply _| |done|by apply Forall_true].
  intros M P1 fl1 ext HM _ _. destruct (free_spec M P1 fl1 ext rid HM) as (M'&P'&?&?&?&?&?&?&?&?).
  eexists M', P', _. by split_and!.
Qed.

(** [remove_skipped_blocks], under the bounds of each manager. *)
Lemma sys_remove_skipped rid nct Ms P fl pend :
  sys_inv Ms P fl pend →
  Forall (λ M, ∀ k, Mgr.first_useful_block rid nct M = Some k →
    k ≤ len (blocks_of M rid) ∧ (enable_caching P = true → k ≤ cached_of M rid)) Ms →
  ∃ Ms' P' fl', Coord.remove_skipped_blocks rid nct Ms P = Ok (Ms', P') ∧
    sys_inv Ms' P' (fl ++ fl') pend ∧ same_cfg P P' ∧ same_hashes P P' ∧
    Forall2 (λ M M', mgr_frame rid M M' ∧
      length (blocks_of M' rid) = length (blocks_of M rid) ∧
      num_cached_block M' = num_cached_block M ∧
      (∀ j p, blocks_of M' rid !! j = Some p → p = Blk 0 ∨ blocks_of M rid !! j = Some p)) Ms Ms'.
Proof.
  intros HS Hpre. eapply (each_manager_ok _ _ same_hashes); [apply _| |done|exact Hpre].
  intros M P1 fl1 ext HM [HT _] HpM.
  destruct (remove_skipped_spec M P1 fl1 ext rid nct HM) as (M'&P'&fl'&?&?&?&?&?&?&_&?&?&?).
  { intros k Hk. destruct (HpM k Hk) as [? Hc]. split; [done|]. intros Hc1. apply Hc.
    destruct HT as (_&<-&_). done. }
  exists M', P', fl'. by split_and!.
Qed.

(** [cache_blocks], when every manager has the full blocks in its table. *)
Lemma sys_cache_blocks use_int r num_tokens Ms P fl pend :
  sys_inv Ms P fl pend → enable_caching P = true → enable_kv_cache_events P = false →
  Forall (λ M, is_cross M = false ∧ ∃ nc, num_cached_block M !! request_id r = Some nc ∧
    let nf := num_tokens / m_block_size M in
    nc ≤ nf ∧ nf ≤ len (blocks_of M (request_id r)) ∧ nf ≤ len (block_hashes r)) Ms →
  ∃ Ms' P', Coord.cache_blocks use_int r num_tokens Ms P = Ok (Ms', P') ∧
    sys_inv Ms' P' fl pend ∧ same_cfg P P' ∧ same_rcs P P' ∧
    Forall2 (λ M M', mgr_frame (request_id r) M M' ∧
      blocks_of M' (request_id r) = blocks_of M (request_id r) ∧
      num_cached_block M' !! request_id r = Some (num_tokens / m_block_size M)) Ms Ms'.
Proof.
  intros HS Hc He Hpre.
  assert (∃ Ms' P' fl', Coord.cache_blocks use_int r num_tokens Ms P = Ok (Ms', P') ∧
    sys_inv Ms' P' (fl ++ fl') pend ∧ same_cfg P P' ∧ same_rcs P P' ∧
    Forall2 (λ M M', mgr_frame (request_id r) M M' ∧
      blocks_of M' (request_id r) = blocks_of M (request_id r) ∧
      num_cached_block M' !! request_id r = Some (num_tokens / m_block_size M)) Ms Ms')
    as (Ms'&P'&fl'&Hrun&HS'&Hcfg&HT&HR).
  - eapply (each_manager_ok _ _ same_rcs); [apply _| |done|exact Hpre].
    intros M P1 fl1 ext HM [HT _] (Hcr&nc&Hnc&Hnf). destruct HT as (_&Hc1&_&_&He1).
    destruct (cache_blocks_spec use_int M P1 fl1 ext r num_tokens nc HM)
      as (M'&P'&?&?&?&?&?&?&?&_&_&?); [congruence|congruence|done|done|apply Hnf..|].
    exists M', P', []. rewrite app_nil_r. by split_and!.
  - exists Ms', P'. split_and!; try done.
    assert (fl' = []) as ->; [|by rewrite app_nil_r in HS'].
    assert (∀ p, p ∈ fl ++ fl' → p ∈ fl) as Hsub.
    { intros p Hp. apply (fl_rc P' _ p (si_pool _ _ _ _ HS')) in Hp as (Hv&Hne&H0).
      destruct (proj2 (pi_free _ _ _ (si_pool _ _ _ _ HS) p)) as [?|?%elem_of_nil]; [|done..].
      split; [by apply (same_cfg_valid P P')|]. split; [done|]. by rewrite <-(proj2 HT p). }
    pose proof (fl_nodup _ _ _ (si_pool _ _ _ _ HS')) as Hnd.
    destruct fl' as [|x fl']; [done|]. apply NoDup_app in Hnd as (_&Hd&_).
    exfalso. apply (Hd x); [apply Hsub; set_solver|by left].
Qed.

(** Touching the blocks of a hit moves them out of the free list. *)
Lemma sys_touch new Ms P fl pend :
  sys_inv Ms P fl pend → Forall (hit_table P) new →
  ∃ P', Pool.touch new P = Ok P' ∧
    sys_inv Ms P' (filter (.∉ concat new) fl) (λ p, pend p + occ p (concat new)) ∧
    same_cfg P P' ∧ same_hashes P P'.
Proof.
  intros [HP HM Hrc Hpend Hnh] Hnew.
  assert (∀ p, p ∈ concat new → ∃ bl, p ∈ bl ∧ hit_table P bl) as Hin.
  { intros p Hp. apply list_elem_of_In, in_concat in Hp as (bl&Hbl&Hp).
    rewrite <-!list_elem_of_In in *. rewrite Forall_forall in Hnew. eauto. }
  destruct (touch_spec P fl new HP) as (P'&->&HP'&Hcfg&Hrc'&Hh).
  { rewrite Forall_forall. intros p (bl&Hp&Ht)%Hin. pose proof (ht_valid _ _ Ht) as Hv.
    rewrite Forall_forall in Hv. by apply Hv. }
  exists P'. split_and!; [done| |done|done]. split; [done| | | |].
  - rewrite Forall_forall in HM |- *. intros M HMin. eapply mgr_inv_frame; [by apply HM|done|].
    intros q Hv Hne _ [H0 H1]. rewrite Hh, Hrc', occ_not_elem; [split; [done|lia]|].
    intros (bl&Hq&Ht)%Hin. destruct (ht_hash _ _ Ht q Hq Hne). congruence.
  - intros p Hv Hne. apply (same_cfg_valid P P') in Hv; [|done]. rewrite Hrc', Hrc by done. lia.
  - intros p. specialize (Hpend p). pose proof (occ_nonneg p (concat new)). lia.
  - intros Hc p Hv. rewrite Hh. apply Hnh; [by destruct Hcfg as (_&<-&_)|by apply (same_cfg_valid P P')].
Qed.

(** The free blocks a touch takes are those the estimate counted. *)
Lemma touch_free P fl new :
  pool_inv P fl → Forall (valid P) new → NoDup (filter (.≠ Blk 0) new) →
  len (filter (.∉ new) fl) = len fl - len (filter (λ p, p ≠ Blk 0 ∧ rc P p = 0) new).
Proof.
  intros HP Hv Hnd. set (C := filter (λ p, p ≠ Blk 0 ∧ rc P p = 0) new).
  assert (filter (.∈ new) fl ≡ₚ C) as Hperm.
  { apply NoDup_Permutation.
    - apply NoDup_filter. by eapply fl_nodup.
    - assert (C = filter (λ p, rc P p = 0) (filter (.≠ Blk 0) new)) as ->.
      { unfold C. rewrite list_filter_filter. apply list_filter_iff. naive_solver. }
      by apply NoDup_filter.
    - intros p. unfold C. rewrite !list_elem_of_filter. rewrite Forall_forall in Hv.
      pose proof (pi_free _ _ _ HP p) as Hf. rewrite elem_of_nil in Hf. naive_solver. }
  assert (len fl = len (filter (.∈ new) fl) + len (filter (.∉ new) fl)) as ->.
  { clear. induction fl as [|x fl IH]; [done|]. rewrite !filter_cons.
    repeat case_decide; try done; rewrite !len_cons; lia. }
  assert (len (filter (.∈ new) fl) = len C) as ->; [|lia].
  unfold len. f_equal. by apply Permutation_length.
Qed.

(** ** The indexed loops *)

(** The tokens a manager allocates for. *)
Definition tokens_for (num_tokens num_encoder_tokens : Z) (M : Manager) : Z :=
  if is_cross M then num_encoder_tokens else num_tokens.
(** The blocks a request must have with a manager. *)
Definition required (num_tokens num_encoder_tokens : Z) (M : Manager) : Z :=
  cdiv (Mgr.with_spec_tokens M (tokens_for num_tokens num_encoder_tokens M)) (m_block_size M).

(** What the estimate adds for a manager. *)
Definition demand (rid : string) (nt net : Z) (P : BlockPool) (M : Manager) (new : list ptr) : Z :=
  required nt net M - (if is_cross M then 0 else len new) - len (blocks_of M rid)
  + (if is_cross M then 0 else len (filter (λ p, p ≠ Blk 0 ∧ rc P p = 0) new)).

(** A request's tables are as they were. *)
Definition tables_kept (rid : string) (M M' : Manager) : Prop :=
  mgr_frame rid M M' ∧ blocks_of M' rid = blocks_of M rid ∧
  num_cached_block M' = num_cached_block M.

Lemma same_pool_step L1 M L2 P fl pend M' pend' :
  sys_inv (L1 ++ M :: L2) P fl pend → mgr_sys M' P fl (ext_of L1 L2 pend') → (∀ p, 0 ≤ pend' p) →
  sys_inv (L1 ++ M' :: L2) P fl pend'.
Proof. intros HS HM Hp. eapply sys_unfocus; try done. by intros q. Qed.

Lemma py_index_app_cons {A} (l1 : list A) x l2 :
  py_index (l1 ++ x :: l2) (len l1) = Ok x.
Proof. by apply py_index_middle. Qed.

Lemma len_snoc {A} (l : list A) x : len (l ++ [x]) = len l + 1.
Proof. len_lia. Qed.

Lemma sys_get_num rid nt net Ms P fl pend news :
  sys_inv Ms P fl pend → Forall2 (λ M new, Forall (valid P) new) Ms news →
  ∃ Ms', Coord.get_num_blocks_to_allocate rid nt news net P 0 Ms
      = Ok (sumZ (zip_with (demand rid nt net P) Ms news), Ms') ∧
    sys_inv Ms' P fl pend ∧ Forall2 (tables_kept rid) Ms Ms'.
Proof.
  intros HS H2.
  assert (∀ Ls Ns L1 N1, Forall2 (λ M new, Forall (valid P) new) Ls Ns → len L1 = len N1 →
    sys_inv (L1 ++ Ls) P fl pend →
    ∃ Ls', Coord.get_num_blocks_to_allocate rid nt (N1 ++ Ns) net P (len N1) Ls
        = Ok (sumZ (zip_with (demand rid nt net P) Ls Ns), Ls') ∧
      sys_inv (L1 ++ Ls') P fl pend ∧ Forall2 (tables_kept rid) Ls Ls') as Hgen.
  2: { by apply (Hgen Ms news [] []). }
  clear. intros Ls Ns L1 N1 H2. induction H2 as [|M new Ls Ns Hv H2 IH] in L1, N1 |- *; intros Hlen HS.
  { by exists []. }
  cbn [Coord.get_num_blocks_to_allocate]. rewrite py_index_app_cons, Ok_bind.
  pose proof (sys_focus _ _ _ _ _ _ HS) as HM.
  set (args := if is_cross M then (net, []) else (nt, new)).
  destruct (get_num_spec M P fl _ rid args.1 args.2 HM) as (M'&Hg&HM'&Hfr&Hb&Hn).
  { unfold args. destruct (is_cross M); [by constructor|done]. }
  match goal with |- context [Coord.get_num_blocks_to_allocate] => idtac end.
  assert ((if is_cross M then Ok (Mgr.get_num_blocks_to_allocate rid net [] P M)
           else Ok (Mgr.get_num_blocks_to_allocate rid nt new P M))
          = Ok (demand rid nt net P M new, M')) as Hstep.
  { unfold args in Hg. unfold demand, required, tokens_for.
    destruct (is_cross M); cbn [fst snd] in Hg; rewrite Hg; do 2 f_equal; cbn; unfold len; simpl; lia. }
  rewrite Hstep, Ok_bind. pose proof (same_pool_step _ _ _ _ _ _ _ _ HS HM' (si_pend _ _ _ _ HS)) as HS1.
  rewrite app_cons_snoc in HS1. rewrite (app_cons_snoc N1 new Ns), <-(len_snoc N1 new).
  destruct (IH (L1 ++ [M']) (N1 ++ [new])) as (Ls'&->&HS2&HF); [by rewrite !len_snoc, Hlen|done|].
  rewrite Ok_bind. exists (M' :: Ls'). rewrite <-app_assoc in HS2.
  split_and!; [done|done|]. constructor; [by split_and!|done].
Qed.

(** The loop of [get_num_common_prefix_blocks]. *)
Lemma sys_common_prefix rid n Ms P fl pend :
  sys_inv Ms P fl pend →
  ∃ ns Ms', Coord.common_prefix_blocks rid n P Ms = (ns, Ms') ∧
    sys_inv Ms' P fl pend ∧ Forall2 (tables_kept rid) Ms Ms'.
Proof.
  assert (∀ Ls L1, sys_inv (L1 ++ Ls) P fl pend →
    ∃ ns Ls', Coord.common_prefix_blocks rid n P Ls = (ns, Ls') ∧
      sys_inv (L1 ++ Ls') P fl pend ∧ Forall2 (tables_kept rid) Ls Ls') as Hgen.
  2: { apply (Hgen Ms []). }
  induction Ls as [|M Ls IH]; intros L1 HS; [by exists [], []|].
  cbn [Coord.common_prefix_blocks]. pose proof (sys_focus _ _ _ _ _ _ HS) as HM.
  destruct (common_prefix_spec M P fl _ rid n HM) as (k&M'&->&HM'&Hkept).
  pose proof (same_pool_step _ _ _ _ _ _ _ _ HS HM' (si_pend _ _ _ _ HS)) as HS1.
  rewrite app_cons_snoc in HS1. destruct (IH _ HS1) as (ns&Ls'&->&HS2&HF).
  rewrite <-app_assoc in HS2. exists (k :: ns), (M' :: Ls'). split_and!; [done|done|].
  by constructor.
Qed.

(** What may be handed to a manager as computed blocks of a request. *)
Definition save_ok (rid : string) (P : BlockPool) (M : Manager) (new : list ptr) : Prop :=
  if is_cross M then new = []
  else match num_cached_block M !! rid with None => hit_table P new | Some _ => new = [] end.

Definition saved (rid : string) (M : Manager) (new : list ptr) (M' : Manager) : Prop :=
  mgr_frame rid M M' ∧ blocks_of M' rid = blocks_of M rid ++ new ∧
  (is_cross M = false →
     num_cached_block M' !! rid = Some (default (len new) (num_cached_block M !! rid))).

Lemma save_step rid P fl M new ext :
  mgr_sys M P fl ext → save_ok rid P M new → (∀ p, occ p new ≤ ext p) →
  ∃ M', Mgr.save_new_computed_blocks rid new M = Ok M' ∧
    mgr_sys M' P fl (λ p, ext p - occ p new) ∧ saved rid M new M'.
Proof.
  intros HM Hok Hocc. unfold save_ok in Hok.
  assert (mgr_sys M P fl (λ p, ext p - occ p []) ) as HM0.
  { destruct HM as [? ? Hrc He ?]. split; try done; simpl; intros p; [intros; rewrite Hrc by done; lia|].
    specialize (He p). lia. }
  destruct (is_cross M) eqn:Hcr.
  - subst. exists M. rewrite save_running_spec by auto.
    split; [done|]. split; [exact HM0|]. split; [done|]. split; [by rewrite app_nil_r|congruence].
  - destruct (num_cached_block M !! rid) as [nc|] eqn:Hnc.
    + subst. exists M. rewrite save_running_spec by (rewrite Hnc; eauto).
      split; [done|]. split; [exact HM0|]. split; [done|]. split; [by rewrite app_nil_r|by rewrite Hnc].
    + destruct (save_new_spec M P fl ext rid new HM Hcr Hnc Hok Hocc) as (M'&->&HM'&Hfr&Hb&Hn).
      exists M'. split; [done|]. split; [done|]. split; [done|]. split.
      * rewrite Hb, (mi_new _ _ (ms_mgr _ _ _ _ HM) rid Hcr Hnc). done.
      * by rewrite Hnc.
Qed.

Lemma sys_save rid news Ms P fl pend :
  sys_inv Ms P fl (λ p, pend p + occ p (concat news)) → (∀ p, 0 ≤ pend p) →
  Forall2 (save_ok rid P) Ms news →
  ∃ Ms', Coord.save_new_computed_blocks rid news 0 Ms = Ok Ms' ∧ sys_inv Ms' P fl pend ∧
    Forall3 (saved rid) Ms news Ms'.
Proof.
  intros HS Hpend H2.
  assert (∀ Ls Ns L1 N1, Forall2 (save_ok rid P) Ls Ns → len L1 = len N1 →
    sys_inv (L1 ++ Ls) P fl (λ p, pend p + occ p (concat Ns)) →
    ∃ Ls', Coord.save_new_computed_blocks rid (N1 ++ Ns) (len N1) Ls = Ok Ls' ∧
      sys_inv (L1 ++ Ls') P fl pend ∧ Forall3 (saved rid) Ls Ns Ls') as Hgen.
  2: { by apply (Hgen Ms news [] []). }
  clear HS H2. intros Ls Ns L1 N1 H2.
  induction H2 as [|M new Ls Ns Hok H2 IH] in L1, N1 |- *; intros Hlen HS.
  { exists []. split_and!; [done| |constructor]. destruct HS as [? ? Hrc ? ?].
    split; try done. intros p Hv Hne. rewrite (Hrc p Hv Hne). simpl. lia. }
  cbn [Coord.save_new_computed_blocks]. rewrite py_index_app_cons, Ok_bind.
  pose proof (sys_focus _ _ _ _ _ _ HS) as HM.
  destruct (save_step rid P fl M new _ HM Hok) as (M'&->&HM'&Hsv).
  { intros p. unfold ext_of. simpl. rewrite occ_app. pose proof (total_uses_nonneg L1 p).
    pose proof (total_uses_nonneg Ls p). pose proof (occ_nonneg p (concat Ns)). specialize (Hpend p). lia. }
  rewrite Ok_bind.
  assert (sys_inv (L1 ++ M' :: Ls) P fl (λ p, pend p + occ p (concat Ns))) as HS1.
  { eapply same_pool_step; [done| |].
    - destruct HM' as [? ? Hrc He ?]. split; try done; unfold ext_of in *; simpl in *; intros p.
      + intros Hv Hne. rewrite (Hrc p Hv Hne), occ_app. lia.
      + specialize (He p). rewrite occ_app in He. lia.
    - intros p. specialize (Hpend p). pose proof (occ_nonneg p (concat Ns)). lia. }
  rewrite app_cons_snoc in HS1. rewrite (app_cons_snoc N1 new Ns), <-(len_snoc N1 new).
  destruct (IH (L1 ++ [M']) (N1 ++ [new])) as (Ls'&->&HS2&HF); [by rewrite !len_snoc, Hlen|done|].
  rewrite Ok_bind. exists (M' :: Ls'). rewrite <-app_assoc in HS2. split_and!; [done|done|by constructor].
Qed.

(** The new blocks a manager needs. *)
Definition fresh_needed (rid : string) (nt net : Z) (M : Manager) : nat :=
  Z.to_nat (required nt net M - len (blocks_of M rid)).

Definition allocated (rid : string) (nt net : Z) (M : Manager) (new : list ptr) (M' : Manager) : Prop :=
  mgr_frame rid M M' ∧ blocks_of M' rid = blocks_of M rid ++ new ∧
  length new = fresh_needed rid nt net M ∧ num_cached_block M' = num_cached_block M.

Lemma sys_allocate use_int rid nt net Ms P fl pend :
  sys_inv Ms P fl pend → (sum_list_with (fresh_needed rid nt net) Ms ≤ length fl)%nat →
  Forall (λ M, is_cross M = false → is_Some (num_cached_block M !! rid)) Ms →
  ∃ news Ms' P', Coord.allocate_new_blocks use_int rid nt net Ms P = Ok (news, Ms', P') ∧
    sys_inv Ms' P' (drop (sum_list_with (fresh_needed rid nt net) Ms) fl) pend ∧ same_cfg P P' ∧
    Forall3 (allocated rid nt net) Ms news Ms' ∧
    concat news = take (sum_list_with (fresh_needed rid nt net) Ms) fl.
Proof.
  assert (∀ Ls L1 P fl, Forall (λ M, is_cross M = false → is_Some (num_cached_block M !! rid)) Ls →
    sys_inv (L1 ++ Ls) P fl pend → (sum_list_with (fresh_needed rid nt net) Ls ≤ length fl)%nat →
    ∃ news Ls' P', Coord.allocate_new_blocks use_int rid nt net Ls P = Ok (news, Ls', P') ∧
      sys_inv (L1 ++ Ls') P' (drop (sum_list_with (fresh_needed rid nt net) Ls) fl) pend ∧
      same_cfg P P' ∧ Forall3 (allocated rid nt net) Ls news Ls' ∧
      concat news = take (sum_list_with (fresh_needed rid nt net) Ls) fl) as Hgen.
  2: { intros HS Hsum HF. by apply (Hgen Ms [] P fl). }
  clear. induction Ls as [|M Ls IH]; intros L1 P fl HF HS Hsum.
  { exists [], [], P. simpl. split_and!; try done. constructor. }
  apply Forall_cons in HF as [HcM HF]. cbn [Coord.allocate_new_blocks]. simpl sum_list_with in *.
  destruct (allocate_spec use_int M P fl _ rid (tokens_for nt net M) (sys_focus _ _ _ _ _ _ HS))
    as (M'&P1&Hrun&HM'&Hk&Hcfg&Hfr&Hb&Hn&_); [unfold fresh_needed, required in Hsum; lia|done|].
  unfold tokens_for in Hrun. rewrite Hrun, Ok_bind. fold (tokens_for nt net M) in *.
  fold (required nt net M) in *. fold (fresh_needed rid nt net M) in *.
  pose proof (sys_unfocus _ _ _ _ _ _ _ _ _ _ HS HM' (si_pend _ _ _ _ HS) Hk Hcfg) as HS1.
  rewrite app_cons_snoc in HS1.
  destruct (IH (L1 ++ [M']) P1 _ HF HS1) as (news&Ls'&P2&->&HS2&Hcfg2&HF3&Hcat).
  { rewrite length_drop. lia. }
  rewrite Ok_bind. rewrite drop_drop in HS2. rewrite <-app_assoc in HS2.
  eexists (_ :: news), (M' :: Ls'), P2. split_and!; [done|done|by etrans| |].
  - constructor; [|done]. split_and!; try done. rewrite length_take. lia.
  - simpl. rewrite Hcat. rewrite take_take_drop. done.
Qed.

(** ** Prefix-cache hits *)

(** The configurations in which the class of [spec] can search the cache. *)
Definition searchable (spec : KVCacheSpec) (use_eagle : bool) (dcp : Z) : Prop :=
  0 < block_size spec ∧ 1 ≤ dcp ∧
  match spec with
  | FullAttentionSpec _ _ _ => True
  | SlidingWindowSpec _ _ | MambaSpec _ _ _ _ _ _ => dcp = 1
  | ChunkedLocalAttentionSpec _ chunk => dcp = 1 ∧ use_eagle = false ∧ 0 < chunk
  | _ => False
  end.

Definition scaled_block_size (spec : KVCacheSpec) (dcp : Z) : Z :=
  if 1 <? dcp then block_size spec * dcp else block_size spec.

(** Whatever the class, a search returns one row per group, all of one length
    within the bound. *)
Lemma class_hit_spec P fl gids hashes max_length spec use_eagle dcp :
  pool_inv P fl → Forall (λ g, 0 ≤ g < 2 ^ 32) gids → gids ≠ [] →
  searchable spec use_eagle dcp → 0 ≤ max_length →
  max_length / scaled_block_size spec dcp ≤ len hashes →
  ∃ cs n a, Hit.find_longest_cache_hit spec hashes max_length gids P spec use_eagle dcp = Ok cs ∧
    Forall2 (row P hashes a n) gids cs ∧
    Z.of_nat n * scaled_block_size spec dcp ≤ max_length.
Proof.
  intros HP Hg Hne (Hbs&Hdcp&Hspec) Hml Hlen.
  assert (0 < scaled_block_size spec dcp) as Hsb.
  { unfold scaled_block_size. destruct (Z.ltb_spec 1 dcp); nia. }
  assert (∀ n, (n ≤ Z.to_nat (max_length / scaled_block_size spec dcp))%nat →
    Z.of_nat n * scaled_block_size spec dcp ≤ max_length) as Hfit.
  { intros n Hn. pose proof (Z.div_pos max_length _ Hml Hsb).
    pose proof (Z.mul_div_le max_length _ Hsb). nia. }
  assert (∀ n, (eagle_len use_eagle n ≤ n)%nat) as Heag by (intros n; destruct use_eagle; simpl; lia).
  destruct spec as [a w k|a k|a w|b sh dt pd ty ns|a|a]; simpl Hit.find_longest_cache_hit; try done.
  - destruct (full_spec P fl gids hashes max_length (FullAttentionSpec a w k) use_eagle dcp)
      as (cs&n&Hrun&Hrows&Hn&_); eauto 10.
    eexists _, _, _. split_and!; [exact Hrun|exact Hrows|]. apply Hfit.
    specialize (Heag n). unfold scaled_block_size. lia.
  - destruct Hspec as (->&->&Hk).
    destruct (chunked_spec P fl gids hashes max_length a k) as (cs&n&Hrun&Hrows&Hn&_); try done.
    eexists _, _, _. split_and!; [exact Hrun|exact Hrows|]. apply Hfit. apply Hn.
  - subst dcp. destruct (sliding_spec P fl gids hashes max_length a w use_eagle)
      as (cs&n&Hrun&Hrows&Hn&_); try done.
    eexists _, _, _. split_and!; [exact Hrun|exact Hrows|]. apply Hfit. specialize (Heag n).
    unfold scaled_block_size. simpl in *. lia.
  - subst dcp. exists (replicate (length gids) []), 0%nat, 0%nat. split_and!; [done| |by simpl].
    apply Forall2_replicate_r; [done|]. rewrite Forall_forall. intros g _. split; [done|].
    intros i p Hi. by rewrite lookup_nil in Hi.
Qed.

(** The rows of different groups share no block. *)
Definition some_row (P : BlockPool) (hashes : list bytes) (g : Z) (c : list ptr) : Prop :=
  ∃ a m, row P hashes a m g c.

Lemma some_row_hit P hashes g c p :
  some_row P hashes g c → p ∈ c → p ≠ Blk 0 → ∃ h, hit P h g p.
Proof.
  intros (a&m&_&Hrow) [j Hj]%list_elem_of_lookup_1 Hne. specialize (Hrow j p Hj).
  case_decide; [done|]. destruct Hrow as (h&_&?). eauto.
Qed.

Lemma rows_distinct P fl hashes gids cs :
  pool_inv P fl → NoDup hashes → NoDup gids → Forall2 (some_row P hashes) gids cs →
  NoDup (filter (.≠ Blk 0) (concat cs)) ∧ Forall (hit_table P) cs.
Proof.
  intros HP Hnd Hng H2. induction H2 as [|g c gids cs Hrow H2 IH]; [by split; constructor|].
  apply NoDup_cons in Hng as [Hg Hng]. destruct (IH Hng) as [IH1 IH2].
  pose proof Hrow as (a&m&Hr). pose proof (row_hit_table P fl hashes a m g c HP Hnd Hr) as Ht.
  split; [|by constructor]. simpl. rewrite filter_app. apply NoDup_app. split_and!; [|  |done].
  - destruct (ht_shape _ _ Ht) as (z&b&Hc&Hb0&Hndb).
    apply (table_nodup P (Z.of_nat m)). rewrite Hc in *. split.
    + exists z, b. split_and!; try done. intros _. destruct Hr as [Hl _].
      rewrite length_app, length_replicate in Hl. lia.
    + apply Ht.
    + intros j p Hj Hp. apply lookup_lt_Some in Hp. destruct Hr as [Hl _]. lia.
    + lia.
  - intros p. rewrite !list_elem_of_filter. intros [Hne Hp] [_ Hp'].
    destruct (some_row_hit _ _ _ _ _ Hrow Hp Hne) as [h Hh].
    apply list_elem_of_In, in_concat in Hp' as (c'&Hc'&Hp'). rewrite <-!list_elem_of_In in *.
    apply list_elem_of_lookup_1 in Hc' as [j Hj].
    destruct (Forall2_lookup_r _ _ _ _ _ H2 Hj) as (g'&Hg'&Hrow').
    destruct (some_row_hit _ _ _ _ _ Hrow' Hp' Hne) as [h' Hh'].
    destruct (hit_inj _ _ _ _ _ _ Hh Hh') as [_ ->]. by eapply Hg, list_elem_of_lookup_2.
Qed.

(** The number of tokens a cached block stands for. *)
Definition search_block_size (C : KVCacheCoordinator) : Z :=
  match c_kind C with
  | NoPrefixCache => 1
  | Unitary _ bs => bs
  | Hybrid s => block_size (full_attention_spec s)
  end.

(** A well-formed coordinator: its managers carry the group ids in order, and
    the search it does is one its classes support. *)
Definition coord_ok (C : KVCacheCoordinator) : Prop :=
  kv_cache_group_id <$> single_type_managers C = seqZ 0 (len (single_type_managers C)) ∧
  len (single_type_managers C) < 2 ^ 32 ∧
  (c_kind C ≠ NoPrefixCache → 0 < search_block_size C ∧
     Forall (λ M, m_block_size M = search_block_size C ∧ is_cross M = false ∧
       searchable (m_spec M) (c_use_eagle C) (c_dcp_world_size C)) (single_type_managers C)) ∧
  match c_kind C with
  | NoPrefixCache => True
  | Unitary spec bs =>
      (∃ M, single_type_managers C = [M] ∧ m_spec M = spec) ∧
      bs = scaled_block_size spec (c_dcp_world_size C) ∧
      searchable spec (c_use_eagle C) (c_dcp_world_size C)
  | Hybrid s =>
      seqZ 0 (len (single_type_managers C)) =
        (if full_attn_first s then full_attention_group_ids s ++ other_group_ids s
         else other_group_ids s ++ full_attention_group_ids s) ∧
      full_attention_group_ids s ≠ [] ∧ other_group_ids s ≠ [] ∧
      is_full (full_attention_spec s) = true ∧
      block_size (other_spec s) = block_size (full_attention_spec s) ∧
      searchable (full_attention_spec s) (c_use_eagle C) 1 ∧
      searchable (other_spec s) (c_use_eagle C) 1
  end.

(** A search of a well-formed coordinator returns, per manager, a table whose
    blocks hold the hashes of the request, for a number of tokens within the
    bound; no block occurs twice. *)
Definition hit_ok (C : KVCacheCoordinator) (hashes : list bytes) (max_len : Z)
    (news : list (list ptr)) (num_tokens : Z) : Prop :=
  Forall2 (λ M c, some_row (block_pool C) hashes (kv_cache_group_id M) c)
    (single_type_managers C) news ∧
  NoDup (filter (.≠ Blk 0) (concat news)) ∧ Forall (hit_table (block_pool C)) news ∧
  0 ≤ num_tokens ≤ Z.max 0 max_len ∧
  (∀ c, c ∈ news → num_tokens = len c * search_block_size C).

Lemma rows_some P hashes a m gids cs :
  Forall2 (row P hashes a m) gids cs → Forall2 (some_row P hashes) gids cs.
Proof. intros H2. eapply Forall2_impl; [exact H2|]. intros g c ?. by exists a, m. Qed.

Lemma gids_range n (l : list Z) : n < 2 ^ 32 → (∀ g, g ∈ l → g ∈ seqZ 0 n) → Forall (λ g, 0 ≤ g < 2 ^ 32) l.
Proof. intros Hn Hl. rewrite Forall_forall. intros g Hg%Hl%elem_of_seqZ. lia. Qed.

Lemma managers_rows P hashes (Ms : list Manager) gids news :
  kv_cache_group_id <$> Ms = gids → Forall2 (some_row P hashes) gids news →
  Forall2 (λ M c, some_row P hashes (kv_cache_group_id M) c) Ms news.
Proof. intros <-. apply Forall2_fmap_l. Qed.

Lemma find_unitary_ok C fl spec bs hashes max_len :
  pool_inv (block_pool C) fl → coord_ok C → c_kind C = Unitary spec bs → NoDup hashes → 0 ≤ max_len →
  max_len / search_block_size C ≤ len hashes →
  ∃ news n, Coord.find_longest_cache_hit hashes max_len C = Ok (news, n) ∧
    hit_ok C hashes max_len news n.
Proof.
  intros HP (Hids&Hn&_&Hk) Hkind Hnd Hml Hlen. unfold search_block_size in Hlen. unfold Coord.find_longest_cache_hit, Coord.find_unitary.
  rewrite Hkind in *. destruct Hk as ((M&HMs&HM)&Hbs&Hs). rewrite HMs in Hids |- *.
  rewrite (py_index_nonneg [M] 0 M), Ok_bind by done. rewrite HM.
  assert (Forall (λ g, 0 ≤ g < 2 ^ 32) [0]) as Hg by (by repeat constructor).
  destruct (class_hit_spec (block_pool C) fl [0] hashes max_len spec (c_use_eagle C)
    (c_dcp_world_size C)) as (cs&n&a&->&Hrows&Hfit); try done; [by rewrite <-Hbs|].
  rewrite Ok_bind. pose proof Hrows as Hrows0.
  apply Forall2_cons_inv_l in Hrows0 as (c&k'&Hrow&->%Forall2_nil_inv_l&->).
  rewrite (py_index_nonneg [c] 0 c), Ok_bind by done. eexists _, _. split; [done|].
  destruct (rows_distinct (block_pool C) fl hashes [0] [c] HP Hnd) as [Hd Ht].
  { apply NoDup_singleton. } { by eapply rows_some. }
  assert (0 < scaled_block_size spec (c_dcp_world_size C)) as Hsb.
  { destruct Hs as (?&?&_). unfold scaled_block_size. case_match; nia. }
  destruct Hrow as [Hl Hrow]. unfold hit_ok. rewrite HMs. split_and!; try done.
  - eapply managers_rows; [exact Hids|]. by eapply rows_some.
  - unfold len. rewrite Hl. nia.
  - unfold len. rewrite Hl. lia.
  - intros c' Hc'. apply list_elem_of_singleton in Hc' as ->. unfold search_block_size. by rewrite Hkind.
Qed.

Lemma find_hybrid_ok C fl s hashes max_len :
  pool_inv (block_pool C) fl → coord_ok C → c_kind C = Hybrid s → NoDup hashes → 0 ≤ max_len →
  max_len / search_block_size C ≤ len hashes →
  ∃ news n, Coord.find_longest_cache_hit hashes max_len C = Ok (news, n) ∧
    hit_ok C hashes max_len news n.
Proof.
  intros HP (Hids&Hn&_&Hk) Hkind Hnd Hml Hlen. unfold search_block_size in Hlen. unfold Coord.find_longest_cache_hit, Coord.find_hybrid.
  rewrite Hkind in *. destruct Hk as (Hgids&Hfne&Hone&Hfull&Hbs&Hsf&Hso).
  set (fs := full_attention_spec s) in *. set (os := other_spec s) in *.
  set (P := block_pool C) in *.
  assert (∀ g, g ∈ full_attention_group_ids s ∨ g ∈ other_group_ids s →
    g ∈ seqZ 0 (len (single_type_managers C))) as Hin.
  { intros g Hg. rewrite Hgids. destruct (full_attn_first s); set_solver. }
  assert (scaled_block_size fs 1 = block_size fs ∧ scaled_block_size os 1 = block_size fs) as [Hsf1 Hso1].
  { split; [done|]. unfold scaled_block_size. by rewrite Hbs. }
  destruct (class_hit_spec P fl (full_attention_group_ids s) hashes max_len fs (c_use_eagle C) 1)
    as (fulls&n1&a1&Hrun1&Hrows1&Hfit1); try done.
  { eapply gids_range; [done|]. intros g Hg. apply Hin. by left. }
  assert (Hit.find_longest_cache_hit fs = Hit.full) as Hcls by (by destruct fs).
  rewrite Hcls in Hrun1. rewrite Hrun1, Ok_bind. rewrite Hsf1 in Hfit1.
  destruct Hsf as (Hfb&_&_).
  destruct fulls as [|c1 fulls]; [by apply Forall2_nil_inv_r in Hrows1|].
  rewrite (py_index_nonneg (c1 :: fulls) 0 c1), Ok_bind by done.
  assert (length c1 = n1) as Hl1.
  { destruct (full_attention_group_ids s); [done|]. by apply Forall2_cons in Hrows1 as [[? _] _]. }
  assert (len c1 * block_size fs / block_size fs ≤ len hashes) as Hlen2.
  { rewrite Z.div_mul by lia. unfold len at 1. rewrite Hl1.
    etrans; [|exact Hlen]. apply Z.div_le_lower_bound; lia. }
  destruct (class_hit_spec P fl (other_group_ids s) hashes (len c1 * block_size fs) os (c_use_eagle C) 1)
    as (others&n2&a2&Hrun2&Hrows2&Hfit2); try done.
  { eapply gids_range; [done|]. intros g Hg. apply Hin. by right. }
  { pose proof (len_nonneg c1). nia. } { by rewrite Hso1. }
  rewrite Hrun2, Ok_bind. rewrite Hso1 in Hfit2.
  destruct others as [|c2 others]; [by apply Forall2_nil_inv_r in Hrows2|].
  rewrite (py_index_nonneg (c2 :: others) 0 c2), Ok_bind by done.
  assert (length c2 = n2) as Hl2.
  { destruct (other_group_ids s); [done|]. by apply Forall2_cons in Hrows2 as [[? _] _]. }
  rewrite Hbs. rewrite py_assert_true, Ok_bind by (apply Z.eqb_eq; by apply Z.mod_mul; lia).
  rewrite Z.div_mul by lia.
  assert (n2 ≤ n1)%nat as H21.
  { unfold len in Hfit2. rewrite Hl1 in Hfit2. nia. }
  assert (∀ c : list ptr, length c = n1 → py_del_from c (len c2) = take n2 c) as Hdel.
  { intros c Hc. unfold py_del_from, slice_bound. rewrite (proj2 (Z.ltb_ge _ _)) by apply len_nonneg.
    f_equal. unfold len. lia. }
  assert (Forall2 (row P hashes a1 n2) (full_attention_group_ids s)
    ((λ c, py_del_from c (len c2)) <$> (c1 :: fulls))) as Hrows1'.
  { apply Forall2_fmap_r. eapply Forall2_impl; [exact Hrows1|]. intros g c [Hc Hr].
    change (row P hashes a1 n2 g (py_del_from c (len c2))). rewrite Hdel by done. split; [rewrite length_take; lia|]. intros i p [Hi _]%lookup_take_Some. by apply Hr. }
  set (fulls' := (λ c, py_del_from c (len c2)) <$> (c1 :: fulls)) in *.
  set (news := if full_attn_first s then fulls' ++ c2 :: others else (c2 :: others) ++ fulls').
  assert (Forall2 (some_row P hashes) (seqZ 0 (len (single_type_managers C))) news) as Hrows.
  { rewrite Hgids. unfold news. apply rows_some in Hrows1', Hrows2.
    destruct (full_attn_first s); by apply Forall2_app. }
  destruct (rows_distinct P fl hashes _ news HP Hnd (NoDup_seqZ _ _) Hrows) as [Hd Ht].
  exists news, (len c2 * block_size fs). split; [done|]. unfold hit_ok. fold P. split_and!; try done.
  - by eapply managers_rows.
  - pose proof (len_nonneg c2). nia.
  - unfold len. rewrite Hl2. unfold len in Hfit2. rewrite Hl1 in Hfit2. lia.
  - intros c Hc. unfold search_block_size. rewrite Hkind. fold fs. f_equal. unfold len. f_equal. rewrite Hl2.
    assert (∀ gs cs a, Forall2 (row P hashes a n2) gs cs → ∀ c, c ∈ cs → length c = n2) as Hall.
    { clear. intros gs cs a H2. induction H2 as [|g c gs cs [? _] H2 IH]; [by intros ? ?%elem_of_nil|].
      intros c' [->|?]%elem_of_cons; auto. }
    symmetry. assert (c ∈ fulls' ∨ c ∈ c2 :: others) as [Hc'|Hc'].
    { unfold news in Hc. destruct (full_attn_first s); apply elem_of_app in Hc; tauto. }
    + exact (Hall _ _ _ Hrows1' c Hc').
    + exact (Hall _ _ _ Hrows2 c Hc').
Qed.

(** The static part of a manager; a coordinator stays well formed as long as it
    is kept. *)
Definition same_class (M M' : Manager) : Prop :=
  m_spec M' = m_spec M ∧ m_block_size M' = m_block_size M ∧
  kv_cache_group_id M' = kv_cache_group_id M.

#[export] Instance same_class_equiv : Equivalence same_class.
Proof.
  split; unfold same_class; [by intros M|intros M N (?&?&?)|intros M N O (?&?&?) (?&?&?)];
    split_and!; congruence.
Qed.

Lemma mgr_frame_class rid M M' : mgr_frame rid M M' → same_class M M'.
Proof. by intros (?&?&?&_). Qed.

Lemma coord_ok_same C Ms P :
  coord_ok C → Forall2 same_class (single_type_managers C) Ms → coord_ok (with_state Ms P C).
Proof.
  intros (Hids&Hn&Hbs&Hk) H2.
  assert (len Ms = len (single_type_managers C)) as Hlen.
  { unfold len. by rewrite (Forall2_length _ _ _ H2). }
  assert (kv_cache_group_id <$> Ms = kv_cache_group_id <$> single_type_managers C) as Hg.
  { clear -H2. induction H2 as [|M M' Ms Ms' (_&_&Hg) H2 IH]; [done|]. csimpl. by rewrite Hg, IH. }
  unfold coord_ok. cbn. rewrite Hlen, Hg. split; [done|]. split; [done|]. split.
  - intros Hne. destruct (Hbs Hne) as [H0 Hall]. split; [done|].
    rewrite Forall_lookup in Hall |- *. intros i M' HM'.
    destruct (Forall2_lookup_r _ _ _ _ _ H2 HM') as (M&HM&Hs&Hb&_).
    destruct (Hall i M HM) as (?&?&?). rewrite Hb. unfold is_cross in *. rewrite Hs. done.
  - destruct (c_kind C); [done| |done]. destruct Hk as ((M&HMs&HM)&?&?). split; [|done].
    rewrite HMs in H2. apply Forall2_cons_inv_l in H2 as (M'&Ms'&(Hs&_&_)&->%Forall2_nil_inv_l&->).
    exists M'. split; [done|]. congruence.
Qed.
