(* ===== verification/KVManager.v ===== *)
(** * The KV-cache manager

    Models src/vllm/v1/core/kv_cache_manager.py, the interface the scheduler
    uses: looking up the prefix cache for a request, allocating slots for its
    next tokens, and freeing it.  [kv_inv K fl] is the invariant of a manager
    between two calls.  The lists in a [KVCacheBlocks] returned by [get_blocks]
    are the live tables in the source; the callers only read them. *)
From S2P Require Import Prelude FreeQueue Request BlockHash BlockMap BlockPool KVSpecs SingleType Coordinator.

(** [PrefixCacheStats] of src/vllm/v1/metrics/stats.py. *)
Record PrefixCacheStats := mkStats {
  st_reset : bool;
  st_requests : Z;
  st_queries : Z;
  st_hits : Z;
}.
Definition new_stats : PrefixCacheStats := mkStats false 0 0 0.

Record KVCacheManager := mkKVManager {
  km_max_model_len : Z;
  km_enable_caching : bool;
  km_log_stats : bool;
  prefix_cache_stats : option PrefixCacheStats;
  km_block_size : option Z;
  coordinator : KVCacheCoordinator;
}.

Abbreviation KVCacheBlocks := (list (list ptr)).

Definition pool_of (K : KVCacheManager) : BlockPool := block_pool (coordinator K).
Definition managers_of (K : KVCacheManager) : list Manager := single_type_managers (coordinator K).
Definition num_kv_cache_groups (K : KVCacheManager) : nat :=
  length (kv_cache_groups (c_config (coordinator K))).

Definition set_coordinator (C : KVCacheCoordinator) (K : KVCacheManager) : KVCacheManager :=
  mkKVManager (km_max_model_len K) (km_enable_caching K) (km_log_stats K)
    (prefix_cache_stats K) (km_block_size K) C.
Definition set_stats (st : option PrefixCacheStats) (K : KVCacheManager) : KVCacheManager :=
  mkKVManager (km_max_model_len K) (km_enable_caching K) (km_log_stats K) st
    (km_block_size K) (coordinator K).
(** The managers and the pool they share. *)
Definition set_system (Ms : list Manager) (P : BlockPool) (K : KVCacheManager) : KVCacheManager :=
  set_coordinator (with_state Ms P (coordinator K)) K.

Module Blocks.

(** [KVCacheBlocks.__add__]. *)
Definition add (a b : KVCacheBlocks) : KVCacheBlocks := zip_with app a b.

(** [KVCacheBlocks.get_block_ids]. *)
Definition get_block_ids (P : BlockPool) (allow_none : bool) (bs : KVCacheBlocks)
  : option (list (list Z)) :=
  if allow_none && forallb (λ group, len group =? 0) bs then None
  else Some ((λ group : list ptr, id_of (pool_heap P) <$> group) <$> bs).

Definition get_unhashed_block_ids (P : BlockPool) (bs : KVCacheBlocks) : result (list Z) :=
  _ ← py_assert (len bs =? 1);
  py_index bs 0 ≫= λ group : list ptr,
  Ok (id_of (pool_heap P) <$> filter (λ p, hash_at P p = None) group).

Definition new_empty (bs : KVCacheBlocks) : KVCacheBlocks := replicate (length bs) [].

End Blocks.

Module KVM.

(** [KVCacheManager.__init__]. *)
Definition init (cfg : KVCacheConfig) (max_model_len : Z) (caching use_eagle log_stats events : bool)
    (dcp : Z) : result KVCacheManager :=
  bs ← (if caching : bool then
          _ ← py_assert (len (remove_dups ((λ g, group_block_size (kv_cache_spec g))
                                             <$> kv_cache_groups cfg)) =? 1);
          g ← py_index (kv_cache_groups cfg) 0;
          let b := group_block_size (kv_cache_spec g) in
          if 1 <? dcp then
            _ ← py_assert (len (kv_cache_groups cfg) =? 1); Ok (Some (b * dcp))
          else Ok (Some b)
        else Ok None);
  C ← Coord.get_kv_cache_coordinator cfg use_eagle caching events dcp;
  Ok (mkKVManager max_model_len caching log_stats
        (if log_stats then Some new_stats else None) bs C).

Definition usage (K : KVCacheManager) : Z * Z := Pool.get_usage (pool_of K).

Definition make_prefix_cache_stats (K : KVCacheManager)
  : option PrefixCacheStats * KVCacheManager :=
  if km_log_stats K then (prefix_cache_stats K, set_stats (Some new_stats) K) else (None, K).

Definition create_empty_block_list (K : KVCacheManager) : KVCacheBlocks :=
  replicate (num_kv_cache_groups K) [].

(** [get_computed_blocks]. *)
Definition get_computed_blocks (r : Request) (K : KVCacheManager)
  : result (KVCacheBlocks * Z * KVCacheManager) :=
  let wants_logprobs :=
    match sampling_params r with Some sp => bool_decide (is_Some (prompt_logprobs sp)) | None => false end in
  if negb (km_enable_caching K) || wants_logprobs then Ok (create_empty_block_list K, 0, K)
  else
    let max_cache_hit_length := num_tokens r - 1 in
    '(computed_blocks, num_new_computed_tokens) ←
      Coord.find_longest_cache_hit (block_hashes r) max_cache_hit_length (coordinator K);
    if km_log_stats K then
      st ← of_option AssertionError (prefix_cache_stats K);
      let st := mkStats (st_reset st) (st_requests st + 1) (st_queries st + num_tokens r)
                  (st_hits st + num_new_computed_tokens) in
      Ok (computed_blocks, num_new_computed_tokens, set_stats (Some st) K)
    else Ok (computed_blocks, num_new_computed_tokens, K).

(** The slots [allocate_slots] must provide. *)
Definition num_tokens_need_slot (K : KVCacheManager) (r : Request)
    (num_new_tokens num_new_computed_tokens num_lookahead_tokens : Z) : Z :=
  Z.min (num_computed_tokens r + num_new_computed_tokens + num_new_tokens + num_lookahead_tokens)
    (km_max_model_len K).

(** [allocate_slots]. *)
Definition allocate_slots (use_int : bool) (r : Request)
    (num_new_tokens num_new_computed_tokens : Z) (new_computed_blocks : option KVCacheBlocks)
    (num_lookahead_tokens : Z) (delay_cache_blocks : bool) (num_encoder_tokens : Z)
    (K : KVCacheManager) : result (option KVCacheBlocks * KVCacheManager) :=
  if num_new_tokens =? 0 then Err ValueError
  else
    let rid := request_id r in
    let new_computed_block_list :=
      default (replicate (num_kv_cache_groups K) []) new_computed_blocks in
    '(Ms, P) ← Coord.remove_skipped_blocks rid (num_computed_tokens r) (managers_of K) (pool_of K);
    let total_computed := num_computed_tokens r + num_new_computed_tokens in
    let need := num_tokens_need_slot K r num_new_tokens num_new_computed_tokens
                  num_lookahead_tokens in
    '(num_blocks_to_allocate, Ms) ←
      Coord.get_num_blocks_to_allocate rid need new_computed_block_list num_encoder_tokens P 0 Ms;
    if Pool.get_num_free_blocks P <? num_blocks_to_allocate then
      Ok (None, set_system Ms P K)
    else
      P ← (if km_enable_caching K then Pool.touch new_computed_block_list P
           else _ ← py_assert (forallb (λ l, len l =? 0) new_computed_block_list); Ok P);
      Ms ← Coord.save_new_computed_blocks rid new_computed_block_list 0 Ms;
      '(new_blocks, Ms, P) ←
        Coord.allocate_new_blocks use_int rid need num_encoder_tokens Ms P;
      if negb (km_enable_caching K) || delay_cache_blocks then
        Ok (Some new_blocks, set_system Ms P K)
      else
        let num_tokens_to_cache := Z.min (total_computed + num_new_tokens) (num_tokens r) in
        '(Ms, P) ← Coord.cache_blocks use_int r num_tokens_to_cache Ms P;
        Ok (Some new_blocks, set_system Ms P K).

Definition free (r : Request) (K : KVCacheManager) : result KVCacheManager :=
  '(Ms, P) ← Coord.free (request_id r) (managers_of K) (pool_of K);
  Ok (set_system Ms P K).

Definition reset_prefix_cache (K : KVCacheManager) : result (bool * KVCacheManager) :=
  let '(b, P) := Pool.reset_prefix_cache (pool_of K) in
  let K := set_system (managers_of K) P K in
  if negb b then Ok (false, K)
  else if km_log_stats K then
    st ← of_option AssertionError (prefix_cache_stats K);
    Ok (true, set_stats (Some (mkStats true (st_requests st) (st_queries st) (st_hits st))) K)
  else Ok (true, K).

Definition get_num_common_prefix_blocks (r : Request) (num_running_requests : Z)
    (K : KVCacheManager) : result (list Z * KVCacheManager) :=
  _ ← py_assert (bool_decide (status r = RUNNING));
  let '(ns, C) := Coord.get_num_common_prefix_blocks (request_id r) num_running_requests
                    (coordinator K) in
  Ok (ns, set_coordinator C K).

Definition take_events (K : KVCacheManager) : list KVCacheEvent * KVCacheManager :=
  let '(es, P) := Pool.take_events (pool_of K) in (es, set_system (managers_of K) P K).

Definition get_blocks (rid : string) (K : KVCacheManager) : KVCacheBlocks :=
  Coord.get_blocks rid (coordinator K).

Definition get_block_ids (rid : string) (K : KVCacheManager) : option (list (list Z)) :=
  Blocks.get_block_ids (pool_of K) false (get_blocks rid K).

Definition cache_blocks (use_int : bool) (r : Request) (num_computed_tokens : Z)
    (K : KVCacheManager) : result KVCacheManager :=
  if km_enable_caching K then
    '(Ms, P) ← Coord.cache_blocks use_int r num_computed_tokens (managers_of K) (pool_of K);
    Ok (set_system Ms P K)
  else Ok K.

End KVM.

(** ** The invariant *)

Record kv_inv (K : KVCacheManager) (fl : list ptr) : Prop := {
  kv_sys : sys_inv (managers_of K) (pool_of K) fl no_pend;
  kv_coord : coord_ok (coordinator K);
  kv_kind : km_enable_caching K = true → c_kind (coordinator K) ≠ NoPrefixCache;
  kv_stats : km_log_stats K = true → is_Some (prefix_cache_stats K);
  kv_groups : length (managers_of K) = num_kv_cache_groups K;
  kv_caching : enable_caching (pool_of K) = km_enable_caching K;
}.

Lemma kv_inv_set K fl Ms P fl' :
  kv_inv K fl → sys_inv Ms P fl' no_pend → Forall2 same_class (managers_of K) Ms →
  same_cfg (pool_of K) P → kv_inv (set_system Ms P K) fl'.
Proof.
  intros [_ Hco Hk Hst Hg Hc] HS H2 (_&Hcc&_). split; try done.
  - by apply coord_ok_same.
  - unfold num_kv_cache_groups in *. cbn. by rewrite <-(Forall2_length _ _ _ H2).
  - cbn. by rewrite Hcc.
Qed.

(** ** Allocation, stage by stage *)

Section allocate.
Context (use_int : bool) (rid : string) (nt net : Z).
Implicit Types (M : Manager) (new nb : list ptr).

(** What a manager still lacks when it is given the hit [new]. *)
Definition gap M new : Z := required nt net M - len (blocks_of M rid) - len new.

Definition evictable (P : BlockPool) (l : list ptr) : Z :=
  len (filter (λ p, p ≠ Blk 0 ∧ rc P p = 0) l).

(** The gaps of the managers are all covered or all open: then no manager's
    surplus hides the lack of another in the sum that is compared with the
    number of free blocks. *)
Definition gaps_agree (Ms : list Manager) (news : list (list ptr)) : Prop :=
  Forall2 (λ M new, 0 ≤ gap M new) Ms news ∨ Forall2 (λ M new, gap M new ≤ 0) Ms news.

(** The skipped blocks are gone, the rest is as it was. *)
Definition skipped M M' : Prop :=
  mgr_frame rid M M' ∧ length (blocks_of M' rid) = length (blocks_of M rid) ∧
  num_cached_block M' = num_cached_block M ∧
  (∀ j p, blocks_of M' rid !! j = Some p → p = Blk 0 ∨ blocks_of M rid !! j = Some p).

(** The table is extended by the hit and by fresh blocks, to the size needed. *)
Definition extended M new nb M' : Prop :=
  mgr_frame rid M M' ∧ blocks_of M' rid = blocks_of M rid ++ new ++ nb ∧
  len nb = Z.max 0 (gap M new) ∧
  (is_cross M = false →
     num_cached_block M' !! rid = Some (default (len new) (num_cached_block M !! rid))).

Lemma frame_required M M' : mgr_frame rid M M' → required nt net M' = required nt net M.
Proof.
  intros (Hs&Hb&_). unfold required, tokens_for, is_cross, Mgr.with_spec_tokens. by rewrite Hs, Hb.
Qed.

Lemma frame_cross M M' : mgr_frame rid M M' → is_cross M' = is_cross M.
Proof. intros (Hs&_). unfold is_cross. by rewrite Hs. Qed.

Lemma demand_sum P Ms news :
  Forall2 (λ M new, is_cross M = true → new = []) Ms news →
  sumZ (zip_with (demand rid nt net P) Ms news)
    = sumZ (zip_with gap Ms news) + evictable P (concat news).
Proof.
  intros H2. induction H2 as [|M new Ms news Hc H2 IH]; [done|]. cbn [zip_with concat].
  unfold evictable in *. rewrite filter_app, len_app. simpl sumZ. rewrite IH.
  unfold demand, gap. destruct (is_cross M); [rewrite Hc by done|]; cbn; unfold len; simpl; lia.
Qed.

Lemma fresh_sum Ms news Ms' :
  Forall3 (saved rid) Ms news Ms' →
  Z.of_nat (sum_list_with (fresh_needed rid nt net) Ms')
    = sumZ (zip_with (λ M new, Z.max 0 (gap M new)) Ms news).
Proof.
  induction 1 as [|M new M' Ms news Ms' (Hfr&Hb&_) H3 IH]; [done|].
  cbn [sum_list_with zip_with]. simpl sumZ. rewrite <-IH.
  unfold fresh_needed, gap. rewrite Hb, (frame_required M M') by done. len_lia.
Qed.

Lemma agree_sum P fl Ms news :
  gaps_agree Ms news →
  sumZ (zip_with gap Ms news) + evictable P (concat news) ≤ fl →
  evictable P (concat news) ≤ fl →
  sumZ (zip_with (λ M new, Z.max 0 (gap M new)) Ms news) ≤ fl - evictable P (concat news).
Proof.
  intros [H2|H2] Hs He.
  - assert (sumZ (zip_with (λ M new, Z.max 0 (gap M new)) Ms news) = sumZ (zip_with gap Ms news)) as ->; [|lia].
    clear -H2. induction H2 as [|M new Ms news Hg H2 IH]; [done|]. simpl. rewrite IH. lia.
  - assert (sumZ (zip_with (λ M new, Z.max 0 (gap M new)) Ms news) = 0) as ->; [|lia].
    clear -H2. induction H2 as [|M new Ms news Hg H2 IH]; [done|]. simpl. rewrite IH. lia.
Qed.

(** First stage: drop the skipped blocks and size the request. *)
Lemma skip_and_size Ms P fl nct news :
  sys_inv Ms P fl no_pend →
  Forall (λ M, ∀ k, Mgr.first_useful_block rid nct M = Some k →
    k ≤ len (blocks_of M rid) ∧ (enable_caching P = true → k ≤ cached_of M rid)) Ms →
  Forall2 (save_ok rid P) Ms news →
  ∃ Ms1 Ms2 P1 fl1,
    Coord.remove_skipped_blocks rid nct Ms P = Ok (Ms1, P1) ∧
    Coord.get_num_blocks_to_allocate rid nt news net P1 0 Ms1
      = Ok (sumZ (zip_with gap Ms2 news) + evictable P1 (concat news), Ms2) ∧
    sys_inv Ms2 P1 fl1 no_pend ∧ same_cfg P P1 ∧ same_hashes P P1 ∧
    Forall2 skipped Ms Ms2 ∧ Forall2 (save_ok rid P1) Ms2 news.
Proof.
  intros HS Hskip Hsave.
  destruct (sys_remove_skipped rid nct Ms P fl no_pend HS Hskip)
    as (Ms1&P1&fl'&Hrun1&HS1&Hcfg&Hh&HR1).
  assert (∀ Ns, Forall2 skipped Ms Ns → Forall2 (save_ok rid P1) Ns news) as Hsv.
  { intros Ns HR. apply Forall2_lookup. intros i. destruct (Ns !! i) as [N|] eqn:HN.
    - destruct (Forall2_lookup_r _ _ _ _ _ HR HN) as (M&HM&Hfr&_&Hn&_).
      destruct (Forall2_lookup_l _ _ _ _ _ Hsave HM) as (new&->&Hok). constructor.
      unfold save_ok in *. rewrite (frame_cross M N Hfr), Hn. destruct (is_cross M); [done|].
      case_match; [done|]. by apply (hit_table_cfg P); [|done|apply Hh].
    - assert (news !! i = None) as ->; [|constructor].
      apply lookup_ge_None. rewrite <-(Forall2_length _ _ _ Hsave), (Forall2_length _ _ _ HR).
      by apply lookup_ge_None. }
  assert (Forall2 (save_ok rid P1) Ms1 news) as Hsave1 by by apply Hsv.
  destruct (sys_get_num rid nt net Ms1 P1 _ no_pend news HS1) as (Ms2&Hrun2&HS2&HR2).
  { eapply Forall2_impl; [exact Hsave1|]. intros M new Hok. unfold save_ok in Hok.
    repeat case_match; subst; try by constructor. apply Hok. }
  assert (Forall2 skipped Ms Ms2) as HR.
  { eapply Forall2_compose; [|exact HR1|exact HR2].
    intros M N O (?&Hl&Hn&Hj) (?&Hb&Hn'). split; [by etrans|]. by rewrite Hb, Hn', Hl. }
  exists Ms1, Ms2, P1, (fl ++ fl'). split_and!; try done; [|by apply Hsv].
  rewrite Hrun2. do 2 f_equal. rewrite demand_sum.
  - f_equal. clear -HR2. f_equal. 
    revert news. induction HR2 as [|M N Ms1 Ms2 (Hfr&Hb&_) HR2 IH]; intros [|new news]; try done.
    simpl. rewrite IH. f_equal. unfold gap. by rewrite Hb, (frame_required M N).
  - eapply Forall2_impl; [exact Hsave1|]. intros M new Hok Hc. unfold save_ok in Hok. by rewrite Hc in Hok.
Qed.

(** Second stage: given the references to the hit, hand it to the managers and
    take fresh blocks. *)
Lemma save_and_allocate Ms P fl news :
  sys_inv Ms P fl (λ p, occ p (concat news)) →
  Forall2 (save_ok rid P) Ms news →
  sumZ (zip_with (λ M new, Z.max 0 (gap M new)) Ms news) ≤ len fl →
  ∃ Ms1 nbs Ms2 P2 fl2,
    Coord.save_new_computed_blocks rid news 0 Ms = Ok Ms1 ∧
    Coord.allocate_new_blocks use_int rid nt net Ms1 P = Ok (nbs, Ms2, P2) ∧
    sys_inv Ms2 P2 fl2 no_pend ∧ same_cfg P P2 ∧
    length nbs = length Ms ∧ Forall2 (mgr_frame rid) Ms Ms2 ∧
    (∀ i M new nb M', Ms !! i = Some M → news !! i = Some new → nbs !! i = Some nb →
       Ms2 !! i = Some M' → extended M new nb M').
Proof.
  intros HS Hsave Hsum.
  destruct (sys_save rid news Ms P fl no_pend) as (Ms1&Hrun1&HS1&HR1); [done|done|done|].
  pose proof (fresh_sum _ _ _ HR1) as Hfresh.
  destruct (sys_allocate use_int rid nt net Ms1 P fl no_pend HS1) as (nbs&Ms2&P2&Hrun2&HS2&Hcfg&HR2&_).
  { unfold len in Hsum. lia. }
  { clear -HR1. induction HR1 as [|M new M' Ms news Ms1 (Hfr&_&Hn) H3 IH]; constructor; [|done].
    intros Hc. rewrite (frame_cross M M') in Hc by done. rewrite Hn by done. eauto. }
  pose proof (Forall3_length_lm _ _ _ _ HR1). pose proof (Forall3_length_lr _ _ _ _ HR1).
  pose proof (Forall3_length_lm _ _ _ _ HR2). pose proof (Forall3_length_lr _ _ _ _ HR2).
  exists Ms1, nbs, Ms2, P2, (drop (sum_list_with (fresh_needed rid nt net) Ms1) fl).
  split_and!; try done; [lia| |].
  { eapply (Forall2_compose (mgr_frame rid) (mgr_frame rid)); [intros; by etrans| |].
    - eapply Forall3_outer; [|exact HR1]. intros ??? H'; apply H'.
    - eapply Forall3_outer; [|exact HR2]. intros ??? H'; apply H'. }
  intros i M new nb M' HM Hnew Hnb HM'.
  destruct (Forall3_lookup_l _ _ _ _ _ _ HR1 HM) as (new'&M1&Hn'&HM1&Hfr1&Hb1&Hc1).
  destruct (Forall3_lookup_l _ _ _ _ _ _ HR2 HM1) as (nb'&M''&Hnb'&HM''&Hfr2&Hb2&Hl2&Hc2).
  simplify_eq. split; [by etrans|]. split; [by rewrite Hb2, Hb1, <-app_assoc|]. split.
  - unfold len at 1. rewrite Hl2. unfold fresh_needed, gap. rewrite Hb1, (frame_required M M1) by done. len_lia.
  - intros Hc. rewrite Hc2. by apply Hc1.
Qed.
End allocate.

(** ** [allocate_slots] *)

Definition tokens_to_cache (r : Request) (num_new_tokens num_new_computed_tokens : Z) : Z :=
  Z.min (num_computed_tokens r + num_new_computed_tokens + num_new_tokens) (num_tokens r).

(** When the scheduler may call [allocate_slots]: the skipped blocks lie in the
    tables and are cached, the computed blocks are a fresh hit of a request
    without tables (or absent), the gaps of the managers agree, and the blocks
    that become full are those the request has hashes for. *)
Record alloc_pre (K : KVCacheManager) (r : Request) (nn nc la net : Z)
    (news : KVCacheBlocks) (delay : bool) : Prop := {
  ap_new : nn ≠ 0;
  ap_skip : Forall (λ M, ∀ k,
    Mgr.first_useful_block (request_id r) (num_computed_tokens r) M = Some k →
    k ≤ len (blocks_of M (request_id r)) ∧
    (enable_caching (pool_of K) = true → k ≤ cached_of M (request_id r))) (managers_of K);
  ap_hits : Forall2 (save_ok (request_id r) (pool_of K)) (managers_of K) news;
  ap_distinct : NoDup (filter (.≠ Blk 0) (concat news));
  ap_off : km_enable_caching K = false → Forall (.= []) news;
  ap_agree : gaps_agree (request_id r) (KVM.num_tokens_need_slot K r nn nc la) net
    (managers_of K) news;
  ap_cache : km_enable_caching K = true → delay = false →
    enable_kv_cache_events (pool_of K) = false ∧
    Forall2 (λ M new, is_cross M = false ∧
      let nf := tokens_to_cache r nn nc / m_block_size M in
      default (len new) (num_cached_block M !! request_id r) ≤ nf ∧
      nf ≤ required (KVM.num_tokens_need_slot K r nn nc la) net M ∧
      nf ≤ len (block_hashes r)) (managers_of K) news;
}.

(** [K'] is [K] with other tables and another state of the pool. *)
Definition same_setup (K K' : KVCacheManager) : Prop :=
  ∃ Ms P, K' = set_system Ms P K ∧ same_cfg (pool_of K) P.

(** What a successful call leaves in a manager: the table without the skipped
    blocks, extended by the hit and by fresh blocks to the size required. *)
Definition slots_added (rid : string) (nt net : Z) (M : Manager) (new nb : list ptr)
    (nc : Z) (M' : Manager) : Prop :=
  ∃ M0, skipped rid M M0 ∧ mgr_frame rid M0 M' ∧
    blocks_of M' rid = blocks_of M0 rid ++ new ++ nb ∧
    len nb = Z.max 0 (gap rid nt net M new) ∧
    required nt net M ≤ len (blocks_of M' rid) ∧
    (is_cross M = false → num_cached_block M' !! rid = Some nc).

Section allocate_slots.
Context (use_int : bool) (K : KVCacheManager) (fl : list ptr) (r : Request).
Context (nn nc la net : Z) (news : KVCacheBlocks) (delay : bool).
Context (HK : kv_inv K fl) (Hpre : alloc_pre K r nn nc la net news delay).
Abbreviation rid := (request_id r).
Abbreviation nt := (KVM.num_tokens_need_slot K r nn nc la).

(** The number of cached blocks a successful call records for a manager. *)
Definition recorded (M : Manager) (new : list ptr) : Z :=
  if km_enable_caching K && negb delay then tokens_to_cache r nn nc / m_block_size M
  else default (len new) (num_cached_block M !! rid).

(** The references to the hit: [touch], or nothing when caching is off. *)
Lemma take_references Ms P fl1 :
  sys_inv Ms P fl1 no_pend → enable_caching P = km_enable_caching K →
  Forall2 (save_ok rid P) Ms news → 
  ∃ P1, (if km_enable_caching K then Pool.touch news P
         else _ ← py_assert (forallb (λ l, len l =? 0) news); Ok P) = Ok P1 ∧
    sys_inv Ms P1 (filter (.∉ concat news) fl1) (λ p, occ p (concat news)) ∧
    same_cfg P P1 ∧ same_hashes P P1 ∧
    len (filter (.∉ concat news) fl1) = len fl1 - evictable P (concat news).
Proof.
  intros HS Hc Hsave. assert (Forall (hit_table P) news) as Hht.
  { clear -Hsave. induction Hsave as [|M new Ms news Hok H2 IH]; constructor; [|done].
    unfold save_ok in Hok. repeat case_match; subst; try apply hit_table_nil. done. }
  assert (Forall (valid P) (concat news)) as Hv.
  { clear -Hht. induction Hht as [|c cs Hc H IH]; [done|]. simpl. apply Forall_app. split; [apply Hc|done]. }
  pose proof (touch_free P fl1 (concat news) (si_pool _ _ _ _ HS) Hv (ap_distinct _ _ _ _ _ _ _ _ Hpre)) as Hlen.
  destruct (km_enable_caching K) eqn:Hcc.
  - destruct (sys_touch news Ms P fl1 no_pend HS Hht) as (P1&Hrun&HS1&Hcfg&Hh).
    exists P1. split_and!; try done.
  - pose proof (ap_off _ _ _ _ _ _ _ _ Hpre Hcc) as Hnil.
    assert (concat news = []) as Hcat.
    { clear -Hnil. induction Hnil as [|c cs -> H IH]; done. }
    exists P. rewrite py_assert_true, Ok_bind.
    + split_and!; try done. rewrite Hcat. rewrite filter_id by (intros x _ ?%elem_of_nil; done). done.
    + clear -Hnil. induction Hnil as [|c cs -> H IH]; done.
Qed.

Lemma skipped_gap M M2 new : skipped rid M M2 → gap rid nt net M2 new = gap rid nt net M new.
Proof.
  intros (Hfr&Hl&_). unfold gap. rewrite (frame_required rid nt net M M2 Hfr).
  assert (len (blocks_of M2 rid) = len (blocks_of M rid)) as -> by (unfold len; by rewrite Hl).
  done.
Qed.

Lemma extended_slots M M2 new nb M' :
  skipped rid M M2 → extended rid nt net M2 new nb M' →
  slots_added rid nt net M new nb (default (len new) (num_cached_block M !! rid)) M'.
Proof.
  intros Hsk (Hfr&Hb&Hl&Hn). exists M2. split_and!; try done.
  - rewrite Hl. by rewrite (skipped_gap M M2).
  - rewrite Hb. rewrite !len_app, Hl. unfold gap.
    rewrite (frame_required rid nt net M M2) by apply Hsk. len_lia.
  - intros Hc. destruct Hsk as (Hf2&_&Hnc&_). rewrite Hn, Hnc; [done|].
    by rewrite (frame_cross rid M M2).
Qed.

(** The call either has no room, and then only drops the skipped blocks, or
    gives every manager the slots it needs; it never raises, and keeps the
    invariant. *)
Lemma allocate_slots_spec (nco : option KVCacheBlocks) :
  default (replicate (num_kv_cache_groups K) []) nco = news →
  ∃ out K' fl',
    KVM.allocate_slots use_int r nn nc nco la delay net K = Ok (out, K') ∧ kv_inv K' fl' ∧
    same_setup K K' ∧
    match out with
    | None => len fl' < sumZ (zip_with (gap rid nt net) (managers_of K') news)
                        + evictable (pool_of K') (concat news) ∧
              Forall2 (skipped rid) (managers_of K) (managers_of K')
    | Some nbs => length nbs = length (managers_of K) ∧
        ∀ i M new nb M', managers_of K !! i = Some M → news !! i = Some new →
          nbs !! i = Some nb → managers_of K' !! i = Some M' →
          slots_added rid nt net M new nb (recorded M new) M'
    end.
Proof.
  intros Hnco. pose proof (kv_sys _ _ HK) as HS.
  unfold KVM.allocate_slots. rewrite (proj2 (Z.eqb_neq nn 0)) by apply Hpre.
  cbn zeta. rewrite Hnco.
  destruct (skip_and_size rid nt net (managers_of K) (pool_of K) fl (num_computed_tokens r) news HS)
    as (Ms1&Ms2&P1&fl1&->&Hnum&HS2&Hcfg1&Hh1&Hsk&Hsave); [apply Hpre..|].
  rewrite Ok_bind. rewrite Hnum, Ok_bind.
  pose proof (Forall2_length _ _ _ Hsk) as Hlen2.
  rewrite (num_free _ _ _ (si_pool _ _ _ _ HS2)).
  destruct (Z.ltb_spec (len fl1) (sumZ (zip_with (gap rid nt net) Ms2 news) + evictable P1 (concat news)))
    as [Hlt|Hge].
  { exists None, (set_system Ms2 P1 K), fl1. split; [done|]. split; [|split; [by eexists _, _|done]].
    eapply kv_inv_set; [done..| |done]. eapply Forall2_impl; [exact Hsk|].
    intros M M' [Hfr _]. by eapply mgr_frame_class. }
  assert (enable_caching P1 = km_enable_caching K) as Hc1.
  { rewrite <-(kv_caching _ _ HK). apply Hcfg1. }
  destruct (take_references Ms2 P1 fl1 HS2 Hc1 Hsave) as (P2&->&HS3&Hcfg2&Hh2&Hfl2).
  rewrite Ok_bind.
  assert (gaps_agree rid nt net Ms2 news) as Hagree.
  { assert (∀ Q : Z → Prop, Forall2 (λ M new, Q (gap rid nt net M new)) (managers_of K) news →
      Forall2 (λ M new, Q (gap rid nt net M new)) Ms2 news) as Hq.
    { intros Q. clear -Hsk. revert Hsk. generalize (managers_of K) news. intros Ms ns Hsk. revert ns.
      induction Hsk as [|M M2 Ms Ms2' Hs H2 IH]; intros ns H3; inversion H3; subst; constructor;
        [by rewrite (skipped_gap M M2)|by apply IH]. }
    destruct (ap_agree _ _ _ _ _ _ _ _ Hpre) as [H|H]; [left; by apply (Hq (λ z, 0 ≤ z))|
      right; by apply (Hq (λ z, z ≤ 0))]. }
  pose proof (agree_sum rid nt net P1 (len fl1) Ms2 news Hagree Hge) as Hsum.
  destruct (save_and_allocate use_int rid nt net Ms2 P2 _ news HS3)
    as (Ms3&nbs&Ms4&P3&fl3&->&Hal&HS4&Hcfg3&Hln&Hfr4&Hext).
  { eapply Forall2_impl; [exact Hsave|]. intros M new Hok. unfold save_ok in *.
    repeat case_match; try done. by apply (hit_table_cfg P1); [|done|apply Hh2]. }
  { rewrite Hfl2. apply Hsum. pose proof (len_nonneg (filter (.∉ concat news) fl1)). lia. }
  rewrite Ok_bind, Hal, Ok_bind.
  assert (same_cfg (pool_of K) P3) as Hcfg by (etrans; [exact Hcfg1|]; by etrans).
  assert (∀ i M new nb M', managers_of K !! i = Some M → news !! i = Some new →
    nbs !! i = Some nb → Ms4 !! i = Some M' →
    slots_added rid nt net M new nb (default (len new) (num_cached_block M !! rid)) M') as Hadd.
  { intros i M new nb M' HM Hnew Hnb HM'. destruct (Forall2_lookup_l _ _ _ _ _ Hsk HM) as (M2&HM2&Hs).
    eapply extended_slots; [done|]. by eapply Hext. }
  pose proof (Forall2_length _ _ _ Hfr4) as Hl4.
  assert (Forall2 same_class (managers_of K) Ms4) as Hcl4.
  { eapply (Forall2_compose (skipped rid) (mgr_frame rid)); [|exact Hsk|exact Hfr4].
    intros M M2 M4 [Hf1 _] Hf2. etrans; by eapply mgr_frame_class. }
  destruct (negb (km_enable_caching K) || delay) eqn:Hdelay.
  { exists (Some nbs), (set_system Ms4 P3 K), fl3. split; [done|]. split; [|split; [by eexists _, _|split; [congruence|]]].
    { by eapply kv_inv_set. }
    unfold recorded.
    assert (km_enable_caching K && negb delay = false) as -> by (by destruct (km_enable_caching K), delay).
    done. }
  assert (km_enable_caching K && negb delay = true) as Hrec by (by destruct (km_enable_caching K), delay).
  apply orb_false_iff in Hdelay as [Hcc%negb_false_iff Hd].
  destruct (ap_cache _ _ _ _ _ _ _ _ Hpre Hcc Hd) as [Hev Hcache].
  destruct (sys_cache_blocks use_int r (tokens_to_cache r nn nc) Ms4 P3 fl3 no_pend HS4)
    as (Ms5&P4&Hrun5&HS5&Hcfg4&_&HR5).
  { destruct Hcfg as (_&->&_). rewrite (kv_caching _ _ HK). done. }
  { destruct Hcfg as (_&_&_&_&->). done. }
  { rewrite Forall_lookup. intros i M' HM'.
    destruct (lookup_lt_is_Some_2 (managers_of K) i) as [M HM].
    { apply lookup_lt_Some in HM'. lia. }
    destruct (lookup_lt_is_Some_2 nbs i) as [nb Hnb]; [apply lookup_lt_Some in HM'; lia|].
    destruct (Forall2_lookup_l _ _ _ _ _ Hcache HM) as (new&Hnew&Hcr&Hle1&Hle2&Hle3).
    destruct (Forall2_lookup_l _ _ _ _ _ Hsk HM) as (M2&HM2&Hs).
    pose proof (Hext i M2 new nb M' HM2 Hnew Hnb HM') as (Hfr&Hb&Hl&Hn).
    destruct (Hadd i M new nb M' HM Hnew Hnb HM') as (_&_&_&_&_&Hreq&_).
    assert (is_cross M2 = false) as Hcr2 by (rewrite (frame_cross rid M M2); [done|apply Hs]).
    assert (m_block_size M' = m_block_size M) as ->.
    { destruct Hfr as (_&->&_), Hs as ((_&->&_)&_). done. }
    split; [by rewrite (frame_cross rid M2 M')|].
    destruct Hs as (_&_&Hnc2&_). exists (default (len new) (num_cached_block M !! rid)).
    split; [by rewrite Hn, Hnc2|]. split_and!; [done|lia|done]. }
  unfold tokens_to_cache in Hrun5. rewrite Hrun5, Ok_bind.
  exists (Some nbs), (set_system Ms5 P4 K), fl3. split; [done|]. split.
  - eapply kv_inv_set; [done..| |by etrans].
    eapply (Forall2_compose same_class _); [|exact Hcl4|exact HR5].
    intros M M4 M5 Hs [Hf _]. etrans; [done|by eapply mgr_frame_class].
  - split; [eexists _, _; split; [done|by etrans]|].
    split; [congruence|]. intros i M new nb M' HM Hnew Hnb HM'.
    destruct (Forall2_lookup_r _ _ _ _ _ HR5 HM') as (M4&HM4&Hfr5&Hb5&Hn5).
    destruct (Hadd i M new nb M4 HM Hnew Hnb HM4) as (M0&Hs0&Hf0&?&?&?&_).
    exists M0. rewrite Hb5. split_and!; try done; [by etrans|]. intros _. rewrite Hn5.
    unfold recorded, tokens_to_cache. rewrite Hrec. do 2 f_equal.
    destruct Hs0 as ((_&<-&_)&_), Hf0 as (_&<-&_). done.
Qed.
End allocate_slots.

(** ** Construction *)

(** The specification of a group that has a manager. *)
Definition layer_of (g : KVCacheGroupSpec) (s : KVCacheSpec) : Prop := kv_cache_spec g = LayerSpec s.

Lemma init_managers_spec groups i P dcp Ms :
  Coord.init_managers groups i P dcp = Ok Ms → null_block P = Blk 0 → 1 ≤ dcp →
  0 ≤ i → i + len groups ≤ 2 ^ 32 →
  Forall (λ g, 0 < group_block_size (kv_cache_spec g)) groups →
  Forall (mgr_inv P) Ms ∧ (∀ p, total_uses Ms p = 0) ∧
  kv_cache_group_id <$> Ms = seqZ i (len groups) ∧
  Forall2 (λ g M, layer_of g (m_spec M)) groups Ms ∧
  Forall (λ M, m_block_size M = scaled_block_size (m_spec M) dcp) Ms.
Proof.
  intros Hrun Hnull Hdcp Hi Hlen Hbs. revert i Ms Hrun Hi Hlen Hbs.
  induction groups as [|g groups IH]; intros i Ms Hrun Hi Hlen Hbs.
  { simpl in Hrun. res_inv. by split_and!. }
  apply Forall_cons in Hbs as [Hb Hbs]. simpl in Hrun. res_inv. rename x into M, x0 into Ms.
  destruct (IH (i + 1) Ms) as (H1&H2&H3&H4&H5); [done|lia|len_lia|done|].
  assert (∃ s, kv_cache_spec g = LayerSpec s ∧ M = Mgr.init s P i dcp) as (s&Hs&->).
  { unfold Mgr.get_manager_for_kv_cache_spec in H. repeat case_match; simplify_eq; eauto. }
  assert (fresh_mgr (Mgr.init s P i dcp)) as Hfr by done.
  split_and!.
  - constructor; [|done]. apply fresh_mgr_inv; try done.
    + cbn. rewrite Hs in Hb. simpl in Hb. destruct (Z.ltb_spec 1 dcp); nia.
    + cbn. len_lia.
  - intros p. rewrite total_uses_cons, H2, fresh_uses by done. lia.
  - csimpl. rewrite H3. rewrite len_cons. rewrite (seqZ_cons i) by len_lia.
    cbn. f_equal. f_equal; lia.
  - by constructor.
  - by constructor.
Qed.

(** The invariant of [split_loop] after the groups before [i]. *)
Record split_inv (i : Z) (full other : option GroupSpec) (fulls others : list Z)
    (specs : list GroupSpec) : Prop := {
  sp_perm : fulls ++ others ≡ₚ seqZ 0 i;
  sp_full : ∀ s, full = Some s → Coord.is_full_group s = true ∧ s ∈ specs;
  sp_other : ∀ s, other = Some s → Coord.is_full_group s = false ∧ s ∈ specs;
  sp_sorted : StronglySorted Z.lt fulls ∧ StronglySorted Z.lt others;
}.

Lemma sorted_snoc l (i : Z) : StronglySorted Z.lt l → (∀ x, x ∈ l → x < i) → StronglySorted Z.lt (l ++ [i]).
Proof.
  induction 1 as [|x l Hs IH Hx]; intros Hi; simpl; [by repeat constructor|]. constructor.
  - apply IH. intros y Hy. apply Hi. by right.
  - apply Forall_app. split; [done|]. repeat constructor. apply Hi. by left.
Qed.

Lemma split_loop_spec groups i full other fulls others res specs :
  Coord.split_loop groups i full other fulls others = Ok res → 0 ≤ i →
  split_inv i full other fulls others specs →
  (∀ g, g ∈ groups → kv_cache_spec g ∈ specs) →
  let '(full', other', fulls', others') := res in
  split_inv (i + len groups) full' other' fulls' others' specs.
Proof.
  induction groups as [|g groups IH] in i, full, other, fulls, others |- *; intros Hrun Hi HI Hsp.
  { simpl in Hrun. simplify_eq. by rewrite Z.add_0_r. }
  simpl in Hrun. destruct HI as [Hperm Hf Ho [Hs1 Hs2]].
  assert (∀ x, x ∈ fulls ++ others → x < i) as Hlt.
  { intros x. rewrite Hperm, elem_of_seqZ. lia. }
  assert (∀ l, l ≡ₚ i :: fulls ++ others → l ≡ₚ seqZ 0 (i + 1)) as Hp.
  { intros l ->. rewrite Hperm. rewrite seqZ_app by lia. simpl.
    rewrite Permutation_app_comm. done. }
  assert (kv_cache_spec g ∈ specs) as Hg by (apply Hsp; by left).
  replace (i + len (g :: groups)) with (i + 1 + len groups) by len_lia.
  assert (∀ g, g ∈ groups → kv_cache_spec g ∈ specs) as Hsp' by (intros; apply Hsp; by right).
  assert (∀ s, split_inv (i + 1) (Some s) other (fulls ++ [i]) others specs ↔
    Coord.is_full_group s = true ∧ s ∈ specs) as Hfull.
  { intros s. split; [intros [_ H _ _]; by apply H|]. intros [H1 H2]. split; [| |done|].
    - apply Hp. rewrite <-app_assoc. symmetry. apply Permutation_middle.
    - intros s' [= <-]. done.
    - split; [|done]. apply sorted_snoc; [done|]. intros x Hx. apply Hlt. set_solver. }
  assert (∀ s, split_inv (i + 1) full (Some s) fulls (others ++ [i]) specs ↔
    Coord.is_full_group s = false ∧ s ∈ specs) as Hother.
  { intros s. split; [intros [_ _ H _]; by apply H|]. intros [H1 H2]. split; [|done| |].
    - apply Hp. rewrite app_assoc. symmetry. apply Permutation_cons_append.
    - intros s' [= <-]. done.
    - split; [done|]. apply sorted_snoc; [done|]. intros x Hx. apply Hlt. set_solver. }
  destruct (Coord.is_full_group (kv_cache_spec g)) eqn:Hfg.
  - destruct full as [s|]; [res_inv|]; eapply IH; try done; try lia; apply Hfull; auto.
  - destruct other as [s|]; [res_inv|]; eapply IH; try done; try lia; apply Hother; auto.
Qed.

Lemma sorted_app_lt l k :
  StronglySorted Z.lt l → StronglySorted Z.lt k → (∀ x y, x ∈ l → y ∈ k → x < y) →
  StronglySorted Z.lt (l ++ k).
Proof.
  induction 1 as [|x l Hs IH Hx]; intros Hk Hlt; simpl; [done|]. constructor.
  - apply IH; [done|]. intros y z Hy Hz. apply Hlt; [by right|done].
  - apply Forall_app. split; [done|]. rewrite Forall_forall. intros y Hy. apply Hlt; [by left|done].
Qed.

Lemma seqZ_sorted n i : StronglySorted Z.lt (seqZ i (Z.of_nat n)).
Proof.
  induction n as [|n IH] in i |- *; [constructor|]. rewrite seqZ_cons by lia. constructor.
  - replace (Z.pred (Z.of_nat (S n))) with (Z.of_nat n) by lia. apply IH.
  - rewrite Forall_forall. intros x Hx%elem_of_seqZ. lia.
Qed.

(** Two strictly sorted lists with the same elements are equal. *)
Lemma sorted_lt_unique (l k : list Z) :
  StronglySorted Z.lt l → StronglySorted Z.lt k → l ≡ₚ k → l = k.
Proof.
  intros H. induction H as [|x l Hs IH Hx] in k |- *; intros Hk Hp.
  { symmetry in Hp. by apply Permutation_nil_r in Hp. }
  destruct Hk as [|y k Hk Hy]; [by apply Permutation_nil_r in Hp|].
  rewrite Forall_forall in Hx, Hy.
  assert (x = y) as ->.
  { assert (x ∈ y :: k) as Hin by (rewrite <-Hp; by left).
    assert (y ∈ x :: l) as Hin' by (rewrite Hp; by left).
    apply elem_of_cons in Hin as [?|Hin]; [done|]. apply elem_of_cons in Hin' as [?|Hin']; [done|].
    specialize (Hx _ Hin'). specialize (Hy _ Hin). lia. }
  f_equal. apply IH; [done|]. by apply Permutation_cons_inv in Hp.
Qed.

Lemma all_before_sorted l k n :
  all_before l k = Ok true → StronglySorted Z.lt l → StronglySorted Z.lt k →
  l ++ k ≡ₚ seqZ 0 (Z.of_nat n) → seqZ 0 (Z.of_nat n) = l ++ k ∧ l ≠ [] ∧ k ≠ [].
Proof.
  intros Hb Hl Hk Hp. unfold all_before in Hb. res_inv.
  match goal with H : py_max _ = _ |- _ => apply py_max_spec in H as [Hm1 Hm2] end.
  match goal with H : py_min _ = _ |- _ => apply py_min_spec in H as [Hn1 Hn2] end.
  split; [|split; by intros ->; apply elem_of_nil in Hm1 || apply elem_of_nil in Hn1].
  symmetry. apply sorted_lt_unique; [|apply seqZ_sorted|done].
  apply sorted_app_lt; [done..|]. intros a b Ha%Hm2 Hbb%Hn2.
  match goal with H : (_ <? _) = true |- _ => apply Z.ltb_lt in H end. lia.
Qed.

(** The groups a hybrid coordinator is made for. *)
Lemma verify_and_split_spec cfg caching s :
  Coord.verify_and_split_kv_cache_groups cfg caching = Ok s →
  seqZ 0 (len (kv_cache_groups cfg)) =
    (if full_attn_first s then full_attention_group_ids s ++ other_group_ids s
     else other_group_ids s ++ full_attention_group_ids s) ∧
  full_attention_group_ids s ≠ [] ∧ other_group_ids s ≠ [] ∧
  is_full (full_attention_spec s) = true ∧
  (∃ g g', g ∈ kv_cache_groups cfg ∧ g' ∈ kv_cache_groups cfg ∧
     layer_of g (full_attention_spec s) ∧ layer_of g' (other_spec s)).
Proof.
  intros Hrun. unfold Coord.verify_and_split_kv_cache_groups in Hrun.
  apply bind_Ok in Hrun as ([[[full other] fulls] others]&Hloop&Hrun).
  apply (split_loop_spec _ _ _ _ _ _ _ (kv_cache_spec <$> kv_cache_groups cfg)) in Hloop; [|lia| |].
  2: { split; [by apply Permutation_nil_r|done|done|by repeat constructor]. }
  2: { intros g Hg. apply list_elem_of_fmap. eauto. }
  destruct Hloop as [Hperm Hf Ho [Hs1 Hs2]]. rewrite Z.add_0_l in Hperm.
  destruct full as [[fs|]|]; [|done..]. destruct other as [[os|]|]; [|done..].
  apply bind_Ok in Hrun as (_&_&Hrun).
  destruct (Hf _ eq_refl) as [Hf1 (g&Hg&Hgin)%list_elem_of_fmap].
  destruct (Ho _ eq_refl) as [_ (g'&Hg'&Hgin')%list_elem_of_fmap].
  apply bind_Ok in Hrun as (before&Hbefore&Hrun).
  destruct before; simplify_eq/=.
  - destruct (all_before_sorted fulls others (length (kv_cache_groups cfg))) as (?&?&?); try done.
    split_and!; try done. exists g, g'. done.
  - apply bind_Ok in Hrun as (after&Hafter&Hrun). destruct after; simplify_eq/=.
    destruct (all_before_sorted others fulls (length (kv_cache_groups cfg))) as (?&?&?); try done.
    { by rewrite Permutation_app_comm. }
    split_and!; try done. exists g, g'. done.
Qed.

(** The configurations with which the engine is built: known sizes, and with
    caching on only groups whose class can search the cache. *)
Record cfg_ok (cfg : KVCacheConfig) (caching use_eagle : bool) (dcp : Z) : Prop := {
  co_dcp : 1 ≤ dcp;
  co_len : len (kv_cache_groups cfg) < 2 ^ 32;
  co_bs : Forall (λ g, 0 < group_block_size (kv_cache_spec g)) (kv_cache_groups cfg);
  co_search : caching = true →
    Forall (λ g, ∀ s, layer_of g s → searchable s use_eagle dcp) (kv_cache_groups cfg);
}.

Lemma coord_init_spec kind cfg use_eagle caching events dcp C cc :
  Coord.init kind cfg use_eagle caching events dcp = Ok C → cfg_ok cfg cc use_eagle dcp →
  let fl := Blk <$> seqZ 1 (num_blocks cfg - 1) in
  sys_inv (single_type_managers C) (block_pool C) fl no_pend ∧
  C = mkCoord kind cfg use_eagle caching dcp (block_pool C) (single_type_managers C) ∧
  kv_cache_group_id <$> single_type_managers C = seqZ 0 (len (kv_cache_groups cfg)) ∧
  Forall2 (λ g M, layer_of g (m_spec M)) (kv_cache_groups cfg) (single_type_managers C) ∧
  Forall (λ M, m_block_size M = scaled_block_size (m_spec M) dcp) (single_type_managers C) ∧
  enable_caching (block_pool C) = caching ∧ enable_kv_cache_events (block_pool C) = events.
Proof.
  intros Hrun [Hdcp Hlen Hbs _] fl. unfold Coord.init in Hrun.
  apply bind_Ok in Hrun as (P&HP&Hrun). apply bind_Ok in Hrun as (Ms&HMs&Hrun). simplify_eq/=.
  assert (0 < num_blocks cfg) as Hn.
  { unfold Pool.init in HP. apply bind_Ok in HP as (u&Hu&_). apply py_assert_Ok in Hu.
    by apply Z.ltb_lt. }
  destruct (init_pool (num_blocks cfg) caching events Hn) as (P'&HP'&Hinv&_&Hc&He&Hattr&_).
  assert (P' = P) as -> by congruence.
  destruct (init_managers_spec _ _ _ _ _ HMs (pi_null _ _ _ Hinv) Hdcp) as (H1&H2&H3&H4&H5); [lia|lia|done|].
  split_and!; try done. split; try done.
  - intros p Hv _. rewrite H2. by destruct (Hattr p Hv) as [-> _].
  - intros _ p Hv. by destruct (Hattr p Hv) as [_ ->].
Qed.

Lemma remove_dups_one (l : list Z) : len (remove_dups l) = 1 → ∀ x y, x ∈ l → y ∈ l → x = y.
Proof.
  intros Hl x y Hx Hy. rewrite <-elem_of_remove_dups in Hx, Hy.
  destruct (remove_dups l) as [|a [|b k]]; [done| |unfold len in Hl; simpl in Hl; lia].
  apply list_elem_of_singleton in Hx, Hy. congruence.
Qed.

(** Every manager of a caching configuration has the block size of the search. *)
Lemma managers_search cfg use_eagle dcp Ms b :
  cfg_ok cfg true use_eagle dcp → Forall2 (λ g M, layer_of g (m_spec M)) (kv_cache_groups cfg) Ms →
  Forall (λ M, m_block_size M = scaled_block_size (m_spec M) dcp) Ms →
  (∀ g s, g ∈ kv_cache_groups cfg → layer_of g s → scaled_block_size s dcp = b) →
  Forall (λ M, m_block_size M = b ∧ is_cross M = false ∧
               searchable (m_spec M) use_eagle dcp) Ms.
Proof.
  intros Hok HF Hbs Hb. pose proof (co_search _ _ _ _ Hok eq_refl) as Hs.
  pose proof (proj1 (Forall_lookup _ _) Hs) as Hs'. pose proof (proj1 (Forall_lookup _ _) Hbs) as Hbs'.
  apply Forall_lookup. intros i M HM.
  destruct (Forall2_lookup_r _ _ _ _ _ HF HM) as (g&Hg&Hl). rewrite (Hbs' i M HM).
  pose proof (Hs' i g Hg _ Hl) as Hsearch. split_and!; [|unfold is_cross|done].
  - apply (Hb g); [by eapply list_elem_of_lookup_2|done].
  - destruct Hsearch as (_&_&?). by destruct (m_spec M).
Qed.

(** A manager built from such a configuration satisfies the invariant, with
    every block but the null block free. *)
Lemma init_ok cfg mml caching use_eagle stats events dcp K :
  KVM.init cfg mml caching use_eagle stats events dcp = Ok K →
  cfg_ok cfg caching use_eagle dcp →
  kv_inv K (Blk <$> seqZ 1 (num_blocks cfg - 1)) ∧
  enable_kv_cache_events (pool_of K) = events ∧ km_enable_caching K = caching ∧
  km_max_model_len K = mml.
Proof.
  intros Hrun Hok. unfold KVM.init in Hrun.
  apply bind_Ok in Hrun as (bs&Hbs&Hrun). apply bind_Ok in Hrun as (C&HC&Hrun).
  injection Hrun as <-. unfold Coord.get_kv_cache_coordinator in HC. destruct caching; simpl in HC, Hbs.
  - apply bind_Ok in Hbs as (u&Hdup%py_assert_Ok%Z.eqb_eq&_).
    pose proof (co_search _ _ _ _ Hok eq_refl) as Hsearch. rewrite Forall_forall in Hsearch.
    destruct (len (kv_cache_groups cfg) =? 1) eqn:H1.
    + apply bind_Ok in HC as (C0&HC0&HC).
      apply (coord_init_spec _ _ _ _ _ _ _ true) in HC0 as (HS&Hco&Hids&HF&Hmb&Hc&He); [|done].
      apply bind_Ok in HC as (g&Hg&HC). destruct (kv_cache_spec g) as [s|] eqn:Hs; [|done].
      apply bind_Ok in HC as (u'&_&HC). injection HC as <-.
      apply Z.eqb_eq in H1. apply (py_index_Ok_nonneg _ 0) in Hg; [|done].
      assert (kv_cache_groups cfg = [g]) as Hgs.
      { destruct (kv_cache_groups cfg) as [|g0 [|g1 gs]]; [done|by simplify_eq/=|].
        unfold len in H1; simpl in H1; lia. }
      assert (∀ s', layer_of g s' → s' = s) as Hlay by (unfold layer_of; intros; congruence).
      pose proof HF as HF'. rewrite Hgs in HF'.
      apply Forall2_cons_inv_l in HF' as (M&Ms&HM&->%Forall2_nil_inv_l&HMs).
      assert (searchable s use_eagle dcp) as Hse by (apply (Hsearch g); [rewrite Hgs; by left|done]).
      split_and!; try done. split; try done.
      * unfold coord_ok, search_block_size. cbn. fold (scaled_block_size s dcp).
        rewrite Hids, HMs. unfold len at 2 3. rewrite Hgs. split; [done|]. split; [done|]. split.
        -- intros _. split; [destruct Hse as (?&?&_); unfold scaled_block_size; case_match; nia|].
           rewrite <-HMs. eapply managers_search; [done..|]. rewrite Hgs.
           intros g' s' ->%list_elem_of_singleton ->%Hlay. done.
        -- split; [exists M; split; [done|by apply Hlay]|done].
      * cbn. intros ->. eauto.
      * unfold num_kv_cache_groups, managers_of. cbn. by rewrite HMs, Hgs.
    + apply bind_Ok in HC as (C0&HC0&HC).
      apply (coord_init_spec _ _ _ _ _ _ _ true) in HC0 as (HS&Hco&Hids&HF&Hmb&Hc&He); [|done].
      apply bind_Ok in HC as (u'&Hd%py_assert_Ok%Z.eqb_eq&HC).
      apply bind_Ok in HC as (s&Hsp&HC). injection HC as <-. subst dcp.
      destruct (verify_and_split_spec _ _ _ Hsp) as (Hg1&Hg2&Hg3&Hg4&g&g'&Hg&Hg'&Hl&Hl').
      pose proof (Forall2_length _ _ _ HF) as Hlen.
      assert (len (single_type_managers C0) = len (kv_cache_groups cfg)) as Hlen' by (unfold len; by rewrite Hlen).
      assert (∀ g1 s1, g1 ∈ kv_cache_groups cfg → layer_of g1 s1 →
        block_size s1 = block_size (full_attention_spec s)) as Hbs1.
      { intros g1 s1 Hg1' Hl1.
        assert (group_block_size (kv_cache_spec g1) = group_block_size (kv_cache_spec g)) as Heq.
        { apply (remove_dups_one _ Hdup); apply list_elem_of_fmap; eauto. }
        unfold layer_of in Hl, Hl1. by rewrite Hl, Hl1 in Heq. }
      split_and!; try done. split; try done.
      * unfold coord_ok, search_block_size. cbn. rewrite Hlen'. split; [done|]. split; [apply Hok|]. split.
        -- intros _. split; [by apply (Hsearch g)|]. by eapply managers_search.
        -- split_and!; try done; [by apply (Hbs1 g')|by apply (Hsearch g)|by apply (Hsearch g')].
      * cbn. intros ->. eauto.
  - apply (coord_init_spec _ _ _ _ _ _ _ false) in HC as (HS&Hco&Hids&HF&_&Hc&He); [|done].
    pose proof (Forall2_length _ _ _ HF) as Hlen.
    assert (len (single_type_managers C) = len (kv_cache_groups cfg)) as Hlen' by (unfold len; by rewrite Hlen).
    assert (c_config C = cfg ∧ c_kind C = NoPrefixCache) as [Hcfg Hk] by (rewrite Hco; done).
    split_and!; try done. split; try done.
    + unfold coord_ok. cbn. rewrite Hlen', Hk. split; [done|]. split; [apply Hok|]. done.
    + cbn. intros ->. eauto.
    + unfold num_kv_cache_groups, managers_of. cbn. by rewrite Hcfg.
Qed.

(** The managers of a fresh KV-cache manager: one per group, all unused. *)
Lemma init_managers_fresh groups i P dcp Ms :
  Coord.init_managers groups i P dcp = Ok Ms →
  Forall fresh_mgr Ms ∧ Forall2 (λ g M, layer_of g (m_spec M)) groups Ms.
Proof.
  induction groups as [|g groups IH] in i, Ms |- *; simpl; intros H; [by simplify_eq|].
  apply bind_Ok in H as (M&HM&H). apply bind_Ok in H as (Ms'&HMs&H). simplify_eq.
  destruct (IH _ _ HMs) as [IH1 IH2].
  assert (∃ s, kv_cache_spec g = LayerSpec s ∧ M = Mgr.init s P i dcp) as (s&Hs&->).
  { unfold Mgr.get_manager_for_kv_cache_spec in HM. repeat case_match; simplify_eq; eauto. }
  by split; constructor.
Qed.

Lemma init_fresh cfg mml caching use_eagle stats events dcp K :
  KVM.init cfg mml caching use_eagle stats events dcp = Ok K →
  Forall fresh_mgr (managers_of K) ∧
  Forall2 (λ g M, layer_of g (m_spec M)) (kv_cache_groups cfg) (managers_of K).
Proof.
  intros Hrun. unfold KVM.init in Hrun.
  apply bind_Ok in Hrun as (bs&_&Hrun). apply bind_Ok in Hrun as (C&HC&Hrun). simplify_eq.
  unfold managers_of. cbn [coordinator].
  assert (∃ kind caching C0, Coord.init kind cfg use_eagle caching events dcp = Ok C0 ∧
    single_type_managers C = single_type_managers C0) as (kind&caching'&C0&HC0&->).
  { unfold Coord.get_kv_cache_coordinator in HC. repeat case_match; [by eauto|..];
      apply bind_Ok in HC as (C0&HC0&HC); res_inv; repeat case_match; res_inv; eauto. }
  unfold Coord.init in HC0. apply bind_Ok in HC0 as (P&_&HC0).
  apply bind_Ok in HC0 as (Ms&HMs&HC0). simplify_eq. by eapply init_managers_fresh.
Qed.

(** ** Lookups through the manager *)

(** The request's hashes are distinct and cover the lookup. *)
Record hashes_ok (K : KVCacheManager) (r : Request) : Prop := {
  ho_distinct : NoDup (block_hashes r);
  ho_full : len (block_hashes r) = num_tokens r / search_block_size (coordinator K);
  ho_tokens : 0 < num_tokens r;
}.

Lemma empty_hit_ok C hashes m :
  0 ≤ m → hit_ok C hashes m (replicate (length (single_type_managers C)) []) 0.
Proof.
  intros Hm. split_and!.
  - apply Forall2_replicate_r; [done|]. rewrite Forall_forall. intros M _. exists 0%nat, 0%nat.
    split; [done|]. intros i p Hi. by rewrite lookup_nil in Hi.
  - induction (length _); [constructor|done].
  - apply Forall_replicate, hit_table_nil.
  - lia.
  - lia.
  - intros c [-> _]%elem_of_replicate. done.
Qed.

Lemma find_ok K fl r :
  kv_inv K fl → km_enable_caching K = true → hashes_ok K r →
  ∃ news n, Coord.find_longest_cache_hit (block_hashes r) (num_tokens r - 1) (coordinator K) = Ok (news, n) ∧
    hit_ok (coordinator K) (block_hashes r) (num_tokens r - 1) news n.
Proof.
  intros [HS Hco Hk _ _ _] Hc [Hnd Hfull Htok]. specialize (Hk Hc).
  assert ((num_tokens r - 1) / search_block_size (coordinator K) ≤ len (block_hashes r)) as Hlen.
  { rewrite Hfull. destruct Hco as (_&_&Hs&_). destruct (Hs Hk) as [? _]. apply Z.div_le_mono; lia. }
  pose proof (si_pool _ _ _ _ HS) as HP.
  destruct (c_kind (coordinator K)) as [|spec bs|s] eqn:Hkind; [done| |].
  - by eapply find_unitary_ok; try done; lia.
  - by eapply find_hybrid_ok; try done; lia.
Qed.

(** [get_computed_blocks] does not raise; it returns a well-formed hit and
    always leaves at least the last token to compute. *)
Lemma get_computed_blocks_spec K fl r :
  kv_inv K fl → hashes_ok K r →
  ∃ news n K', KVM.get_computed_blocks r K = Ok (news, n, K') ∧ kv_inv K' fl ∧
    coordinator K' = coordinator K ∧ km_enable_caching K' = km_enable_caching K ∧
    km_max_model_len K' = km_max_model_len K ∧
    hit_ok (coordinator K) (block_hashes r) (num_tokens r - 1) news n ∧
    (km_enable_caching K = false → Forall (.= []) news) ∧ 0 ≤ n < num_tokens r.
Proof.
  intros HK Hh. pose proof (ho_tokens _ _ Hh) as Htok. unfold KVM.get_computed_blocks.
  set (lp := match sampling_params r with Some _ => _ | None => _ end).
  destruct (negb (km_enable_caching K) || lp) eqn:Hskip.
  - unfold KVM.create_empty_block_list. rewrite <-(kv_groups _ _ HK).
    eexists _, _, K. split_and!; try done; [by apply empty_hit_ok; lia|].
    intros _. by apply Forall_replicate.
  - apply orb_false_iff in Hskip as [Hc%negb_false_iff _].
    destruct (find_ok K fl r HK Hc Hh) as (news&n&->&Hhit). rewrite Ok_bind.
    assert (0 ≤ n < num_tokens r) as Hn by (destruct Hhit as (_&_&_&?&_); lia).
    destruct (km_log_stats K) eqn:Hlog.
    + destruct (kv_stats _ _ HK Hlog) as [st ->]. simpl of_option. rewrite Ok_bind.
      eexists news, n, _. split; [done|].
      split; [destruct HK as [? ? ? _ ? ?]; split; try done; cbn; eauto|].
      split_and!; try done; try lia. intros Hoff. congruence.
    + exists news, n, K. split_and!; try done; try lia. intros Hoff. congruence.
Qed.

(** ** Scheduling a new request *)

(** No manager has anything of the request. *)
Definition no_tables (K : KVCacheManager) (rid : string) : Prop :=
  Forall (λ M, blocks_of M rid = [] ∧ num_cached_block M !! rid = None) (managers_of K).

Lemma required_ge M nt net b :
  is_cross M = false → 0 < m_block_size M → 0 < block_size (m_spec M) →
  b * m_block_size M ≤ nt → b ≤ required nt net M.
Proof.
  intros Hc Hb Hs Hle. unfold required, tokens_for. rewrite Hc.
  assert (nt ≤ Mgr.with_spec_tokens M nt) as Hw.
  { unfold Mgr.with_spec_tokens. destruct (m_spec M); try lia. simpl in Hs.
    destruct (Z.ltb_spec 0 num_speculative_blocks); nia. }
  pose proof (cdiv_spec (Mgr.with_spec_tokens M nt) (m_block_size M) Hb). nia.
Qed.

(** A hit of a request without tables may be handed to [allocate_slots]. *)
Lemma new_request_pre K fl r news n nn la :
  kv_inv K fl → km_enable_caching K = true → enable_kv_cache_events (pool_of K) = false →
  hashes_ok K r → no_tables K (request_id r) → num_computed_tokens r = 0 →
  Forall (λ M, ∀ a w, m_spec M = SlidingWindowSpec a w → 1 ≤ w) (managers_of K) →
  hit_ok (coordinator K) (block_hashes r) (num_tokens r - 1) news n →
  0 < nn → 0 ≤ la → n + nn ≤ km_max_model_len K →
  alloc_pre K r nn n la 0 news false.
Proof.
  intros HK Hc Hev Hh Hno Hnc Hwin (Hrows&Hnd&Hht&Hn&Hlen) Hnn Hla Hmml.
  destruct (kv_coord _ _ HK) as (_&_&Hs&_).
  destruct (Hs (kv_kind _ _ HK Hc)) as [Hb HMs]. set (bs := search_block_size (coordinator K)) in *.
  pose proof (ho_tokens _ _ Hh) as Htok.
  assert (∀ i M new, managers_of K !! i = Some M → news !! i = Some new →
    blocks_of M (request_id r) = [] ∧ num_cached_block M !! request_id r = None ∧
    m_block_size M = bs ∧ is_cross M = false ∧ 0 < block_size (m_spec M) ∧
    n = len new * bs ∧ hit_table (pool_of K) new) as Hall.
  { intros i M new HM Hnew. destruct (Forall_lookup_1 _ _ _ _ Hno HM) as [??].
    destruct (Forall_lookup_1 _ _ _ _ HMs HM) as (?&?&?&_).
    pose proof (Forall_lookup_1 _ _ _ _ Hht Hnew). split_and!; try done.
    apply Hlen. by eapply list_elem_of_lookup_2. }
  set (nt := KVM.num_tokens_need_slot K r nn n la).
  assert (n + nn ≤ nt) as Hnt by (unfold nt, KVM.num_tokens_need_slot; lia).
  assert (length (managers_of K) = length news) as Hl by apply (Forall2_length _ _ _ Hrows).
  assert (∀ Q : Manager → list ptr → Prop,
    (∀ i M new, managers_of K !! i = Some M → news !! i = Some new → Q M new) →
    Forall2 Q (managers_of K) news) as Hf2.
  { intros Q HQ. apply Forall2_same_length_lookup_2; [done|]. intros i M new ??. by eapply HQ. }
  split; try done.
  - lia.
  - apply Forall_lookup. intros i M HM k Hk. destruct (Forall_lookup_1 _ _ _ _ Hno HM) as [Hbl Hnone].
    destruct (Forall_lookup_1 _ _ _ _ HMs HM) as (HMb&_&_&_&Hsearch).
    pose proof (Forall_lookup_1 _ _ _ _ Hwin HM) as Hw. simpl in Hw.
    assert (k ≤ 0) as Hk0.
    { unfold Mgr.first_useful_block in Hk. rewrite Hnc, Hnone, HMb in Hk. cbn in Hk.
      destruct (m_spec M) as [a w c|a c|a w| | |]; simplify_eq.
      - destruct Hsearch as (_&_&?). rewrite ?Z.div_0_l, ?Z.mul_0_l, ?Z.div_0_l by lia. done.
      - specialize (Hw _ _ eq_refl). apply Z.lt_succ_r, Z.div_lt_upper_bound; lia. }
    rewrite Hbl. unfold cached_of. rewrite Hnone. split; [done|]. by intros _.
  - apply Hf2. intros i M new HM Hnew. destruct (Hall i M new HM Hnew) as (_&Hnone&_&Hcr&_&_&?).
    unfold save_ok. by rewrite Hcr, Hnone.
  - intros Hoff. congruence.
  - left. apply Hf2. intros i M new HM Hnew.
    destruct (Hall i M new HM Hnew) as (Hbl&Hnone&HMb&Hcr&Hsb&Hnl&_).
    unfold gap. rewrite Hbl. fold nt.
    pose proof (required_ge M nt 0 (len new) Hcr ltac:(lia) Hsb ltac:(rewrite HMb; lia)). len_lia.
  - intros _ _. split; [done|]. apply Hf2. intros i M new HM Hnew.
    destruct (Hall i M new HM Hnew) as (Hbl&Hnone&HMb&Hcr&Hsb&Hnl&_).
    split; [done|]. cbn zeta. rewrite HMb, Hnone. simpl default. unfold tokens_to_cache. rewrite Hnc, Z.add_0_l.
    split_and!.
    + apply Z.div_le_lower_bound; lia.
    + fold nt. apply required_ge; [done|lia|done|]. rewrite HMb.
      pose proof (Z.mul_div_le (Z.min (n + nn) (num_tokens r)) bs Hb). lia.
    + rewrite (ho_full _ _ Hh). fold bs. apply Z.div_le_mono; lia.
Qed.

(** ** Freeing *)

Lemma free_request_spec K fl r :
  kv_inv K fl →
  ∃ K' fl', KVM.free r K = Ok K' ∧ kv_inv K' (fl ++ fl') ∧ same_setup K K' ∧
    no_tables K' (request_id r) ∧
    Forall2 (mgr_frame (request_id r)) (managers_of K) (managers_of K') ∧
    (∀ q, hash_at (pool_of K') q = hash_at (pool_of K) q).
Proof.
  intros HK. unfold KVM.free.
  destruct (sys_free (request_id r) (managers_of K) (pool_of K) fl no_pend (kv_sys _ _ HK))
    as (Ms&P&fl'&->&HS&Hcfg&Hh&HR). rewrite Ok_bind.
  exists (set_system Ms P K), fl'. split; [done|]. split_and!.
  - eapply kv_inv_set; [done..| |done]. eapply Forall2_impl; [exact HR|].
    intros M M' [Hf _]. by eapply mgr_frame_class.
  - by eexists _, _.
  - unfold no_tables. cbn. apply Forall_lookup. intros i M' HM'.
    by destruct (Forall2_lookup_r _ _ _ _ _ HR HM') as (M&_&_&?&?).
  - eapply Forall2_impl; [exact HR|]. by intros M M' [? _].
  - apply Hh.
Qed.

(** When no request has a table, every block but the null block is free. *)
Lemma all_free K fl :
  kv_inv K fl → (∀ M rid, M ∈ managers_of K → blocks_of M rid = []) →
  len fl = num_gpu_blocks (pool_of K) - 1.
Proof.
  intros HK Hno. pose proof (kv_sys _ _ HK) as HS. apply (all_free_length _ _ (si_pool _ _ _ _ HS)).
  intros p Hv Hne. rewrite (si_rc _ _ _ _ HS p Hv Hne).
  assert (∀ Ms, (∀ M rid, M ∈ Ms → blocks_of M rid = []) → total_uses Ms p = 0) as Ht.
  { clear. induction Ms as [|M Ms IH]; intros Hno; [done|]. rewrite total_uses_cons, IH.
    2: { intros N rid HN. apply Hno. by right. }
    assert (uses p M = 0) as ->; [|done]. assert (∀ rid, blocks_of M rid = []) as HM by (intros; apply Hno; by left).
    unfold uses, blocks_of in *. generalize dependent (req_to_blocks M). intros m Hm.
    induction m as [|k v m Hk IHm] using map_ind; [apply map_sum_empty|].
    rewrite map_sum_insert_new by done. pose proof (Hm k) as Hkv. rewrite lookup_insert_eq in Hkv.
    simpl in Hkv. subst. rewrite IHm; [done|]. intros rid. destruct (decide (rid = k)) as [->|Hr]; [by rewrite Hk|].
    specialize (Hm rid). by rewrite lookup_insert_ne in Hm. }
  rewrite (Ht _ Hno). done.
Qed.

(** Counting the common prefix blocks leaves the tables as they are. *)
Lemma common_prefix_ok K fl r n :
  kv_inv K fl → status r = RUNNING →
  ∃ ns K', KVM.get_num_common_prefix_blocks r n K = Ok (ns, K') ∧ kv_inv K' fl ∧
    same_setup K K' ∧ Forall2 (tables_kept (request_id r)) (managers_of K) (managers_of K').
Proof.
  intros HK Hst. unfold KVM.get_num_common_prefix_blocks.
  rewrite py_assert_true by (by apply bool_decide_eq_true_2). rewrite Ok_bind.
  destruct (sys_common_prefix (request_id r) n (managers_of K) (pool_of K) fl no_pend (kv_sys _ _ HK))
    as (ns&Ms&Hrun&HS&HF).
  assert (∃ ns' Ms', Coord.get_num_common_prefix_blocks (request_id r) n (coordinator K) =
      (ns', with_state Ms' (pool_of K) (coordinator K)) ∧ sys_inv Ms' (pool_of K) fl no_pend ∧
      Forall2 (tables_kept (request_id r)) (managers_of K) Ms') as (ns'&Ms'&->&HS'&HF').
  { unfold Coord.get_num_common_prefix_blocks. fold (managers_of K) (pool_of K).
    destruct (c_kind (coordinator K)); [|rewrite Hrun; by exists ns, Ms..].
    eexists _, (managers_of K). split_and!; [|apply HK|].
    - by destruct K as [? ? ? ? ? []].
    - apply Forall2_same_length_lookup_2; [done|]. intros i M M' H1 H2. simplify_eq.
      split; [reflexivity|done]. }
  exists ns', (set_system Ms' (pool_of K) K). split_and!; [done| |by eexists _, _|done].
  eapply kv_inv_set; [done..| |done]. eapply Forall2_impl; [exact HF'|].
  intros M M' [Hf _]. by eapply mgr_frame_class.
Qed.
