(* ===== verification/EncoderCache.v ===== *)
(** * Encoder cache

    Models src/vllm/v1/core/encoder_cache_manager.py: the reference-counted
    cache of encoder outputs with its free and freeable capacities, eviction at
    allocation time, and the computation of the encoder budgets.  [cached] maps
    an [mm_hash] to the set of request ids that reference it; the [OrderedDict]
    [freeable] is the list of its items in insertion order. *)
From S2P Require Import Prelude Request.

Module Enc.

Record EncoderCacheManager := mkEnc {
  cache_size : Z;
  num_free_slots : Z;
  num_freeable_slots : Z;
  cached : gmap string (gset string);
  freeable : list (string * Z);
  freed : list string;
}.

Definition init (size : Z) : EncoderCacheManager := mkEnc size size size ∅ [] [].

(** [OrderedDict.pop(k)], [d[k] = v]; a new key goes last, an old one keeps
    its place. *)
Fixpoint od_pop (k : string) (d : list (string * Z)) : result (Z * list (string * Z)) :=
  match d with
  | [] => Err KeyError
  | (k', v) :: d =>
      if decide (k = k') then Ok (v, d)
      else '(w, d') ← od_pop k d; Ok (w, (k', v) :: d')
  end.

Fixpoint od_set (k : string) (v : Z) (d : list (string * Z)) : list (string * Z) :=
  match d with
  | [] => [(k, v)]
  | (k', w) :: d => if decide (k = k') then (k, v) :: d else (k', w) :: od_set k v d
  end.

Definition check_and_update_cache (r : Request) (input_id : Z) (M : EncoderCacheManager)
  : result (bool * EncoderCacheManager) :=
  f ← py_index (mm_features r) input_id;
  let mm_hash := identifier f in
  match cached M !! mm_hash with
  | None => Ok (false, M)
  | Some refs =>
      M ← (if decide (refs = ∅) then
             '(num_tokens, fr) ← od_pop mm_hash (freeable M);
             Ok (mkEnc (cache_size M) (num_free_slots M)
                   (num_freeable_slots M - num_tokens) (cached M) fr (freed M))
           else Ok M);
      Ok (true, mkEnc (cache_size M) (num_free_slots M) (num_freeable_slots M)
                  (<[mm_hash := refs ∪ {[request_id r]}]> (cached M))
                  (freeable M) (freed M))
  end.

(** The [while] loop of [can_allocate]; each turn pops one entry. *)
Fixpoint evict_loop (num_tokens free : Z) (fr : list (string * Z))
    (ca : gmap string (gset string)) (out : list string)
  : result (Z * list (string * Z) * gmap string (gset string) * list string) :=
  if num_tokens >? free then
    match fr with
    | [] => Err KeyError
    | (mm_hash, num_free_token) :: fr =>
        _ ← of_option KeyError (ca !! mm_hash);
        evict_loop num_tokens (free + num_free_token) fr (delete mm_hash ca)
          (out ++ [mm_hash])
    end
  else Ok (free, fr, ca, out).

Definition can_allocate (r : Request) (input_id encoder_compute_budget : Z)
    (num_tokens_to_schedule : Z) (M : EncoderCacheManager)
  : result (bool * EncoderCacheManager) :=
  num_tokens ← get_num_encoder_tokens r input_id;
  if num_tokens >? encoder_compute_budget then Ok (false, M) else
  let num_tokens := num_tokens + num_tokens_to_schedule in
  if num_tokens <=? num_free_slots M then Ok (true, M) else
  if num_tokens >? num_freeable_slots M then Ok (false, M) else
  '(free, fr, ca, out) ←
    evict_loop num_tokens (num_free_slots M) (freeable M) (cached M) (freed M);
  Ok (true, mkEnc (cache_size M) free (num_freeable_slots M) ca fr out).

Definition allocate (r : Request) (input_id : Z) (M : EncoderCacheManager)
  : result EncoderCacheManager :=
  f ← py_index (mm_features r) input_id;
  let mm_hash := identifier f in
  let refs := default ∅ (cached M !! mm_hash) in
  num_encoder_tokens ← get_num_encoder_tokens r input_id;
  _ ← py_assert (num_encoder_tokens <=? num_free_slots M);
  _ ← py_assert (num_encoder_tokens <=? num_freeable_slots M);
  Ok (mkEnc (cache_size M) (num_free_slots M - num_encoder_tokens)
        (num_freeable_slots M - num_encoder_tokens)
        (<[mm_hash := refs ∪ {[request_id r]}]> (cached M)) (freeable M) (freed M)).

(** The set comprehension of [get_cached_input_ids]. *)
Definition get_cached_input_ids (r : Request) (M : EncoderCacheManager) : gset Z :=
  list_to_set (filter
    (λ i, is_Some (mm_features r !! Z.to_nat i ≫= λ f, cached M !! identifier f))
    (py_range 0 (len (mm_features r)))).

Definition free_encoder_input (r : Request) (input_id : Z) (M : EncoderCacheManager)
  : result EncoderCacheManager :=
  f ← py_index (mm_features r) input_id;
  let mm_hash := identifier f in
  match cached M !! mm_hash with
  | None => Ok M
  | Some refs =>
      if decide (refs = ∅) then Ok M else
      let refs' := refs ∖ {[request_id r]} in
      let ca := <[mm_hash := refs']> (cached M) in
      if decide (refs' = ∅) then
        num_tokens ← get_num_encoder_tokens r input_id;
        Ok (mkEnc (cache_size M) (num_free_slots M) (num_freeable_slots M + num_tokens)
              ca (od_set mm_hash num_tokens (freeable M)) (freed M))
      else
        Ok (mkEnc (cache_size M) (num_free_slots M) (num_freeable_slots M)
              ca (freeable M) (freed M))
  end.

(** [free] iterates over a Python set, whose order is not specified: [order]
    lists its elements. *)
Definition free (order : gset Z → list Z) (r : Request) (M : EncoderCacheManager)
  : result EncoderCacheManager :=
  for_each (free_encoder_input r) (order (get_cached_input_ids r M)) M.

Definition get_freed_mm_hashes (M : EncoderCacheManager) : list string * EncoderCacheManager :=
  (freed M, mkEnc (cache_size M) (num_free_slots M) (num_freeable_slots M) (cached M)
              (freeable M) []).

(** The fields of [SchedulerConfig] the budgets read. *)
Record EncBudgetConfig := mkEncConfig {
  disable_chunked_mm_input : bool;
  max_num_batched_tokens : Z;
  max_num_encoder_input_tokens : Z;
  encoder_cache_size : Z;
}.

Definition compute_text_encoder_budget (c : EncBudgetConfig) : Z * Z := (0, 0).

Definition compute_mm_encoder_budget (c : EncBudgetConfig) (max_tokens_by_modality : list (string * Z))
  : result (Z * Z) :=
  match max_tokens_by_modality.*2 with
  | [] => Ok (0, 0)
  | v :: vs =>
      let max_tokens_per_mm_item := foldl Z.max v vs in
      if disable_chunked_mm_input c && (max_tokens_per_mm_item >? max_num_batched_tokens c)
      then Err ValueError
      else Ok (Z.max (max_num_encoder_input_tokens c) max_tokens_per_mm_item,
               Z.max (encoder_cache_size c) max_tokens_per_mm_item)
  end.

(** [mm_registry] is code outside the modelled files: what it answers is the
    argument ([None] when the model takes no multimodal input). *)
Definition compute_encoder_budget (c : EncBudgetConfig)
    (max_tokens_by_modality : option (list (string * Z))) : result (Z * Z) :=
  match max_tokens_by_modality with
  | Some m => compute_mm_encoder_budget c m
  | None => Ok (compute_text_encoder_budget c)
  end.

(** ** The invariant

    [sz h] is the number of encoder tokens of the item with hash [h]: two
    features with one identifier have one length. *)

Definition weight (sz : string → Z) {V} (m : gmap string V) : Z :=
  map_fold (λ h _ acc, sz h + acc) 0 m.

Definition od_sum (d : list (string * Z)) : Z := foldr (λ kv acc, kv.2 + acc) 0 d.

Record enc_inv (sz : string → Z) (M : EncoderCacheManager) : Prop := {
  ei_free : num_free_slots M = cache_size M - weight sz (cached M);
  ei_freeable : num_freeable_slots M = num_free_slots M + od_sum (freeable M);
  ei_entries : ∀ h n, (h, n) ∈ freeable M ↔ cached M !! h = Some ∅ ∧ n = sz h;
  ei_nodup : NoDup (freeable M).*1;
  ei_nonneg : 0 ≤ num_free_slots M;
}.

(** The features of a request agree with [sz]. *)
Definition sized (sz : string → Z) (r : Request) : Prop :=
  ∀ f, f ∈ mm_features r → mm_length (mm_position f) = sz (identifier f).

(** [input_id] is the index of feature [f]. *)
Definition feature (r : Request) (input_id : Z) (f : MultiModalFeatureSpec) : Prop :=
  0 ≤ input_id ∧ mm_features r !! Z.to_nat input_id = Some f.

Section proofs.
Context (sz : string → Z).
Hypothesis sz_nonneg : ∀ h, 0 ≤ sz h.

Lemma weight_empty {V} : weight sz (∅ : gmap string V) = 0.
Proof. apply map_fold_empty. Qed.

Lemma weight_insert_new {V} (m : gmap string V) h v :
  m !! h = None → weight sz (<[h:=v]> m) = sz h + weight sz m.
Proof.
  intros Hh. unfold weight. rewrite map_fold_insert_L; [done| |done]. intros. lia.
Qed.

Lemma weight_delete {V} (m : gmap string V) h v :
  m !! h = Some v → weight sz (delete h m) = weight sz m - sz h.
Proof.
  intros Hh. rewrite <-(insert_delete_id m h v Hh) at 2.
  rewrite weight_insert_new by apply lookup_delete_eq. lia.
Qed.

Lemma weight_insert_old {V} (m : gmap string V) h v w :
  m !! h = Some w → weight sz (<[h:=v]> m) = weight sz m.
Proof.
  intros Hh. rewrite <-insert_delete_eq, weight_insert_new by apply lookup_delete_eq.
  rewrite (weight_delete _ _ _ Hh). lia.
Qed.

Lemma weight_nonneg {V} (m : gmap string V) : 0 ≤ weight sz m.
Proof.
  induction m as [|h v m Hh IH] using map_ind; [unfold weight; by rewrite map_fold_empty|].
  rewrite weight_insert_new by done. specialize (sz_nonneg h). lia.
Qed.

Lemma od_sum_app d d' : od_sum (d ++ d') = od_sum d + od_sum d'.
Proof. induction d; simpl in *; lia. Qed.

Lemma od_pop_spec d h n :
  (h, n) ∈ d → NoDup d.*1 →
  ∃ d1 d2, d = d1 ++ (h, n) :: d2 ∧ od_pop h d = Ok (n, d1 ++ d2).
Proof.
  induction d as [|[h' n'] d IH]; [by intros ?%elem_of_nil|].
  rewrite elem_of_cons, fmap_cons, NoDup_cons. intros [?|Hin] [Hh Hnd]; simplify_eq/=.
  - rewrite decide_True by done. by exists [], d.
  - destruct (IH Hin Hnd) as (d1&d2&->&->). rewrite decide_False.
    + by exists ((h', n') :: d1), d2.
    + intros ->. apply Hh. apply list_elem_of_fmap. by exists (h', n).
Qed.

Lemma od_set_new d h n : h ∉ d.*1 → od_set h n d = d ++ [(h, n)].
Proof.
  induction d as [|[h' n'] d IH]; [done|]. rewrite fmap_cons, not_elem_of_cons.
  intros [? ?]. simpl. rewrite decide_False by done. by rewrite IH.
Qed.

Lemma feature_index r i f : feature r i f → py_index (mm_features r) i = Ok f.
Proof. intros [? ?]. by apply py_index_nonneg. Qed.

Lemma feature_tokens r i f :
  feature r i f → sized sz r → get_num_encoder_tokens r i = Ok (sz (identifier f)).
Proof.
  intros Hf Hs. unfold get_num_encoder_tokens.
  rewrite (feature_index _ _ _ Hf), py_assert_true; simpl.
  - rewrite Hs; [done|]. destruct Hf as [? Hf]. by eapply list_elem_of_lookup_2.
  - destruct Hf as [? Hf]. apply lookup_lt_Some in Hf. unfold len. lia.
Qed.

Lemma freeable_keys M h :
  enc_inv sz M → h ∈ (freeable M).*1 ↔ cached M !! h = Some ∅.
Proof.
  intros HI. rewrite list_elem_of_fmap. split.
  - intros ([h' n]&->&Hin). by apply (ei_entries _ _ HI) in Hin as [? ?].
  - intros Hc. exists (h, sz h). split; [done|]. by apply (ei_entries _ _ HI).
Qed.

Lemma add_ref_nonempty (refs : gset string) x : refs ∪ {[x]} = ∅ → False.
Proof. intros [_ E]%empty_union_L. by apply non_empty_singleton_L in E. Qed.

Lemma init_inv size : 0 ≤ size → enc_inv sz (init size).
Proof.
  intros. split; simpl.
  - rewrite weight_empty. lia.
  - lia.
  - intros h n. rewrite lookup_empty. split; [by intros ?%elem_of_nil|naive_solver].
  - constructor.
  - done.
Qed.

(** Adding a reference to a cached entry makes it unevictable. *)
Lemma check_and_update_spec M r i f :
  enc_inv sz M → feature r i f →
  ∃ M', check_and_update_cache r i M =
      Ok (bool_decide (is_Some (cached M !! identifier f)), M') ∧ enc_inv sz M' ∧
    cached M' = alter (λ refs, refs ∪ {[request_id r]}) (identifier f) (cached M) ∧
    num_free_slots M' = num_free_slots M ∧ cache_size M' = cache_size M ∧
    freed M' = freed M.
Proof.
  intros HI Hf. unfold check_and_update_cache. rewrite (feature_index _ _ _ Hf). simpl.
  destruct (cached M !! identifier f) as [refs|] eqn:Hc.
  2:{ exists M. rewrite bool_decide_eq_false_2 by (intros [? ?]; done).
      split_and!; try done. apply map_eq. intros h. rewrite lookup_alter.
      case_decide; [by subst; rewrite Hc|done]. }
  rewrite bool_decide_eq_true_2 by done.
  assert (∀ X, alter (λ refs, refs ∪ {[request_id r]}) (identifier f) (cached M) =
               <[identifier f := X]> (cached M) ↔ X = refs ∪ {[request_id r]}) as Halt.
  { intros X. split; [|intros ->].
    - intros E. apply (f_equal (.!! identifier f)) in E.
      rewrite lookup_alter_eq, lookup_insert_eq, Hc in E. by injection E.
    - apply map_eq. intros h. rewrite lookup_alter, lookup_insert.
      repeat case_decide; simplify_eq/=; by rewrite ?Hc. }
  case_decide as He; simpl.
  - subst refs. assert ((identifier f, sz (identifier f)) ∈ freeable M) as Hin
      by (by apply (ei_entries _ _ HI)).
    destruct (od_pop_spec _ _ _ Hin (ei_nodup _ _ HI)) as (d1&d2&Hd&->). simpl.
    eexists. split; [done|]. split_and!; try done; [|by symmetry; apply Halt].
    pose proof (ei_nodup _ _ HI) as Hnd. rewrite Hd, fmap_app, fmap_cons in Hnd.
    apply NoDup_app in Hnd as (Hnd1&Hdis&Hnd2). apply NoDup_cons in Hnd2 as [Hnew Hnd2].
    split; simpl.
    + rewrite (weight_insert_old _ _ _ _ Hc). apply (ei_free _ _ HI).
    + rewrite (ei_freeable _ _ HI), Hd, !od_sum_app. simpl. lia.
    + intros h n. rewrite lookup_insert. case_decide as Heq.
      * subst h. split; [|by intros [E%(inj Some)%add_ref_nonempty _]]. intros Hin'. exfalso.
        assert (identifier f ∈ (d1 ++ d2).*1) as Hk
          by (apply list_elem_of_fmap; by exists (identifier f, n)).
        rewrite fmap_app, elem_of_app in Hk. destruct Hk as [Hk|Hk]; [|done].
        apply (Hdis _ Hk). by left.
      * rewrite <-(ei_entries _ _ HI), Hd, !elem_of_app, elem_of_cons. naive_solver.
    + rewrite fmap_app. apply NoDup_app. split_and!; try done.
      intros x Hx Hx2. apply (Hdis x Hx). by right.
    + apply (ei_nonneg _ _ HI).
  - eexists. split; [done|]. split_and!; try done; [|by symmetry; apply Halt].
    split; simpl; try apply HI.
    + rewrite (weight_insert_old _ _ _ _ Hc). apply (ei_free _ _ HI).
    + intros h n. rewrite (ei_entries _ _ HI), lookup_insert. case_decide; [|done].
      subst h. rewrite Hc. split; [by intros [E%(inj Some) _]|by intros [E%(inj Some)%add_ref_nonempty _]].
Qed.

(** Popping the oldest freeable entry keeps the invariant. *)
Lemma evict_one_inv M h n fr :
  enc_inv sz M → freeable M = (h, n) :: fr →
  cached M !! h = Some ∅ ∧
  enc_inv sz (mkEnc (cache_size M) (num_free_slots M + n) (num_freeable_slots M)
                (delete h (cached M)) fr (freed M ++ [h])).
Proof.
  intros HI Hfr.
  assert (cached M !! h = Some ∅ ∧ n = sz h) as [Hc ->].
  { apply (ei_entries _ _ HI). rewrite Hfr. by left. }
  split; [done|]. pose proof (ei_nodup _ _ HI) as Hnd.
  rewrite Hfr, fmap_cons, NoDup_cons in Hnd. destruct Hnd as [Hh Hnd].
  split; simpl; try done.
  - rewrite (weight_delete _ _ _ Hc), (ei_free _ _ HI). lia.
  - rewrite (ei_freeable _ _ HI), Hfr. simpl. lia.
  - intros h' n'. rewrite lookup_delete. case_decide as Heq.
    + subst h'. split; [|naive_solver]. intros Hin. exfalso. apply Hh.
      apply list_elem_of_fmap. by exists (h, n').
    + rewrite <-(ei_entries _ _ HI), Hfr, elem_of_cons. naive_solver.
  - pose proof (ei_nonneg _ _ HI). pose proof (sz_nonneg h). lia.
Qed.

(** What eviction leaves: the entries [ev] gone, the oldest first, nothing more
    than needed, and everything else as it was. *)
Record evicted (ev : list (string * Z)) (M M' : EncoderCacheManager) : Prop := {
  evd_freeable : freeable M = ev ++ freeable M';
  evd_freed : freed M' = freed M ++ ev.*1;
  evd_cached : ∀ h, cached M' !! h = if decide (h ∈ ev.*1) then None else cached M !! h;
  evd_free : num_free_slots M' = num_free_slots M + od_sum ev;
  evd_total : num_freeable_slots M' = num_freeable_slots M;
  evd_size : cache_size M' = cache_size M;
}.

Lemma evicted_nil M : evicted [] M M.
Proof. split; simpl; rewrite ?app_nil_r; done || lia. Qed.

Lemma evict_loop_spec n M :
  enc_inv sz M → n ≤ num_freeable_slots M →
  ∃ ev M', evict_loop n (num_free_slots M) (freeable M) (cached M) (freed M)
      = Ok (num_free_slots M', freeable M', cached M', freed M') ∧
    evicted ev M M' ∧ enc_inv sz M' ∧ n ≤ num_free_slots M' ∧
    (∀ ev1 x, ev = ev1 ++ [x] → num_free_slots M + od_sum ev1 < n).
Proof.
  intros HI. remember (freeable M) as fr eqn:Hfr. symmetry in Hfr.
  induction fr as [|[h k] fr IH] in M, Hfr, HI |- *; intros Hn; simpl.
  - pose proof (ei_freeable _ _ HI) as HF. rewrite Hfr in HF. simpl in HF.
    rewrite Z.gtb_ltb, (proj2 (Z.ltb_ge _ _)) by lia.
    exists [], M. rewrite Hfr. split_and!; try done; [apply evicted_nil|lia|].
    by intros [|??] ? ?.
  - rewrite Z.gtb_ltb. destruct (Z.ltb_spec (num_free_slots M) n) as [Hlt|Hge].
    + destruct (evict_one_inv M h k fr HI Hfr) as [Hc HI2]. rewrite Hc. simpl.
      destruct (IH _ HI2 eq_refl Hn) as (ev&M'&HE&Hev&HI'&Hroom&Hmin). simpl in *.
      rewrite HE. exists ((h, k) :: ev), M'. split_and!; try done.
      * destruct Hev as [E1 E2 E3 E4 E5 E6]. simpl in *. split; simpl; try done.
        -- by rewrite Hfr, E1.
        -- by rewrite E2, <-app_assoc.
        -- intros h'. rewrite E3, lookup_delete. pose proof (elem_of_cons ev.*1 h' h).
           repeat case_decide; try done; naive_solver.
        -- lia.
      * intros [|y ev1] x He; simplify_eq/=; [lia|].
        specialize (Hmin ev1 x eq_refl). lia.
    + exists [], M. rewrite Hfr. split_and!; try done; [apply evicted_nil|].
      by intros [|??] ? ?.
Qed.

Lemma od_sum_nonneg M : enc_inv sz M → 0 ≤ od_sum (freeable M).
Proof.
  intros HI.
  assert (∀ d : list (string * Z), (∀ kv, kv ∈ d → 0 ≤ kv.2) → 0 ≤ od_sum d) as Hd.
  { intros d. induction d as [|kv d IH]; intros Hd; simpl; [done|].
    pose proof (Hd kv ltac:(by left)).
    specialize (IH ltac:(intros; apply Hd; by right)). lia. }
  apply Hd. intros [h n] Hin. apply (ei_entries _ _ HI) in Hin as [_ ->]. simpl. auto.
Qed.

(** [can_allocate] never raises.  It refuses, with the state untouched, exactly
    when the compute budget or the capacity without the referenced entries is
    too small. *)
Lemma can_allocate_spec M r i f budget sched :
  enc_inv sz M → feature r i f → sized sz r →
  ∃ b M' ev, can_allocate r i budget sched M = Ok (b, M') ∧
    evicted ev M M' ∧ enc_inv sz M' ∧
    (b = true ↔ sz (identifier f) ≤ budget ∧
       sz (identifier f) + sched ≤ num_freeable_slots M) ∧
    (if b then sz (identifier f) + sched ≤ num_free_slots M' else M' = M) ∧
    (∀ ev1 x, ev = ev1 ++ [x] →
       num_free_slots M + od_sum ev1 < sz (identifier f) + sched).
Proof.
  intros HI Hf Hs. unfold can_allocate. rewrite (feature_tokens _ _ _ Hf Hs). simpl.
  pose proof (od_sum_nonneg M HI) as Hpos.
  pose proof (ei_freeable _ _ HI) as HF.
  assert (∀ x : string * Z, ∀ ev1, [] = ev1 ++ [x] → False) as Hnil by (by intros ? [|??] ?).
  rewrite Z.gtb_ltb. destruct (Z.ltb_spec budget (sz (identifier f))).
  { exists false, M, []. split_and!; try done; [apply evicted_nil|lia|].
    intros ev1 x ?. by edestruct Hnil. }
  destruct (Z.leb_spec (sz (identifier f) + sched) (num_free_slots M)).
  { exists true, M, []. split_and!; try done; [apply evicted_nil|lia|].
    intros ev1 x ?. by edestruct Hnil. }
  rewrite Z.gtb_ltb. destruct (Z.ltb_spec (num_freeable_slots M) (sz (identifier f) + sched)).
  { exists false, M, []. split_and!; try done; [apply evicted_nil|lia|].
    intros ev1 x ?. by edestruct Hnil. }
  destruct (evict_loop_spec (sz (identifier f) + sched) M HI) as (ev&M'&HE&Hev&HI'&Hroom&Hmin);
    [done|]. rewrite HE. simpl.
  exists true, M', ev. split_and!; try done.
  rewrite <-(evd_total _ _ _ Hev), <-(evd_size _ _ _ Hev). by destruct M'.
Qed.

(** Allocating an item that is not cached and fits. *)
Lemma enc_allocate_spec M r i f :
  enc_inv sz M → feature r i f → sized sz r →
  cached M !! identifier f = None → sz (identifier f) ≤ num_free_slots M →
  ∃ M', allocate r i M = Ok M' ∧ enc_inv sz M' ∧
    cached M' = <[identifier f := {[request_id r]}]> (cached M) ∧
    num_free_slots M' = num_free_slots M - sz (identifier f) ∧
    freeable M' = freeable M ∧ freed M' = freed M ∧ cache_size M' = cache_size M.
Proof.
  intros HI Hf Hs Hc Hle. unfold allocate.
  rewrite (feature_index _ _ _ Hf). simpl. rewrite (feature_tokens _ _ _ Hf Hs). simpl.
  pose proof (od_sum_nonneg M HI). pose proof (ei_freeable _ _ HI).
  rewrite !py_assert_true by (apply Z.leb_le; lia). simpl. rewrite Hc. simpl.
  rewrite union_empty_l_L. eexists. split; [done|]. split_and!; try done.
  split; simpl; try apply HI.
  - rewrite weight_insert_new by done. pose proof (ei_free _ _ HI). lia.
  - lia.
  - intros h n. rewrite (ei_entries _ _ HI), lookup_insert. case_decide; [|done].
    subst h. rewrite Hc. split; [by intros [? _]|].
    intros [E%(inj Some) _]. by apply non_empty_singleton_L in E.
  - lia.
Qed.

(** Items whose total fits are allocated one after the other. *)
Lemma allocate_all_spec r ids fs M :
  enc_inv sz M → sized sz r → Forall2 (feature r) ids fs → NoDup (identifier <$> fs) →
  (∀ f, f ∈ fs → cached M !! identifier f = None) →
  foldr (λ f acc, sz (identifier f) + acc) 0 fs ≤ num_free_slots M →
  ∃ M', for_each (allocate r) ids M = Ok M' ∧ enc_inv sz M' ∧
    num_free_slots M' = num_free_slots M - foldr (λ f acc, sz (identifier f) + acc) 0 fs ∧
    (∀ f, f ∈ fs → cached M' !! identifier f = Some {[request_id r]}) ∧
    (∀ h, h ∉ identifier <$> fs → cached M' !! h = cached M !! h).
Proof.
  intros HI Hs Hfs. induction Hfs as [|i f ids fs Hf Hfs IH] in M, HI |- *;
    intros Hnd Hc Hroom; simpl in *.
  - exists M. split_and!; try done; [lia|by intros ? ?%elem_of_nil].
  - apply NoDup_cons in Hnd as [Hnew Hnd].
    assert (0 ≤ foldr (λ f acc, sz (identifier f) + acc) 0 fs) as Hpos.
    { clear -sz_nonneg. induction fs as [|f fs IH]; simpl; [done|].
      pose proof (sz_nonneg (identifier f)). lia. }
    destruct (enc_allocate_spec M r i f HI Hf Hs) as (M1&->&HI1&Hc1&Hn1&_);
      [apply Hc; by left|lia|]. simpl.
    destruct (IH M1 HI1 Hnd) as (M2&->&HI2&Hn2&Hin2&Hout2); [|lia|].
    { intros f' Hf'. rewrite Hc1, lookup_insert_ne; [apply Hc; by right|].
      intros E. apply Hnew. rewrite E. by apply list_elem_of_fmap_2. }
    exists M2. split_and!; try done; [lia| |].
    + intros f' [->|Hf']%elem_of_cons; [|by apply Hin2].
      rewrite Hout2 by done. by rewrite Hc1, lookup_insert_eq.
    + intros h Hh. apply not_elem_of_cons in Hh as [? ?].
      by rewrite Hout2, Hc1, lookup_insert_ne by done.
Qed.

(** Dropping a reference keeps the data; the last reference makes it freeable. *)
Lemma free_encoder_input_spec M r i f :
  enc_inv sz M → feature r i f → sized sz r →
  ∃ M', free_encoder_input r i M = Ok M' ∧ enc_inv sz M' ∧
    (∀ h, cached M' !! h = if decide (h = identifier f)
       then (λ refs, refs ∖ {[request_id r]}) <$> cached M !! h else cached M !! h) ∧
    num_free_slots M' = num_free_slots M ∧ freed M' = freed M.
Proof.
  intros HI Hf Hs. unfold free_encoder_input. rewrite (feature_index _ _ _ Hf). simpl.
  destruct (cached M !! identifier f) as [refs|] eqn:Hc.
  2:{ exists M. split_and!; try done. intros h. case_decide; [subst; by rewrite Hc|done]. }
  assert (∀ X h, X = refs ∖ {[request_id r]} → <[identifier f := X]> (cached M) !! h
     = if decide (h = identifier f)
       then (λ refs, refs ∖ {[request_id r]}) <$> cached M !! h else cached M !! h) as Hl.
  { intros X h ->. rewrite lookup_insert. repeat case_decide; simplify_eq; try done.
    by rewrite Hc. }
  case_decide as Hempty.
  { exists M. split_and!; try done. intros h. case_decide; [|done].
    subst. rewrite Hc. simpl. by rewrite difference_empty_l_L || (f_equal; set_solver). }
  assert (identifier f ∉ (freeable M).*1) as Hnot.
  { intros Hin. apply freeable_keys in Hin; [|done]. rewrite Hc in Hin. by injection Hin. }
  case_decide as Hlast.
  - rewrite (feature_tokens _ _ _ Hf Hs). simpl. rewrite od_set_new by done.
    eexists. split; [done|]. split_and!; try done; [|intros h; by apply Hl].
    split; simpl.
    + rewrite (weight_insert_old _ _ _ _ Hc). apply (ei_free _ _ HI).
    + rewrite od_sum_app, (ei_freeable _ _ HI). simpl. lia.
    + intros h n. rewrite elem_of_app, list_elem_of_singleton, lookup_insert.
      rewrite (ei_entries _ _ HI). case_decide as Heq.
      * subst h. rewrite Hlast, Hc. split; [|naive_solver].
        intros [[E%(inj Some) _]|?]; [done|by simplify_eq].
      * naive_solver.
    + rewrite fmap_app. apply NoDup_app. split_and!; [apply HI| |apply NoDup_singleton].
      intros x Hx ->%list_elem_of_singleton. done.
    + apply (ei_nonneg _ _ HI).
  - eexists. split; [done|]. split_and!; try done; [|intros h; by apply Hl].
    split; simpl; try apply HI.
    + rewrite (weight_insert_old _ _ _ _ Hc). apply (ei_free _ _ HI).
    + intros h n. rewrite (ei_entries _ _ HI), lookup_insert. case_decide; [|done].
      subst h. rewrite Hc. split; intros [E%(inj Some) _]; done.
Qed.

Lemma cached_ids_spec M r i :
  i ∈ get_cached_input_ids r M ↔
  ∃ f, feature r i f ∧ is_Some (cached M !! identifier f).
Proof.
  unfold get_cached_input_ids, feature. rewrite elem_of_list_to_set, list_elem_of_filter.
  unfold py_range. rewrite elem_of_seqZ. split.
  - intros [Hs Hi]. destruct (mm_features r !! Z.to_nat i) as [f|]; [|by destruct Hs].
    exists f. split_and!; try done; lia.
  - intros (f&[Hi Hf]&Hs). rewrite Hf. split; [done|].
    apply lookup_lt_Some in Hf. unfold len. lia.
Qed.

(** [free] drops every reference of the request, in whatever order Python
    iterates over the set. *)
Lemma enc_free_spec order M r :
  (∀ X, order X ≡ₚ elements X) → enc_inv sz M → sized sz r →
  ∃ M', free order r M = Ok M' ∧ enc_inv sz M' ∧
    (∀ h, h ∈ identifier <$> mm_features r →
       cached M' !! h = (λ refs, refs ∖ {[request_id r]}) <$> cached M !! h) ∧
    (∀ h, h ∉ identifier <$> mm_features r → cached M' !! h = cached M !! h) ∧
    num_free_slots M' = num_free_slots M.
Proof.
  intros Horder HI Hs. unfold free.
  set (drop1 := λ refs : gset string, refs ∖ {[request_id r]}).
  assert (∀ o : option (gset string), drop1 <$> (drop1 <$> o) = drop1 <$> o) as Hidem.
  { intros [refs|]; [|done]. simpl. unfold drop1. f_equal. set_solver. }
  destruct (for_each_ind (free_encoder_input r)
    (λ dn M', enc_inv sz M' ∧ num_free_slots M' = num_free_slots M ∧
       (∀ h, ((∃ i f, i ∈ dn ∧ feature r i f ∧ identifier f = h) ∧
              cached M' !! h = drop1 <$> cached M !! h) ∨
             ((¬ ∃ i f, i ∈ dn ∧ feature r i f ∧ identifier f = h) ∧
              cached M' !! h = cached M !! h)))
    (order (get_cached_input_ids r M)) M) as (M'&->&HI'&Hn&Hc).
  - split_and!; try done. intros h. right. split; [|done]. intros (?&?&?%elem_of_nil&_). done.
  - intros dn i rest M1 Hl (HI1&Hn1&Hc1).
    assert (i ∈ get_cached_input_ids r M) as Hi.
    { apply elem_of_elements. rewrite <-Horder, Hl. set_solver. }
    apply cached_ids_spec in Hi as (f&Hf&_).
    destruct (free_encoder_input_spec M1 r i f HI1 Hf Hs) as (M2&->&HI2&Hc2&Hn2&_).
    exists M2. split_and!; try done; [lia|]. intros h. rewrite Hc2.
    fold drop1. case_decide as Heq.
    + left. split; [exists i, f; split_and!; set_solver|].
      destruct (Hc1 h) as [[_ E]|[_ E]]; rewrite E; [apply Hidem|done].
    + destruct (Hc1 h) as [[(j&g&?&?&?) E]|[Hno E]]; rewrite E.
      * left. split; [|done]. exists j, g. split_and!; set_solver.
      * right. split; [|done]. intros (j&g&Hj&Hg&<-).
        apply elem_of_app in Hj as [Hj|Hj]; [apply Hno; by exists j, g|].
        apply list_elem_of_singleton in Hj as ->.
        destruct Hf as [_ Hf], Hg as [_ Hg]. simplify_eq.
  - exists M'. split_and!; try done; intros h Hh.
    + destruct (Hc h) as [[_ E]|[Hno E]]; [done|]. rewrite E.
      destruct (cached M !! h) eqn:Hch; [|done]. exfalso. apply Hno.
      apply list_elem_of_fmap in Hh as (f&->&Hin).
      apply list_elem_of_lookup in Hin as [k Hk].
      assert (feature r (Z.of_nat k) f) as Hf by (split; [lia|by rewrite Nat2Z.id]).
      exists (Z.of_nat k), f. split_and!; try done. rewrite Horder.
      apply elem_of_elements, cached_ids_spec. by exists f.
    + destruct (Hc h) as [[(i&f&_&[_ Hf]&<-) _]|[_ E]]; [|done].
      destruct Hh. apply list_elem_of_fmap_2. by eapply list_elem_of_lookup_2.
Qed.

Lemma freed_hashes_spec M :
  enc_inv sz M → enc_inv sz (get_freed_mm_hashes M).2 ∧
  (get_freed_mm_hashes M).1 = freed M ∧ freed (get_freed_mm_hashes M).2 = [].
Proof. intros HI. split_and!; try done. split; apply HI. Qed.

(** The capacity that counts as freeable is what the referenced entries leave. *)
Lemma freeable_capacity M :
  enc_inv sz M →
  num_freeable_slots M = cache_size M - weight sz (filter (λ kv, kv.2 ≠ ∅) (cached M)) ∧
  0 ≤ num_free_slots M ≤ num_freeable_slots M ∧ num_freeable_slots M ≤ cache_size M.
Proof.
  intros HI. pose proof (ei_free _ _ HI) as HF. pose proof (ei_freeable _ _ HI) as HG.
  pose proof (ei_nonneg _ _ HI). pose proof (od_sum_nonneg M HI).
  assert (weight sz (cached M) = weight sz (filter (λ kv, kv.2 ≠ ∅) (cached M))
            + od_sum (freeable M)) as Hw.
  { pose proof (ei_entries _ _ HI) as Hent. pose proof (ei_nodup _ _ HI) as Hnd.
    clear HF HG. revert Hent Hnd. generalize (freeable M) (cached M). clear.
    intros d. induction d as [|[h n] d IH]; intros m Hent Hnd.
    - rewrite map_filter_id; [simpl; lia|]. intros h refs Hh Heq. simpl in Heq. subst refs.
      apply (elem_of_nil (h, sz h)). by apply Hent.
    - apply NoDup_cons in Hnd as [Hh Hnd].
      assert (m !! h = Some ∅ ∧ n = sz h) as [Hm ->] by (apply Hent; by left).
      specialize (IH (delete h m)). rewrite (weight_delete _ _ _ Hm) in IH. simpl.
      rewrite map_filter_delete_not in IH by (intros ? ?; naive_solver).
      rewrite <-Z.add_comm, <-Z.add_assoc. rewrite (Z.add_comm (od_sum d)), <-IH; [lia| |done].
      intros h' n'. rewrite lookup_delete. case_decide as Heq.
      + subst h'. split; [|naive_solver]. intros Hin. destruct Hh.
        apply list_elem_of_fmap. by exists (h, n').
      + rewrite <-Hent, elem_of_cons. naive_solver. }
  pose proof (weight_nonneg (filter (λ kv, kv.2 ≠ ∅) (cached M))). split; lia.
Qed.

(** ** Sequences of operations

    What the scheduler does with one encoder input: use the cached output, or
    reserve the space when there is room. *)
Definition schedule_input (r : Request) (i budget : Z) (M : EncoderCacheManager)
  : result EncoderCacheManager :=
  '(hit, M) ← check_and_update_cache r i M;
  if hit : bool then Ok M else
  '(room, M) ← can_allocate r i budget 0 M;
  if room : bool then allocate r i M else Ok M.

Inductive op :=
  | ScheduleInput (r : Request) (i budget : Z)
  | FreeInput (r : Request) (i : Z)
  | FreeAll (order : gset Z → list Z) (r : Request)
  | TakeFreed.

Definition exec (o : op) (M : EncoderCacheManager) : result EncoderCacheManager :=
  match o with
  | ScheduleInput r i budget => schedule_input r i budget M
  | FreeInput r i => free_encoder_input r i M
  | FreeAll order r => free order r M
  | TakeFreed => Ok (get_freed_mm_hashes M).2
  end.

Definition op_ok (o : op) : Prop :=
  match o with
  | ScheduleInput r i _ | FreeInput r i => sized sz r ∧ 0 ≤ i < len (mm_features r)
  | FreeAll order r => sized sz r ∧ ∀ X, order X ≡ₚ elements X
  | TakeFreed => True
  end.

Lemma feature_ex r i : 0 ≤ i < len (mm_features r) → ∃ f, feature r i f.
Proof.
  intros [? Hi]. unfold len in Hi.
  destruct (lookup_lt_is_Some_2 (mm_features r) (Z.to_nat i)) as [f Hf]; [lia|].
  by exists f.
Qed.

Lemma schedule_input_spec M r i f budget :
  enc_inv sz M → feature r i f → sized sz r →
  ∃ M', schedule_input r i budget M = Ok M' ∧ enc_inv sz M'.
Proof.
  intros HI Hf Hs. unfold schedule_input.
  destruct (check_and_update_spec M r i f HI Hf) as (M1&->&HI1&Hc1&_). simpl.
  case_bool_decide as Hhit; [by exists M1|].
  destruct (can_allocate_spec M1 r i f budget 0 HI1 Hf Hs) as (b&M2&ev&->&Hev&HI2&_&Hb&_).
  simpl. destruct b; [|by exists M2].
  destruct (enc_allocate_spec M2 r i f HI2 Hf Hs) as (M3&->&HI3&_); [|lia|by exists M3].
  rewrite (evd_cached _ _ _ Hev). case_decide; [done|].
  rewrite Hc1, lookup_alter_eq. destruct (cached M !! identifier f); [|done].
  destruct Hhit. done.
Qed.

Lemma exec_spec M o :
  enc_inv sz M → op_ok o → ∃ M', exec o M = Ok M' ∧ enc_inv sz M'.
Proof.
  intros HI Hok. destruct o; simpl in *.
  - destruct Hok as [Hs [f Hf]%feature_ex]. by eapply schedule_input_spec.
  - destruct Hok as [Hs [f Hf]%feature_ex].
    destruct (free_encoder_input_spec M r i f) as (M'&?&?&_); eauto.
  - destruct Hok as [Hs Ho]. destruct (enc_free_spec order M r) as (M'&?&?&_); eauto.
  - eexists. split; [done|]. by apply freed_hashes_spec.
Qed.
End proofs.

Lemma foldl_max_ge (l : list Z) a x : x ∈ a :: l → x ≤ foldl Z.max a l.
Proof.
  induction l as [|b l IH] in a, x |- *; simpl.
  - by intros ->%list_elem_of_singleton.
  - intros Hx. rewrite !elem_of_cons in Hx.
    assert (Z.max a b ≤ foldl Z.max (Z.max a b) l) by (apply IH; by left).
    destruct Hx as [->|[->|Hx]]; [lia|lia|apply IH; by right].
Qed.

(** ** Concrete values for the witnesses *)

Definition ex_request (rid : string) (fs : list MultiModalFeatureSpec) : Request :=
  mkRequest rid 0 0 None (Some (mkPooling None false)) None None 0 WAITING false [] None None 1
    None 0 [] [] 0 [] 0 None fs (-1) 0 [].

Definition ex_size (h : string) : Z := if decide (h = "a"%string) then 3 else 2.
Definition ex_feature (h : string) : MultiModalFeatureSpec :=
  mkMM h (mkRange 0 (ex_size h)).

Lemma ex_size_nonneg h : 0 ≤ ex_size h.
Proof. unfold ex_size. case_decide; lia. Qed.
Lemma ex_sized rid hs : sized ex_size (ex_request rid (ex_feature <$> hs)).
Proof. intros f Hf. simpl in Hf. apply list_elem_of_fmap in Hf as (h&->&_). done. Qed.
Lemma elements_order (X : gset Z) : elements X ≡ₚ elements X.
Proof. done. Qed.

(** C36. The encoder cache never fails: from an empty cache of any size, every
    sequence of the scheduler's operations (use or reserve an input, free one
    input, free a request in any iteration order, collect the evicted hashes)
    runs without raising, and in the state it leaves the free slots are the
    capacity minus the cached entries, never negative, and the freeable entries
    are exactly the unreferenced ones. *)
Theorem encoder_cache_safe sz size ops :
  (∀ h, 0 ≤ sz h) → 0 ≤ size → Forall (op_ok sz) ops →
  ∃ M, for_each exec ops (init size) = Ok M ∧ enc_inv sz M.
Proof.
  intros Hsz Hsize Hops.
  destruct (for_each_ind exec (λ _ M, enc_inv sz M) ops (init size)) as (M&?&?); eauto.
  - by apply init_inv.
  - intros dn o rest M Hl HI. apply exec_spec; [done|done|].
    rewrite Forall_forall in Hops. apply Hops. rewrite Hl. set_solver.
Qed.

Definition ex_ops : list op :=
  let r1 := ex_request "r1" (ex_feature <$> ["a"; "b"]%string) in
  let r2 := ex_request "r2" (ex_feature <$> ["c"; "b"]%string) in
  [ScheduleInput r1 0 10; ScheduleInput r1 1 10; FreeInput r1 0;
   ScheduleInput r2 0 10; ScheduleInput r2 1 10; FreeAll elements r1; TakeFreed].

Lemma encoder_cache_safe_witness :
  is_ok (for_each exec ex_ops (init 5)) = true ∧
  ∃ M, for_each exec ex_ops (init 5) = Ok M ∧ enc_inv ex_size M.
Proof.
  split; [by vm_compute|].
  apply (encoder_cache_safe ex_size 5 ex_ops); [apply ex_size_nonneg|lia|].
  unfold ex_ops. repeat apply Forall_cons_2; try apply Forall_nil_2.
  all: try (split; [apply ex_sized|unfold len; simpl; lia]).
  all: try done. split; [apply ex_sized|apply elements_order].
Defined.


Definition ex_full : EncoderCacheManager :=
  mkEnc 5 0 3 {["a" := ∅; "b" := {["r1"]}]}%string [("a", 3)]%string [].

Lemma ex_full_inv : enc_inv ex_size ex_full.
Proof.
  split; simpl; [done|done| | |done].
  - intros h n. rewrite list_elem_of_singleton, lookup_insert. split.
    + intros [= -> ->]. by rewrite decide_True.
    + case_decide as Hh; [subst; intros [_ ->]; done|].
      intros [[_ E]%lookup_singleton_Some _]. by apply non_empty_singleton_L in E.
  - by apply NoDup_singleton.
Qed.


(** The encoder budgets: every modality's largest item fits both budgets, and
    the only error is a disabled chunking with an item larger than a batch. *)
Theorem compute_mm_encoder_budget_correct c m :
  match compute_mm_encoder_budget c m with
  | Ok (compute, space) =>
      (∀ k v, (k, v) ∈ m → v ≤ compute ∧ v ≤ space) ∧
      (m ≠ [] → max_num_encoder_input_tokens c ≤ compute ∧ encoder_cache_size c ≤ space)
  | Err e => e = ValueError ∧ disable_chunked_mm_input c = true ∧
      ∃ k v, (k, v) ∈ m ∧ max_num_batched_tokens c < v
  end.
Proof.
  unfold compute_mm_encoder_budget. destruct m as [|[k0 v0] m].
  { split; [by intros ? ? ?%elem_of_nil|done]. }
  assert (∃ k v, (k, v) ∈ (k0, v0) :: m ∧ v = foldl Z.max v0 m.*2) as (k&v&Hin&Hv).
  { clear c. induction m as [|[k1 v1] m IH] in k0, v0 |- *; simpl.
    - exists k0, v0. split; [by left|done].
    - destruct (Z.max_spec v0 v1) as [[? ->]|[? ->]].
      + destruct (IH k1 v1) as (k&v&Hin&->). exists k. eexists. split; [by right|done].
      + destruct (IH k0 v0) as (k&v&Hin&->). exists k, (foldl Z.max v0 m.*2).
        split; [|done]. apply elem_of_cons in Hin as [E|Hin]; [rewrite E; by left|right; by right]. }
  rewrite fmap_cons. cbn [snd].
  destruct (disable_chunked_mm_input c); cbn [andb]; rewrite ?Z.gtb_ltb.
  1: destruct (Z.ltb_spec (max_num_batched_tokens c) (foldl Z.max v0 m.*2)).
  1: { split_and!; try done. exists k, v. split; [done|lia]. }
  all: split; [|intros _; lia]; intros k' v' Hin';
    assert (v' ∈ v0 :: m.*2) as Hv' by (change (v0 :: m.*2) with ((k0, v0) :: m).*2;
      apply list_elem_of_fmap; by exists (k', v'));
    apply foldl_max_ge in Hv'; lia.
Qed.
End Enc.
