(* ===== verification/RequestQueue.v ===== *)
(** * Request queues

    Models src/vllm/v1/core/sched/request_queue.py: the FCFS queue (a [deque])
    and the priority queue (a binary heap kept by Python's [heapq], whose
    [heappush], [heappop] and [heapify] are modelled with their sift loops).
    A queue holds references to [Request] objects, compared by identity; the
    model holds their request ids, one object per id. *)
From S2P Require Import Prelude Request.

(** ** Python's [heapq]

    [lt] is [<] on the items, which may raise. *)

Definition parent (i : nat) : nat := Nat.div2 (i - 1).

Section heapq.
Context {A : Type} (lt : A → A → result bool).

(** [_siftdown]: [newitem] moves from [pos] towards [startpos]; the position
    decreases at every turn, so [pos] turns are enough. *)
Fixpoint siftdown_loop (fuel : nat) (heap : list A) (startpos pos : nat) (newitem : A)
  : result (list A) :=
  match fuel with
  | 0%nat => Err OutOfFuel
  | S fuel =>
      if decide (startpos < pos)%nat then
        p ← of_option IndexError (heap !! parent pos);
        less ← lt newitem p;
        if less : bool
        then siftdown_loop fuel (<[pos := p]> heap) startpos (parent pos) newitem
        else Ok (<[pos := newitem]> heap)
      else Ok (<[pos := newitem]> heap)
  end.

Definition siftdown (heap : list A) (startpos pos : nat) : result (list A) :=
  newitem ← of_option IndexError (heap !! pos);
  siftdown_loop (S pos) heap startpos pos newitem.

(** The choice of the smaller child in [_siftup]. *)
Definition smaller_child (heap : list A) (childpos : nat) : result nat :=
  if decide (childpos + 1 < length heap)%nat then
    l ← of_option IndexError (heap !! childpos);
    r ← of_option IndexError (heap !! (childpos + 1)%nat);
    less ← lt l r;
    Ok (if less : bool then childpos else childpos + 1)%nat
  else Ok childpos.

(** [_siftup]: the hole at [pos] sinks to a leaf. *)
Fixpoint siftup_loop (fuel : nat) (heap : list A) (pos : nat) : result (list A * nat) :=
  match fuel with
  | 0%nat => Err OutOfFuel
  | S fuel =>
      if decide (2 * pos + 1 < length heap)%nat then
        childpos ← smaller_child heap (2 * pos + 1);
        c ← of_option IndexError (heap !! childpos);
        siftup_loop fuel (<[pos := c]> heap) childpos
      else Ok (heap, pos)
  end.

Definition siftup (heap : list A) (startpos : nat) : result (list A) :=
  newitem ← of_option IndexError (heap !! startpos);
  '(heap, pos) ← siftup_loop (S (length heap - startpos)) heap startpos;
  siftdown_loop (S pos) heap startpos pos newitem.

Definition heappush (heap : list A) (item : A) : result (list A) :=
  siftdown (heap ++ [item]) 0 (length heap).

Definition heappop (heap : list A) : result (A * list A) :=
  lastelt ← of_option IndexError (last heap);
  match removelast heap with
  | [] => Ok (lastelt, [])
  | returnitem :: rest =>
      heap ← siftup (lastelt :: rest) 0;
      Ok (returnitem, heap)
  end.

(** [for i in reversed(range(n // 2)): _siftup(x, i)]. *)
Fixpoint heapify_loop (n : nat) (heap : list A) : result (list A) :=
  match n with
  | 0%nat => Ok heap
  | S i => heap ← siftup heap i; heapify_loop i heap
  end.
Definition heapify (heap : list A) : result (list A) :=
  heapify_loop (length heap `div` 2) heap.

(** Popping until the heap is empty. *)
Fixpoint drain (fuel : nat) (heap : list A) : result (list A) :=
  match fuel, heap with
  | _, [] => Ok []
  | 0%nat, _ => Err OutOfFuel
  | S fuel, _ =>
      '(x, heap) ← heappop heap;
      xs ← drain fuel heap;
      Ok (x :: xs)
  end.

(** *** The heap order

    [ltb] is a strict weak order and [lt] computes it on the items of the heap. *)

Context (ltb : A → A → bool).
Notation "x ⪯ y" := (ltb y x = false) (at level 70).
Hypothesis ltb_asym : ∀ x y, ltb x y = true → x ⪯ y.
Hypothesis le_trans : ∀ x y z, x ⪯ y → y ⪯ z → x ⪯ z.

Definition agrees (h : list A) : Prop := ∀ x y, x ∈ h → y ∈ h → lt x y = Ok (ltb x y).

(** The edge from [i] to its parent respects the order. *)
Definition edge (h : list A) (i : nat) : Prop :=
  ∀ x y, h !! parent i = Some x → h !! i = Some y → x ⪯ y.

Definition heap_from (s : nat) (h : list A) : Prop :=
  ∀ i, (0 < i)%nat → (s ≤ parent i)%nat → edge h i.

(** [p] lies in the subtree of [s]. *)
Inductive desc (s : nat) : nat → Prop :=
  | desc_refl : desc s s
  | desc_left p : desc s p → desc s (2 * p + 1)
  | desc_right p : desc s p → desc s (2 * p + 2).

Lemma parent_left p : parent (2 * p + 1) = p.
Proof. unfold parent. rewrite Nat.add_sub. apply Nat.div2_double. Qed.
Lemma parent_right p : parent (2 * p + 2) = p.
Proof.
  unfold parent. replace (2 * p + 2 - 1)%nat with (S (2 * p)) by lia.
  apply Nat.div2_succ_double.
Qed.
Lemma parent_lt i : (0 < i)%nat → (parent i < i)%nat.
Proof. intros. unfold parent. rewrite Nat.div2_div. apply Nat.Div0.div_lt_upper_bound; lia. Qed.
Lemma child_cases i : (0 < i)%nat → i = (2 * parent i + 1)%nat ∨ i = (2 * parent i + 2)%nat.
Proof.
  intros. unfold parent. rewrite Nat.div2_div.
  pose proof (Nat.div_mod_eq (i - 1) 2). pose proof (Nat.mod_upper_bound (i - 1) 2). lia.
Qed.

Lemma desc_parent s p :
  desc s p → p = s ∨ (0 < p ∧ s ≤ parent p ∧ desc s (parent p))%nat.
Proof.
  assert (∀ q, desc s q → (s ≤ q)%nat) as Hle by (induction 1; lia).
  destruct 1; [by left|right..]; rewrite ?parent_left, ?parent_right;
    split_and!; try done; auto; lia.
Qed.

Lemma desc_0 p : desc 0 p.
Proof.
  induction p as [p IH] using lt_wf_ind. destruct (decide (p = 0%nat)) as [->|]; [constructor|].
  specialize (IH (parent p) ltac:(apply parent_lt; lia)).
  destruct (child_cases p) as [->| ->]; [lia| |]; by constructor.
Qed.

Lemma cons_insert_perm (l : list A) i x y :
  l !! i = Some x → x :: <[i := y]> l ≡ₚ y :: l.
Proof.
  induction l as [|z l IH] in i |- *; [done|]. destruct i as [|i]; simpl.
  - intros [= ->]. by constructor.
  - intros Hi. rewrite (Permutation_swap z x), (IH i Hi). constructor.
Qed.

Lemma swap_perm (l : list A) i j x y :
  i ≠ j → l !! i = Some x → l !! j = Some y → <[i := y]> (<[j := x]> l) ≡ₚ l.
Proof.
  intros Hij Hi Hj. apply (inj (cons x)).
  rewrite (cons_insert_perm _ i x y) by (by rewrite list_lookup_insert_ne).
  by apply cons_insert_perm.
Qed.

Lemma agrees_perm h h' : h ≡ₚ h' → agrees h → agrees h'.
Proof. intros Hp Ha x y Hx Hy. apply Ha; by rewrite Hp. Qed.

Lemma siftdown_loop_spec fuel h s pos new :
  (pos < length h)%nat → (pos < fuel)%nat → desc s pos →
  agrees (<[pos := new]> h) →
  (∀ i, (0 < i)%nat → (s ≤ parent i)%nat → i ≠ pos → edge (<[pos := new]> h) i) →
  ((s < pos)%nat → ∀ i x y, (0 < i)%nat → parent i = pos →
     h !! parent pos = Some x → h !! i = Some y → x ⪯ y) →
  ∃ h', siftdown_loop fuel h s pos new = Ok h' ∧ h' ≡ₚ <[pos := new]> h ∧ heap_from s h'.
Proof.
  induction fuel as [|fuel IH] in h, pos |- *; intros Hpos Hfuel Hd Ha He Hg; [lia|]; simpl.
  apply desc_parent in Hd as Hd'. case_decide as Hlt.
  2:{ eexists. split_and!; [done|done|]. intros i ? ?. apply He; [done..|].
      intros ->. pose proof (parent_lt pos). lia. }
  destruct Hd' as [?|(Hp0&Hsp&Hdp)]; [lia|]. pose proof (parent_lt pos Hp0) as Hpp.
  set (q := parent pos) in *.
  destruct (lookup_lt_is_Some_2 h q) as [p Hp]; [lia|]. rewrite Hp. simpl.
  assert (<[pos := new]> h !! q = Some p) as HpH by (by rewrite list_lookup_insert_ne by lia).
  assert (<[pos := new]> h !! pos = Some new) as HnH by (by apply list_lookup_insert_eq).
  rewrite (Ha new p) by (by eapply list_elem_of_lookup_2). simpl.
  destruct (ltb new p) eqn:Hless.
  2:{ eexists. split_and!; [done|done|]. intros i Hi Hs. destruct (decide (i = pos)) as [->|];
        [|by apply He]. intros x y. fold q. rewrite HpH, HnH. by intros [= <-] [= <-]. }
  assert (∀ i, i ≠ pos → i ≠ q → <[q := new]> (<[pos := p]> h) !! i = h !! i) as Hother
    by (intros; by rewrite !list_lookup_insert_ne by done).
  assert (<[q := new]> (<[pos := p]> h) !! pos = Some p) as Hatpos.
  { rewrite list_lookup_insert_ne by lia. by apply list_lookup_insert_eq. }
  assert (<[q := new]> (<[pos := p]> h) !! q = Some new) as Hatq.
  { apply list_lookup_insert_eq. rewrite length_insert. lia. }
  assert (∀ i y, (0 < i)%nat → i ≠ pos → parent i = q → h !! i = Some y → p ⪯ y) as Hsib.
  { intros i y ? ? Hi Hy. apply (He i); [done|by rewrite Hi|done|by rewrite Hi|].
    by rewrite list_lookup_insert_ne by done. }
  assert (<[q := new]> (<[pos := p]> h) ≡ₚ <[pos := new]> h) as Hperm.
  { rewrite <-(swap_perm (<[pos := new]> h) q pos p new) by (done || lia).
    by rewrite list_insert_insert_eq. }
  destruct (IH (<[pos := p]> h) q) as (h'&->&Hp'&Hh'); [| lia| done| | | |].
  - rewrite length_insert. lia.
  - by eapply agrees_perm.
  - intros i Hi Hs Hne x y. destruct (decide (i = pos)) as [->|Hnp].
    + fold q. rewrite Hatpos, Hatq. intros [= <-] [= <-]. by apply ltb_asym.
    + rewrite (Hother i) by done. intros Hx Hy.
      destruct (decide (parent i = pos)) as [E|]; [|destruct (decide (parent i = q)) as [E|]].
      * rewrite E, Hatpos in Hx. simplify_eq. by apply (Hg Hlt i).
      * rewrite E, Hatq in Hx. simplify_eq. apply (le_trans _ p); [by apply ltb_asym|].
        by apply (Hsib i).
      * rewrite Hother in Hx by done. apply (He i Hi Hs Hnp);
          by rewrite list_lookup_insert_ne by done.
  - intros Hsq i x y Hi Hpi.
    assert (x = x → h !! parent q = Some x → x ⪯ p) as Hxp.
    { intros _ Hx. pose proof (parent_lt q ltac:(lia)).
      destruct (desc_parent _ _ Hdp) as [?|(_&?&_)]; [lia|].
      apply (He q); [lia|lia|lia| |done]. by rewrite list_lookup_insert_ne by lia. }
    pose proof (parent_lt q ltac:(lia)).
    rewrite list_lookup_insert_ne by lia. intros Hx.
    destruct (decide (i = pos)) as [->|].
    + rewrite list_lookup_insert_eq by done. intros [= <-]. by apply Hxp.
    + rewrite list_lookup_insert_ne by done. intros Hy.
      apply (le_trans _ p); [by apply Hxp|by apply (Hsib i)].
  - exists h'. split_and!; try done. by rewrite Hp'.
Qed.

Lemma le_refl x : x ⪯ x.
Proof. destruct (ltb x x) eqn:E; [by rewrite (ltb_asym _ _ E) in E|done]. Qed.

Lemma child_of i p : (0 < i)%nat → parent i = p → i = (2 * p + 1)%nat ∨ i = (2 * p + 2)%nat.
Proof. intros Hi <-. by apply child_cases. Qed.

Lemma smaller_child_spec h pos :
  (2 * pos + 1 < length h)%nat →
  (∀ i j x y, i ≠ pos → j ≠ pos → h !! i = Some x → h !! j = Some y → lt x y = Ok (ltb x y)) →
  ∃ c v, smaller_child h (2 * pos + 1) = Ok c ∧
    (0 < c)%nat ∧ parent c = pos ∧ (c < length h)%nat ∧ h !! c = Some v ∧
    ∀ i y, (0 < i)%nat → parent i = pos → h !! i = Some y → v ⪯ y.
Proof.
  intros Hl Ha. unfold smaller_child.
  destruct (lookup_lt_is_Some_2 h _ Hl) as [l Hlv].
  case_decide as Hr.
  - destruct (lookup_lt_is_Some_2 h _ Hr) as [r Hrv]. rewrite Hlv, Hrv. cbn [of_option]. rewrite !Ok_bind.
    rewrite (Ha (2 * pos + 1)%nat (2 * pos + 1 + 1)%nat l r), Ok_bind by (done || lia).
    assert (2 * pos + 1 + 1 = 2 * pos + 2)%nat as E by lia. rewrite E in *.
    destruct (ltb l r) eqn:Hlr; [exists (2 * pos + 1)%nat, l|exists (2 * pos + 2)%nat, r];
      (split_and!; [done|lia|auto using parent_left, parent_right|lia|done|]);
      intros i y Hi Hp Hy; destruct (child_of i pos Hi Hp) as [->| ->]; simplify_eq;
      auto using le_refl.
  - exists (2 * pos + 1)%nat, l. split_and!; [done|lia|apply parent_left|lia|done|].
    intros i y Hi Hp Hy. destruct (child_of i pos Hi Hp) as [->| ->].
    + simplify_eq. apply le_refl.
    + apply lookup_lt_Some in Hy. lia.
Qed.

Lemma siftup_loop_spec fuel h s pos new :
  (pos < length h)%nat → (length h - pos < fuel)%nat → desc s pos →
  agrees (<[pos := new]> h) →
  (∀ i, (0 < i)%nat → (s ≤ parent i)%nat → i ≠ pos → parent i ≠ pos → edge h i) →
  ((s < pos)%nat → ∀ i x y, (0 < i)%nat → parent i = pos →
     h !! parent pos = Some x → h !! i = Some y → x ⪯ y) →
  ∃ h' pos', siftup_loop fuel h pos = Ok (h', pos') ∧ length h' = length h ∧
    (pos' < length h' ≤ 2 * pos' + 1)%nat ∧ desc s pos' ∧
    <[pos' := new]> h' ≡ₚ <[pos := new]> h ∧
    (∀ i, (0 < i)%nat → (s ≤ parent i)%nat → i ≠ pos' → edge (<[pos' := new]> h') i).
Proof.
  induction fuel as [|fuel IH] in h, pos |- *; intros Hpos Hfuel Hd Ha He Hg; [lia|]; simpl.
  case_decide as Hchild.
  2:{ exists h, pos. split_and!; try done; [lia|]. intros i Hi Hs Hne x y Hx Hy.
      rewrite list_lookup_insert_ne in Hy by done.
      assert (parent i ≠ pos) as Hnp.
      { intros Hp. apply lookup_lt_Some in Hy. destruct (child_of i pos Hi Hp); lia. }
      rewrite list_lookup_insert_ne in Hx by done. by apply (He i). }
  replace (pos + (pos + 0) + 1)%nat with (2 * pos + 1)%nat in * by lia.
  destruct (smaller_child_spec h pos Hchild) as (c&v&->&Hc0&Hcp&Hcl&Hcv&Hmin).
  { intros i j x y ? ? Hx Hy.
    apply Ha; eapply list_elem_of_lookup_2; rewrite list_lookup_insert_ne; done. }
  simpl. rewrite Hcv. simpl.
  pose proof (parent_lt c Hc0) as Hpc. rewrite Hcp in Hpc.
  assert (<[pos := v]> h !! pos = Some v) as Hatpos by (by apply list_lookup_insert_eq).
  assert (<[c := new]> (<[pos := v]> h) ≡ₚ <[pos := new]> h) as Hperm.
  { rewrite <-(swap_perm (<[pos := new]> h) c pos v new);
      [by rewrite list_insert_insert_eq|lia|by rewrite list_lookup_insert_ne by lia|].
    by apply list_lookup_insert_eq. }
  destruct (IH (<[pos := v]> h) c) as (h'&pos'&Heq&Hlen&Hpos'&Hd'&Hp'&He').
  - by rewrite length_insert.
  - rewrite length_insert. lia.
  - destruct (child_of c pos Hc0 Hcp) as [->| ->]; by constructor.
  - by eapply agrees_perm.
  - intros i Hi Hs Hne Hnp x y. destruct (decide (i = pos)) as [->|Hip].
    + pose proof (parent_lt pos Hi). rewrite Hatpos, list_lookup_insert_ne by lia.
      intros Hx [= <-]. destruct (desc_parent _ _ Hd) as [->|(_&?&_)]; [lia|].
      apply (Hg ltac:(lia) c x v Hc0 Hcp Hx Hcv).
    + rewrite (list_lookup_insert_ne h pos i) by done. intros Hx Hy.
      destruct (decide (parent i = pos)) as [E|].
      * rewrite E, Hatpos in Hx. simplify_eq. by apply (Hmin i).
      * rewrite list_lookup_insert_ne in Hx by done. by apply (He i).
  - intros _ i x y Hi Hpi. rewrite Hcp, Hatpos. intros [= <-].
    assert (c < i)%nat by (rewrite <-Hpi; by apply parent_lt).
    rewrite list_lookup_insert_ne by lia. intros Hy.
    apply (He i Hi); [|lia|rewrite Hpi; lia|by rewrite Hpi|done].
    rewrite Hpi. assert (∀ q, desc s q → (s ≤ q)%nat) as Hle by (induction 1; lia).
    specialize (Hle _ Hd). lia.
  - rewrite length_insert in Hlen. exists h', pos'. rewrite Heq. split_and!; try done; try lia.
    by rewrite Hp'.
Qed.

Lemma siftup_spec h s :
  (s < length h)%nat → agrees h → heap_from (S s) h →
  ∃ h', siftup h s = Ok h' ∧ h' ≡ₚ h ∧ heap_from s h'.
Proof.
  intros Hs Ha He. unfold siftup.
  destruct (lookup_lt_is_Some_2 h s Hs) as [new Hnew]. rewrite Hnew. cbn [of_option]. rewrite Ok_bind.
  pose proof (list_insert_id h s new Hnew) as Hid.
  destruct (siftup_loop_spec (S (length h - s)) h s s new) as (h1&pos&->&Hlen&Hpos&Hd&Hp&He1).
  - done.
  - lia.
  - constructor.
  - by rewrite Hid.
  - intros i Hi Hsi _ Hne. apply He; [done|lia].
  - lia.
  - rewrite Ok_bind. rewrite Hid in Hp.
    destruct (siftdown_loop_spec (S pos) h1 s pos new) as (h'&->&Hp'&Hh'); try done; try lia.
    + by eapply agrees_perm.
    + intros _ i x y Hi Hpi _ Hy. apply lookup_lt_Some in Hy.
      destruct (child_of i pos Hi Hpi); lia.
    + exists h'. split_and!; [done|by rewrite Hp'|done].
Qed.

Lemma heappush_spec h x :
  agrees (h ++ [x]) → heap_from 0 h →
  ∃ h', heappush h x = Ok h' ∧ h' ≡ₚ x :: h ∧ heap_from 0 h'.
Proof.
  intros Ha He. unfold heappush, siftdown.
  rewrite list_lookup_middle by done. cbn [of_option]. rewrite Ok_bind.
  assert (<[length h := x]> (h ++ [x]) = h ++ [x]) as Hid
    by (by apply list_insert_id, list_lookup_middle).
  destruct (siftdown_loop_spec (S (length h)) (h ++ [x]) 0 (length h) x) as (h'&->&Hp&Hh').
  - rewrite length_app. simpl. lia.
  - lia.
  - apply desc_0.
  - by rewrite Hid.
  - rewrite Hid. intros i Hi _ Hne y z Hy Hz.
    apply lookup_lt_Some in Hz as Hl. rewrite length_app in Hl. simpl in Hl.
    pose proof (parent_lt i Hi). rewrite lookup_app_l in Hy, Hz by lia.
    apply (He i); [lia|lia|done|done].
  - intros _ i y z Hi Hpi _ Hz. pose proof (parent_lt i Hi).
    apply lookup_lt_Some in Hz. rewrite length_app in Hz. simpl in Hz. lia.
  - exists h'. split_and!; [done| |done]. by rewrite Hp, Hid, Permutation_app_comm.
Qed.

(** The root of a heap is a least element. *)
Lemma heap_root h x y : heap_from 0 h → h !! 0%nat = Some x → y ∈ h → x ⪯ y.
Proof.
  intros He Hx Hy. apply list_elem_of_lookup in Hy as [i Hi].
  revert y Hi. induction i as [i IH] using lt_wf_ind. intros y Hi.
  destruct (decide (i = 0%nat)) as [->|]; [simplify_eq; apply le_refl|].
  pose proof (parent_lt i ltac:(lia)). apply lookup_lt_Some in Hi as Hl.
  destruct (lookup_lt_is_Some_2 h (parent i)) as [z Hz]; [lia|].
  apply (le_trans _ z); [by eapply IH|]. apply (He i); [lia|lia|done|done].
Qed.

Lemma heappop_spec h :
  h ≠ [] → agrees h → heap_from 0 h →
  ∃ x h', heappop h = Ok (x, h') ∧ h ≡ₚ x :: h' ∧ heap_from 0 h' ∧
    head h = Some x ∧ ∀ y, y ∈ h → x ⪯ y.
Proof.
  intros Hne Ha He. destruct h as [|z k _] using rev_ind; [done|].
  unfold heappop. rewrite last_snoc, removelast_last. cbn [of_option]. rewrite Ok_bind.
  destruct k as [|r rest]; simpl in *.
  { exists z, []. split_and!; [done|done|by intros ? ? ? ? ? ?|done|].
    intros y ->%list_elem_of_singleton. apply le_refl. }
  assert (r :: rest ++ [z] ≡ₚ r :: z :: rest) as Hp by (by rewrite Permutation_app_comm).
  destruct (siftup_spec (z :: rest) 0) as (h'&->&Hp'&He').
  - simpl. lia.
  - intros x y Hx Hy. apply Ha; rewrite Hp; by right.
  - intros i Hi Hs x y Hx Hy. destruct i as [|i]; [lia|].
    destruct (parent (S i)) as [|j] eqn:Hj; [lia|]. simpl in Hx, Hy.
    apply (He (S i)); [lia|lia| |].
    + rewrite Hj. simpl. apply lookup_lt_Some in Hx as Hl. rewrite lookup_app_l; [done|lia].
    + simpl. apply lookup_lt_Some in Hy as Hl. rewrite lookup_app_l; [done|lia].
  - rewrite Ok_bind. exists r, h'. split_and!; try done.
    + by rewrite Hp, Hp'.
    + intros y Hy. by apply (heap_root _ _ _ He).
Qed.

Lemma heapify_loop_spec n h :
  (n ≤ length h)%nat → agrees h → heap_from n h →
  ∃ h', heapify_loop n h = Ok h' ∧ h' ≡ₚ h ∧ heap_from 0 h'.
Proof.
  induction n as [|n IH] in h |- *; intros Hn Ha He; [by exists h|].
  cbn [heapify_loop]. destruct (siftup_spec h n) as (h1&->&Hp1&He1); [lia|done|done|].
  rewrite Ok_bind. destruct (IH h1) as (h2&->&Hp2&He2).
  - rewrite Hp1. lia.
  - by eapply agrees_perm.
  - done.
  - exists h2. split_and!; [done|by rewrite Hp2|done].
Qed.

Lemma heapify_spec h :
  agrees h → ∃ h', heapify h = Ok h' ∧ h' ≡ₚ h ∧ heap_from 0 h'.
Proof.
  intros Ha. unfold heapify.
  pose proof (Nat.div_mod_eq (length h) 2) as Hd.
  pose proof (Nat.mod_upper_bound (length h) 2 ltac:(lia)) as Hm.
  apply heapify_loop_spec; [lia|done|].
  intros i Hi Hs x y Hx Hy. apply lookup_lt_Some in Hy.
  destruct (child_cases i Hi); lia.
Qed.

Lemma drain_spec fuel h :
  (length h ≤ fuel)%nat → agrees h → heap_from 0 h →
  ∃ l, drain fuel h = Ok l ∧ l ≡ₚ h ∧ StronglySorted (λ x y, x ⪯ y) l.
Proof.
  induction fuel as [|fuel IH] in h |- *; intros Hlen Ha He.
  { destruct h; [|simpl in *; lia]. exists []. split_and!; [done|done|constructor]. }
  destruct (decide (h = [])) as [->|Hne].
  { exists []. split_and!; [done|done|constructor]. }
  destruct (heappop_spec h Hne Ha He) as (x&h'&Hpop&Hp&He'&_&Hmin).
  assert (drain (S fuel) h = ('(x, heap) ← heappop h; xs ← drain fuel heap; Ok (x :: xs))) as ->
    by (by destruct h).
  rewrite Hpop, Ok_bind.
  destruct (IH h') as (l&->&Hpl&Hs).
  - rewrite Hp in Hlen. simpl in Hlen. lia.
  - intros y z Hy Hz. apply Ha; rewrite Hp; by right.
  - done.
  - exists (x :: l). split_and!; [done|by rewrite Hpl, Hp|]. constructor; [done|].
    apply Forall_forall. intros y Hy. apply Hmin. rewrite Hp, <-Hpl. by right.
Qed.
End heapq.

(** ** The interface [RequestQueue]

    The abstract base class.  A queue holds references to requests, by id;
    [prepend_requests] takes the requests the other queue yields when iterated. *)

Inductive SchedulingPolicy : Set := FCFS | PRIORITY.

Class RequestQueue (Q : Type) := {
  add_request : Request → Q → result Q;
  pop_request : Q → result (string * Q);
  peek_request : Q → result string;
  prepend_request : Request → Q → result Q;
  prepend_requests : list Request → Q → result Q;
  remove_request : string → Q → result Q;
  remove_requests : list string → Q → result Q;
  queue_bool : Q → bool;
  queue_len : Q → Z;
  queue_iter : Q → result (list string);
  queue_reversed : Q → result (list string);
}.

(** *** [FCFSRequestQueue]: a deque *)

Module Fcfs.
Record FCFSRequestQueue := mkFcfs { deque : list string }.

Definition add_request (r : Request) (q : FCFSRequestQueue) : result FCFSRequestQueue :=
  Ok (mkFcfs (deque q ++ [request_id r])).
Definition pop_request (q : FCFSRequestQueue) : result (string * FCFSRequestQueue) :=
  match deque q with
  | [] => Err IndexError
  | r :: rs => Ok (r, mkFcfs rs)
  end.
Definition peek_request (q : FCFSRequestQueue) : result string :=
  match deque q with
  | [] => Err IndexError
  | r :: _ => Ok r
  end.
Definition prepend_request (r : Request) (q : FCFSRequestQueue) : result FCFSRequestQueue :=
  Ok (mkFcfs (request_id r :: deque q)).
(** [extendleft(reversed(requests))]: each element goes to the left end in turn;
    [reversed_requests] is what [reversed] yields. *)
Definition prepend_requests (reversed_requests : list string) (q : FCFSRequestQueue)
  : FCFSRequestQueue :=
  mkFcfs (foldl (λ d r, r :: d) (deque q) reversed_requests).
(** [deque.remove]: the first occurrence. *)
Fixpoint deque_remove (r : string) (d : list string) : result (list string) :=
  match d with
  | [] => Err ValueError
  | x :: d => if decide (x = r) then Ok d else (λ d, x :: d) <$> deque_remove r d
  end.
Definition remove_request (r : string) (q : FCFSRequestQueue) : result FCFSRequestQueue :=
  mkFcfs <$> deque_remove r (deque q).
Definition remove_requests (rs : list string) (q : FCFSRequestQueue)
  : result FCFSRequestQueue :=
  Ok (mkFcfs (filter (λ r, r ∉ rs) (deque q))).
End Fcfs.

#[export] Instance fcfs_queue : RequestQueue Fcfs.FCFSRequestQueue := {|
  add_request := Fcfs.add_request;
  pop_request := Fcfs.pop_request;
  peek_request := Fcfs.peek_request;
  prepend_request := Fcfs.prepend_request;
  prepend_requests := λ rs q, Ok (Fcfs.prepend_requests (reverse (request_id <$> rs)) q);
  remove_request := Fcfs.remove_request;
  remove_requests := Fcfs.remove_requests;
  queue_bool := λ q, 0 <? len (Fcfs.deque q);
  queue_len := λ q, len (Fcfs.deque q);
  queue_iter := λ q, Ok (Fcfs.deque q);
  queue_reversed := λ q, Ok (reverse (Fcfs.deque q));
|}.

(** *** [PriorityRequestQueue]: a heap of tuples

    Python compares two tuples at the first position where they differ; two
    distinct [Request]s there have no [<]. *)

Module Prio.
Definition entry : Type := Z * Z * string.

Definition entry_lt (x y : entry) : result bool :=
  if negb (x.1.1 =? y.1.1) then Ok (x.1.1 <? y.1.1)
  else if negb (x.1.2 =? y.1.2) then Ok (x.1.2 <? y.1.2)
  else if decide (x.2 = y.2) then Ok false
  else Err TypeError.

Record PriorityRequestQueue := mkPrio { heap : list entry }.

Definition init : PriorityRequestQueue := mkPrio [].

Definition add_request (r : Request) (q : PriorityRequestQueue)
  : result PriorityRequestQueue :=
  mkPrio <$> heappush entry_lt (heap q) (priority r, arrival_time r, request_id r).

Definition pop_request (q : PriorityRequestQueue)
  : result (string * PriorityRequestQueue) :=
  match heap q with
  | [] => Err IndexError
  | h => '(x, h) ← heappop entry_lt h; Ok (x.2, mkPrio h)
  end.

Definition peek_request (q : PriorityRequestQueue) : result string :=
  match heap q with
  | [] => Err IndexError
  | x :: _ => Ok x.2
  end.

Definition prepend_request := add_request.

(** The loop over another queue, given by the requests it yields. *)
Definition prepend_requests (requests : list Request) (q : PriorityRequestQueue)
  : result PriorityRequestQueue :=
  for_each add_request requests q.

Definition remove_request (r : string) (q : PriorityRequestQueue)
  : result PriorityRequestQueue :=
  mkPrio <$> heapify entry_lt (filter (λ x, x.2 ≠ r) (heap q)).

Definition remove_requests (rs : list string) (q : PriorityRequestQueue)
  : result PriorityRequestQueue :=
  mkPrio <$> heapify entry_lt (filter (λ x, x.2 ∉ rs) (heap q)).

(** [__iter__] pops a copy of the heap until it is empty. *)
Definition iter (q : PriorityRequestQueue) : result (list string) :=
  l ← drain entry_lt (length (heap q)) (heap q); Ok l.*2.
Definition reversed (q : PriorityRequestQueue) : result (list string) :=
  reverse <$> iter q.
End Prio.

#[export] Instance priority_queue : RequestQueue Prio.PriorityRequestQueue := {|
  add_request := Prio.add_request;
  pop_request := Prio.pop_request;
  peek_request := Prio.peek_request;
  prepend_request := Prio.prepend_request;
  prepend_requests := Prio.prepend_requests;
  remove_request := Prio.remove_request;
  remove_requests := Prio.remove_requests;
  queue_bool := λ q, bool_decide (Prio.heap q ≠ []);
  queue_len := λ q, len (Prio.heap q);
  queue_iter := Prio.iter;
  queue_reversed := Prio.reversed;
|}.

(** [create_request_queue]. *)
Definition create_request_queue (p : SchedulingPolicy)
  : Fcfs.FCFSRequestQueue + Prio.PriorityRequestQueue :=
  match p with
  | PRIORITY => inr Prio.init
  | FCFS => inl (Fcfs.mkFcfs [])
  end.

(** ** What every queue promises

    [view] is the order in which the queue serves; a queue is [wf] when its
    representation is sound.  [can_add] says which requests the queue takes. *)
Class QueueLaws Q `{RequestQueue Q} := {
  wf : Q → Prop;
  view : Q → list string;
  can_add : Request → Q → Prop;
  can_prepend : list Request → Q → Prop;
  iter_view q : wf q → queue_iter q = Ok (view q);
  reversed_view q : wf q → queue_reversed q = Ok (reverse (view q));
  len_view q : wf q → queue_len q = len (view q);
  bool_view q : wf q → queue_bool q = bool_decide (view q ≠ []);
  peek_view q : wf q → peek_request q = of_option IndexError (head (view q));
  pop_view q : wf q →
    match view q with
    | [] => pop_request q = Err IndexError
    | r :: rs => ∃ q', pop_request q = Ok (r, q') ∧ wf q' ∧ view q' = rs
    end;
  add_view q r : wf q → can_add r q →
    ∃ q', add_request r q = Ok q' ∧ wf q' ∧ view q' ≡ₚ request_id r :: view q;
  prepend_view q r : wf q → can_add r q →
    ∃ q', prepend_request r q = Ok q' ∧ wf q' ∧ view q' ≡ₚ request_id r :: view q;
  prepend_requests_view q rs : wf q → can_prepend rs q →
    ∃ q', prepend_requests rs q = Ok q' ∧ wf q' ∧ view q' ≡ₚ (request_id <$> rs) ++ view q;
  remove_requests_view q rs : wf q →
    ∃ q', remove_requests rs q = Ok q' ∧ wf q' ∧ view q' = filter (λ r, r ∉ rs) (view q);
}.

Lemma foldl_cons_reverse {A} (l d : list A) : foldl (λ d r, r :: d) d l = reverse l ++ d.
Proof.
  induction l as [|x l IH] in d |- *; [done|]. simpl.
  by rewrite IH, reverse_cons, <-app_assoc.
Qed.

#[export] Program Instance fcfs_laws : QueueLaws Fcfs.FCFSRequestQueue := {|
  wf := λ _, True;
  view := Fcfs.deque;
  can_add := λ _ _, True;
  can_prepend := λ _ _, True;
|}.
Solve Obligations with (intros; simpl; eauto).
Next Obligation. by intros [[|r d]] _. Qed.
Next Obligation. by intros [[|r d]] _. Qed.
Next Obligation. intros [[|r d]] _; [done|]. simpl. by eexists. Qed.
Next Obligation.
  intros [d] r _ _. eexists. split_and!; [done|done|]. simpl. by rewrite Permutation_app_comm.
Qed.
Next Obligation.
  intros [d] rs _ _. eexists. split_and!; [done|done|]. simpl.
  rewrite foldl_cons_reverse, reverse_involutive. done.
Qed.

(** *** The priority queue keeps the promises *)

Definition entry_ltb (x y : Prio.entry) : bool :=
  (x.1.1 <? y.1.1) || ((x.1.1 =? y.1.1) && (x.1.2 <? y.1.2)).

Lemma entry_ltb_asym x y : entry_ltb x y = true → entry_ltb y x = false.
Proof. unfold entry_ltb. lia. Qed.
Lemma entry_le_trans x y z :
  entry_ltb y x = false → entry_ltb z y = false → entry_ltb z x = false.
Proof. unfold entry_ltb. lia. Qed.
Lemma entry_le_antisym x y : entry_ltb y x = false → entry_ltb x y = false → x.1 = y.1.
Proof. unfold entry_ltb. destruct x as [[] ?], y as [[] ?]. simpl. intros. f_equal; lia. Qed.

(** No two requests of the queue share priority and arrival time. *)
Definition no_ties (h : list Prio.entry) : Prop := ∀ x y, x ∈ h → y ∈ h → x.1 = y.1 → x = y.

Lemma no_ties_agrees h : no_ties h → agrees Prio.entry_lt entry_ltb h.
Proof.
  intros Hn x y Hx Hy. unfold Prio.entry_lt, entry_ltb.
  destruct (Z.eqb_spec x.1.1 y.1.1); simpl; [|by rewrite orb_false_r].
  destruct (Z.eqb_spec x.1.2 y.1.2) as [E|]; simpl.
  - rewrite (Hn x y Hx Hy) by (destruct x as [[] ?], y as [[] ?]; simpl in *; congruence).
    rewrite decide_True by done. rewrite !Z.ltb_irrefl. done.
  - destruct (Z.ltb_spec x.1.1 y.1.1); [lia|done].
Qed.

Lemma no_ties_incl h h' : (∀ x, x ∈ h' → x ∈ h) → no_ties h → no_ties h'.
Proof. intros Hin Hn x y Hx Hy. auto. Qed.

Definition prio_wf (q : Prio.PriorityRequestQueue) : Prop :=
  no_ties (Prio.heap q) ∧ heap_from entry_ltb 0 (Prio.heap q).

Definition entries (q : Prio.PriorityRequestQueue) : list Prio.entry :=
  match drain Prio.entry_lt (length (Prio.heap q)) (Prio.heap q) with
  | Ok l => l
  | Err _ => []
  end.

Lemma entries_spec q :
  prio_wf q →
  drain Prio.entry_lt (length (Prio.heap q)) (Prio.heap q) = Ok (entries q) ∧
  entries q ≡ₚ Prio.heap q ∧ StronglySorted (λ x y, entry_ltb y x = false) (entries q).
Proof.
  intros [Hn Hh]. unfold entries.
  destruct (drain_spec Prio.entry_lt entry_ltb entry_ltb_asym entry_le_trans
    (length (Prio.heap q)) (Prio.heap q)) as (l&->&?&?); auto using no_ties_agrees.
Qed.

Lemma sorted_entries_unique (l l' : list Prio.entry) :
  no_ties l → StronglySorted (λ x y, entry_ltb y x = false) l →
  StronglySorted (λ x y, entry_ltb y x = false) l' → l ≡ₚ l' → l = l'.
Proof.
  intros Hn Hl Hl' Hp. eapply StronglySorted_unique_strong; [|done..].
  intros x y Hx Hy Hxy Hyx. apply Hn; [done|by rewrite Hp|].
  by apply entry_le_antisym.
Qed.

Lemma filter_snd (P : string → Prop) `{∀ r, Decision (P r)} (l : list Prio.entry) :
  filter P l.*2 = (filter (λ x, P x.2) l).*2.
Proof.
  induction l as [|x l IH]; [done|]. rewrite fmap_cons, !filter_cons.
  destruct (decide (P x.2)); [by rewrite fmap_cons, IH|done].
Qed.

Lemma StronglySorted_filter {A} (R : A → A → Prop) (P : A → Prop) `{∀ x, Decision (P x)} l :
  StronglySorted R l → StronglySorted R (filter P l).
Proof.
  induction 1 as [|x l Hl IH Hx]; [constructor|]. rewrite filter_cons.
  case_decide; [|done]. constructor; [done|].
  rewrite Forall_forall in *. intros y Hy. apply list_elem_of_filter in Hy as [_ Hy]. auto.
Qed.

(** The tuple of a request. *)
Definition entry_of (r : Request) : Prio.entry := (priority r, arrival_time r, request_id r).

Lemma prio_push_spec q r :
  prio_wf q → (∀ x, x ∈ Prio.heap q → x.1 = (priority r, arrival_time r) → x.2 = request_id r) →
  ∃ q', Prio.add_request r q = Ok q' ∧ prio_wf q' ∧
    Prio.heap q' ≡ₚ (priority r, arrival_time r, request_id r) :: Prio.heap q.
Proof.
  intros [Hn Hh] Hadd. unfold Prio.add_request.
  set (e := (priority r, arrival_time r, request_id r)).
  assert (no_ties (e :: Prio.heap q)) as Hn'.
  { assert (∀ x, x ∈ Prio.heap q → x.1 = e.1 → x = e) as He.
    { intros [x1 x2] Hx E. simpl in *. subst x1. unfold e. f_equal. by apply (Hadd _ Hx). }
    intros x y Hx Hy E. apply elem_of_cons in Hx as [->|Hx], Hy as [->|Hy]; auto.
    symmetry. by apply He. }
  destruct (heappush_spec Prio.entry_lt entry_ltb entry_ltb_asym entry_le_trans (Prio.heap q) e)
    as (h'&->&Hp&Hh').
  - apply no_ties_agrees. eapply no_ties_incl; [|exact Hn']. intros x. set_solver.
  - done.
  - eexists. split; [done|]. split; [|done]. split; [|done].
    eapply no_ties_incl; [|exact Hn']. intros x Hx. by rewrite <-Hp.
Qed.

Lemma prio_filter_spec (P : Prio.entry → Prop) `{∀ x, Decision (P x)} q :
  prio_wf q →
  ∃ q', (Prio.mkPrio <$> heapify Prio.entry_lt (filter P (Prio.heap q))) = Ok q' ∧
    prio_wf q' ∧ entries q' = filter P (entries q).
Proof.
  intros Hwf. destruct Hwf as [Hn Hh].
  assert (no_ties (filter P (Prio.heap q))) as Hn'.
  { eapply no_ties_incl; [|exact Hn]. intros x Hx. by apply list_elem_of_filter in Hx as [_ ?]. }
  destruct (heapify_spec Prio.entry_lt entry_ltb entry_ltb_asym entry_le_trans
    (filter P (Prio.heap q))) as (h'&->&Hp&Hh'); [by apply no_ties_agrees|].
  assert (prio_wf (Prio.mkPrio h')) as Hwf'.
  { split; [|done]. eapply no_ties_incl; [|exact Hn']. intros x Hx. by rewrite <-Hp. }
  eexists. split_and!; [done|done|].
  destruct (entries_spec _ Hwf') as (_&Hpe&Hs).
  destruct (entries_spec q ltac:(by split)) as (_&Hpq&Hsq).
  apply sorted_entries_unique.
  - eapply no_ties_incl; [|exact Hn']. intros x Hx. simpl in Hpe. by rewrite <-Hp, <-Hpe.
  - done.
  - by apply StronglySorted_filter.
  - rewrite Hpe. simpl. by rewrite Hp, Hpq.
Qed.

Lemma prio_pop_spec q :
  prio_wf q →
  match entries q with
  | [] => Prio.heap q = []
  | x :: xs => head (Prio.heap q) = Some x ∧
      ∃ q', Prio.pop_request q = Ok (x.2, q') ∧ prio_wf q' ∧ entries q' = xs
  end.
Proof.
  intros Hwf. destruct (entries_spec q Hwf) as (Hd&Hp&Hs). destruct Hwf as [Hn Hh].
  destruct (Prio.heap q) as [|z k] eqn:Hq.
  { apply Permutation_nil_r in Hp. by rewrite Hp. }
  destruct (heappop_spec Prio.entry_lt entry_ltb entry_ltb_asym entry_le_trans (z :: k))
    as (x&h'&Hpop&Hph&Hh'&Hhead&Hmin); [done|by apply no_ties_agrees|done|].
  assert (prio_wf (Prio.mkPrio h')) as Hwf'.
  { split; [|done]. eapply no_ties_incl; [|exact Hn]. intros y Hy. rewrite Hph. by right. }
  destruct (entries_spec _ Hwf') as (Hd'&Hp'&Hs'). simpl in *.
  cbn [drain length] in Hd. rewrite Hpop, Ok_bind in Hd.
  assert (length k = length h') as Hlen by (apply Permutation_length in Hph; simpl in Hph; lia).
  rewrite Hlen, Hd', Ok_bind in Hd. injection Hd as Hd. rewrite <-Hd.
  split; [done|]. exists (Prio.mkPrio h'). unfold Prio.pop_request. rewrite Hq, Hpop. done.
Qed.

(** Several requests, none of them tied with another or with the queue. *)
Lemma prio_push_all_spec rs q :
  prio_wf q → no_ties ((entry_of <$> rs) ++ Prio.heap q) →
  ∃ q', Prio.prepend_requests rs q = Ok q' ∧ prio_wf q' ∧
    Prio.heap q' ≡ₚ (entry_of <$> rs) ++ Prio.heap q.
Proof.
  induction rs as [|r rs IH] in q |- *; intros Hwf Hn; [by exists q|].
  rewrite fmap_cons in Hn. unfold Prio.prepend_requests. cbn [for_each].
  destruct (prio_push_spec q r Hwf) as (q1&->&Hwf1&Hp1).
  { intros x Hx E. assert (x = entry_of r) as ->; [|done].
    apply Hn; [set_solver|set_solver|]. by destruct x. }
  rewrite Ok_bind. destruct (IH q1 Hwf1) as (q'&Hq'&Hwf'&Hp').
  { eapply no_ties_incl; [|exact Hn]. intros x.
    rewrite elem_of_app, Hp1, elem_of_app, !elem_of_cons. intros [?|[?|?]]; auto. }
  exists q'. split; [exact Hq'|]. split; [done|]. rewrite Hp', Hp1. simpl. by rewrite Permutation_middle.
Qed.

#[export] Program Instance priority_laws : QueueLaws Prio.PriorityRequestQueue := {|
  wf := prio_wf;
  view := λ q, (entries q).*2;
  can_add := λ r q, ∀ x, x ∈ Prio.heap q → x.1 = (priority r, arrival_time r) →
               x.2 = request_id r;
  can_prepend := λ rs q, no_ties ((entry_of <$> rs) ++ Prio.heap q);
|}.
Next Obligation.
  intros q Hwf. simpl. unfold Prio.iter. by rewrite (proj1 (entries_spec q Hwf)).
Qed.
Next Obligation.
  intros q Hwf. simpl. unfold Prio.reversed, Prio.iter.
  by rewrite (proj1 (entries_spec q Hwf)).
Qed.
Next Obligation.
  intros q Hwf. simpl. destruct (entries_spec q Hwf) as (_&Hp&_).
  unfold len. by rewrite length_fmap, Hp.
Qed.
Next Obligation.
  intros q Hwf. simpl. destruct (entries_spec q Hwf) as (_&Hp&_).
  apply bool_decide_ext. destruct (Prio.heap q).
  - apply Permutation_nil_r in Hp. by rewrite Hp.
  - destruct (entries q); [by apply Permutation_nil_l in Hp|done].
Qed.
Next Obligation.
  intros q Hwf. simpl. pose proof (prio_pop_spec q Hwf) as Hpop. unfold Prio.peek_request.
  destruct (entries q) as [|x xs]; [by rewrite Hpop|].
  destruct Hpop as [Hh _]. destruct (Prio.heap q); simplify_eq/=. done.
Qed.
Next Obligation.
  intros q Hwf. simpl. pose proof (prio_pop_spec q Hwf) as Hpop.
  destruct (entries q) as [|x xs]; simpl.
  - unfold Prio.pop_request. by rewrite Hpop.
  - destruct Hpop as [_ (q'&?&?&?)]. exists q'. split_and!; try done. by f_equal.
Qed.
Next Obligation.
  intros q r Hwf Hadd. simpl in *. destruct (prio_push_spec q r Hwf Hadd) as (q'&->&Hwf'&Hp).
  exists q'. split_and!; try done. destruct (entries_spec q Hwf) as (_&Hpq&_).
  destruct (entries_spec q' Hwf') as (_&Hpq'&_). rewrite Hpq', Hp, Hpq. done.
Qed.
Next Obligation.
  intros q r Hwf Hadd. simpl in *. unfold Prio.prepend_request.
  destruct (prio_push_spec q r Hwf Hadd) as (q'&->&Hwf'&Hp).
  exists q'. split_and!; try done. destruct (entries_spec q Hwf) as (_&Hpq&_).
  destruct (entries_spec q' Hwf') as (_&Hpq'&_). rewrite Hpq', Hp, Hpq. done.
Qed.
Next Obligation.
  intros q rs Hwf Hadd. simpl in *. destruct (prio_push_all_spec rs q Hwf Hadd) as (q'&->&Hwf'&Hp).
  exists q'. split_and!; try done. destruct (entries_spec q Hwf) as (_&Hpq&_).
  destruct (entries_spec q' Hwf') as (_&Hpq'&_).
  rewrite Hpq', Hp, Hpq, fmap_app, <-list_fmap_compose. done.
Qed.
Next Obligation.
  intros q rs Hwf. simpl. unfold Prio.remove_requests.
  destruct (prio_filter_spec (λ x, x.2 ∉ rs) q Hwf) as (q'&Hq'&Hwf'&Hv).
  exists q'. split_and!; [exact Hq'|done|]. by rewrite Hv, filter_snd.
Qed.

(** ** Serving a queue, against the interface only *)

Fixpoint pop_all {Q} `{RequestQueue Q} (fuel : nat) (q : Q) : result (list string) :=
  match fuel with
  | 0%nat => Ok []
  | S fuel =>
      '(r, q) ← pop_request q;
      rs ← pop_all fuel q;
      Ok (r :: rs)
  end.

Section serve.
Context {Q} `{QueueLaws Q}.

Lemma pop_all_view q : wf q → pop_all (length (view q)) q = Ok (view q).
Proof.
  remember (view q) as v eqn:Hv. symmetry in Hv.
  induction v as [|r rs IH] in q, Hv |- *; intros Hwf; [done|]. simpl.
  pose proof (pop_view q Hwf) as Hpop. rewrite Hv in Hpop.
  destruct Hpop as (q'&->&Hwf'&Hv'). rewrite Ok_bind, (IH q' Hv' Hwf'). done.
Qed.
End serve.

(** ** Concrete requests for the witnesses *)

Definition ex_req (rid : string) (prio arrival : Z) : Request :=
  mkRequest rid 0 prio None (Some (mkPooling None false)) None None arrival WAITING false [] None None 1
    None 0 [] [] 0 [] 0 None [] (-1) 0 [].

Definition ex_requests : list Request :=
  [ex_req "a" 1 5; ex_req "b" 0 7; ex_req "c" 1 2; ex_req "d" 0 9]%string.

Definition ex_heap : Prio.PriorityRequestQueue :=
  Prio.mkPrio [(0, 7, "b"%string); (1, 5, "a"%string)].


Lemma ex_heap_wf : prio_wf ex_heap.
Proof.
  split.
  - intros x y Hx Hy. simpl in *. rewrite !elem_of_cons, elem_of_nil in Hx, Hy.
    destruct Hx as [->|[->|[]]], Hy as [->|[->|[]]]; done.
  - intros i Hi _ x y. destruct i as [|[|i]]; [lia| |done].
    simpl. by intros [= <-] [= <-].
Qed.




(** Two requests with the same priority and arrival time cannot both be
    queued: the tuples tie and comparing the [Request]s raises [TypeError]. *)
Theorem priority_tie_raises r r' :
  priority r = priority r' → arrival_time r = arrival_time r' →
  request_id r ≠ request_id r' →
  for_each Prio.add_request [r; r'] Prio.init = Err TypeError.
Proof.
  intros Hp Ha Hne. simpl. unfold Prio.add_request at 1. simpl.
  unfold heappush, siftdown. simpl. unfold Prio.add_request, heappush, siftdown. simpl.
  unfold Prio.entry_lt. simpl. rewrite Hp, Ha, !Z.eqb_refl. simpl.
  by rewrite decide_False by done.
Qed.

Lemma priority_tie_raises_witness :
  for_each Prio.add_request [ex_req "a" 0 5; ex_req "b" 0 5]%string Prio.init
    = Err TypeError.
Proof. apply priority_tie_raises; done. Defined.

(** First come, first served: requests are served in the order they were added;
    a batch put back in front keeps its own order; removing some requests keeps
    the order of the others. *)
Theorem fcfs_order q rs front gone :
  for_each Fcfs.add_request rs q = Ok (Fcfs.mkFcfs (Fcfs.deque q ++ (request_id <$> rs))) ∧
  Fcfs.deque (Fcfs.prepend_requests (reverse front) q) = front ++ Fcfs.deque q ∧
  Fcfs.remove_requests gone q = Ok (Fcfs.mkFcfs (filter (λ r, r ∉ gone) (Fcfs.deque q))) ∧
  (∀ r d1 d2, r ∉ d1 → Fcfs.deque q = d1 ++ r :: d2 →
     Fcfs.remove_request r q = Ok (Fcfs.mkFcfs (d1 ++ d2))) ∧
  (∀ r, r ∉ Fcfs.deque q → Fcfs.remove_request r q = Err ValueError).
Proof.
  split_and!; [| |done| |].
  - induction rs as [|r rs IH] in q |- *; simpl.
    + rewrite app_nil_r. by destruct q.
    + rewrite IH. simpl. by rewrite <-app_assoc.
  - unfold Fcfs.prepend_requests. simpl. generalize (Fcfs.deque q).
    induction front as [|r front IH] using rev_ind; intros d; [done|].
    rewrite reverse_snoc. simpl. rewrite IH. by rewrite <-app_assoc.
  - intros r d1 d2 Hr Hd. unfold Fcfs.remove_request. rewrite Hd. clear Hd.
    assert (Fcfs.deque_remove r (d1 ++ r :: d2) = Ok (d1 ++ d2)) as ->; [|done].
    induction d1 as [|x d1 IH]; simpl; [by rewrite decide_True|].
    apply not_elem_of_cons in Hr as [? ?].
    rewrite decide_False by congruence. by rewrite IH.
  - intros r Hr. unfold Fcfs.remove_request.
    assert (Fcfs.deque_remove r (Fcfs.deque q) = Err ValueError) as ->; [|done].
    revert Hr. generalize (Fcfs.deque q). intros d. induction d as [|x d IH]; [done|].
    rewrite not_elem_of_cons. intros [? ?]. simpl. rewrite decide_False by congruence.
    by rewrite IH.
Qed.
