(* ===== verification/KVConfig.v ===== *)
(** * KV-cache configuration

    Models the second half of src/vllm/v1/core/kv_cache_utils.py: how many
    blocks the available memory holds, which layers share a group and a tensor,
    the estimate of the longest model length that fits, and the configurations
    of the workers and of the scheduler.  A Python dict from layer names is the
    list of its items in insertion order.  The size of a torch dtype in bytes is
    a parameter. *)
From S2P Require Import Prelude KVSpecs.

(** ** Dictionaries by insertion order *)

Abbreviation specs_dict := (list (string * KVCacheSpec)).

Fixpoint dict_get {V} (d : list (string * V)) (k : string) : option V :=
  match d with
  | [] => None
  | (k', v) :: d => if decide (k' = k) then Some v else dict_get d k
  end.

(** [l[skip::step]]. *)
Fixpoint every {A} (skip step : nat) (l : list A) : list A :=
  match l with
  | [] => []
  | x :: l =>
      match skip with
      | 0%nat => x :: every (step - 1) step l
      | S skip => every skip step l
      end
  end.

Section config.
Context (get_dtype_size : dtype → Z).

(** [max_memory_usage_bytes] of a collection of specifications. *)
Definition total_max_memory (c : VllmConfig) (gs : list GroupSpec) : result Z :=
  ms ← map_res (group_max_memory_usage_bytes get_dtype_size c) gs; Ok (sumZ ms).

Definition layers_max_memory (c : VllmConfig) (d : specs_dict) : result Z :=
  total_max_memory c (LayerSpec <$> d.*2).

(** [fits_in_memory]: it writes the model length it tries into the config. *)
Definition fits_in_memory (d : specs_dict) (available_memory : Z) (model_len : Z)
    (c : VllmConfig) : result (bool * VllmConfig) :=
  let c := set_max_model_len model_len c in
  memory_needed ← layers_max_memory c d;
  Ok (memory_needed <=? available_memory, c).

(** The binary search; [right - left] decreases at every turn. *)
Fixpoint search_len (fuel : nat) (d : specs_dict) (available_memory : Z)
    (left right result : Z) (c : VllmConfig) : Prelude.result (Z * VllmConfig) :=
  match fuel with
  | 0%nat => Err OutOfFuel
  | S fuel =>
      if left <=? right then
        let mid := (left + right) / 2 in
        '(fits, c) ← fits_in_memory d available_memory mid c;
        if fits : bool
        then search_len fuel d available_memory (mid + 1) right mid c
        else search_len fuel d available_memory left (mid - 1) result c
      else Ok (result, c)
  end.

Definition estimate_max_model_len (c : VllmConfig) (d : specs_dict) (available_memory : Z)
  : result (Z * VllmConfig) :=
  let current_max := max_model_len c in
  '(fits, c) ← fits_in_memory d available_memory 1 c;
  if fits : bool
  then search_len (S (Z.to_nat current_max)) d available_memory 1 current_max 1 c
  else Ok (0, c).

Definition check_enough_kv_cache_memory (c : VllmConfig) (d : specs_dict)
    (available_memory : Z) : result unit :=
  match d with
  | [] => Ok tt
  | _ =>
      if available_memory <=? 0 then Err ValueError else
      needed_memory ← layers_max_memory c d;
      if needed_memory >? available_memory then
        _ ← estimate_max_model_len c d available_memory;
        Err ValueError
      else Ok tt
  end.

(** ** Groups *)

Definition create_kv_cache_group_specs (d : specs_dict) (grouped_layer_names : list (list string))
  : result (list KVCacheGroupSpec) :=
  map_res (λ names,
    layer_specs ← map_res (λ n, of_option KeyError (dict_get d n)) names;
    merged ← merge layer_specs;
    Ok (mkGroup names (LayerSpec merged))) grouped_layer_names.

(** Only [AssertionError] is caught. *)
Definition is_kv_cache_spec_uniform (d : specs_dict) : result bool :=
  match d.*2 with
  | [] => Ok true
  | specs =>
      match merge specs with
      | Ok _ => Ok true
      | Err AssertionError => Ok false
      | Err e => Err e
      end
  end.

(** The quotient [num_blocks / num_block_per_request] as a fraction. *)
Definition get_max_concurrency_for_kv_cache_config (c : VllmConfig) (cfg : KVCacheConfig)
  : result (Z * Z) :=
  num_layer_per_group ← py_max ((λ g, len (layer_names g)) <$> kv_cache_groups cfg);
  m ← total_max_memory c (kv_cache_spec <$> kv_cache_groups cfg);
  g0 ← py_index (kv_cache_groups cfg) 0;
  page ← group_page_size_bytes get_dtype_size (kv_cache_spec g0);
  let memory_per_block := page * num_layer_per_group in
  if memory_per_block =? 0 then Err ZeroDivisionError else
  let num_block_per_request := cdiv (num_layer_per_group * m) memory_per_block in
  if num_block_per_request =? 0 then Err ZeroDivisionError
  else Ok (num_blocks cfg, num_block_per_request).

Definition may_override_num_blocks (c : VllmConfig) (n : Z) : Z :=
  default n (num_gpu_blocks_override c).

Definition get_num_blocks (c : VllmConfig) (num_layers available_memory page_size : Z)
  : result Z :=
  if (page_size =? 0) || (num_layers =? 0) then Err ZeroDivisionError else
  let n := available_memory / page_size / num_layers in
  Ok (may_override_num_blocks c (Z.max n 0)).

Definition get_uniform_page_size (d : specs_dict) : result Z :=
  pages ← map_res (page_size_bytes get_dtype_size) d.*2;
  match remove_dups pages with
  | [p] => Ok p
  | _ => Err AssertionError
  end.

Definition get_kv_cache_groups_uniform_spec (d : specs_dict) : result (list KVCacheGroupSpec) :=
  create_kv_cache_group_specs d [d.*1].

Definition get_kv_cache_groups_uniform_type (bs : Z) (d : specs_dict) : list KVCacheGroupSpec :=
  [mkGroup d.*1 (UniformTypeKVCacheSpecs bs d)].

Definition is_kv_cache_page_size_uniform (d : specs_dict) : result bool :=
  pages ← map_res (page_size_bytes get_dtype_size) d.*2;
  Ok (len (remove_dups pages) =? 1).

Definition is_kv_cache_type_attention_free (d : specs_dict) : bool :=
  match d with [] => true | _ => false end.

(** [same_type_layers[layer_spec].append(layer_name)] on the [defaultdict]. *)
Fixpoint add_layer (s : KVCacheSpec) (name : string) (m : list (KVCacheSpec * list string))
  : list (KVCacheSpec * list string) :=
  match m with
  | [] => [(s, [name])]
  | (s', ls) :: m =>
      if decide (s' = s) then (s', ls ++ [name]) :: m else (s', ls) :: add_layer s name m
  end.

Definition same_type_layers (d : specs_dict) : list (KVCacheSpec * list string) :=
  foldl (λ m kv, add_layer kv.2 kv.1 m) [] d.

(** The groups one list of layers is split into. *)
Definition split_layers (group_size : Z) (layers : list string) : list (list string) :=
  let num_groups := cdiv (len layers) group_size in
  (λ i, every (Z.to_nat i) (Z.to_nat num_groups) layers) <$> py_range 0 num_groups.

Definition get_kv_cache_groups_uniform_page_size (d : specs_dict)
  : result (list KVCacheGroupSpec) :=
  let m := same_type_layers d in
  group_size ← py_min ((λ ls, len ls) <$> m.*2);
  let grouped_layers := mjoin ((λ ls, split_layers group_size ls) <$> m.*2) in
  create_kv_cache_group_specs d grouped_layers.

(** The conversion of one specification in [unify_hybrid_kv_cache_specs]. *)
Definition to_full (s : KVCacheSpec) : KVCacheSpec :=
  match s with
  | SlidingWindowSpec a w => FullAttentionSpec a (Some w) None
  | ChunkedLocalAttentionSpec a k => FullAttentionSpec a None (Some k)
  | s => s
  end.

Definition is_sliding (s : KVCacheSpec) : bool :=
  match s with SlidingWindowSpec _ _ => true | _ => false end.
Definition is_chunked (s : KVCacheSpec) : bool :=
  match s with ChunkedLocalAttentionSpec _ _ => true | _ => false end.

(** [unify_hybrid_kv_cache_specs]: it updates the dict in place; here it returns
    the updated dict. *)
Definition unify_hybrid_kv_cache_specs (d : specs_dict) : result specs_dict :=
  uniform ← is_kv_cache_spec_uniform d;
  if uniform : bool then Ok d else
  let has_full_attention := existsb is_full d.*2 in
  let has_sliding_window := existsb is_sliding d.*2 in
  let has_chunked_local_attention := existsb is_chunked d.*2 in
  let d' :=
    if has_full_attention && (has_sliding_window || has_chunked_local_attention)
    then prod_map id to_full <$> d else d in
  uniform ← is_kv_cache_spec_uniform d';
  if uniform : bool then Ok d' else Err ValueError.

Definition get_kv_cache_groups (c : VllmConfig) (d : specs_dict)
  : result (list KVCacheGroupSpec) :=
  d ← (if disable_hybrid_kv_cache_manager c then unify_hybrid_kv_cache_specs d else Ok d);
  if is_kv_cache_type_attention_free d then Ok [] else
  uniform ← is_kv_cache_spec_uniform d;
  if uniform : bool then get_kv_cache_groups_uniform_spec d else
  uniform_spec ← from_specs d;
  match uniform_spec with
  | Some (UniformTypeKVCacheSpecs bs d) => Ok (get_kv_cache_groups_uniform_type bs d)
  | Some (LayerSpec _) => Err NotImplementedError
  | None =>
      uniform_page ← is_kv_cache_page_size_uniform d;
      if uniform_page : bool then get_kv_cache_groups_uniform_page_size d
      else Err NotImplementedError
  end.

(** ** The configuration of a worker *)

(** The layers that share the [i]-th tensor: the [i]-th of each group. *)
Definition shared_layers (gs : list KVCacheGroupSpec) (i : nat) : list string :=
  omap (λ g, layer_names g !! i) gs.

(** The two ways to lay the tensors out. *)
Definition uniform_type_tensors (c : VllmConfig) (available_memory : Z)
    (names : list string) (g : GroupSpec) (d : specs_dict)
  : result (Z * list KVCacheTensor) :=
  page ← group_page_size_bytes get_dtype_size g;
  if page =? 0 then Err ZeroDivisionError else
  let num_blocks := may_override_num_blocks c (available_memory / page) in
  tensors ← map_res (λ n,
    s ← of_option KeyError (dict_get d n);
    p ← page_size_bytes get_dtype_size s;
    Ok (mkTensor (p * num_blocks) [n])) names;
  Ok (num_blocks, tensors).

Definition general_tensors (c : VllmConfig) (available_memory : Z)
    (gs : list KVCacheGroupSpec) (d : specs_dict) : result (Z * list KVCacheTensor) :=
  group_size ← py_max ((λ g, len (layer_names g)) <$> gs);
  page_size ← get_uniform_page_size d;
  _ ← py_assert (0 <? group_size);
  num_blocks ← get_num_blocks c group_size available_memory page_size;
  Ok (num_blocks,
      (λ i, mkTensor (page_size * num_blocks) (shared_layers gs (Z.to_nat i)))
        <$> py_range 0 group_size).

Definition get_kv_cache_config_from_groups (c : VllmConfig) (gs : list KVCacheGroupSpec)
    (d : specs_dict) (available_memory : Z) : result KVCacheConfig :=
  match gs with
  | [] => Ok (mkKVConfig 1 [] [])
  | _ =>
      '(num_blocks, tensors) ←
        match gs with
        | [mkGroup names (UniformTypeKVCacheSpecs bs per_layer)] =>
            uniform_type_tensors c available_memory names
              (UniformTypeKVCacheSpecs bs per_layer) per_layer
        | _ => general_tensors c available_memory gs d
        end;
      let cfg := mkKVConfig num_blocks tensors gs in
      _ ← py_min ((λ g, group_block_size (kv_cache_spec g)) <$> gs);
      _ ← get_max_concurrency_for_kv_cache_config c cfg;
      Ok cfg
  end.

(** ** The configurations of all workers *)

Definition generate_scheduler_kv_cache_config (cfgs : list KVCacheConfig)
  : result KVCacheConfig :=
  match cfgs with
  | [] => Err IndexError
  | cfg :: _ =>
      _ ← py_assert (forallb (λ cfg', num_blocks cfg' =? num_blocks cfg) cfgs);
      gs ← map_res (λ g,
        match kv_cache_spec g with
        | UniformTypeKVCacheSpecs _ d =>
            s ← of_option StopIteration (head d.*2);
            Ok (mkGroup (layer_names g) (LayerSpec s))
        | LayerSpec _ => Ok g
        end) (kv_cache_groups cfg);
      Ok (mkKVConfig (num_blocks cfg) (kv_cache_tensors cfg) gs)
  end.

(** One layer of the merge of the workers' dicts. *)
Definition merge_layer (kv : string * KVCacheSpec) (merged : specs_dict) : result specs_dict :=
  match dict_get merged kv.1 with
  | None => Ok (merged ++ [kv])
  | Some s => _ ← py_assert (bool_decide (s = kv.2)); Ok merged
  end.

(** The groups of one worker: the layers it holds of each group. *)
Definition worker_groups (gs : list KVCacheGroupSpec) (d : specs_dict) : list KVCacheGroupSpec :=
  (λ g, mkGroup (filter (λ n, n ∈ d.*1) (layer_names g)) (kv_cache_spec g)) <$> gs.

Definition worker_config (c : VllmConfig) (gs : list KVCacheGroupSpec)
    (w : specs_dict * Z) : result KVCacheConfig :=
  let gs := worker_groups gs w.1 in
  _ ← py_assert (sumZ ((λ g, len (layer_names g)) <$> gs) =? len w.1);
  get_kv_cache_config_from_groups c gs w.1 w.2.

Definition set_num_blocks (n : Z) (cfg : KVCacheConfig) : KVCacheConfig :=
  mkKVConfig n (kv_cache_tensors cfg) (kv_cache_groups cfg).

Definition get_kv_cache_configs (c : VllmConfig) (kv_cache_specs : list specs_dict)
    (available_memory : list Z) : result (list KVCacheConfig) :=
  let workers := zip kv_cache_specs available_memory in
  _ ← for_each (λ w _, check_enough_kv_cache_memory c w.1 w.2) workers tt;
  merged ← for_each (λ d m, for_each merge_layer d m) kv_cache_specs [];
  gs ← get_kv_cache_groups c merged;
  cfgs ← map_res (worker_config c gs) workers;
  min_num_blocks ← py_min (num_blocks <$> cfgs);
  Ok (set_num_blocks min_num_blocks <$> cfgs).
End config.

(** ** Memory grows with the model length *)

Section memory.
Context (get_dtype_size : dtype → Z).
Notation attn_page := (attn_page_size_bytes get_dtype_size).

(** A specification whose memory usage is defined: positive block size,
    non-negative page, no context parallelism under a sliding window, a padding
    that holds the Mamba state. *)
Definition spec_ok (c : VllmConfig) (s : KVCacheSpec) : Prop :=
  match s with
  | FullAttentionSpec a _ _ | ChunkedLocalAttentionSpec a _
  | EncoderOnlyAttentionSpec a | CrossAttentionSpec a =>
      0 < attn_block_size a ∧ 0 ≤ attn_page a
  | SlidingWindowSpec a _ =>
      0 < attn_block_size a ∧ 0 ≤ attn_page a ∧ decode_context_parallel_size c = 1
  | MambaSpec _ shapes dtypes padded _ _ =>
      ∃ p, mamba_page_size_bytes get_dtype_size shapes dtypes padded = Ok p
  end.

(** The memory one layer needs for a model of length [n]. *)
Definition layer_memory (c : VllmConfig) (s : KVCacheSpec) (n : Z) : Z :=
  match max_memory_usage_bytes get_dtype_size (set_max_model_len n c) s with
  | Ok m => m
  | Err _ => 0
  end.

Definition memory_needed (c : VllmConfig) (d : specs_dict) (n : Z) : Z :=
  sumZ ((λ s, layer_memory c s n) <$> d.*2).

Lemma spec_ok_len c s n : spec_ok c s → spec_ok (set_max_model_len n c) s.
Proof. by destruct s. Qed.

Lemma layer_memory_ok c s n :
  spec_ok c s →
  max_memory_usage_bytes get_dtype_size (set_max_model_len n c) s = Ok (layer_memory c s n).
Proof.
  unfold layer_memory. destruct s; simpl; try done.
  - intros (?&?&Hd). unfold sliding_max_memory_usage_bytes. simpl. by rewrite Hd.
  - intros [p Hp]. by rewrite Hp.
Qed.

Lemma layer_memory_mono c s n n' :
  spec_ok c s → n ≤ n' → layer_memory c s n ≤ layer_memory c s n'.
Proof.
  intros Hs Hn. unfold layer_memory. destruct s; simpl in *; try lia.
  - destruct Hs as [Hb Hp]. unfold full_max_memory_usage_bytes. simpl.
    apply Z.mul_le_mono_nonneg_r; [done|]. apply cdiv_mono; [done|].
    destruct (Z.ltb_spec 1 (decode_context_parallel_size c)); [apply cdiv_mono; lia|done].
  - destruct Hs as [Hb Hp]. unfold chunked_max_memory_usage_bytes. simpl.
    apply Z.mul_le_mono_nonneg_r; [done|]. apply cdiv_mono; [done|lia].
  - destruct Hs as (Hb&Hp&Hd). unfold sliding_max_memory_usage_bytes. simpl. rewrite Hd. simpl.
    apply Z.mul_le_mono_nonneg_r; [done|].
    pose proof (cdiv_mono (Z.min (sliding_window - 1 + max_num_batched_tokens c) n)
      (Z.min (sliding_window - 1 + max_num_batched_tokens c) n') _ Hb). lia.
  - reflexivity.
Qed.

Lemma memory_mono c d n n' :
  Forall (spec_ok c) d.*2 → n ≤ n' → memory_needed c d n ≤ memory_needed c d n'.
Proof.
  unfold memory_needed. induction 1 as [|s ss Hs _ IH]; intros Hn; [done|].
  pose proof (layer_memory_mono c s n n' Hs Hn). specialize (IH Hn).
  rewrite !fmap_cons, !sumZ_cons. lia.
Qed.

Lemma layers_memory_ok c d n :
  Forall (spec_ok c) d.*2 →
  layers_max_memory get_dtype_size (set_max_model_len n c) d = Ok (memory_needed c d n).
Proof.
  intros Hd. unfold layers_max_memory, total_max_memory, memory_needed.
  rewrite (map_res_ok _ (λ g, match g with LayerSpec s => layer_memory c s n | _ => 0 end)).
  - rewrite Ok_bind. do 2 f_equal. rewrite <-list_fmap_compose. by apply list_fmap_ext.
  - intros g (s&->&Hs)%list_elem_of_fmap. simpl. apply layer_memory_ok.
    rewrite Forall_forall in Hd. by apply Hd.
Qed.

Lemma fits_ok c d avail n m :
  Forall (spec_ok c) d.*2 →
  fits_in_memory get_dtype_size d avail n (set_max_model_len m c) =
    Ok (memory_needed c d n <=? avail, set_max_model_len n c).
Proof.
  intros Hd. unfold fits_in_memory.
  change (set_max_model_len n (set_max_model_len m c)) with (set_max_model_len n c).
  by rewrite layers_memory_ok.
Qed.

Lemma search_len_spec fuel c d avail left right res m :
  Forall (spec_ok c) d.*2 → (Z.to_nat (right - left + 1) < fuel)%nat →
  1 ≤ left → left - 1 ≤ res → memory_needed c d res ≤ avail →
  ∃ r m', search_len get_dtype_size fuel d avail left right res (set_max_model_len m c)
        = Ok (r, set_max_model_len m' c) ∧
    (r = res ∨ left ≤ r ≤ right) ∧ memory_needed c d r ≤ avail ∧
    ∀ n, r < n ≤ right → avail < memory_needed c d n.
Proof.
  intros Hd. induction fuel as [|fuel IH] in left, right, res, m |- *;
    intros Hfuel Hl Hres Hfit; [lia|]. cbn [search_len].
  destruct (Z.leb_spec left right) as [Hlr|Hlr].
  2:{ exists res, m. split_and!; [done|by left|done|lia]. }
  pose proof (Z.div_mod (left + right) 2 ltac:(lia)).
  pose proof (Z.mod_pos_bound (left + right) 2 ltac:(lia)).
  set (mid := (left + right) / 2) in *. rewrite fits_ok by done. rewrite Ok_bind.
  destruct (Z.leb_spec (memory_needed c d mid) avail) as [Hm|Hm].
  - destruct (IH (mid + 1) right mid mid) as (r&m'&->&Hr&?&?); [lia|lia|lia|done|].
    exists r, m'. split_and!; [done|lia|done|done].
  - destruct (IH left (mid - 1) res mid) as (r&m'&->&Hr&?&Hmax); [lia|lia|lia|done|].
    exists r, m'. split_and!; [done|lia|done|]. intros n Hn.
    destruct (Z.le_gt_cases n (mid - 1)); [apply Hmax; lia|].
    pose proof (memory_mono c d mid n Hd ltac:(lia)). lia.
Qed.

Lemma estimate_spec c d avail :
  Forall (spec_ok c) d.*2 →
  ∃ r m', estimate_max_model_len get_dtype_size c d avail = Ok (r, set_max_model_len m' c) ∧
    (r = 0 ∧ avail < memory_needed c d 1 ∨
     1 ≤ r ≤ Z.max 1 (max_model_len c) ∧ memory_needed c d r ≤ avail) ∧
    ∀ n, r < n ≤ max_model_len c → avail < memory_needed c d n.
Proof.
  intros Hd. unfold estimate_max_model_len.
  assert (set_max_model_len (max_model_len c) c = c) as Hc by (by destruct c).
  pose proof (fits_ok c d avail 1 (max_model_len c) Hd) as Hfits. rewrite Hc in Hfits.
  rewrite Hfits, Ok_bind.
  destruct (Z.leb_spec (memory_needed c d 1) avail) as [Hm|Hm].
  - destruct (search_len_spec (S (Z.to_nat (max_model_len c))) c d avail 1 (max_model_len c) 1 1)
      as (r&m'&->&Hr&?&?); [done|lia|lia|lia|done|].
    exists r, m'. split_and!; [done|right; lia|done].
  - exists 0, 1. split_and!; [done|by left|]. intros n Hn.
    pose proof (memory_mono c d 1 n Hd ltac:(lia)). lia.
Qed.

Lemma check_enough_spec c d avail :
  Forall (spec_ok c) d.*2 →
  check_enough_kv_cache_memory get_dtype_size c d avail =
    if bool_decide (d = [] ∨ 0 < avail ∧ memory_needed c d (max_model_len c) ≤ avail)
    then Ok tt else Err ValueError.
Proof.
  intros Hd. unfold check_enough_kv_cache_memory.
  destruct d as [|kv d]; [done|]. set (dd := kv :: d) in *.
  destruct (Z.leb_spec avail 0).
  { rewrite bool_decide_eq_false_2; [done|]. intros [?|?]; [done|lia]. }
  assert (set_max_model_len (max_model_len c) c = c) as Hc by (by destruct c).
  pose proof (layers_memory_ok c dd (max_model_len c) Hd) as Hmem. rewrite Hc in Hmem.
  rewrite Hmem, Ok_bind, Z.gtb_ltb.
  destruct (Z.ltb_spec avail (memory_needed c dd (max_model_len c))).
  - destruct (estimate_spec c dd avail Hd) as (r&m'&->&_).
    rewrite bool_decide_eq_false_2; [done|]. intros [?|?]; [done|lia].
  - rewrite bool_decide_eq_true_2; [done|]. right. lia.
Qed.
End memory.

(** ** Splitting layers into groups *)

Lemma mjoin_app_list {A} (u v : list (list A)) : mjoin (u ++ v) = mjoin u ++ mjoin v.
Proof.
  induction u as [|y u IHu]; [done|].
  change (y ++ mjoin (u ++ v) = (y ++ mjoin u) ++ mjoin v). by rewrite IHu, app_assoc.
Qed.
Lemma mjoin_cons_list {A} (y : list A) ys : mjoin (y :: ys) = y ++ mjoin ys.
Proof. done. Qed.

Lemma every_perm {A} n (l : list A) :
  (0 < n)%nat → mjoin ((λ i, every i n l) <$> seq 0 n) ≡ₚ l.
Proof.
  intros Hn. destruct n as [|n]; [lia|]. clear Hn.
  induction l as [|x l IH].
  { assert (∀ k : list nat, mjoin ((λ i, every i (S n) (@nil A)) <$> k) = []) as Hk
      by (induction k; done). by rewrite Hk. }
  rewrite <-cons_seq, fmap_cons, <-fmap_S_seq, <-list_fmap_compose. cbn [mjoin].
  rewrite seq_S, fmap_app in IH. simpl in IH.
  change (mjoin (?y :: ?ys)) with (y ++ mjoin ys). simpl. rewrite Nat.sub_0_r.
  apply perm_skip. rewrite <-IH at 2.
  rewrite mjoin_app_list. change (mjoin [?y]) with (y ++ []). rewrite app_nil_r.
  apply Permutation_app_comm.
Qed.

Lemma every_len {A} i n (l : list A) :
  (i < n)%nat → len (every i n l) = cdiv (len l - Z.of_nat i) (Z.of_nat n).
Proof.
  intros Hi. pose proof (λ a, cdiv_spec a (Z.of_nat n) ltac:(lia)) as Hc.
  induction l as [|x l IH] in i, Hi |- *; simpl.
  - rewrite len_nil. specialize (Hc (0 - Z.of_nat i)). nia.
  - destruct i as [|i].
    + rewrite !len_cons, IH by lia.
      pose proof (Hc (len l - Z.of_nat (n - 1))). pose proof (Hc (1 + len l - Z.of_nat 0)). nia.
    + rewrite len_cons, IH by lia. f_equal. lia.
Qed.

Lemma split_layers_seq k ls :
  split_layers k ls = (λ i, every i (Z.to_nat (cdiv (len ls) k)) ls)
                        <$> seq 0 (Z.to_nat (cdiv (len ls) k)).
Proof.
  unfold split_layers, py_range, seqZ. rewrite Z.sub_0_r, <-list_fmap_compose.
  apply list_fmap_ext. intros _ i _. simpl. f_equal. lia.
Qed.

(** [layers[i::num_groups]] for all [i]: every layer in one group, no group empty
    or larger than [group_size]. *)
Lemma split_layers_spec k ls :
  0 < k → ls ≠ [] →
  mjoin (split_layers k ls) ≡ₚ ls ∧
  ∀ g, g ∈ split_layers k ls → g ≠ [] ∧ len g ≤ k.
Proof.
  intros Hk Hls. assert (0 < len ls) as Hlen by (destruct ls; [done|rewrite len_cons; len_lia]).
  pose proof (cdiv_spec (len ls) k Hk) as Hn. set (n := cdiv (len ls) k) in *.
  assert (0 < n) as Hn0 by nia. assert (n ≤ len ls) as Hnl by nia.
  rewrite split_layers_seq. fold n. split; [apply every_perm; lia|].
  intros g (i&->&Hi)%list_elem_of_fmap. apply elem_of_seq in Hi.
  pose proof (every_len i (Z.to_nat n) ls ltac:(lia)) as Hlg.
  pose proof (cdiv_spec (len ls - Z.of_nat i) (Z.of_nat (Z.to_nat n)) ltac:(lia)) as Hc.
  rewrite Z2Nat.id in Hc, Hlg by lia. split.
  - intros E. rewrite E, len_nil in Hlg. rewrite <-Hlg in Hc. lia.
  - rewrite Hlg. nia.
Qed.

(** ** Layers by specification *)

Lemma add_layer_spec s n m :
  NoDup m.*1 →
  (∃ m1 ls m2, m = m1 ++ (s, ls) :: m2 ∧ add_layer s n m = m1 ++ (s, ls ++ [n]) :: m2) ∨
  (s ∉ m.*1 ∧ add_layer s n m = m ++ [(s, [n])]).
Proof.
  induction m as [|[s' ls] m IH]; intros Hnd; simpl.
  - right. split; [apply not_elem_of_nil|done].
  - rewrite fmap_cons, NoDup_cons in Hnd. destruct Hnd as [Hs' Hnd]. case_decide as Hd.
    + subst s'. left. by exists [], ls, m.
    + destruct (IH Hnd) as [(m1&ls1&m2&->&->)|[Hs ->]].
      * left. by exists ((s', ls) :: m1), ls1, m2.
      * right. split; [|done]. change (s ∉ s' :: m.*1). by apply not_elem_of_cons.
Qed.

(** The grouping of the layers [d]: one entry per specification, with the layers
    that have it in their order. *)
Definition by_type (d : specs_dict) (m : list (KVCacheSpec * list string)) : Prop :=
  NoDup m.*1 ∧ mjoin m.*2 ≡ₚ d.*1 ∧
  (∀ s ls, (s, ls) ∈ m → ls ≠ [] ∧ ls = (filter (λ kv, kv.2 = s) d).*1) ∧
  (∀ s, s ∈ d.*2 → s ∈ m.*1).

Lemma same_type_layers_spec d : by_type d (same_type_layers d).
Proof.
  unfold same_type_layers. induction d as [|[n s] d IH] using rev_ind.
  { split_and!; [constructor|done|by intros ? ? ?%elem_of_nil|by intros ? ?%elem_of_nil]. }
  rewrite foldl_snoc. simpl. destruct IH as (Hnd&Hp&Hls&Hall).
  set (m := foldl _ [] d) in *.
  assert (∀ s', (filter (λ kv : string * KVCacheSpec, kv.2 = s') (d ++ [(n, s)])).*1 =
     (filter (λ kv, kv.2 = s') d).*1 ++ (if decide (s = s') then [n] else [])) as Hfilter.
  { intros s'. rewrite filter_app, fmap_app. f_equal. rewrite filter_cons. simpl.
    by case_decide. }
  destruct (add_layer_spec s n m Hnd) as [(m1&ls&m2&Hm&Hadd)|[Hs Hadd]];
    rewrite Hadd; clear Hadd; split_and!.
  - rewrite Hm, fmap_app, fmap_cons in Hnd. by rewrite fmap_app, fmap_cons.
  - rewrite Hm, !fmap_app, !fmap_cons, !mjoin_app_list, !mjoin_cons_list in Hp.
    rewrite !fmap_app, !fmap_cons, !mjoin_app_list, !mjoin_cons_list, <-Hp. simpl.
    rewrite <-!app_assoc. apply Permutation_app_head, Permutation_app_head.
    apply Permutation_app_comm.
  - intros s' ls' Hin. rewrite Hfilter. apply elem_of_app in Hin.
    rewrite elem_of_cons in Hin.
    assert (s' ≠ s → (s', ls') ∈ m → ls' ≠ [] ∧ ls' = (filter (λ kv, kv.2 = s') d).*1
              ++ (if decide (s = s') then [n] else [])) as Hother.
    { intros Hne Hin'. rewrite decide_False by done. rewrite app_nil_r. by apply Hls. }
    rewrite Hm, fmap_app, fmap_cons in Hnd. apply NoDup_app in Hnd as (_&Hdis&Hnd2).
    apply NoDup_cons in Hnd2 as [Hs2 _].
    destruct Hin as [Hin|[Hin|Hin]].
    + apply Hother; [|rewrite Hm; set_solver]. intros ->. apply (Hdis s); [|by left].
      apply list_elem_of_fmap. by exists (s, ls').
    + simplify_eq. rewrite decide_True by done. split; [by destruct ls|].
      f_equal. apply Hls. rewrite Hm. set_solver.
    + apply Hother; [|rewrite Hm; set_solver]. intros ->. apply Hs2.
      apply list_elem_of_fmap. by exists (s, ls').
  - intros s'. rewrite fmap_app, elem_of_app. simpl. rewrite list_elem_of_singleton.
    intros [Hin| ->].
    + apply Hall in Hin. rewrite Hm, fmap_app, fmap_cons in Hin.
      by rewrite fmap_app, fmap_cons.
    + rewrite fmap_app, fmap_cons. set_solver.
  - rewrite fmap_app. apply NoDup_app. split_and!; [done| |apply NoDup_singleton].
    intros x Hx ->%list_elem_of_singleton. done.
  - by rewrite !fmap_app, mjoin_app_list, Hp.
  - intros s' ls' Hin. rewrite Hfilter. apply elem_of_app in Hin as [Hin|Hin].
    + assert (s' ≠ s) as Hne.
      { intros ->. apply Hs. apply list_elem_of_fmap. by exists (s, ls'). }
      rewrite decide_False by done. rewrite app_nil_r. by apply Hls.
    + apply list_elem_of_singleton in Hin. simplify_eq. rewrite decide_True by done.
      split; [done|]. assert (filter (λ kv : string * KVCacheSpec, kv.2 = s) d = []) as ->; [|done].
      destruct (filter _ d) as [|kv k] eqn:E; [done|].
      assert (kv ∈ filter (λ kv : string * KVCacheSpec, kv.2 = s) d) as Hk by (rewrite E; by left).
      apply list_elem_of_filter in Hk as [<- Hk]. destruct Hs. apply Hall.
      by apply list_elem_of_fmap_2.
  - intros s'. rewrite !fmap_app, !elem_of_app. intros [?| ->%list_elem_of_singleton].
    + left. by apply Hall.
    + right. simpl. by left.
Qed.

Lemma dict_get_in {V} (d : list (string * V)) n v :
  NoDup d.*1 → (n, v) ∈ d → dict_get d n = Some v.
Proof.
  induction d as [|[n' v'] d IH]; [by intros _ ?%elem_of_nil|].
  rewrite fmap_cons, NoDup_cons. intros [Hn Hnd] Hin. simpl.
  apply elem_of_cons in Hin as [?|Hin]; simplify_eq.
  - by rewrite decide_True.
  - rewrite decide_False; [by apply IH|]. intros ->. apply Hn.
    apply list_elem_of_fmap. by exists (n, v).
Qed.

Lemma dict_get_Some {V} (d : list (string * V)) n v : dict_get d n = Some v → (n, v) ∈ d.
Proof.
  induction d as [|[n' v'] d IH]; [done|]. simpl. case_decide; intros; simplify_eq.
  - by left.
  - right. auto.
Qed.

Lemma dict_get_is_Some {V} (d : list (string * V)) n : n ∈ d.*1 → ∃ v, dict_get d n = Some v.
Proof.
  intros ([n' v]&->&Hin)%list_elem_of_fmap. simpl.
  induction d as [|[n1 v1] d IH]; [by apply elem_of_nil in Hin|]. simpl.
  case_decide; [by eexists|]. apply elem_of_cons in Hin as [?|Hin]; [by simplify_eq|auto].
Qed.

Lemma remove_dups_const (l : list Z) x : l ≠ [] → (∀ y, y ∈ l → y = x) → remove_dups l = [x].
Proof.
  induction l as [|y l IH]; intros Hne Hl; [done|]. simpl.
  rewrite (Hl y) by (by left). destruct l as [|z l]; [done|].
  case_decide as Hc; [apply IH; [done|]; intros; apply Hl; by right|].
  destruct Hc. rewrite (Hl z) by (right; by left). by left.
Qed.

(** A specification that merges with itself. *)
Definition mergeable (s : KVCacheSpec) : Prop :=
  match s with FullAttentionSpec _ (Some _) (Some _) => False | _ => True end.

Lemma merge_window_const (o : option Z) (l : list KVCacheSpec) (f : KVCacheSpec → option Z) :
  l ≠ [] → (∀ s, s ∈ l → f s = o) → merge_window_sizes (omap f l) = Ok o.
Proof.
  intros Hne Hl. unfold merge_window_sizes.
  assert (omap f l = match o with Some w => replicate (length l) w | None => [] end) as ->.
  { clear Hne. induction l as [|s l IH]; [by destruct o|]. cbn [omap list_omap].
    rewrite (Hl s) by (by left). rewrite IH by (intros; apply Hl; by right). by destruct o. }
  destruct o as [w|]; [|done]. rewrite (remove_dups_const _ w); [done| |].
  - by destruct l.
  - intros y Hy. by apply elem_of_replicate in Hy as [-> _].
Qed.

Lemma merge_same s l :
  mergeable s → l ≠ [] → (∀ s', s' ∈ l → s' = s) → merge l = Ok s.
Proof.
  intros Hm Hne Hl. destruct l as [|s0 l]; [done|].
  assert (s0 = s) as -> by (apply Hl; by left).
  assert (forallb (λ s', bool_decide (s' = s)) l = true) as Hall.
  { apply forallb_forall. intros s' Hs'. apply bool_decide_eq_true_2, Hl. right.
    by apply list_elem_of_In. }
  destruct s as [a w k|a k|a w| |a|a]; cbn [merge]; try by rewrite Hall.
  set (l' := FullAttentionSpec a w k :: l) in *.
  assert (∀ s', s' ∈ l' → s' = FullAttentionSpec a w k) as Hl' by done.
  assert (∀ P : KVCacheSpec → bool, P (FullAttentionSpec a w k) = true → forallb P l' = true) as Hfa.
  { intros P HP. apply forallb_forall. intros s' Hs'%list_elem_of_In. by rewrite (Hl' _ Hs'). }
  unfold merge_full. rewrite (Hfa is_full) by reflexivity. cbn [py_assert]. rewrite Ok_bind.
  rewrite (merge_window_const w l' full_window) by (try done; intros s' Hs'; by rewrite (Hl' _ Hs')).
  rewrite Ok_bind.
  rewrite (merge_window_const k l' full_chunk) by (try done; intros s' Hs'; by rewrite (Hl' _ Hs')).
  rewrite Ok_bind, Hfa by (by apply bool_decide_eq_true_2).
  cbn [py_assert]. rewrite Ok_bind.
  destruct w, k; try done.
Qed.

(** A group: the merged specification of its layers. *)
Lemma create_groups_names d names gs :
  create_kv_cache_group_specs d names = Ok gs → layer_names <$> gs = names.
Proof.
  unfold create_kv_cache_group_specs. intros H.
  induction names as [|ns names IH] in gs, H |- *; simpl in H; [by simplify_eq|].
  apply bind_Ok in H as (g&Hg&H). apply bind_Ok in H as (gs'&Hgs&H). simplify_eq.
  rewrite fmap_cons, (IH _ Hgs). f_equal.
  apply bind_Ok in Hg as (l&_&Hg). apply bind_Ok in Hg as (m&_&Hg). by simplify_eq.
Qed.

Lemma create_groups_same d names :
  NoDup d.*1 → Forall mergeable d.*2 →
  (∀ ns, ns ∈ names → ns ≠ [] ∧ ∃ s, s ∈ d.*2 ∧ ∀ n, n ∈ ns → (n, s) ∈ d) →
  ∃ gs, create_kv_cache_group_specs d names = Ok gs ∧ layer_names <$> gs = names ∧
    ∀ g, g ∈ gs → ∃ s, kv_cache_spec g = LayerSpec s ∧ s ∈ d.*2 ∧
      ∀ n, n ∈ layer_names g → dict_get d n = Some s.
Proof.
  intros Hnd Hm Hnames. rewrite Forall_forall in Hm. unfold create_kv_cache_group_specs.
  induction names as [|ns names IH]; [exists []; split_and!; [done|done|by intros ? ?%elem_of_nil]|].
  destruct (Hnames ns ltac:(by left)) as (Hne&s&Hs&Hns).
  destruct IH as (gs&Hgs&Hn&Hg); [intros; apply Hnames; by right|].
  assert (map_res (λ n, of_option KeyError (dict_get d n)) ns = Ok ((λ _, s) <$> ns)) as Hspecs.
  { apply map_res_ok. intros n Hin. by rewrite (dict_get_in d n s Hnd (Hns n Hin)). }
  exists (mkGroup ns (LayerSpec s) :: gs). cbn [map_res]. rewrite Hspecs, Ok_bind.
  rewrite (merge_same s).
  - rewrite !Ok_bind, Hgs. split_and!; [done|by rewrite fmap_cons, Hn|].
    intros g [->|Hin]%elem_of_cons; [|by apply Hg].
    exists s. split_and!; [done|done|]. intros n Hin. by apply dict_get_in, Hns.
  - by apply Hm.
  - by destruct ns.
  - intros s' (?&->&_)%list_elem_of_fmap. done.
Qed.

Lemma uniform_page_groups d :
  d ≠ [] → NoDup d.*1 → Forall mergeable d.*2 →
  ∃ gs, get_kv_cache_groups_uniform_page_size d = Ok gs ∧
    mjoin (layer_names <$> gs) ≡ₚ d.*1 ∧
    ∀ g, g ∈ gs → layer_names g ≠ [] ∧
      (∃ s, kv_cache_spec g = LayerSpec s ∧ ∀ n, n ∈ layer_names g → dict_get d n = Some s) ∧
      ∀ s, s ∈ d.*2 → len (layer_names g) ≤ len (filter (λ kv, kv.2 = s) d).
Proof.
  intros Hne Hnd Hm. unfold get_kv_cache_groups_uniform_page_size.
  pose proof (same_type_layers_spec d) as (HndM&Hp&Hls&Hall).
  set (m := same_type_layers d) in *.
  assert (m ≠ []) as Hmne.
  { destruct d as [|[n s] d]; [done|]. intros E. specialize (Hall s ltac:(by left)).
    rewrite E in Hall. by apply elem_of_nil in Hall. }
  destruct (py_min ((λ ls, len ls) <$> m.*2)) as [k|] eqn:Hk.
  2:{ destruct m; [done|]. rewrite !fmap_cons in Hk. done. }
  rewrite Ok_bind. apply py_min_spec in Hk as [Hin Hmin].
  assert (∀ s ls, (s, ls) ∈ m → k ≤ len ls) as Hkm.
  { intros s ls Hi. apply Hmin. apply list_elem_of_fmap. exists ls. split; [done|].
    apply list_elem_of_fmap. by exists (s, ls). }
  assert (0 < k) as Hk0.
  { apply list_elem_of_fmap in Hin as (ls&->&Hi). apply list_elem_of_fmap in Hi as ([s ls']&->&Hi).
    simpl. destruct (Hls _ _ Hi) as [? _]. destruct ls'; [done|]. rewrite len_cons. len_lia. }
  set (names := mjoin ((λ ls, split_layers k ls) <$> m.*2)).
  assert (∀ ns, ns ∈ names → ns ≠ [] ∧ len ns ≤ k ∧ ∃ s, s ∈ d.*2 ∧ ∀ n, n ∈ ns → (n, s) ∈ d) as Hnames.
  { intros ns (l&Hns&Hl)%list_elem_of_join. apply list_elem_of_fmap in Hl as (ls&->&Hl).
    apply list_elem_of_fmap in Hl as ([s ls']&->&Hl). simpl in Hns.
    destruct (Hls _ _ Hl) as [Hlne Heq].
    destruct (split_layers_spec k ls' Hk0 Hlne) as [Hperm Hsz].
    destruct (Hsz ns Hns) as [Hnne Hnk]. split_and!; [done|done|]. exists s.
    assert (∀ n, n ∈ ls' → (n, s) ∈ d) as Hin'.
    { intros n Hn. rewrite Heq in Hn. apply list_elem_of_fmap in Hn as ([n' s']&->&Hn).
      apply list_elem_of_filter in Hn as [<- Hn]. done. }
    assert (∀ n, n ∈ ns → (n, s) ∈ d) as Hin2.
    { intros n Hn. apply Hin'. rewrite <-Hperm. apply list_elem_of_join. by exists ns. }
    split; [|done]. destruct ns as [|n ns]; [done|].
    apply list_elem_of_fmap. exists (n, s). split; [done|]. apply Hin2. by left. }
  destruct (create_groups_same d names Hnd Hm) as (gs&Hgs&Hn&Hg).
  { intros ns Hi. destruct (Hnames ns Hi) as (?&_&?). done. }
  exists gs. split_and!; [done| |].
  - rewrite Hn, <-Hp. unfold names.
    assert (∀ ls, ls ∈ m.*2 → ls ≠ []) as Hlne.
    { intros ls ([s ls']&->&Hl)%list_elem_of_fmap. by apply (Hls s). }
    revert Hlne. generalize (m.*2). intros lls Hlne. induction lls as [|ls lls IH]; [done|].
    rewrite fmap_cons, !mjoin_cons_list, mjoin_app_list, IH by (intros; apply Hlne; by right).
    f_equiv. apply split_layers_spec; [done|]. apply Hlne. by left.
  - intros g Hi. destruct (Hg g Hi) as (s&Hs&Hsd&Hgn).
    assert (layer_names g ∈ names) as Hin'.
    { rewrite <-Hn. by apply list_elem_of_fmap_2. }
    destruct (Hnames _ Hin') as (?&Hle&_). split_and!; [done|by exists s|].
    intros s' Hs'. etrans; [exact Hle|]. apply Hall in Hs'.
    apply list_elem_of_fmap in Hs' as ([s1 ls1]&->&Hl1). simpl.
    etrans; [by eapply Hkm|]. destruct (Hls _ _ Hl1) as [_ ->]. by rewrite len_fmap.
Qed.

(** ** The groups of a model hold every layer once *)

Lemma to_full_mergeable s : mergeable s → mergeable (to_full s).
Proof. by destruct s. Qed.

Lemma prod_map_keys (d : specs_dict) : (prod_map id to_full <$> d).*1 = d.*1.
Proof. rewrite <-list_fmap_compose. by apply list_fmap_ext. Qed.

Lemma unify_spec d d' :
  unify_hybrid_kv_cache_specs d = Ok d' → Forall mergeable d.*2 →
  d'.*1 = d.*1 ∧ Forall mergeable d'.*2 ∧ is_kv_cache_spec_uniform d' = Ok true.
Proof.
  unfold unify_hybrid_kv_cache_specs. intros H Hm.
  apply bind_Ok in H as (u&Hu&H). destruct u; [by simplify_eq|].
  match type of H with context [is_kv_cache_spec_uniform ?x] => set (d1 := x) in * end.
  apply bind_Ok in H as (u&Hu'&H). destruct u; [|done]. injection H as <-.
  assert (d1.*1 = d.*1 ∧ Forall mergeable d1.*2) as [? ?]; [|done].
  unfold d1. case_match; [|done]. rewrite prod_map_keys. split; [done|].
  rewrite <-list_fmap_compose. rewrite Forall_forall in *.
  intros s ([n s']&->&Hin)%list_elem_of_fmap. simpl. apply to_full_mergeable, Hm.
  apply list_elem_of_fmap. by exists (n, s').
Qed.

Lemma from_specs_spec d g :
  from_specs d = Ok (Some g) → ∃ bs, g = UniformTypeKVCacheSpecs bs d.
Proof.
  unfold from_specs. intros H. apply bind_Ok in H as (b&_&H). destruct b; [|done].
  destruct d as [|[n s] d]; simplify_eq. by eexists.
Qed.

Lemma uniform_spec_groups d gs :
  get_kv_cache_groups_uniform_spec d = Ok gs →
  mjoin (layer_names <$> gs) = d.*1 ∧ ∀ g, g ∈ gs → ∃ s, kv_cache_spec g = LayerSpec s.
Proof.
  intros H. split.
  - unfold get_kv_cache_groups_uniform_spec in H. apply create_groups_names in H.
    rewrite H, mjoin_cons_list. apply app_nil_r.
  - unfold get_kv_cache_groups_uniform_spec, create_kv_cache_group_specs in H. simpl in H.
    apply bind_Ok in H as (g&Hg&H). simplify_eq.
    apply bind_Ok in Hg as (l&_&Hg). apply bind_Ok in Hg as (m&_&Hg). simplify_eq.
    intros g' ->%list_elem_of_singleton. by eexists.
Qed.

Lemma groups_partition get_dtype_size c d gs :
  NoDup d.*1 → Forall mergeable d.*2 →
  get_kv_cache_groups get_dtype_size c d = Ok gs →
  mjoin (layer_names <$> gs) ≡ₚ d.*1 ∧
  ∀ g bs d0, g ∈ gs → kv_cache_spec g = UniformTypeKVCacheSpecs bs d0 → gs = [g] ∧ d0 = d.
Proof.
  intros Hnd Hm H. unfold get_kv_cache_groups in H. apply bind_Ok in H as (d1&Hd1&H).
  assert (d1.*1 = d.*1 ∧ Forall mergeable d1.*2 ∧
          (d1 = d ∨ is_kv_cache_spec_uniform d1 = Ok true)) as (Hk&Hm1&Hu).
  { destruct (disable_hybrid_kv_cache_manager c); [|simplify_eq; auto].
    destruct (unify_spec _ _ Hd1 Hm) as (?&?&?). auto. }
  rewrite <-Hk. rewrite <-Hk in Hnd. clear Hd1 Hk Hm.
  destruct (is_kv_cache_type_attention_free d1) eqn:Hfree.
  { destruct d1; [|done]. simplify_eq. split; [done|]. by intros ? ? ? ?%elem_of_nil. }
  apply bind_Ok in H as (u&Hu1&H). destruct u.
  { destruct (uniform_spec_groups _ _ H) as [-> Hs]. split; [done|].
    intros g bs d0 Hg E. destruct (Hs g Hg) as [s Hs']. by rewrite E in Hs'. }
  destruct Hu as [->|Hu]; [|congruence].
  apply bind_Ok in H as (o&Ho&H). destruct o as [g|].
  { apply from_specs_spec in Ho as [bs ->]. simplify_eq. split.
    - cbn. by rewrite app_nil_r.
    - intros g bs' d0 ->%list_elem_of_singleton E. simpl in E. by simplify_eq. }
  apply bind_Ok in H as (u&_&H). destruct u; [|done].
  assert (d ≠ []) as Hne by (by intros ->).
  destruct (uniform_page_groups d Hne Hnd Hm1) as (gs'&Hgs'&Hp&Hg).
  rewrite Hgs' in H. injection H as <-.
  split; [done|]. intros g bs d0 Hin E. destruct (Hg g Hin) as (_&(s&Hs&_)&_).
  by rewrite E in Hs.
Qed.

(** ** Tensors *)

Lemma join_option_list {A} (g : list A) k :
  (length g ≤ k)%nat → mjoin ((λ i, option_list (g !! i)) <$> seq 0 k) = g.
Proof.
  intros Hk. induction g as [|x g IH] in k, Hk |- *.
  - clear Hk. induction k as [|k IH]; [done|].
    rewrite seq_S, fmap_app, mjoin_app_list, IH. done.
  - destruct k as [|k]; simpl in Hk; [lia|].
    rewrite <-cons_seq, fmap_cons, <-fmap_S_seq, <-list_fmap_compose, mjoin_cons_list. simpl.
    f_equal. apply IH. lia.
Qed.

Lemma join_zip_app {A B} (f g : B → list A) (l : list B) :
  mjoin ((λ i, f i ++ g i) <$> l) ≡ₚ mjoin (f <$> l) ++ mjoin (g <$> l).
Proof.
  induction l as [|i l IH]; [done|]. rewrite !fmap_cons, !mjoin_cons_list, IH.
  rewrite <-!app_assoc. apply Permutation_app_head.
  rewrite !app_assoc. apply Permutation_app_tail, Permutation_app_comm.
Qed.

(** Reading the groups column by column lists every layer once. *)
Lemma shared_layers_perm (gs : list KVCacheGroupSpec) k :
  (∀ g, g ∈ gs → len (layer_names g) ≤ k) →
  mjoin (shared_layers gs <$> seq 0 (Z.to_nat k)) ≡ₚ mjoin (layer_names <$> gs).
Proof.
  intros Hk. induction gs as [|g gs IH].
  - generalize (seq 0 (Z.to_nat k)). intros l. induction l as [|i l IH]; [done|]. exact IH.
  - rewrite fmap_cons, mjoin_cons_list, <-IH by (intros; apply Hk; by right).
    rewrite <-(join_option_list (layer_names g) (Z.to_nat k)).
    2:{ specialize (Hk g ltac:(by left)). unfold len in Hk. lia. }
    rewrite <-join_zip_app. erewrite list_fmap_ext; [reflexivity|].
    intros _ i _. unfold shared_layers. simpl. by destruct (layer_names g !! i).
Qed.

Lemma seqZ_nat {B} (f : nat → B) n : (λ i, f (Z.to_nat i)) <$> py_range 0 n = f <$> seq 0 (Z.to_nat n).
Proof.
  unfold py_range, seqZ. rewrite Z.sub_0_r, <-list_fmap_compose.
  apply list_fmap_ext. intros _ i _. simpl. f_equal. lia.
Qed.

Lemma sumZ_const {A} (x : Z) (l : list A) : sumZ ((λ _, x) <$> l) = len l * x.
Proof.
  induction l as [|a l IH]; [done|]. rewrite fmap_cons, sumZ_cons, IH, len_cons. lia.
Qed.

Section tensors.
Context (get_dtype_size : dtype → Z).

(** What a layout must give: every layer in exactly one tensor, a total size
    within the memory, and room for [n] blocks of each layer. *)
Record layout_ok (avail : Z) (names : list string) (d : specs_dict) (n : Z)
    (ts : list KVCacheTensor) : Prop := {
  lo_layers : mjoin (shared_by <$> ts) ≡ₚ names;
  lo_total : sumZ (size <$> ts) ≤ avail;
  lo_blocks : ∀ t name s p, t ∈ ts → name ∈ shared_by t → dict_get d name = Some s →
    page_size_bytes get_dtype_size s = Ok p → p * n ≤ size t;
}.

Lemma map_res_Ok {A B} (f : A → result B) l k :
  map_res f l = Ok k → Forall2 (λ x y, f x = Ok y) l k.
Proof.
  induction l as [|x l IH] in k |- *; simpl; intros H; [by simplify_eq|].
  apply bind_Ok in H as (y&Hy&H). apply bind_Ok in H as (ys&Hys&H). simplify_eq.
  constructor; auto.
Qed.

Lemma get_uniform_page_size_spec d p :
  get_uniform_page_size get_dtype_size d = Ok p →
  ∀ n s, dict_get d n = Some s → page_size_bytes get_dtype_size s = Ok p.
Proof.
  unfold get_uniform_page_size. intros H n s Hs%dict_get_Some.
  apply bind_Ok in H as (ps&Hps&H). apply map_res_Ok in Hps.
  apply (list_elem_of_fmap_2 snd), list_elem_of_lookup in Hs as [i Hi]. simpl in Hi.
  destruct (Forall2_lookup_l _ _ _ _ _ Hps Hi) as (q&Hq&Hqs). rewrite Hqs. f_equal.
  apply list_elem_of_lookup_2, elem_of_remove_dups in Hq.
  destruct (remove_dups ps) as [|p' [|]]; simplify_eq.
  by apply list_elem_of_singleton in Hq.
Qed.

Lemma general_tensors_spec c avail gs d n ts :
  general_tensors get_dtype_size c avail gs d = Ok (n, ts) →
  num_gpu_blocks_override c = None → 0 ≤ avail →
  (∀ name s p, dict_get d name = Some s → page_size_bytes get_dtype_size s = Ok p → 0 ≤ p) →
  d ≠ [] →
  layout_ok avail (mjoin (layer_names <$> gs)) d n ts ∧ 0 ≤ n.
Proof.
  unfold general_tensors. intros H Hov Hav Hpos Hd.
  apply bind_Ok in H as (k&Hk&H). apply bind_Ok in H as (p&Hp&H).
  apply bind_Ok in H as (u&Hk0%py_assert_Ok&H). apply bind_Ok in H as (n'&Hn&H). simplify_eq.
  apply Z.ltb_lt in Hk0. apply py_max_spec in Hk as [_ Hmax].
  pose proof (get_uniform_page_size_spec d p Hp) as Hpage.
  assert (0 ≤ p) as Hp0.
  { destruct d as [|[name s] d]; [done|]. apply (Hpos name s); [|eapply (Hpage name)];
      simpl; by rewrite decide_True. }
  unfold get_num_blocks, may_override_num_blocks in Hn. rewrite Hov in Hn. case_match; [done|].
  simpl in Hn. injection Hn as Hn.
  assert (p ≠ 0) by (intros ->; done). assert (0 ≤ avail / p) by (apply Z.div_pos; lia).
  assert (0 ≤ avail / p / k) by (apply Z.div_pos; lia).
  rewrite (seqZ_nat (λ i, mkTensor (p * n) (shared_layers gs i))). split; [|lia]. split.
  - rewrite <-list_fmap_compose. simpl. apply shared_layers_perm.
    intros g Hg. apply Hmax. by apply (list_elem_of_fmap_2 (λ g, len (layer_names g))).
  - rewrite <-list_fmap_compose. unfold compose. simpl. rewrite sumZ_const.
    unfold len. rewrite length_seq. rewrite Z2Nat.id by lia.
    pose proof (Z.mul_div_le avail p ltac:(lia)).
    pose proof (Z.mul_div_le (avail / p) k ltac:(lia)).
    assert (n = avail / p / k) by lia. nia.
  - intros t name s q (i&->&_)%list_elem_of_fmap _ Hs Hq. simpl.
    rewrite (Hpage _ _ Hs) in Hq. simplify_eq. done.
Qed.
End tensors.

Lemma sumZ_perm (l k : list Z) : l ≡ₚ k → sumZ l = sumZ k.
Proof. induction 1; rewrite ?sumZ_cons; lia. Qed.

Lemma sumZ_nonneg (l : list Z) : (∀ x, x ∈ l → 0 ≤ x) → 0 ≤ sumZ l.
Proof.
  induction l as [|x l IH]; intros Hl; [done|]. rewrite sumZ_cons.
  pose proof (Hl x ltac:(by left)). specialize (IH ltac:(intros; apply Hl; by right)). lia.
Qed.

(** The sum over some of the keys is at most the sum over all of them. *)
Lemma sumZ_sub (f : string → Z) (names keys : list string) :
  NoDup names → (∀ n, n ∈ names → n ∈ keys) → (∀ n, n ∈ keys → 0 ≤ f n) →
  sumZ (f <$> names) ≤ sumZ (f <$> keys).
Proof.
  intros Hnd Hin Hf. destruct (submseteq_Permutation names keys) as [k Hk].
  { by apply NoDup_submseteq. }
  rewrite (sumZ_perm (f <$> keys) (f <$> (names ++ k))) by (by rewrite Hk).
  rewrite fmap_app, sumZ_app.
  assert (0 ≤ sumZ (f <$> k)); [|lia].
  apply sumZ_nonneg. intros x (n&->&Hn)%list_elem_of_fmap. apply Hf. rewrite Hk. set_solver.
Qed.

Section configs.
Context (get_dtype_size : dtype → Z).

(** Every page the specifications of [d] have is of non-negative size. *)
Definition pages_ok (d : specs_dict) : Prop :=
  ∀ kv p, kv ∈ d → page_size_bytes get_dtype_size kv.2 = Ok p → 0 ≤ p.

Definition page_of (d : specs_dict) (n : string) : Z :=
  match s ← of_option KeyError (dict_get d n); page_size_bytes get_dtype_size s with
  | Ok p => p
  | Err _ => 0
  end.

Lemma page_of_in d n s p :
  NoDup d.*1 → (n, s) ∈ d → page_size_bytes get_dtype_size s = Ok p → page_of d n = p.
Proof. intros Hnd Hin Hp. unfold page_of. rewrite (dict_get_in d n s) by done. simpl. by rewrite Hp. Qed.

Lemma group_page_sum bs d p :
  NoDup d.*1 → group_page_size_bytes get_dtype_size (UniformTypeKVCacheSpecs bs d) = Ok p →
  p = sumZ (page_of d <$> d.*1).
Proof.
  intros Hnd H. simpl in H. apply bind_Ok in H as (ps&Hps&H). injection H as <-. f_equal.
  apply map_res_Ok in Hps.
  apply list_eq. intros i. rewrite !list_lookup_fmap.
  destruct (d !! i) as [[n s]|] eqn:Hi; simpl.
  - assert (d.*2 !! i = Some s) as Hi2 by (by rewrite list_lookup_fmap, Hi).
    destruct (Forall2_lookup_l _ _ _ _ _ Hps Hi2) as (q&->&Hq). f_equal. symmetry.
    eapply page_of_in; [done| |done]. by eapply list_elem_of_lookup_2.
  - destruct (ps !! i) as [q|] eqn:Hq; [|done].
    destruct (Forall2_lookup_r _ _ _ _ _ Hps Hq) as (s&Hs&_).
    by rewrite list_lookup_fmap, Hi in Hs.
Qed.

Lemma pages_nonneg d n : pages_ok d → 0 ≤ page_of d n.
Proof.
  intros Hp. unfold page_of. destruct (dict_get d n) as [s|] eqn:Hs; [|done]. simpl.
  destruct (page_size_bytes get_dtype_size s) as [p|] eqn:Hps; [|done].
  apply dict_get_Some in Hs. by apply (Hp (n, s)).
Qed.

Lemma uniform_type_tensors_spec c avail names bs d0 d n ts :
  uniform_type_tensors get_dtype_size c avail names (UniformTypeKVCacheSpecs bs d0) d0
    = Ok (n, ts) →
  num_gpu_blocks_override c = None → 0 ≤ avail → pages_ok d0 →
  NoDup d0.*1 → (∀ kv, kv ∈ d → kv ∈ d0) → NoDup names → (∀ k, k ∈ names → k ∈ d0.*1) →
  layout_ok get_dtype_size avail names d n ts ∧ 0 ≤ n.
Proof.
  unfold uniform_type_tensors. intros H Hov Hav Hpos Hnd0 Hsub Hnd Hin.
  apply bind_Ok in H as (page&Hpage&H). apply group_page_sum in Hpage; [|done].
  case_match eqn:Hz; [done|]. apply Z.eqb_neq in Hz.
  apply bind_Ok in H as (ts'&Hts&H). unfold may_override_num_blocks in *. rewrite Hov in *.
  cbn [default from_option] in H, Hts. injection H as <- <-.
  assert (0 ≤ page) as Hpage0.
  { rewrite Hpage. apply sumZ_nonneg. intros x (k&->&_)%list_elem_of_fmap. by apply pages_nonneg. }
  assert (0 ≤ avail / page) as Hn0 by (apply Z.div_pos; lia).
  set (n := avail / page) in *.
  assert (ts' = (λ k, mkTensor (page_of d0 k * n) [k]) <$> names) as ->.
  { apply map_res_Ok in Hts. apply list_eq. intros i. rewrite list_lookup_fmap.
    destruct (names !! i) as [k|] eqn:Hk.
    - destruct (Forall2_lookup_l _ _ _ _ _ Hts Hk) as (t&->&Ht). simpl. f_equal.
      apply bind_Ok in Ht as (s&Hs&Ht). apply bind_Ok in Ht as (p&Hp&Ht). simplify_eq.
      unfold page_of. by rewrite Hs, Ok_bind, Hp.
    - destruct (ts' !! i) as [t|] eqn:Ht; [|done].
      destruct (Forall2_lookup_r _ _ _ _ _ Hts Ht) as (k&Hk'&_). by rewrite Hk in Hk'. }
  split; [|done]. split.
  - rewrite <-list_fmap_compose. unfold compose. simpl. clear.
    induction names as [|k names IH]; [done|]. rewrite fmap_cons, mjoin_cons_list, IH. done.
  - rewrite <-list_fmap_compose. unfold compose. simpl.
    assert (sumZ ((λ k, page_of d0 k * n) <$> names) = sumZ (page_of d0 <$> names) * n) as ->.
    { clear. induction names as [|k names IH]; [done|]. rewrite !fmap_cons, !sumZ_cons, IH. lia. }
    pose proof (sumZ_sub (page_of d0) names d0.*1 Hnd Hin
      ltac:(intros; by apply pages_nonneg)) as Hle.
    rewrite <-Hpage in Hle. pose proof (Z.mul_div_le avail page ltac:(lia)).
    unfold n. nia.
  - intros t name s p (k&->&Hk)%list_elem_of_fmap Hname Hs Hp. simpl in *.
    apply list_elem_of_singleton in Hname as ->. apply dict_get_Some, Hsub in Hs.
    by rewrite (page_of_in d0 k s p).
Qed.

Lemma config_spec c gs d avail cfg :
  get_kv_cache_config_from_groups get_dtype_size c gs d avail = Ok cfg →
  num_gpu_blocks_override c = None → 0 ≤ avail → pages_ok d → NoDup d.*1 →
  (∀ g bs d0, g ∈ gs → kv_cache_spec g = UniformTypeKVCacheSpecs bs d0 → gs = [g] →
     NoDup d0.*1 ∧ (∀ kv, kv ∈ d → kv ∈ d0) ∧ pages_ok d0) →
  mjoin (layer_names <$> gs) ≡ₚ d.*1 →
  kv_cache_groups cfg = gs ∧ 0 ≤ num_blocks cfg ∧
  layout_ok get_dtype_size avail d.*1 d (num_blocks cfg) (kv_cache_tensors cfg).
Proof.
  intros H Hov Hav Hpos Hnd Huni Hpart. unfold get_kv_cache_config_from_groups in H.
  destruct gs as [|g gs].
  { injection H as <-. split_and!; [done|done|]. split; [exact Hpart|done|].
    by intros ? ? ? ? ?%elem_of_nil. }
  set (gg := g :: gs) in *. apply bind_Ok in H as ([n ts]&Hts&H).
  apply bind_Ok in H as (mb&_&H). apply bind_Ok in H as (mc&_&H). injection H as <-.
  cbn [kv_cache_groups num_blocks kv_cache_tensors].
  assert (∀ r, r = Ok (n, ts) → r = general_tensors get_dtype_size c avail gg d →
    layout_ok get_dtype_size avail (mjoin (layer_names <$> gg)) d n ts ∧ 0 ≤ n) as Hgen.
  { intros r -> Hr. apply (general_tensors_spec _ c avail gg); [done|done|done| |].
    - intros name s p Hs Hp. apply dict_get_Some in Hs. by apply (Hpos (name, s)).
    - intros ->. symmetry in Hr. unfold general_tensors in Hr.
      apply bind_Ok in Hr as (k&_&Hr). done. }
  assert (layout_ok get_dtype_size avail (mjoin (layer_names <$> gg)) d n ts ∧ 0 ≤ n) as [Hl ?].
  { destruct g as [names [s|bs d0]]; [by eapply Hgen|].
    destruct gs as [|g' gs']; [|by eapply Hgen].
    destruct (Huni (mkGroup names (UniformTypeKVCacheSpecs bs d0)) bs d0) as (?&?&?);
      [by left|done|done|].
    unfold gg in *. cbn in Hpart |- *. rewrite app_nil_r in *.
    eapply uniform_type_tensors_spec; try done.
    - by rewrite Hpart.
    - intros k Hk. rewrite Hpart in Hk. apply list_elem_of_fmap in Hk as (kv&->&Hk).
      apply list_elem_of_fmap_2. auto. }
  split_and!; [done|done|]. destruct Hl as [H1 H2 H3]. split; [by rewrite H1|done|done].
Qed.
End configs.

Lemma Forall2_impl_elem {A B} (P Q : A → B → Prop) l k :
  Forall2 P l k → (∀ x y, x ∈ l → y ∈ k → P x y → Q x y) → Forall2 Q l k.
Proof.
  induction 1 as [|x y l k Hxy HF IH]; intros HQ; constructor.
  - apply HQ; [by left|by left|done].
  - apply IH. intros x' y' Hx Hy. apply HQ; by right.
Qed.

(** ** Merging the workers *)

Lemma merge_layer_spec kv m m' :
  merge_layer kv m = Ok m' → NoDup m.*1 →
  NoDup m'.*1 ∧ kv ∈ m' ∧ (∀ x, x ∈ m → x ∈ m') ∧ (∀ x, x ∈ m' → x ∈ m ∨ x = kv).
Proof.
  unfold merge_layer. intros H Hnd. destruct (dict_get m kv.1) as [s|] eqn:Hg.
  - apply bind_Ok in H as (u&Hu%py_assert_Ok&H). simplify_eq.
    apply bool_decide_eq_true_1 in Hu as ->. apply dict_get_Some in Hg.
    rewrite <-surjective_pairing in Hg. split_and!; auto.
  - simplify_eq. split_and!.
    + rewrite fmap_app. apply NoDup_app. split_and!; [done| |apply NoDup_singleton].
      intros x Hx ->%list_elem_of_singleton. apply dict_get_is_Some in Hx as [v Hv].
      by rewrite Hg in Hv.
    + set_solver.
    + set_solver.
    + intros x. rewrite elem_of_app, list_elem_of_singleton. done.
Qed.

Lemma merge_dict_spec d m m' :
  for_each merge_layer d m = Ok m' → NoDup m.*1 →
  NoDup m'.*1 ∧ (∀ x, x ∈ m' ↔ x ∈ m ∨ x ∈ d).
Proof.
  induction d as [|kv d IH] in m |- *; simpl; intros H Hnd.
  { simplify_eq. split; [done|]. intros x. rewrite elem_of_nil. naive_solver. }
  apply bind_Ok in H as (m1&H1&H). destruct (merge_layer_spec _ _ _ H1 Hnd) as (Hnd1&?&?&?).
  destruct (IH _ H Hnd1) as [? Hx]. split; [done|]. intros x. rewrite Hx, elem_of_cons.
  naive_solver.
Qed.

Lemma merge_workers_spec ds m m' :
  for_each (λ d m, for_each merge_layer d m) ds m = Ok m' → NoDup m.*1 →
  NoDup m'.*1 ∧ (∀ x, x ∈ m' ↔ x ∈ m ∨ ∃ d, d ∈ ds ∧ x ∈ d).
Proof.
  induction ds as [|d ds IH] in m |- *; simpl; intros H Hnd.
  { simplify_eq. split; [done|]. intros x. setoid_rewrite elem_of_nil. naive_solver. }
  apply bind_Ok in H as (m1&H1&H). destruct (merge_dict_spec _ _ _ H1 Hnd) as (Hnd1&Hx1).
  destruct (IH _ H Hnd1) as [? Hx]. split; [done|]. intros x. rewrite Hx, Hx1.
  setoid_rewrite elem_of_cons. naive_solver.
Qed.

(** The layers of one worker, group by group. *)
Lemma worker_groups_perm gs (M d : specs_dict) :
  mjoin (layer_names <$> gs) ≡ₚ M.*1 → NoDup M.*1 → NoDup d.*1 →
  (∀ n, n ∈ d.*1 → n ∈ M.*1) →
  mjoin (layer_names <$> worker_groups gs d) ≡ₚ d.*1.
Proof.
  intros Hp HM Hd Hin.
  assert (mjoin (layer_names <$> worker_groups gs d) =
          filter (λ n, n ∈ d.*1) (mjoin (layer_names <$> gs))) as ->.
  { unfold worker_groups. rewrite <-list_fmap_compose. unfold compose. simpl. clear.
    induction gs as [|g gs IH]; [done|].
    by rewrite !fmap_cons, !mjoin_cons_list, filter_app, IH. }
  rewrite Hp. apply NoDup_Permutation; [by apply NoDup_filter|done|].
  intros n. rewrite list_elem_of_filter. naive_solver.
Qed.

Lemma zip_elem {A B} (l : list A) (k : list B) x y : (x, y) ∈ zip l k → x ∈ l ∧ y ∈ k.
Proof.
  intros Hin. split.
  - by eapply elem_of_zip_l.
  - by eapply elem_of_zip_r.
Qed.

Lemma layout_shrink gds avail names d n n' ts :
  layout_ok gds avail names d n ts → pages_ok gds d → n' ≤ n →
  layout_ok gds avail names d n' ts.
Proof.
  intros [H1 H2 H3] Hp Hn. split; [done|done|]. intros t name s p Ht Hname Hs Hpage.
  specialize (H3 t name s p Ht Hname Hs Hpage).
  assert (0 ≤ p) by (apply (Hp (name, s)); [by apply dict_get_Some|done]). nia.
Qed.

Lemma groups_of_nothing gds c : get_kv_cache_groups gds c [] = Ok [].
Proof. unfold get_kv_cache_groups. by destruct (disable_hybrid_kv_cache_manager c). Qed.

(** The scheduler's configuration exists as soon as the workers agree. *)
Lemma scheduler_config_ok cfgs n :
  cfgs ≠ [] → (∀ cfg, cfg ∈ cfgs → num_blocks cfg = n) →
  (∀ cfg g bs, cfg ∈ cfgs → g ∈ kv_cache_groups cfg →
     kv_cache_spec g ≠ UniformTypeKVCacheSpecs bs []) →
  ∃ sched, generate_scheduler_kv_cache_config cfgs = Ok sched ∧ num_blocks sched = n ∧
    (∀ cfg, head cfgs = Some cfg →
       layer_names <$> kv_cache_groups sched = layer_names <$> kv_cache_groups cfg) ∧
    (∀ g, g ∈ kv_cache_groups sched → ∃ s, kv_cache_spec g = LayerSpec s).
Proof.
  intros Hne Hn Huni. destruct cfgs as [|cfg cfgs]; [done|].
  unfold generate_scheduler_kv_cache_config. rewrite py_assert_true.
  2:{ apply forallb_forall. intros cfg' Hcfg'. apply Z.eqb_eq.
      rewrite (Hn cfg) by (by left). apply Hn. by apply list_elem_of_In. }
  rewrite Ok_bind.
  set (f := λ g, match kv_cache_spec g with
                 | UniformTypeKVCacheSpecs _ ((_, s) :: _) => mkGroup (layer_names g) (LayerSpec s)
                 | _ => g end).
  rewrite (map_res_ok _ f).
  - eexists. split; [done|]. simpl. split_and!; [apply Hn; by left| |].
    + intros cfg' [= <-]. rewrite <-list_fmap_compose. apply list_fmap_ext.
      intros i g _. unfold compose, f. by repeat case_match.
    + intros g (g0&->&Hg)%list_elem_of_fmap. specialize (Huni cfg g0).
      unfold f. destruct (kv_cache_spec g0) as [s|bs [|[k s] d]] eqn:E; [by eexists| |by eexists].
      by destruct (Huni bs ltac:(by left) Hg).
  - intros g Hg. specialize (Huni cfg g). unfold f.
    destruct (kv_cache_spec g) as [s|bs [|[k s] d]] eqn:E; [done| |done].
    by destruct (Huni bs ltac:(by left) Hg).
Qed.

(** ** Concrete configurations for the witnesses *)

Definition ex_dtype_size (d : dtype) : Z := 2.
Definition ex_attn : AttentionSpec := mkAttn 4 1 8 "half" false.
Definition ex_full : KVCacheSpec := FullAttentionSpec ex_attn None None.
Definition ex_sliding : KVCacheSpec := SlidingWindowSpec ex_attn 8.
(** A page of [ex_attn] has 128 bytes. *)
Definition ex_model : specs_dict :=
  [("full.0", ex_full); ("sw.0", ex_sliding); ("sw.1", ex_sliding);
   ("full.1", ex_full); ("sw.2", ex_sliding)]%string.
Definition ex_vllm_config : VllmConfig := mkConfig 16 1 8 0 None false.

Lemma ex_spec_ok : Forall (spec_ok ex_dtype_size ex_vllm_config) ex_model.*2.
Proof. repeat constructor; vm_compute; done. Qed.
Lemma ex_nodup : NoDup ex_model.*1.
Proof. apply (bool_decide_unpack _). by vm_compute. Qed.
Lemma ex_mergeable : Forall mergeable ex_model.*2.
Proof. repeat constructor. Qed.

(** C34. The estimated model length: [estimate_max_model_len] always returns; 0 means
    that not even one token fits, otherwise the result fits the memory and no
    greater length up to the configured maximum does. *)
Theorem estimate_max_model_len_longest gds c d avail :
  Forall (spec_ok gds c) d.*2 →
  ∃ r c', estimate_max_model_len gds c d avail = Ok (r, c') ∧
    (r = 0 ∧ avail < memory_needed gds c d 1 ∨
     1 ≤ r ≤ Z.max 1 (max_model_len c) ∧ memory_needed gds c d r ≤ avail) ∧
    ∀ n, r < n ≤ max_model_len c → avail < memory_needed gds c d n.
Proof.
  intros Hd. destruct (estimate_spec gds c d avail Hd) as (r&m'&He&?&?).
  exists r, (set_max_model_len m' c). done.
Qed.

Lemma estimate_max_model_len_longest_witness :
  fst <$> estimate_max_model_len ex_dtype_size ex_vllm_config ex_model 2000 = Ok 8 ∧
  ∃ r c', estimate_max_model_len ex_dtype_size ex_vllm_config ex_model 2000 = Ok (r, c') ∧
    (r = 0 ∧ 2000 < memory_needed ex_dtype_size ex_vllm_config ex_model 1 ∨
     1 ≤ r ≤ Z.max 1 (max_model_len ex_vllm_config) ∧
       memory_needed ex_dtype_size ex_vllm_config ex_model r ≤ 2000) ∧
    ∀ n, r < n ≤ max_model_len ex_vllm_config →
      2000 < memory_needed ex_dtype_size ex_vllm_config ex_model n.
Proof.
  split; [by vm_compute|].
  apply (estimate_max_model_len_longest ex_dtype_size ex_vllm_config ex_model 2000).
  exact ex_spec_ok.
Defined.

(** C33. The memory check accepts exactly the models without a KV cache and those
    whose layers together need no more than a positive available memory for one
    request of the maximum length; every other model is refused with [ValueError]. *)
Theorem check_enough_kv_cache_memory_exact gds c d avail :
  Forall (spec_ok gds c) d.*2 →
  (check_enough_kv_cache_memory gds c d avail = Ok tt ↔
     d = [] ∨ 0 < avail ∧ memory_needed gds c d (max_model_len c) ≤ avail) ∧
  (check_enough_kv_cache_memory gds c d avail ≠ Ok tt →
     check_enough_kv_cache_memory gds c d avail = Err ValueError).
Proof.
  intros Hd. rewrite (check_enough_spec gds c d avail Hd). by case_bool_decide; split_and!.
Qed.

Lemma check_enough_kv_cache_memory_exact_witness :
  (check_enough_kv_cache_memory ex_dtype_size ex_vllm_config ex_model 2000 = Ok tt ↔
     ex_model = [] ∨ 0 < 2000 ∧ memory_needed ex_dtype_size ex_vllm_config ex_model 16 ≤ 2000) ∧
  (check_enough_kv_cache_memory ex_dtype_size ex_vllm_config ex_model 2000 ≠ Ok tt →
     check_enough_kv_cache_memory ex_dtype_size ex_vllm_config ex_model 2000 = Err ValueError).
Proof.
  apply (check_enough_kv_cache_memory_exact ex_dtype_size ex_vllm_config ex_model 2000).
  exact ex_spec_ok.
Defined.


Definition ex_groups : list KVCacheGroupSpec :=
  match get_kv_cache_groups_uniform_page_size ex_model with Ok gs => gs | Err _ => [] end.


(** C31. The configurations of the workers: when they are generated, each worker has
    the same number of blocks, every layer of a worker lies in exactly one of its
    tensors, the tensors fit in the worker's memory, and each holds that number of
    blocks of every layer it serves; the scheduler's configuration, derived from
    them, exists and keeps the number of blocks and the layers of each group. *)
Theorem get_kv_cache_configs_correct gds c ds avails cfgs :
  get_kv_cache_configs gds c ds avails = Ok cfgs →
  num_gpu_blocks_override c = None →
  (∀ a, a ∈ avails → 0 ≤ a) →
  (∀ d, d ∈ ds → NoDup d.*1 ∧ Forall mergeable d.*2 ∧ pages_ok gds d) →
  ∃ n, 0 ≤ n ∧ (∀ cfg, cfg ∈ cfgs → num_blocks cfg = n) ∧
    Forall2 (λ w cfg, layout_ok gds w.2 w.1.*1 w.1 n (kv_cache_tensors cfg)) (zip ds avails) cfgs ∧
    ∃ sched, generate_scheduler_kv_cache_config cfgs = Ok sched ∧ num_blocks sched = n ∧
      (∀ cfg, head cfgs = Some cfg →
         layer_names <$> kv_cache_groups sched = layer_names <$> kv_cache_groups cfg) ∧
      (∀ g, g ∈ kv_cache_groups sched → ∃ s, kv_cache_spec g = LayerSpec s).
Proof.
  intros H Hov Hav Hds. unfold get_kv_cache_configs in H.
  apply bind_Ok in H as (u&_&H). apply bind_Ok in H as (M&HM&H).
  apply bind_Ok in H as (gs&Hgs&H). apply bind_Ok in H as (cfgs0&Hcfgs&H).
  apply bind_Ok in H as (n&Hn&H). injection H as <-.
  apply merge_workers_spec in HM as [HndM HM]; [|constructor].
  assert (∀ x, x ∈ M ↔ ∃ d, d ∈ ds ∧ x ∈ d) as HM'.
  { intros x. rewrite HM, elem_of_nil. naive_solver. }
  assert (Forall mergeable M.*2) as HmM.
  { apply Forall_forall. intros s (kv&->&Hkv)%list_elem_of_fmap.
    apply HM' in Hkv as (d&Hd&Hkv). destruct (Hds d Hd) as (_&Hm&_).
    rewrite Forall_forall in Hm. apply Hm. by apply list_elem_of_fmap_2. }
  assert (pages_ok gds M) as HpM.
  { intros kv p Hkv. apply HM' in Hkv as (d&Hd&Hkv). destruct (Hds d Hd) as (_&_&Hp).
    by apply Hp. }
  destruct (groups_partition gds c M gs HndM HmM Hgs) as [Hpart Huni].
  apply map_res_Ok in Hcfgs. apply py_min_spec in Hn as [Hn_in Hn_min].
  assert (Forall2 (λ w cfg, kv_cache_groups cfg = worker_groups gs w.1 ∧ 0 ≤ num_blocks cfg ∧
     pages_ok gds w.1 ∧
     layout_ok gds w.2 w.1.*1 w.1 (num_blocks cfg) (kv_cache_tensors cfg)) (zip ds avails) cfgs0) as HF.
  { eapply Forall2_impl_elem; [exact Hcfgs|]. intros [d a] cfg Hin _ Hw. simpl in *.
    apply zip_elem in Hin as [Hd Ha]. destruct (Hds d Hd) as (Hnd&_&Hp).
    apply bind_Ok in Hw as (u'&_&Hw). apply config_spec in Hw; try done; [naive_solver|by apply Hav| |].
    - intros g bs d0 Hg Hs Hone. unfold worker_groups in Hg.
      apply list_elem_of_fmap in Hg as (g0&->&Hg0). simpl in Hs.
      destruct (Huni g0 bs d0 Hg0 Hs) as [_ ->]. split_and!; [done| |done].
      intros kv Hkv. apply HM'. by exists d.
    - apply (worker_groups_perm gs M d); try done.
      intros k (kv&->&Hkv)%list_elem_of_fmap. apply list_elem_of_fmap_2, HM'. by exists d. }
  exists n. split_and!.
  - apply list_elem_of_fmap in Hn_in as (cfg&->&Hcfg). apply list_elem_of_lookup in Hcfg as [i Hi].
    destruct (Forall2_lookup_r _ _ _ _ _ HF Hi) as (w&_&_&?&_). done.
  - intros cfg (cfg0&->&_)%list_elem_of_fmap. done.
  - apply Forall2_fmap_r. eapply Forall2_impl_elem; [exact HF|].
    intros w cfg _ Hcfg (_&_&Hp&Hl). simpl. apply (layout_shrink _ _ _ _ (num_blocks cfg)); try done.
    apply Hn_min. by apply list_elem_of_fmap_2.
  - apply scheduler_config_ok.
    + intros E. apply fmap_nil_inv in E. subst. by apply elem_of_nil in Hn_in.
    + intros cfg (cfg0&->&_)%list_elem_of_fmap. done.
    + intros cfg g bs Hcfg Hg Hs. apply list_elem_of_fmap in Hcfg as (cfg0&->&Hcfg).
      apply list_elem_of_lookup in Hcfg as [i Hi].
      destruct (Forall2_lookup_r _ _ _ _ _ HF Hi) as (w&_&Hgr&_). simpl in Hg.
      rewrite Hgr in Hg. apply list_elem_of_fmap in Hg as (g0&->&Hg0). simpl in Hs.
      destruct (Huni g0 bs [] Hg0 Hs) as [Hone <-]. rewrite groups_of_nothing in Hgs.
      simplify_eq.
Qed.

Definition ex_worker : specs_dict := [("full.0", ex_full); ("sw.0", ex_sliding)]%string.

Definition ex_cfgs : list KVCacheConfig :=
  match get_kv_cache_configs ex_dtype_size ex_vllm_config [ex_model; ex_worker] [5000; 6000] with
  | Ok cfgs => cfgs
  | Err _ => []
  end.

Lemma get_kv_cache_configs_correct_witness :
  map num_blocks ex_cfgs = [19; 19] ∧
  ∃ n, 0 ≤ n ∧ (∀ cfg, cfg ∈ ex_cfgs → num_blocks cfg = n) ∧
    Forall2 (λ w cfg, layout_ok ex_dtype_size w.2 w.1.*1 w.1 n (kv_cache_tensors cfg))
      (zip [ex_model; ex_worker] [5000; 6000]) ex_cfgs ∧
    ∃ sched, generate_scheduler_kv_cache_config ex_cfgs = Ok sched ∧ num_blocks sched = n ∧
      (∀ cfg, head ex_cfgs = Some cfg →
         layer_names <$> kv_cache_groups sched = layer_names <$> kv_cache_groups cfg) ∧
      (∀ g, g ∈ kv_cache_groups sched → ∃ s, kv_cache_spec g = LayerSpec s).
Proof.
  split; [by vm_compute|].
  apply (get_kv_cache_configs_correct ex_dtype_size ex_vllm_config
           [ex_model; ex_worker] [5000; 6000] ex_cfgs).
  - by vm_compute.
  - done.
  - intros a Ha. rewrite !elem_of_cons, elem_of_nil in Ha. lia.
  - intros d Hd. rewrite !elem_of_cons, elem_of_nil in Hd.
    destruct Hd as [->|[->|[]]]; split_and!.
    + exact ex_nodup.
    + exact ex_mergeable.
    + intros kv p Hkv. unfold ex_model in Hkv. rewrite !elem_of_cons, elem_of_nil in Hkv.
      destruct Hkv as [->|[->|[->|[->|[->|[]]]]]]; vm_compute; intros [= <-]; done.
    + apply (bool_decide_unpack _). by vm_compute.
    + repeat constructor.
    + intros kv p Hkv. unfold ex_worker in Hkv. rewrite !elem_of_cons, elem_of_nil in Hkv.
      destruct Hkv as [->|[->|[]]]; vm_compute; intros [= <-]; done.
Defined.
