(* ===== verification/Metrics.v ===== *)
(** * Prefix caching metrics

    Models [PrefixCachingMetrics] of src/vllm/v1/core/kv_cache_utils.py: the
    totals over the most recent requests, kept with a deque of the observed
    statistics (the [PrefixCacheStats] of KVManager.v). *)
From S2P Require Import Prelude KVSpecs KVManager.

Module Metrics.

Record PrefixCachingMetrics := mkMetrics {
  max_recent_requests : Z;
  aggregated_requests : Z;
  aggregated_query_total : Z;
  aggregated_query_hit : Z;
  query_queue : list (Z * Z * Z);
}.

Definition init (max_recent : Z) : PrefixCachingMetrics := mkMetrics max_recent 0 0 0 [].

Definition reset (m : PrefixCachingMetrics) : PrefixCachingMetrics :=
  mkMetrics (max_recent_requests m) 0 0 0 [].

(** The [while] loop of [observe]; each turn pops one entry of the queue. *)
Fixpoint shrink (max_recent ar aq ah : Z) (queue : list (Z * Z * Z))
  : Z * Z * Z * list (Z * Z * Z) :=
  match queue with
  | [] => (ar, aq, ah, queue)
  | (old_requests, old_queries, old_hits) :: rest =>
      if (1 <? len queue) && (max_recent <? ar) then
        shrink max_recent (ar - old_requests) (aq - old_queries) (ah - old_hits) rest
      else (ar, aq, ah, queue)
  end.

Definition observe (stats : PrefixCacheStats) (m : PrefixCachingMetrics)
  : PrefixCachingMetrics :=
  let m := if st_reset stats then reset m else m in
  if st_requests stats =? 0 then m else
  let queue := query_queue m ++ [(st_requests stats, st_queries stats, st_hits stats)] in
  let '(ar, aq, ah, queue) :=
    shrink (max_recent_requests m) (aggregated_requests m + st_requests stats)
      (aggregated_query_total m + st_queries stats)
      (aggregated_query_hit m + st_hits stats) queue in
  mkMetrics (max_recent_requests m) ar aq ah queue.

(** The ratio [aggregated_query_hit / aggregated_query_total] as a fraction. *)
Definition hit_rate (m : PrefixCachingMetrics) : Z * Z :=
  if aggregated_query_total m =? 0 then (0, 1)
  else (aggregated_query_hit m, aggregated_query_total m).

(** ** The window *)

Definition requests_of (q : list (Z * Z * Z)) : Z := sumZ (map (λ e, e.1.1) q).
Definition queries_of (q : list (Z * Z * Z)) : Z := sumZ (map (λ e, e.1.2) q).
Definition hits_of (q : list (Z * Z * Z)) : Z := sumZ (map (λ e, e.2) q).

(** The aggregates are the sums over the queue; the queue exceeds the limit only
    when it is a single entry. *)
Record metrics_inv (m : PrefixCachingMetrics) : Prop := {
  mi_requests : aggregated_requests m = requests_of (query_queue m);
  mi_queries : aggregated_query_total m = queries_of (query_queue m);
  mi_hits : aggregated_query_hit m = hits_of (query_queue m);
  mi_window : len (query_queue m) ≤ 1 ∨ aggregated_requests m ≤ max_recent_requests m;
}.

Lemma shrink_spec mr ar aq ah q :
  ar = requests_of q → aq = queries_of q → ah = hits_of q →
  ∃ old q', shrink mr ar aq ah q = (requests_of q', queries_of q', hits_of q', q') ∧
    q = old ++ q' ∧ (q ≠ [] → q' ≠ []) ∧ (len q' ≤ 1 ∨ requests_of q' ≤ mr) ∧
    ∀ o1 e, old = o1 ++ [e] → mr < requests_of (e :: q').
Proof.
  induction q as [|[[r k] h] q IH] in ar, aq, ah |- *; intros -> -> ->.
  { exists [], []. split_and!; try done; [left; by rewrite len_nil|by intros [|??] ?]. }
  cbn [shrink]. destruct ((1 <? len ((r, k, h) :: q)) && (mr <? requests_of ((r, k, h) :: q))) eqn:Hb.
  - apply andb_true_iff in Hb as [Hl%Z.ltb_lt Hm%Z.ltb_lt]. rewrite len_cons in Hl.
    destruct (IH (requests_of ((r, k, h) :: q) - r) (queries_of ((r, k, h) :: q) - k)
      (hits_of ((r, k, h) :: q) - h)) as (old&q'&->&Hq&Hne&Hw&Hmin).
    1-3: unfold requests_of, queries_of, hits_of; simpl; lia.
    exists ((r, k, h) :: old), q'. split_and!; [done|by rewrite Hq| |done|].
    + intros _. apply Hne. intros ->. rewrite len_nil in Hl. lia.
    + intros [|e1 o1] e He; simplify_eq/=; [done|by apply (Hmin o1)].
  - exists [], ((r, k, h) :: q). split_and!; try done; [|by intros [|??] ?].
    apply andb_false_iff in Hb as [Hl%Z.ltb_ge|Hm%Z.ltb_ge]; [by left|by right].
Qed.

Lemma observe_spec m st :
  metrics_inv m →
  metrics_inv (observe st m) ∧ max_recent_requests (observe st m) = max_recent_requests m ∧
  let before := if st_reset st then [] else query_queue m in
  let all := if st_requests st =? 0 then before
             else before ++ [(st_requests st, st_queries st, st_hits st)] in
  ∃ old, all = old ++ query_queue (observe st m) ∧
    (all ≠ [] → query_queue (observe st m) ≠ []) ∧
    ∀ o1 e, old = o1 ++ [e] →
      max_recent_requests m < requests_of (e :: query_queue (observe st m)).
Proof.
  intros HI. unfold observe. set (m1 := if st_reset st then reset m else m).
  assert (metrics_inv m1 ∧ max_recent_requests m1 = max_recent_requests m ∧
          query_queue m1 = if st_reset st then [] else query_queue m) as (HI1&Hmr&Hq).
  { unfold m1. destruct (st_reset st); [|done]. split_and!; [|done|done].
    split; try done. left. unfold len. simpl. lia. }
  rewrite <-Hq, <-Hmr. destruct (st_requests st =? 0).
  { split_and!; [done|done|]. exists []. split_and!; [done|done|by intros [|??] ?]. }
  set (e := (st_requests st, st_queries st, st_hits st)).
  destruct HI1 as [H1 H2 H3 _].
  destruct (shrink_spec (max_recent_requests m1) (aggregated_requests m1 + st_requests st)
    (aggregated_query_total m1 + st_queries st) (aggregated_query_hit m1 + st_hits st)
    (query_queue m1 ++ [e])) as (old&q'&->&Hqq&Hne&Hw&Hmin).
  1-3: rewrite ?H1, ?H2, ?H3; unfold requests_of, queries_of, hits_of, e;
       rewrite map_app, sumZ_app; simpl; lia.
  split_and!; [by split|done|]. simpl. by exists old.
Qed.

Definition entry (st : PrefixCacheStats) : Z * Z * Z :=
  (st_requests st, st_queries st, st_hits st).

(** [q] holds the non-empty statistics of a suffix of the observations [l]. *)
Definition window (q : list (Z * Z * Z)) (l : list PrefixCacheStats) : Prop :=
  ∃ old recent, l = old ++ recent ∧
    q = map entry (filter (λ st, st_requests st ≠ 0) recent).

Lemma window_drop drop q l : window (drop ++ q) l → window q l.
Proof.
  intros (o1&r1&Hl&Hd).
  induction r1 as [|x r1 IH] in o1, drop, Hl, Hd |- *.
  - exists o1, []. split; [done|]. destruct drop; [|done]. by destruct q.
  - destruct drop as [|y drop]; [by exists o1, (x :: r1)|].
    rewrite filter_cons in Hd. case_decide.
    + simpl in Hd. injection Hd as _ Hd.
      apply (IH drop (o1 ++ [x])); [by rewrite <-app_assoc|done].
    + apply (IH (y :: drop) (o1 ++ [x])); [by rewrite <-app_assoc|done].
Qed.

Lemma window_snoc q l st :
  window q l →
  window ((if st_reset st then [] else q) ++ (if st_requests st =? 0 then [] else [entry st]))
         (l ++ [st]).
Proof.
  intros (old&recent&Hl&Hq).
  exists (if st_reset st then l else old), (if st_reset st then [st] else recent ++ [st]).
  assert (map entry (filter (λ st, st_requests st ≠ 0) [st]) =
          if st_requests st =? 0 then [] else [entry st]) as Hone.
  { rewrite filter_cons. destruct (Z.eqb_spec (st_requests st) 0) as [E|E].
    - by rewrite decide_False by lia.
    - by rewrite decide_True. }
  split; [destruct (st_reset st); [done|by rewrite Hl, app_assoc]|].
  destruct (st_reset st); [by rewrite Hone|]. by rewrite filter_app, map_app, Hone, <-Hq.
Qed.

Lemma observe_all_spec max_recent sts :
  let m := fold_left (λ m st, observe st m) sts (init max_recent) in
  metrics_inv m ∧ window (query_queue m) sts.
Proof.
  simpl. induction sts as [|st sts IH] using rev_ind.
  - split; [split; try done; left; unfold len; simpl; lia|]. by exists [], [].
  - rewrite fold_left_app. simpl. destruct IH as [HI Hw].
    destruct (observe_spec _ st HI) as (HI'&_&(drop&Hall&_)). split; [done|].
    apply (window_drop drop). rewrite <-Hall. apply (window_snoc _ _ st) in Hw.
    destruct (st_requests st =? 0); [by rewrite app_nil_r in Hw|done].
Qed.

Lemma window_hits q l :
  window q l → (∀ st, st ∈ l → 0 ≤ st_hits st ≤ st_queries st) →
  0 ≤ hits_of q ≤ queries_of q.
Proof.
  intros (old&recent&->&->) Hst.
  assert (∀ st, st ∈ filter (λ st, st_requests st ≠ 0) recent →
    0 ≤ st_hits st ≤ st_queries st) as Hr.
  { intros st [_ Hin]%list_elem_of_filter. apply Hst. set_solver. }
  clear Hst. unfold hits_of, queries_of. induction (filter _ recent) as [|st l IH]; [done|].
  pose proof (Hr st ltac:(by left)). specialize (IH ltac:(intros; apply Hr; by right)).
  simpl. lia.
Qed.

(** Prefix-cache metrics: after any sequence of observations the totals are the
    sums over a window of the most recent ones, the window holds at most the
    configured number of requests unless it is a single observation, and with
    hits never above queries the hit rate is between 0 and 1. *)
Theorem metrics_window max_recent sts m :
  m = fold_left (λ m st, observe st m) sts (init max_recent) →
  (∀ st, st ∈ sts → 0 ≤ st_hits st ≤ st_queries st) →
  metrics_inv m ∧ window (query_queue m) sts ∧
  0 ≤ (hit_rate m).1 ≤ (hit_rate m).2 ∧ 0 < (hit_rate m).2.
Proof.
  intros -> Hst. destruct (observe_all_spec max_recent sts) as [HI Hw].
  pose proof (window_hits _ _ Hw Hst) as Hle. split; [done|]. split; [done|].
  rewrite <-(mi_queries _ HI), <-(mi_hits _ HI) in Hle. unfold hit_rate.
  destruct (Z.eqb_spec (aggregated_query_total
    (fold_left (λ m st, observe st m) sts (init max_recent))) 0); simpl; lia.
Qed.

Definition ex_stats : list PrefixCacheStats :=
  [mkStats false 1 10 0; mkStats false 2 20 15; mkStats false 0 0 0; mkStats false 1 8 8].

Lemma metrics_window_witness :
  let m := fold_left (λ m st, observe st m) ex_stats (init 3) in
  query_queue m = [(2, 20, 15); (1, 8, 8)] ∧ hit_rate m = (23, 28) ∧
  metrics_inv m ∧ window (query_queue m) ex_stats ∧
  0 ≤ (hit_rate m).1 ≤ (hit_rate m).2 ∧ 0 < (hit_rate m).2.
Proof.
  split; [done|]. split; [done|]. apply (metrics_window 3 ex_stats); [done|].
  intros st Hst. unfold ex_stats in Hst. rewrite !elem_of_cons, elem_of_nil in Hst.
  destruct Hst as [->|[->|[->|[->|[]]]]]; simpl; lia.
Defined.
End Metrics.
