(* ===== verification/System.v ===== *)
(** * The system: the lifecycle of requests

    The components together: a manager built from a configuration, requests that
    are admitted with the prefix-cache hit found for them, extended by the tokens
    they generate and finished or preempted, as the scheduler of
    src/vllm/v1/core/sched/scheduler.py drives [KVCacheManager].  The driver
    [exec] is not code of the repository: it is the protocol of the calls the
    scheduler makes, and the theorems are about the calls.  The end of the file
    holds the end-to-end properties of the capacity check and of the memory
    estimate for cross attention. *)
From S2P Require Import Prelude FreeQueue Request BlockHash BlockMap BlockPool KVSpecs SingleType Coordinator KVManager KVConfig.

(** ** A running request *)

(** [hw] is the largest number of slots allocated so far. *)
Record running_ok (K : KVCacheManager) (hw : Z) (r : Request) : Prop := {
  ro_computed : 0 ≤ num_computed_tokens r ≤ num_tokens r;
  ro_slots : num_computed_tokens r ≤ hw;
  ro_hashes : hashes_ok K r;
  ro_tables : Forall (λ M,
    len (blocks_of M (request_id r)) = required hw 0 M ∧
    num_cached_block M !! request_id r = Some (num_computed_tokens r / m_block_size M))
    (managers_of K);
}.

(** The managers whose requests may drop blocks keep at least one token's. *)
Definition windows_ok (K : KVCacheManager) : Prop :=
  Forall (λ M, ∀ a w, m_spec M = SlidingWindowSpec a w → 1 ≤ w) (managers_of K).

(** The setups the lifecycle is about: prefix caching on, no KV events. *)
Record setup_ok (K : KVCacheManager) : Prop := {
  so_caching : km_enable_caching K = true;
  so_events : enable_kv_cache_events (pool_of K) = false;
  so_windows : windows_ok K;
}.

Lemma managers_ok K fl :
  kv_inv K fl → km_enable_caching K = true →
  0 < search_block_size (coordinator K) ∧
  ∀ M, M ∈ managers_of K → m_block_size M = search_block_size (coordinator K) ∧
    is_cross M = false ∧ 0 < block_size (m_spec M) ∧
    (∀ a c, m_spec M = ChunkedLocalAttentionSpec a c → 0 < c).
Proof.
  intros HK Hc. destruct (kv_coord _ _ HK) as (_&_&Hs&_).
  destruct (Hs (kv_kind _ _ HK Hc)) as [Hb HMs]. split; [done|].
  intros M HM. rewrite Forall_forall in HMs. destruct (HMs M HM) as (?&?&?&_&Hsp).
  split_and!; try done. intros a c E. rewrite E in Hsp. by destruct Hsp as (_&_&?).
Qed.

Lemma required_mono M a b : 0 < m_block_size M → is_cross M = false → a ≤ b →
  required a 0 M ≤ required b 0 M.
Proof.
  intros Hb Hc Hab. unfold required, tokens_for. rewrite Hc. apply cdiv_mono; [done|].
  unfold Mgr.with_spec_tokens. repeat case_match; lia.
Qed.

Lemma required_max M a b : 0 < m_block_size M → is_cross M = false →
  required (Z.max a b) 0 M = Z.max (required a 0 M) (required b 0 M).
Proof.
  intros Hb Hc. destruct (Z.max_spec a b) as [[? ->]|[? ->]].
  - rewrite Z.max_r; [done|]. apply required_mono; [done|done|lia].
  - rewrite Z.max_l; [done|]. apply required_mono; [done|done|lia].
Qed.

(** A running request may be given slots for its next tokens. *)
Lemma running_pre K fl r hw nn la :
  kv_inv K fl → setup_ok K → running_ok K hw r →
  0 < nn → 0 ≤ la → num_computed_tokens r + nn ≤ num_tokens r →
  num_computed_tokens r + nn ≤ km_max_model_len K →
  alloc_pre K r nn 0 la 0 (replicate (num_kv_cache_groups K) []) false.
Proof.
  intros HK [Hc Hev Hwin] [Hnct Hhw Hh Htab] Hnn Hla Hnt Hmml.
  destruct (managers_ok K fl HK Hc) as [Hb HMs].
  assert (∀ Q : Manager → list ptr → Prop, (∀ M, M ∈ managers_of K → Q M []) →
    Forall2 Q (managers_of K) (replicate (num_kv_cache_groups K) [])) as Hf2.
  { intros Q HQ. rewrite <-(kv_groups _ _ HK). clear -HQ.
    induction (managers_of K) as [|M Ms IH]; constructor.
    - apply HQ. by left.
    - apply IH. intros M' HM'. apply HQ. by right. }
  assert (∀ M, M ∈ managers_of K → len (blocks_of M (request_id r)) = required hw 0 M ∧
    num_cached_block M !! request_id r = Some (num_computed_tokens r / m_block_size M)) as Ht
    by (by apply Forall_forall).
  set (nt := KVM.num_tokens_need_slot K r nn 0 la).
  assert (num_computed_tokens r + nn ≤ nt) as Hnt' by (unfold nt, KVM.num_tokens_need_slot; lia).
  split; try done.
  - lia.
  - apply Forall_forall. intros M HM k Hk. destruct (HMs M HM) as (Hbs&Hcr&Hsb&Hchunk).
    destruct (Ht M HM) as [Hlen Hcached]. rewrite Hlen. unfold cached_of. rewrite Hcached. simpl.
    assert (k ≤ num_computed_tokens r / m_block_size M) as Hk'.
    { unfold Mgr.first_useful_block in Hk. rewrite Hcached in Hk. simpl in Hk.
      unfold windows_ok in Hwin. rewrite Forall_forall in Hwin. specialize (Hwin M HM).
      destruct (m_spec M) as [a w c|a c|a w| | |] eqn:E; simplify_eq/=.
      - specialize (Hchunk _ _ eq_refl).
        assert (num_computed_tokens r / c * c / m_block_size M ≤
                num_computed_tokens r / m_block_size M) as Hle.
        { apply Z.div_le_mono; [lia|]. pose proof (Z.mul_div_le (num_computed_tokens r) c Hchunk). lia. }
        case_match; lia.
      - specialize (Hwin _ _ eq_refl). apply Z.div_le_mono; lia. }
    assert (num_computed_tokens r / m_block_size M ≤ required hw 0 M) as Hreq.
    { apply required_ge; [done|lia|done|].
      pose proof (Z.mul_div_le (num_computed_tokens r) (m_block_size M) ltac:(lia)). lia. }
    split; [lia|by intros _].
  - apply Hf2. intros M HM. destruct (HMs M HM) as (_&Hcr&_). destruct (Ht M HM) as [_ Hcached].
    unfold save_ok. by rewrite Hcr, Hcached.
  - assert (concat (replicate (num_kv_cache_groups K) []) = ([] : list ptr)) as ->.
    { generalize (num_kv_cache_groups K). intros g. induction g as [|g IH]; [done|exact IH]. }
    constructor.
  - intros Hoff. congruence.
  - destruct (Z.le_ge_cases hw nt); [left|right]; apply Hf2; intros M HM;
      destruct (HMs M HM) as (Hbs&Hcr&_); destruct (Ht M HM) as [Hlen _]; unfold gap;
      rewrite Hlen; change (len (@nil ptr)) with 0; fold nt;
      [pose proof (required_mono M hw nt ltac:(lia) Hcr)|pose proof (required_mono M nt hw ltac:(lia) Hcr)]; lia.
  - intros _ _. split; [done|]. apply Hf2. intros M HM. destruct (HMs M HM) as (Hbs&Hcr&Hsb&_).
    destruct (Ht M HM) as [_ Hcached]. split; [done|]. cbn zeta. rewrite Hcached. simpl.
    unfold tokens_to_cache. rewrite Z.add_0_r, Z.min_l by lia. rewrite Hbs in *. split_and!.
    + apply Z.div_le_mono; lia.
    + fold nt. apply required_ge; [done|lia|done|]. rewrite Hbs.
      pose proof (Z.mul_div_le (num_computed_tokens r + nn) (search_block_size (coordinator K)) Hb). lia.
    + rewrite (ho_full _ _ Hh). apply Z.div_le_mono; lia.
Qed.

(** ** One call, and the requests after it *)

Lemma same_setup_coord K K' :
  same_setup K K' → search_block_size (coordinator K') = search_block_size (coordinator K) ∧
  km_enable_caching K' = km_enable_caching K ∧ km_max_model_len K' = km_max_model_len K ∧
  num_kv_cache_groups K' = num_kv_cache_groups K ∧
  enable_kv_cache_events (pool_of K') = enable_kv_cache_events (pool_of K) ∧
  num_gpu_blocks (pool_of K') = num_gpu_blocks (pool_of K).
Proof. intros (Ms&P&->&(?&?&?&?&?)). done. Qed.

Lemma setup_ok_frame K K' :
  setup_ok K → same_setup K K' → Forall2 same_class (managers_of K) (managers_of K') → setup_ok K'.
Proof.
  intros [Hc He Hw] HS Hcl. destruct (same_setup_coord _ _ HS) as (_&Hc'&_&_&He'&_).
  split; [congruence|congruence|]. unfold windows_ok in *. apply Forall_lookup. intros i M' HM'.
  destruct (Forall2_lookup_r _ _ _ _ _ Hcl HM') as (M&HM&(Hs&_)).
  rewrite Hs. by apply (Forall_lookup_1 _ _ _ _ Hw HM).
Qed.

Lemma hashes_ok_frame K K' r : hashes_ok K r → same_setup K K' → hashes_ok K' r.
Proof.
  intros [? Hf ?] HS. destruct (same_setup_coord _ _ HS) as (Hb&_).
  split; [done| |done]. by rewrite Hb.
Qed.

(** A call for one request leaves the tables of the others alone. *)
Lemma running_frame K K' rid hw r :
  running_ok K hw r → same_setup K K' → Forall2 (mgr_frame rid) (managers_of K) (managers_of K') →
  request_id r ≠ rid → running_ok K' hw r.
Proof.
  intros [H1 H2 H3 H4] HS HF Hne. split; [done|done|by eapply hashes_ok_frame|].
  apply Forall_lookup. intros i M' HM'.
  destruct (Forall2_lookup_r _ _ _ _ _ HF HM') as (M&HM&Hf).
  destruct (Forall_lookup_1 _ _ _ _ H4 HM) as [Hl Hn].
  destruct (mgr_frame_other _ _ _ _ Hf Hne) as [-> ->].
  rewrite (frame_required rid hw 0 M M' Hf), Hl.
  destruct Hf as (_&->&_). done.
Qed.

Lemma no_tables_frame K K' rid rid' :
  no_tables K rid' → Forall2 (mgr_frame rid) (managers_of K) (managers_of K') → rid' ≠ rid →
  no_tables K' rid'.
Proof.
  intros Hno HF Hne. unfold no_tables in *. apply Forall_lookup. intros i M' HM'.
  destruct (Forall2_lookup_r _ _ _ _ _ HF HM') as (M&HM&Hf).
  destruct (mgr_frame_other _ _ _ _ Hf Hne) as [-> ->].
  by apply (Forall_lookup_1 _ _ _ _ Hno HM).
Qed.

Lemma hashes_ok_tokens K r n : hashes_ok K r → hashes_ok K (set_num_computed_tokens n r).
Proof. intros [? ? ?]. by split. Qed.

Lemma frames_class rid Ms Ms' : Forall2 (mgr_frame rid) Ms Ms' → Forall2 same_class Ms Ms'.
Proof. intros HF. eapply Forall2_impl; [exact HF|]. intros M M' ?. by eapply mgr_frame_class. Qed.

(** What a call of [allocate_slots] for request [r] means for the manager. *)
Definition call_result (K K' : KVCacheManager) (rid : string) : Prop :=
  (∃ fl, kv_inv K' fl) ∧ same_setup K K' ∧
  Forall2 (mgr_frame rid) (managers_of K) (managers_of K').

Lemma skipped_frames rid Ms Ms' : Forall2 (skipped rid) Ms Ms' → Forall2 (mgr_frame rid) Ms Ms'.
Proof. intros H. eapply Forall2_impl; [exact H|]. by intros M M' [? _]. Qed.

Lemma slots_frames rid nt net Ms news nbs Ms' (rec : Manager → list ptr → Z) :
  length news = length Ms → length nbs = length Ms → length Ms' = length Ms →
  (∀ i M new nb M', Ms !! i = Some M → news !! i = Some new → nbs !! i = Some nb →
     Ms' !! i = Some M' → slots_added rid nt net M new nb (rec M new) M') →
  Forall2 (mgr_frame rid) Ms Ms'.
Proof.
  intros H1 H2 H3 Hadd. apply Forall2_same_length_lookup_2; [done|]. intros i M M' HM HM'.
  apply lookup_lt_Some in HM as Hi.
  destruct (lookup_lt_is_Some_2 news i) as [new Hnew]; [lia|].
  destruct (lookup_lt_is_Some_2 nbs i) as [nb Hnb]; [lia|].
  destruct (Hadd i M new nb M' HM Hnew Hnb HM') as (M0&(Hf&_)&Hf'&_).
  destruct Hf as (?&?&?&?&?&?), Hf' as (?&?&?&?&?&?). unfold mgr_frame. split_and!; congruence.
Qed.

(** Dropping skipped blocks keeps what is said of a running request. *)
Lemma running_skipped K K' hw r :
  running_ok K hw r → same_setup K K' → Forall2 (skipped (request_id r)) (managers_of K) (managers_of K') →
  running_ok K' hw r.
Proof.
  intros [H1 H2 H3 H4] HS Hsk. split; [done|done|by eapply hashes_ok_frame|].
  apply Forall_lookup. intros i M' HM'.
  destruct (Forall2_lookup_r _ _ _ _ _ Hsk HM') as (M&HM&(Hf&Hl&Hn&_)).
  destruct (Forall_lookup_1 _ _ _ _ H4 HM) as [Hlen Hcached].
  rewrite (frame_required _ _ _ M M' Hf), Hn, <-Hlen. unfold len. rewrite Hl.
  split; [done|]. destruct Hf as (_&->&_). done.
Qed.

Section calls.
Context (use_int : bool) (K : KVCacheManager) (fl : list ptr).
Context (HK : kv_inv K fl) (HS : setup_ok K).

(** The table of a manager after a successful call, when the request had [b]
    blocks and takes a hit of [new]: as many blocks as the slots require. *)
Lemma slots_length rid nt M new nb nc M' :
  slots_added rid nt 0 M new nb nc M' → len (blocks_of M rid) + len new ≤ required nt 0 M →
  len (blocks_of M' rid) = required nt 0 M' ∧ (is_cross M = false → num_cached_block M' !! rid = Some nc).
Proof.
  intros (M0&(Hf0&Hl0&_)&Hf&Hb&Hnb&_&Hn) Hle. split; [|done].
  rewrite (frame_required rid nt 0 M0 M' Hf), (frame_required rid nt 0 M M0 Hf0).
  assert (len (blocks_of M0 rid) = len (blocks_of M rid)) as Hl by (unfold len; by rewrite Hl0).
  rewrite Hb, !len_app, Hl, Hnb. unfold gap. lia.
Qed.

(** Or as many as it had, when these are enough already. *)
Lemma slots_length_enough rid nt M nb nc M' :
  slots_added rid nt 0 M [] nb nc M' → required nt 0 M ≤ len (blocks_of M rid) →
  len (blocks_of M' rid) = len (blocks_of M rid) ∧
  (is_cross M = false → num_cached_block M' !! rid = Some nc).
Proof.
  intros (M0&(_&Hl0&_)&_&Hb&Hnb&_&Hn) Hle. split; [|done].
  assert (len (blocks_of M0 rid) = len (blocks_of M rid)) as Hl by (unfold len; by rewrite Hl0).
  unfold gap in Hnb. change (len (@nil ptr)) with 0 in Hnb.
  rewrite Hb. simpl. rewrite len_app, Hl, Hnb. lia.
Qed.

(** Admitting a request with the hit found for it. *)
Lemma admit_spec r news n nn la :
  hashes_ok K r → no_tables K (request_id r) → num_computed_tokens r = 0 →
  hit_ok (coordinator K) (block_hashes r) (num_tokens r - 1) news n →
  0 < nn → 0 ≤ la → n + nn ≤ num_tokens r → n + nn ≤ km_max_model_len K →
  ∃ out K', KVM.allocate_slots use_int r nn n (Some news) la false 0 K = Ok (out, K') ∧
    call_result K K' (request_id r) ∧
    match out with
    | None => no_tables K' (request_id r)
    | Some _ => ∃ hw, running_ok K' hw (set_num_computed_tokens (n + nn) r)
    end.
Proof.
  intros Hh Hno Hnc Hhit Hnn Hla Hnt Hmml. pose proof HS as [Hc Hev Hwin].
  destruct (managers_ok K fl HK Hc) as [Hb HMs].
  pose proof (new_request_pre K fl r news n nn la HK Hc Hev Hh Hno Hnc Hwin Hhit Hnn Hla Hmml) as Hpre.
  destruct (allocate_slots_spec use_int K fl r nn n la 0 news false HK Hpre (Some news) eq_refl)
    as (out&K'&fl'&Hrun&HK'&HSK&Hout).
  exists out, K'. split; [done|]. destruct out as [nbs|].
  - destruct Hout as [Hln Hadd]. pose proof Hhit as (Hrows&_&_&Hn&Hlen).
    assert (length (managers_of K) = length news) as Hl by apply (Forall2_length _ _ _ Hrows).
    assert (length (managers_of K') = length (managers_of K)) as Hl'.
    { rewrite (kv_groups _ _ HK'), (kv_groups _ _ HK). by apply same_setup_coord. }
    pose proof (slots_frames _ _ _ _ news nbs _ _ (eq_sym Hl) Hln Hl' Hadd) as HF.
    split; [split_and!; [by eexists|done|done]|].
    set (nt := KVM.num_tokens_need_slot K r nn n la) in *.
    assert (n + nn ≤ nt) as Hnt' by (unfold nt, KVM.num_tokens_need_slot; lia).
    exists nt. split; [simpl; split; [lia|done]|simpl; lia| |].
    { apply hashes_ok_tokens. by eapply hashes_ok_frame. }
    apply Forall_lookup. intros i M' HM'.
    destruct (Forall2_lookup_r _ _ _ _ _ HF HM') as (M&HM&Hf).
    apply lookup_lt_Some in HM as Hi.
    destruct (lookup_lt_is_Some_2 news i) as [new Hnew]; [lia|].
    destruct (lookup_lt_is_Some_2 nbs i) as [nb Hnb]; [lia|].
    destruct (HMs M) as (Hbs&Hcr&Hsb&_); [by eapply list_elem_of_lookup_2|].
    assert (n = len new * search_block_size (coordinator K)) as Hnl
      by (apply Hlen; by eapply list_elem_of_lookup_2).
    destruct (Forall_lookup_1 _ _ _ _ Hno HM) as [Hbl _].
    destruct (slots_length _ _ _ _ _ _ _ (Hadd i M new nb M' HM Hnew Hnb HM')) as [Hlen' Hcached].
    { rewrite Hbl. change (len (@nil ptr)) with 0.
      apply required_ge; [done|lia|done|rewrite Hbs; lia]. }
    change (request_id (set_num_computed_tokens (n + nn) r)) with (request_id r).
    split; [done|]. rewrite Hcached by done. unfold recorded. rewrite Hc. simpl.
    unfold tokens_to_cache. rewrite Hnc, Z.add_0_l, Z.min_l by done.
    destruct Hf as (_&->&_). done.
  - destruct Hout as [_ Hsk]. split; [split_and!; [by eexists|done|by apply skipped_frames]|].
    apply Forall_lookup. intros i M' HM'.
    destruct (Forall2_lookup_r _ _ _ _ _ Hsk HM') as (M&HM&(_&Hl&Hn&_)).
    destruct (Forall_lookup_1 _ _ _ _ Hno HM) as [Hbl Hnone].
    rewrite Hn. split; [|done]. rewrite Hbl in Hl. by apply nil_length_inv.
Qed.

(** Extending a running request. *)
Lemma extend_spec r hw nn la :
  running_ok K hw r → 0 < nn → 0 ≤ la → num_computed_tokens r + nn ≤ num_tokens r →
  num_computed_tokens r + nn ≤ km_max_model_len K →
  ∃ out K', KVM.allocate_slots use_int r nn 0 None la false 0 K = Ok (out, K') ∧
    call_result K K' (request_id r) ∧
    match out with
    | None => running_ok K' hw r
    | Some _ => ∃ hw', running_ok K' hw'
        (set_num_computed_tokens (num_computed_tokens r + nn) r)
    end.
Proof.
  intros Hr Hnn Hla Hnt Hmml. pose proof HS as [Hc Hev Hwin].
  destruct (managers_ok K fl HK Hc) as [Hb HMs].
  pose proof (running_pre K fl r hw nn la HK HS Hr Hnn Hla Hnt Hmml) as Hpre.
  destruct (allocate_slots_spec use_int K fl r nn 0 la 0 _ false HK Hpre None eq_refl)
    as (out&K'&fl'&Hrun&HK'&HSK&Hout).
  exists out, K'. split; [done|]. destruct out as [nbs|].
  2:{ destruct Hout as [_ Hsk]. pose proof (skipped_frames _ _ _ Hsk) as HF.
      split; [split_and!; [by eexists|done|done]|]. by eapply running_skipped. }
  destruct Hout as [Hln Hadd].
  assert (length (managers_of K') = length (managers_of K)) as Hl'.
  { rewrite (kv_groups _ _ HK'), (kv_groups _ _ HK). by apply same_setup_coord. }
  assert (length (replicate (num_kv_cache_groups K) (@nil ptr)) = length (managers_of K)) as Hl
    by (by rewrite length_replicate, (kv_groups _ _ HK)).
  pose proof (slots_frames _ _ _ _ _ nbs _ _ Hl Hln Hl' Hadd) as HF.
  split; [split_and!; [by eexists|done|done]|].
  destruct Hr as [Hnct Hhw Hh Htab].
  set (nt := KVM.num_tokens_need_slot K r nn 0 la) in *.
  assert (num_computed_tokens r + nn ≤ nt) as Hnt' by (unfold nt, KVM.num_tokens_need_slot; lia).
  exists (Z.max hw nt). split; [split; [simpl; lia|done]|simpl; lia| |].
  { apply hashes_ok_tokens. by eapply hashes_ok_frame. }
  apply Forall_lookup. intros i M' HM'.
  destruct (Forall2_lookup_r _ _ _ _ _ HF HM') as (M&HM&Hf).
  apply lookup_lt_Some in HM as Hi.
  destruct (lookup_lt_is_Some_2 nbs i) as [nb Hnb]; [lia|].
  assert (replicate (num_kv_cache_groups K) (@nil ptr) !! i = Some []) as Hnew.
  { apply lookup_replicate_2. by rewrite <-(kv_groups _ _ HK). }
  destruct (HMs M) as (Hbs&Hcr&Hsb&_); [by eapply list_elem_of_lookup_2|].
  destruct (Forall_lookup_1 _ _ _ _ Htab HM) as [Hlen Hcached].
  pose proof (Hadd i M [] nb M' HM Hnew Hnb HM') as Hslots.
  change (request_id (set_num_computed_tokens (num_computed_tokens r + nn) r)) with (request_id r).
  assert (num_cached_block M' !! request_id r =
          Some ((num_computed_tokens r + nn) / m_block_size M')) as Hrec.
  { destruct Hslots as (_&_&_&_&_&_&Hn). rewrite Hn by done. unfold recorded. rewrite Hc. simpl.
    unfold tokens_to_cache. rewrite Z.add_0_r, Z.min_l by done. by destruct Hf as (_&->&_). }
  split; [|exact Hrec].
  rewrite (frame_required _ _ 0 M M' Hf), required_max, <-Hlen by (done || lia).
  destruct (Z.le_ge_cases (required nt 0 M) (len (blocks_of M (request_id r)))) as [Hle|Hge].
  - destruct (slots_length_enough _ _ _ _ _ _ Hslots Hle) as [-> _]. lia.
  - destruct (slots_length _ _ _ _ _ _ _ Hslots) as [-> _].
    { change (len (@nil ptr)) with 0. lia. }
    rewrite (frame_required _ _ 0 M M' Hf). lia.
Qed.

(** Finishing or preempting a request. *)
Lemma finish_spec r :
  ∃ K', KVM.free r K = Ok K' ∧ call_result K K' (request_id r) ∧ no_tables K' (request_id r).
Proof.
  destruct (free_request_spec K fl r HK) as (K'&fl'&?&?&?&?&?&_).
  exists K'. split_and!; try done. split_and!; [by eexists|done|done].
Qed.
End calls.

(** ** The driver *)

Record Sys := mkSys {
  sys_kv : KVCacheManager;
  sys_running : gmap string Request;
}.

Inductive op :=
  | Admit (r : Request) (budget lookahead : Z)
  | Generate (rid : string) (tokens : list Z) (budget lookahead : Z)
  | Finish (rid : string).

Section driver.
Context (H : bytes * list Z * option (list ExtraKey) → bytes) (N : bytes).
Context (bs : Z) (Hbs : 0 < bs) (use_int : bool).

(** Free the request and forget it: finished, or preempted for lack of room. *)
Definition drop_request (r : Request) (K : KVCacheManager) (R : gmap string Request)
  : result Sys :=
  K ← KVM.free r K; Ok (mkSys K (delete (request_id r) R)).

Definition exec (o : op) (S : Sys) : result Sys :=
  let K := sys_kv S in
  let R := sys_running S in
  match o with
  | Admit r budget la =>
      match R !! request_id r with
      | Some _ => Ok S
      | None =>
          '(news, n, K) ← KVM.get_computed_blocks r K;
          let nn := Z.min (num_tokens r - n) budget in
          '(out, K) ← KVM.allocate_slots use_int r nn n (Some news) la false 0 K;
          match out with
          | None => Ok (mkSys K R)
          | Some _ => Ok (mkSys K (<[request_id r := set_num_computed_tokens (n + nn) r]> R))
          end
      end
  | Generate rid tokens budget la =>
      match R !! rid with
      | None => Ok S
      | Some r =>
          r ← append_output_token_ids (Some (request_block_hasher H N bs)) tokens r;
          if km_max_model_len K <=? num_tokens r then drop_request r K R else
          let nn := Z.min (num_tokens r - num_computed_tokens r) budget in
          if nn <=? 0 then Ok (mkSys K (<[rid := r]> R)) else
          '(out, K) ← KVM.allocate_slots use_int r nn 0 None la false 0 K;
          match out with
          | None => drop_request r K R
          | Some _ =>
              Ok (mkSys K (<[rid := set_num_computed_tokens (num_computed_tokens r + nn) r]> R))
          end
      end
  | Finish rid =>
      match R !! rid with
      | None => Ok S
      | Some r => drop_request r K R
      end
  end.

Hypothesis Hinj : ∀ x y, H x = H y → x = y.
Hypothesis Hnone : ∀ x, H x ≠ N.
Hypothesis Hne : ∀ x, H x ≠ [].

(** A request as [Request.__init__] and the hasher leave it. *)
Record request_wf (mml : Z) (r : Request) : Prop := {
  rq_wf : hashes_wf H N bs r;
  rq_full : len (block_hashes r) = num_tokens r / bs;
  rq_tokens : 0 < num_tokens r ≤ mml;
}.

Definition op_ok (mml : Z) (o : op) : Prop :=
  match o with
  | Admit r budget la => request_wf mml r ∧ num_computed_tokens r = 0 ∧ 0 < budget ∧ 0 ≤ la
  | Generate _ _ _ la => 0 ≤ la
  | Finish _ => True
  end.

Record sys_ok (mml : Z) (S : Sys) : Prop := {
  sk_inv : ∃ fl, kv_inv (sys_kv S) fl;
  sk_setup : setup_ok (sys_kv S);
  sk_bs : search_block_size (coordinator (sys_kv S)) = bs;
  sk_mml : km_max_model_len (sys_kv S) = mml;
  sk_running : ∀ rid r, sys_running S !! rid = Some r →
    request_id r = rid ∧ request_wf mml r ∧ ∃ hw, running_ok (sys_kv S) hw r;
  sk_others : ∀ rid, sys_running S !! rid = None → no_tables (sys_kv S) rid;
}.

Lemma distinct_hashes r : hashes_wf H N bs r → NoDup (block_hashes r).
Proof.
  intros (mms&_&_&_&Heq). rewrite NoDup_alt. intros i j h Hi Hj. rewrite Heq in Hi, Hj.
  by destruct (chain_inj H N Hinj Hnone Hne _ _ i j h Hi Hj).
Qed.

Lemma request_hashes_ok mml K r :
  request_wf mml r → search_block_size (coordinator K) = bs → hashes_ok K r.
Proof.
  intros [Hwf Hf [Ht _]] Hb. split; [by apply distinct_hashes|by rewrite Hb|done].
Qed.

Lemma request_wf_tokens mml r n : request_wf mml r → request_wf mml (set_num_computed_tokens n r).
Proof. intros [Hwf ? ?]. by split. Qed.

(** The invariant after a call for the request [rid]. *)
Lemma sys_ok_call mml K R K' rid R' :
  sys_ok mml (mkSys K R) → call_result K K' rid →
  (∀ rid', rid' ≠ rid → R' !! rid' = R !! rid') →
  match R' !! rid with
  | None => no_tables K' rid
  | Some r => request_id r = rid ∧ request_wf mml r ∧ ∃ hw, running_ok K' hw r
  end →
  sys_ok mml (mkSys K' R').
Proof.
  intros [_ HS Hb Hm HR HO] (HK'&HSK&HF) Hsame Hone. simpl in *.
  destruct (same_setup_coord _ _ HSK) as (Hb'&_&Hm'&_).
  split; simpl; try congruence.
  - eapply setup_ok_frame; [done..|]. by eapply frames_class.
  - intros rid' r Hr. destruct (decide (rid' = rid)) as [->|Hne'].
    + by rewrite Hr in Hone.
    + rewrite Hsame in Hr by done. destruct (HR rid' r Hr) as (Hid&Hwf&hw&Hrun).
      split_and!; [done|done|]. exists hw. eapply running_frame; [done..|congruence].
  - intros rid' Hr. destruct (decide (rid' = rid)) as [->|Hne'].
    + by rewrite Hr in Hone.
    + rewrite Hsame in Hr by done. eapply no_tables_frame; [|done..]. by apply HO.
Qed.

(** The invariant depends on the tables and the pool only. *)
Lemma sys_ok_coordinator mml K R K' :
  sys_ok mml (mkSys K R) → (∃ fl, kv_inv K' fl) → coordinator K' = coordinator K →
  km_enable_caching K' = km_enable_caching K → km_max_model_len K' = km_max_model_len K →
  sys_ok mml (mkSys K' R).
Proof.
  intros [_ HS0 Hb Hm HR HO] HK' Hco Hen Hml. simpl in *. split; simpl; try congruence.
  - destruct HS0 as [? ? ?]. split; [congruence|unfold pool_of in *; by rewrite Hco|].
    unfold windows_ok, managers_of in *. by rewrite Hco.
  - intros rid r Hr. destruct (HR rid r Hr) as (?&Hwf&hw&[? ? ? ?]).
    split_and!; [done|done|]. exists hw.
    split; [done|done|eapply request_hashes_ok; [done|congruence]|].
    unfold managers_of. by rewrite Hco.
  - intros rid Hr. unfold no_tables, managers_of. rewrite Hco. by apply HO.
Qed.

Lemma drop_ok mml K R r :
  sys_ok mml (mkSys K R) → ∃ S, drop_request r K R = Ok S ∧ sys_ok mml S.
Proof.
  intros HS. destruct (sk_inv _ _ HS) as [fl HK]. unfold drop_request.
  destruct (finish_spec K fl HK r) as (K'&->&Hcall&Hno). rewrite Ok_bind.
  eexists. split; [done|]. eapply sys_ok_call; [done..| |].
  - intros rid' Hne'. by rewrite lookup_delete_ne.
  - by rewrite lookup_delete_eq.
Qed.

Lemma admit_ok mml S r budget la :
  sys_ok mml S → op_ok mml (Admit r budget la) → 
  ∃ S', exec (Admit r budget la) S = Ok S' ∧ sys_ok mml S'.
Proof.
  intros HS (Hwf&Hnc&Hbud&Hla). destruct S as [K R]. simpl.
  destruct (R !! request_id r) eqn:Hfresh; [by eexists|].
  destruct (sk_inv _ _ HS) as [fl HK]. pose proof (sk_bs _ _ HS) as Hb. simpl in HK, Hb.
  pose proof (request_hashes_ok mml K r Hwf Hb) as Hh.
  destruct (get_computed_blocks_spec K fl r HK Hh)
    as (news&n&K1&->&HK1&Hco&Hen&Hml&Hhit&_&Hn). rewrite Ok_bind.
  assert (sys_ok mml (mkSys K1 R)) as HS1' by (eapply sys_ok_coordinator; eauto).
  pose proof (sk_setup _ _ HS1') as HS1. simpl in HS1.
  assert (no_tables K1 (request_id r)) as Hno.
  { unfold no_tables, managers_of. rewrite Hco. by apply (sk_others _ _ HS). }
  pose proof (rq_tokens _ _ Hwf). pose proof (sk_mml _ _ HS) as Hm. simpl in Hm.
  destruct (admit_spec use_int K1 fl HK1 HS1 r news n (Z.min (num_tokens r - n) budget) la)
    as (out&K'&->&Hcall&Hout); try lia.
  { eapply request_hashes_ok; [done|by rewrite Hco]. }
  { done. } { by rewrite Hco. }
  rewrite Ok_bind. destruct out as [nbs|]; (eexists; split; [done|]).
  - eapply sys_ok_call; [done..| |].
    + intros rid' Hne'. by rewrite lookup_insert_ne.
    + rewrite lookup_insert_eq. split_and!; [done|by apply request_wf_tokens|done].
  - eapply sys_ok_call; [done..|]. by rewrite Hfresh.
Qed.

Lemma generate_ok mml S rid ts budget la :
  sys_ok mml S → 0 ≤ la →
  ∃ S', exec (Generate rid ts budget la) S = Ok S' ∧ sys_ok mml S'.
Proof.
  intros HS Hla. destruct S as [K R]. cbn [exec sys_kv sys_running].
  destruct (R !! rid) as [r|] eqn:Hr; [|by eexists].
  destruct (sk_running _ _ HS rid r Hr) as (Hid&Hwf&hw&Hrun). simpl in Hrun.
  pose proof (sk_mml _ _ HS) as Hm. pose proof (sk_bs _ _ HS) as Hb. simpl in Hm, Hb.
  destruct (append_hashes H N bs Hbs r ts (rq_wf _ _ Hwf)) as (r'&Happ&Hwf'&Hfull'&_&Hall&_).
  rewrite Happ, Ok_bind.
  destruct (Z.leb_spec (km_max_model_len K) (num_tokens r')) as [|Hlt]; [by apply drop_ok|].
  assert (num_tokens r ≤ num_tokens r') as Hgrow.
  { unfold num_tokens. rewrite Hall. len_lia. }
  pose proof (rq_tokens _ _ Hwf) as Htok.
  assert (request_id r' = rid ∧ num_computed_tokens r' = num_computed_tokens r) as [Hid' Hnc'].
  { unfold append_output_token_ids in Happ. apply bind_Ok in Happ as (hs&_&Happ). simplify_eq. done. }
  assert (request_wf mml r') as Hw' by (split; [done|done|lia]).
  assert (running_ok K hw r') as Hrun'.
  { destruct Hrun as [H1 H2 H3 H4]. split; rewrite ?Hnc'; try lia.
    - by eapply request_hashes_ok.
    - rewrite Hid', <-Hid. done. }
  destruct (Z.leb_spec (Z.min (num_tokens r' - num_computed_tokens r') budget) 0) as [|Hnn].
  { eexists. split; [done|]. destruct HS as [? ? ? ? HR HO]. simpl in *. split; simpl; try done.
    - intros rid' x. rewrite lookup_insert. case_decide; [|by apply HR].
      intros [= <-]. subst rid'. split_and!; [done|done|]. by exists hw.
    - intros rid'. rewrite lookup_insert. case_decide; [done|]. by apply HO. }
  destruct (sk_inv _ _ HS) as [fl HK]. pose proof (sk_setup _ _ HS) as HS0. simpl in HK, HS0.
  destruct (extend_spec use_int K fl HK HS0 r' hw (Z.min (num_tokens r' - num_computed_tokens r') budget) la)
    as (out&K'&->&Hcall&Hout); [done|lia|done|lia|lia|].
  rewrite Ok_bind, Hid' in *. destruct out as [nbs|].
  - eexists. split; [done|]. eapply sys_ok_call; [done..| |].
    + intros rid' Hne'. by rewrite lookup_insert_ne.
    + rewrite lookup_insert_eq. split_and!; [done|by apply request_wf_tokens|done].
  - destruct Hcall as ((fl'&HK')&HSK&HF).
    destruct (finish_spec K' fl' HK' r') as (K2&Hfree&(HK2&HSK2&HF2)&Hno).
    unfold drop_request. rewrite Hfree, Ok_bind. eexists. split; [done|].
    rewrite Hid' in *. apply (sys_ok_call mml K R K2 rid); [done| | |].
    + split_and!; [done| |].
      * destruct HSK as (Ms&P&->&Hc1), HSK2 as (Ms2&P2&->&Hc2).
        exists Ms2, P2. split; [done|]. by etrans.
      * eapply Forall2_compose; [|exact HF|exact HF2].
        intros M M1 M2 (?&?&?&?&?&?) (?&?&?&?&?&?). unfold mgr_frame. split_and!; congruence.
    + intros rid' Hne'. by rewrite lookup_delete_ne.
    + by rewrite lookup_delete_eq.
Qed.

Lemma exec_ok mml S o : sys_ok mml S → op_ok mml o → ∃ S', exec o S = Ok S' ∧ sys_ok mml S'.
Proof.
  intros HS Ho. destruct o as [r budget la|rid ts budget la|rid].
  - by apply admit_ok.
  - by apply generate_ok.
  - destruct S as [K R]. simpl. destruct (R !! rid) as [r|] eqn:Hr; [|by eexists].
    by apply drop_ok.
Qed.
End driver.

(** ** Concrete values for the witnesses *)

Definition sys_sampling : SamplingParams := mkSampling (Some 8) None None false None false None default_sampler.
Definition sys_hasher (bs : Z) : Request → result (list bytes) :=
  request_block_hasher enc_hash enc_none bs.

(** A request for [prompt], as [Request.__init__] makes it. *)
Definition sys_request (bs : Z) (rid : string) (prompt : list Z) : result Request :=
  init (Some (sys_hasher bs)) rid (Some prompt) (Some sys_sampling) None None 0 0 None [] None None 0.

Definition blank_request : Request :=
  mkRequest "" 0 0 None None None None 0 WAITING false [] None None 0 None 0 [] [] 0 [] 0 None [] (-1) 0 [].
Definition get_request (r : result Request) : Request :=
  match r with Ok r => r | Err _ => blank_request end.

Definition req_a : Request := get_request (sys_request 4 "a" [1; 2; 3; 4; 5; 6; 7; 8; 9]).
Definition req_b : Request := get_request (sys_request 4 "b" [1; 2; 3; 4; 5; 6; 7; 8; 10; 11]).
Definition sys_attn : AttentionSpec := mkAttn 4 1 8 "half" false.
(** A hybrid model: one group of full attention, one of sliding window 4. *)
Definition sys_cfg : KVCacheConfig :=
  mkKVConfig 12 [] [mkGroup ["f"%string] (LayerSpec (FullAttentionSpec sys_attn None None));
                    mkGroup ["s"%string] (LayerSpec (SlidingWindowSpec sys_attn 4))].
Definition sys_ops : list op :=
  [Admit req_a 100 0; Admit req_b 100 0; Generate "a" [20; 21; 22; 23] 100 0;
   Generate "b" [30] 100 0; Finish "a"; Generate "b" [31; 32] 100 1; Finish "b"].

Lemma sys_cfg_ok : cfg_ok sys_cfg true false 1.
Proof.
  split; [lia|done|repeat constructor|]. intros _. unfold sys_cfg. cbn [kv_cache_groups].
  repeat (apply Forall_cons_2; [intros s [= <-]; by repeat split|]). apply Forall_nil_2.
Qed.

Lemma sys_request_wf mml rid prompt r :
  sys_request 4 rid prompt = Ok r → 0 < num_tokens r ≤ mml →
  request_wf enc_hash enc_none 4 mml r.
Proof.
  intros Hr Ht. destruct (init_hashes enc_hash enc_none 4 ltac:(lia) _ _ _ _ _ _ _ _ _ _ _ _ _ Hr).
  by split.
Qed.

Lemma req_a_ok : sys_request 4 "a" [1; 2; 3; 4; 5; 6; 7; 8; 9] = Ok req_a.
Proof. by vm_compute. Qed.
Lemma req_b_ok : sys_request 4 "b" [1; 2; 3; 4; 5; 6; 7; 8; 10; 11] = Ok req_b.
Proof. by vm_compute. Qed.

Lemma sys_ops_ok : Forall (op_ok enc_hash enc_none 4 64) sys_ops.
Proof.
  unfold sys_ops. repeat apply Forall_cons_2; try apply Forall_nil_2; simpl; try lia; try done.
  - split; [|split; [by vm_compute|lia]]. by apply (sys_request_wf _ _ _ _ req_a_ok).
  - split; [|split; [by vm_compute|lia]]. by apply (sys_request_wf _ _ _ _ req_b_ok).
Qed.

(** A freshly built manager, with no request running. *)
Lemma init_sys_ok H N bs cfg mml use_eagle stats dcp K0 :
  KVM.init cfg mml true use_eagle stats false dcp = Ok K0 → cfg_ok cfg true use_eagle dcp →
  (∀ g a w, g ∈ kv_cache_groups cfg → layer_of g (SlidingWindowSpec a w) → 1 ≤ w) →
  search_block_size (coordinator K0) = bs → sys_ok H N bs mml (mkSys K0 ∅).
Proof.
  intros Hinit Hcfg Hwin Hb.
  destruct (init_ok _ _ _ _ _ _ _ _ Hinit Hcfg) as (HK&He&Hc&Hm).
  destruct (init_fresh _ _ _ _ _ _ _ _ Hinit) as [Hfresh Hlay].
  assert (windows_ok K0) as Hwins.
  { apply Forall_lookup. intros i M HM a w E.
    destruct (Forall2_lookup_r _ _ _ _ _ Hlay HM) as (g&Hg&Hl). rewrite E in Hl.
    eapply Hwin; [|done]. by eapply list_elem_of_lookup_2. }
  split; simpl; try done; [by eexists|].
  intros rid _. apply Forall_forall. intros M HM. rewrite Forall_forall in Hfresh.
  destruct (Hfresh M HM) as [Hr Hn]. unfold blocks_of. by rewrite Hr, Hn.
Qed.

(** Any sequence of operations, by induction on the sequence. *)
Lemma run_ok H N bs use_int mml ops S0 :
  0 < bs → (∀ x y, H x = H y → x = y) → (∀ x, H x ≠ N) → (∀ x, H x ≠ []) →
  sys_ok H N bs mml S0 → Forall (op_ok H N bs mml) ops →
  ∃ S, for_each (exec H N bs use_int) ops S0 = Ok S ∧ sys_ok H N bs mml S.
Proof.
  intros Hbs Hinj Hnone Hne HS0 Hops.
  apply (for_each_ind (exec H N bs use_int) (λ _ S, sys_ok H N bs mml S)); [done|].
  intros dn o rest S Hl HS. apply exec_ok; try done.
  rewrite Forall_forall in Hops. apply Hops. rewrite Hl. set_solver.
Qed.

Lemma sys_all_free H N bs mml S :
  sys_ok H N bs mml S → sys_running S = ∅ →
  Pool.get_num_free_blocks (pool_of (sys_kv S)) = num_gpu_blocks (pool_of (sys_kv S)) - 1.
Proof.
  intros HS Hempty. destruct (sk_inv _ _ _ _ _ HS) as [fl HKS].
  rewrite (num_free _ _ _ (si_pool _ _ _ _ (kv_sys _ _ HKS))).
  apply (all_free _ _ HKS). intros M rid HM.
  assert (no_tables (sys_kv S) rid) as Hno by (apply (sk_others _ _ _ _ _ HS); by rewrite Hempty).
  unfold no_tables in Hno. rewrite Forall_forall in Hno. by destruct (Hno M HM).
Qed.

Lemma sys_windows g a w :
  g ∈ kv_cache_groups sys_cfg → layer_of g (SlidingWindowSpec a w) → 1 ≤ w.
Proof.
  intros Hg Hl. unfold sys_cfg in Hg. cbn [kv_cache_groups] in Hg.
  rewrite !elem_of_cons, elem_of_nil in Hg. destruct Hg as [->|[->|[]]]; [done|].
  injection Hl as _ <-. done.
Qed.

(** C4. The lifecycle of requests: from a freshly built manager (prefix caching
    on, no KV events), every sequence of admissions with the prefix-cache hit,
    of extensions by generated tokens with preemption when there is no room, and
    of completions runs without raising; the manager's invariant holds
    throughout, and once no request is running every block but the null block is
    free again. *)
Theorem request_lifecycle_safe H N bs use_int cfg mml use_eagle stats dcp K0 ops :
  0 < bs → (∀ x y, H x = H y → x = y) → (∀ x, H x ≠ N) → (∀ x, H x ≠ []) →
  KVM.init cfg mml true use_eagle stats false dcp = Ok K0 →
  cfg_ok cfg true use_eagle dcp →
  (∀ g a w, g ∈ kv_cache_groups cfg → layer_of g (SlidingWindowSpec a w) → 1 ≤ w) →
  search_block_size (coordinator K0) = bs →
  Forall (op_ok H N bs mml) ops →
  ∃ S, for_each (exec H N bs use_int) ops (mkSys K0 ∅) = Ok S ∧ sys_ok H N bs mml S ∧
    (sys_running S = ∅ →
     Pool.get_num_free_blocks (pool_of (sys_kv S)) = num_gpu_blocks (pool_of (sys_kv S)) - 1).
Proof.
  intros Hbs Hinj Hnone Hne Hinit Hcfg Hwin Hb Hops.
  destruct (run_ok H N bs use_int mml ops (mkSys K0 ∅)) as (S&Hrun&HS); try done.
  - by eapply init_sys_ok.
  - exists S. split_and!; [done|done|]. by eapply sys_all_free.
Qed.

(** What the run leaves: the number of running requests, the size of the pool. *)
Definition sys_summary : result (nat * Z * Z) :=
  K ← KVM.init sys_cfg 64 true false false false 1;
  S ← for_each (exec enc_hash enc_none 4 false) sys_ops (mkSys K ∅);
  Ok (base.size (sys_running S), num_gpu_blocks (pool_of (sys_kv S)),
      search_block_size (coordinator K)).

Lemma sys_summary_eq : sys_summary = Ok (0%nat, 12, 4).
Proof. by vm_compute. Qed.

Lemma request_lifecycle_safe_witness :
  ∃ K0 S, KVM.init sys_cfg 64 true false false false 1 = Ok K0 ∧
    for_each (exec enc_hash enc_none 4 false) sys_ops (mkSys K0 ∅) = Ok S ∧
    sys_ok enc_hash enc_none 4 64 S ∧ sys_running S = ∅ ∧
    Pool.get_num_free_blocks (pool_of (sys_kv S)) = 11.
Proof.
  pose proof sys_summary_eq as Hsum. unfold sys_summary in Hsum.
  destruct (KVM.init sys_cfg 64 true false false false 1) as [K0|] eqn:Hinit; [|done].
  rewrite Ok_bind in Hsum.
  assert (search_block_size (coordinator K0) = 4) as Hb
    by (apply bind_Ok in Hsum as (S&_&Hsum); by injection Hsum).
  destruct (request_lifecycle_safe enc_hash enc_none 4 false sys_cfg 64 false false 1 K0 sys_ops)
    as (S&Hrun&HS&Hfree); try done.
  - apply enc_hash_inj.
  - apply sys_cfg_ok.
  - exact sys_windows.
  - exact sys_ops_ok.
  - exists K0, S. rewrite Hrun, Ok_bind in Hsum. injection Hsum as Hsize Hn _.
    apply map_size_empty_inv in Hsize.
    split; [done|]. split; [done|]. split; [done|]. split; [done|].
    rewrite Hfree, Hn by done. done.
Defined.

(** ** Prefix-cache hits *)

Lemma hit_position C hashes m news n g row i p :
  coord_ok C → hit_ok C hashes m news n → news !! g = Some row → row !! i = Some p → p ≠ Blk 0 →
  ∃ h, hashes !! i = Some h ∧ hit (block_pool C) h (Z.of_nat g) p.
Proof.
  intros (Hids&_) (Hrows&_) Hrow Hp Hne.
  destruct (Forall2_lookup_r _ _ _ _ _ Hrows Hrow) as (M&HM&(a&k&_&Hr)).
  specialize (Hr i p Hp). case_decide; [done|]. destruct Hr as (h&Hh&Hhit). exists h.
  split; [done|].
  assert (kv_cache_group_id M = Z.of_nat g) as <-; [|done].
  assert ((kv_cache_group_id <$> single_type_managers C) !! g = Some (kv_cache_group_id M)) as Hg
    by (by rewrite list_lookup_fmap, HM).
  rewrite Hids in Hg. apply lookup_seqZ in Hg as [? _]. lia.
Qed.

(** C9. Prefix caching is sound: when the hit found for a request holds, in the row
    of a group and at a position, a block cached under the hash of some request's
    block, then that hash is for the same group and the same position, and the
    two requests have the same tokens up to the end of that block and the same
    LoRA adapter; the hit leaves at least one token to compute. *)
Theorem prefix_hit_same_tokens H N bs K fl r1 r2 news n K' g row i p j h1 gid key :
  0 < bs → (∀ x y, H x = H y → x = y) → (∀ x, H x ≠ N) → (∀ x, H x ≠ []) →
  kv_inv K fl → hashes_ok K r2 → hashes_wf H N bs r1 → hashes_wf H N bs r2 →
  KVM.get_computed_blocks r2 K = Ok (news, n, K') →
  news !! g = Some row → row !! i = Some p → p ≠ Blk 0 →
  block_hashes r1 !! j = Some h1 → make_block_hash_with_group_id h1 gid = Ok key →
  hash_at (pool_of K) p = Some key →
  gid = Z.of_nat g ∧ i = j ∧
  take (S i * Z.to_nat bs) (all_token_ids r1) = take (S i * Z.to_nat bs) (all_token_ids r2) ∧
  lora_id_of r1 = lora_id_of r2 ∧ 0 ≤ n < num_tokens r2.
Proof.
  intros Hbs Hinj Hnone Hne HK Hh Hw1 Hw2 Hrun Hrow Hp Hp0 Hj Hkey Hat.
  destruct (get_computed_blocks_spec K fl r2 HK Hh)
    as (news'&n'&K2&Hrun'&_&_&_&_&Hhit&_&Hn). rewrite Hrun' in Hrun. simplify_eq.
  destruct (hit_position _ _ _ _ _ _ _ _ _ (kv_coord _ _ HK) Hhit Hrow Hp Hp0) as (h2&Hh2&Hit2).
  assert (hit (block_pool (coordinator K)) h1 gid p) as Hit1.
  { destruct Hit2 as (_&_&Hv&_). by exists key. }
  destruct (hit_inj _ _ _ _ _ _ Hit1 Hit2) as [Eh Eg].
  rewrite <-Eh in Hh2. destruct (chain_position H N bs r2 r1 i j h1) as (Eij&Ht&Hl); done.
Qed.

(** The hit found for [req_b] once [req_a] has been admitted: row 0, position 1. *)
Definition hit_summary : result (Z * option ptr * option bool * bool) :=
  K ← KVM.init sys_cfg 64 true false false false 1;
  S ← for_each (exec enc_hash enc_none 4 false) [Admit req_a 100 0] (mkSys K ∅);
  '(news, n, _) ← KVM.get_computed_blocks req_b (sys_kv S);
  h ← of_option IndexError (block_hashes req_a !! 1%nat);
  key ← make_block_hash_with_group_id h 0;
  Ok (n, news !! 0%nat ≫= λ row, row !! 1%nat,
      (λ p, bool_decide (hash_at (pool_of (sys_kv S)) p = Some key)) <$>
        (news !! 0%nat ≫= λ row, row !! 1%nat),
      bool_decide (search_block_size (coordinator K) = 4)).

Lemma hit_summary_eq : hit_summary = Ok (8, Some (Blk 2), Some true, true).
Proof. by vm_compute. Qed.

Lemma prefix_hit_same_tokens_witness :
  ∃ K news K', KVM.get_computed_blocks req_b K = Ok (news, 8, K') ∧
    (news !! 0%nat ≫= λ row, row !! 1%nat) = Some (Blk 2) ∧
    0 = Z.of_nat 0 ∧ 1%nat = 1%nat ∧
    take (2 * Z.to_nat 4) (all_token_ids req_a) = take (2 * Z.to_nat 4) (all_token_ids req_b) ∧
    lora_id_of req_a = lora_id_of req_b ∧ 0 ≤ 8 < num_tokens req_b.
Proof.
  pose proof hit_summary_eq as Hsum. unfold hit_summary in Hsum.
  apply bind_Ok in Hsum as (K0&Hinit&Hsum). apply bind_Ok in Hsum as (S&Hrun&Hsum).
  apply bind_Ok in Hsum as ([[news n] K']&Hget&Hsum). apply bind_Ok in Hsum as (h&Hh&Hsum).
  apply bind_Ok in Hsum as (key&Hkey&Hsum). injection Hsum as -> Hp Hat Hb.
  apply bool_decide_eq_true_1 in Hb.
  destruct (run_ok enc_hash enc_none 4 false 64 [Admit req_a 100 0] (mkSys K0 ∅))
    as (S'&Hrun'&HS); [done|exact enc_hash_inj|exact enc_hash_none|exact enc_hash_ne| | |].
  { by apply (init_sys_ok _ _ _ _ _ _ _ _ _ Hinit sys_cfg_ok sys_windows). }
  { repeat constructor; [|by vm_compute|lia..]. by apply (sys_request_wf 64 _ _ _ req_a_ok). }
  rewrite Hrun in Hrun'. injection Hrun' as <-.
  destruct (news !! 0%nat) as [row|] eqn:Hrow; [|done]. simpl in Hp, Hat. rewrite Hp in Hat.
  injection Hat as Hat%bool_decide_eq_true_1.
  destruct (sk_inv _ _ _ _ _ HS) as [fl HK].
  exists (sys_kv S), news, K'. split; [done|]. rewrite Hrow. split; [done|].
  apply (prefix_hit_same_tokens enc_hash enc_none 4 (sys_kv S) fl req_a req_b news 8 K'
           0 row 1 (Blk 2) 1 h 0 key); try done.
  - exact enc_hash_inj.
  - apply (request_hashes_ok enc_hash enc_none 4 enc_hash_inj enc_hash_none enc_hash_ne 64);
      [by apply (sys_request_wf 64 _ _ _ req_b_ok)|apply (sk_bs _ _ _ _ _ HS)].
  - by eapply init_hashes; [|exact req_a_ok].
  - by eapply init_hashes; [|exact req_b_ok].
  - destruct (block_hashes req_a !! 1%nat); [by injection Hh as ->|done].
Defined.

(** ** Capacity *)

(** The memory check of a model whose layers share one full-attention
    specification. *)
Lemma uniform_memory gds c d a w k n :
  (∀ s, s ∈ d.*2 → s = FullAttentionSpec a w k) → decode_context_parallel_size c = 1 →
  memory_needed gds c d n = len d * (cdiv n (attn_block_size a) * attn_page_size_bytes gds a).
Proof.
  intros Hd Hdcp. unfold memory_needed. induction d as [|[name s] d IH]; [done|].
  rewrite !fmap_cons, sumZ_cons, IH by (intros; apply Hd; by right). simpl snd.
  rewrite (Hd s) by (by left). unfold layer_memory. simpl.
  unfold full_max_memory_usage_bytes. simpl. rewrite Hdcp. simpl. rewrite len_cons. lia.
Qed.

Lemma uniform_pages gds d a w k :
  d ≠ [] → (∀ s, s ∈ d.*2 → s = FullAttentionSpec a w k) →
  get_uniform_page_size gds d = Ok (attn_page_size_bytes gds a).
Proof.
  intros Hne Hd. unfold get_uniform_page_size.
  rewrite (map_res_ok _ (λ _, attn_page_size_bytes gds a)).
  - rewrite Ok_bind, (remove_dups_const _ (attn_page_size_bytes gds a)); [done| |].
    + by destruct d as [|[] ?].
    + by intros y (?&->&_)%list_elem_of_fmap.
  - intros s Hs. by rewrite (Hd s Hs).
Qed.

Lemma uniform_full_spec d a w k :
  d ≠ [] → (∀ s, s ∈ d.*2 → s = FullAttentionSpec a w k) → w = None ∨ k = None →
  is_kv_cache_spec_uniform d = Ok true.
Proof.
  intros Hne Hd Hwk. unfold is_kv_cache_spec_uniform. destruct d as [|[n0 s0] d']; [done|].
  rewrite fmap_cons. cbn [snd]. rewrite (merge_same (FullAttentionSpec a w k)); [done| |done|done].
  destruct w, k; naive_solver.
Qed.

(** All the layers form one group. *)
Lemma uniform_full_groups gds c d a w k :
  d ≠ [] → (∀ s, s ∈ d.*2 → s = FullAttentionSpec a w k) → w = None ∨ k = None →
  get_kv_cache_groups gds c d = Ok [mkGroup d.*1 (LayerSpec (FullAttentionSpec a w k))].
Proof.
  intros Hne Hd Hwk. pose proof (uniform_full_spec d a w k Hne Hd Hwk) as Hu.
  unfold get_kv_cache_groups.
  assert ((if disable_hybrid_kv_cache_manager c then unify_hybrid_kv_cache_specs d else Ok d) = Ok d)
    as -> by (destruct (disable_hybrid_kv_cache_manager c); [|done];
              unfold unify_hybrid_kv_cache_specs; by rewrite Hu).
  rewrite Ok_bind, Hu, Ok_bind.
  replace (is_kv_cache_type_attention_free d) with false by (by destruct d).
  unfold get_kv_cache_groups_uniform_spec, create_kv_cache_group_specs. cbn [map_res].
  rewrite (map_res_ok _ (λ _, FullAttentionSpec a w k)).
  - rewrite Ok_bind, (merge_same (FullAttentionSpec a w k)); [done| | |].
    + destruct w, k; naive_solver.
    + by destruct d.
    + by intros s (?&->&_)%list_elem_of_fmap.
  - intros n Hn. apply dict_get_is_Some in Hn as [s Hs]. rewrite Hs. simpl. f_equal. apply Hd.
    apply dict_get_Some in Hs. apply list_elem_of_fmap. by exists (n, s).
Qed.

(** C35. A model of full-attention layers that passes the memory check gets at least
    as many blocks as a request of the maximum length occupies. *)
Theorem checked_memory_gives_blocks gds c d avail a w k gs cfg :
  d ≠ [] → NoDup d.*1 → (∀ s, s ∈ d.*2 → s = FullAttentionSpec a w k) → w = None ∨ k = None →
  0 < attn_block_size a → 0 < attn_page_size_bytes gds a →
  decode_context_parallel_size c = 1 → num_gpu_blocks_override c = None → 0 ≤ max_model_len c →
  check_enough_kv_cache_memory gds c d avail = Ok tt →
  get_kv_cache_groups gds c d = Ok gs →
  get_kv_cache_config_from_groups gds c gs d avail = Ok cfg →
  cdiv (max_model_len c) (attn_block_size a) ≤ num_blocks cfg.
Proof.
  intros Hne Hnd Hd Hwk Hbs Hpage Hdcp Hov Hmml Hcheck Hgs Hcfg.
  assert (Forall (spec_ok gds c) d.*2) as Hok.
  { apply Forall_forall. intros s Hs. rewrite (Hd s Hs). simpl. lia. }
  rewrite (check_enough_spec gds c d avail Hok) in Hcheck. case_bool_decide as Hc; [|done].
  destruct Hc as [?|[Hav Hfit]]; [done|].
  rewrite (uniform_memory gds c d a w k) in Hfit by done.
  rewrite (uniform_full_groups gds c d a w k Hne Hd Hwk) in Hgs. injection Hgs as <-.
  unfold get_kv_cache_config_from_groups in Hcfg.
  apply bind_Ok in Hcfg as ([n ts]&Hts&Hcfg). apply bind_Ok in Hcfg as (mb&_&Hcfg).
  apply bind_Ok in Hcfg as (mc&_&Hcfg). injection Hcfg as <-. cbn [num_blocks].
  unfold general_tensors in Hts. cbn in Hts. rewrite (uniform_pages gds d a w k Hne Hd), Ok_bind in Hts.
  apply bind_Ok in Hts as (u&Hl%py_assert_Ok%Z.ltb_lt&Hts). apply bind_Ok in Hts as (nb&Hnb&Hts).
  simplify_eq. unfold get_num_blocks, may_override_num_blocks in Hnb. rewrite Hov in Hnb.
  case_match; [done|]. simpl in Hnb. injection Hnb as <-.
  assert (len d.*1 = len d) as Hlen by apply len_fmap. rewrite Hlen in *.
  set (pg := attn_page_size_bytes gds a) in *. set (q := cdiv (max_model_len c) (attn_block_size a)) in *.
  assert (q ≤ avail / pg / len d); [|lia].
  apply Z.div_le_lower_bound; [done|]. apply Z.div_le_lower_bound; [done|]. lia.
Qed.

Definition one_layer : specs_dict := [("full.0", ex_full)]%string.

Definition one_group : list KVCacheGroupSpec := [mkGroup ["full.0"%string] (LayerSpec ex_full)].
Definition one_cfg : KVCacheConfig :=
  mkKVConfig 4 [mkTensor 512 ["full.0"%string]] one_group.

Lemma checked_memory_gives_blocks_witness :
  check_enough_kv_cache_memory ex_dtype_size ex_vllm_config one_layer 512 = Ok tt ∧
  get_kv_cache_groups ex_dtype_size ex_vllm_config one_layer = Ok one_group ∧
  get_kv_cache_config_from_groups ex_dtype_size ex_vllm_config one_group one_layer 512 = Ok one_cfg ∧
  cdiv (max_model_len ex_vllm_config) (attn_block_size ex_attn) ≤ num_blocks one_cfg.
Proof.
  assert (check_enough_kv_cache_memory ex_dtype_size ex_vllm_config one_layer 512 = Ok tt) as H1
    by (vm_compute; reflexivity).
  assert (get_kv_cache_groups ex_dtype_size ex_vllm_config one_layer = Ok one_group) as H2
    by (vm_compute; reflexivity).
  assert (get_kv_cache_config_from_groups ex_dtype_size ex_vllm_config one_group one_layer 512 =
    Ok one_cfg) as H3 by (vm_compute; reflexivity).
  split_and!; [exact H1|exact H2|exact H3|].
  apply (checked_memory_gives_blocks ex_dtype_size ex_vllm_config one_layer 512 ex_attn None None
    one_group one_cfg); [discriminate| | |by left|reflexivity|reflexivity|reflexivity|reflexivity|discriminate
    |exact H1|exact H2|exact H3].
  - apply (bool_decide_unpack _). vm_compute. exact I.
  - intros s ->%list_elem_of_singleton. reflexivity.
Defined.

(** The configuration for the memory [avail], the manager built from it, and the
    first call for a request of 16 tokens, the maximum length: the number of
    blocks, the free blocks before the call and whether the call succeeds. *)
Definition first_request (avail : Z) : result (Z * Z * bool) :=
  gs ← get_kv_cache_groups ex_dtype_size ex_vllm_config one_layer;
  cfg ← get_kv_cache_config_from_groups ex_dtype_size ex_vllm_config gs one_layer avail;
  K ← KVM.init cfg (max_model_len ex_vllm_config) false false false false 1;
  r ← sys_request 4 "r" (seqZ 1 (max_model_len ex_vllm_config));
  '(out, _) ← KVM.allocate_slots false r (num_tokens r) 0 None 0 false 0 K;
  Ok (num_blocks cfg, Pool.get_num_free_blocks (pool_of K), bool_decide (is_Some out)).

(** One block is missing: with exactly the memory the check asks for, the check
    passes and the configuration has the 4 blocks a request of the maximum
    length occupies, but the block pool keeps one of them as the null block, so
    that the first request of that length is refused with every other block
    free; one more block of memory is enough. *)
Theorem null_block_gap :
  check_enough_kv_cache_memory ex_dtype_size ex_vllm_config one_layer 512 = Ok tt ∧
  check_enough_kv_cache_memory ex_dtype_size ex_vllm_config one_layer 511 = Err ValueError ∧
  cdiv (max_model_len ex_vllm_config) (attn_block_size ex_attn) = 4 ∧
  first_request 512 = Ok (4, 3, false) ∧ first_request 640 = Ok (5, 4, true).
Proof. split_and!; by vm_compute. Qed.

(** ** Encoder-decoder models *)

Definition cross_cfg (groups : list KVCacheSpec) : KVCacheConfig :=
  mkKVConfig 6 [] ((λ s, mkGroup [] (LayerSpec s)) <$> groups).
Definition full_spec4 : KVCacheSpec := FullAttentionSpec sys_attn None None.
Definition cross_spec4 : KVCacheSpec := CrossAttentionSpec sys_attn.

(** Two calls for one request: 8 tokens with 8 encoder tokens, then 12 more. *)
Definition two_calls (groups : list KVCacheSpec) : result (bool * Z) :=
  K ← KVM.init (cross_cfg groups) 64 false false false false 1;
  r ← sys_request 4 "r" (seqZ 1 20);
  '(o1, K) ← KVM.allocate_slots false r 8 0 None 0 false 8 K;
  '(o2, K) ← KVM.allocate_slots false (set_num_computed_tokens 8 r) 12 0 None 0 false 0 K;
  Ok (bool_decide (is_Some o2), Pool.get_num_free_blocks (pool_of K)).

(** With a cross-attention group, the check of [allocate_slots] counts the blocks
    the group already has as a surplus when no new encoder tokens come (the
    estimate for that group is negative), so a call that lacks room passes the
    check and raises [ValueError] instead of answering [None], which it does for
    the same decoder blocks without the cross-attention group's surplus. *)
Theorem cross_surplus_raises :
  two_calls [full_spec4; cross_spec4] = Err ValueError ∧
  two_calls [full_spec4; full_spec4] = Ok (false, 1).
Proof. split; by vm_compute. Qed.

(** ** The calls of the manager *)

(** C10. [allocate_slots] never raises where the scheduler may call it: either there
    is no room (it answers [None], and only the blocks outside the attention
    windows are gone), or every group's table is extended by the prefix-cache hit
    and by fresh blocks, at least to the slots the request needs, and the number
    of cached blocks is recorded.  The invariant of the manager is kept. *)
Theorem allocate_slots_correct use_int K fl r nn nc la net news delay :
  kv_inv K fl → alloc_pre K r nn nc la net news delay →
  let nt := KVM.num_tokens_need_slot K r nn nc la in
  ∃ out K' fl', KVM.allocate_slots use_int r nn nc (Some news) la delay net K = Ok (out, K') ∧
    kv_inv K' fl' ∧ same_setup K K' ∧
    match out with
    | None => len fl' < sumZ (zip_with (gap (request_id r) nt net) (managers_of K') news)
                          + evictable (pool_of K') (concat news) ∧
        Forall2 (skipped (request_id r)) (managers_of K) (managers_of K')
    | Some nbs => length nbs = length (managers_of K) ∧
        ∀ i M new nb M', managers_of K !! i = Some M → news !! i = Some new →
          nbs !! i = Some nb → managers_of K' !! i = Some M' →
          slots_added (request_id r) nt net M new nb (recorded K r nn nc delay M new) M'
    end.
Proof. intros HK Hpre nt. by apply (allocate_slots_spec use_int K fl). Qed.

(** The blocks of the first call for [req_a], the tokens per block, the groups. *)
Definition alloc_summary : result (option (list (list ptr)) * Z * nat) :=
  K ← KVM.init sys_cfg 64 true false false false 1;
  '(out, _) ← KVM.allocate_slots false req_a 9 0 (Some [[]; []]) 0 false 0 K;
  Ok (out, search_block_size (coordinator K), length (managers_of K)).
Lemma alloc_summary_eq :
  alloc_summary = Ok (Some [[Blk 1; Blk 2; Blk 3]; [Blk 4; Blk 5; Blk 6]], 4, 2%nat).
Proof. by vm_compute. Qed.

Lemma allocate_slots_correct_witness :
  ∃ K out K', KVM.init sys_cfg 64 true false false false 1 = Ok K ∧
    KVM.allocate_slots false req_a 9 0 (Some [[]; []]) 0 false 0 K = Ok (out, K') ∧
    out = Some [[Blk 1; Blk 2; Blk 3]; [Blk 4; Blk 5; Blk 6]] ∧ ∃ fl, kv_inv K' fl.
Proof.
  pose proof alloc_summary_eq as Hsum. unfold alloc_summary in Hsum.
  destruct (KVM.init sys_cfg 64 true false false false 1) as [K|] eqn:Hinit; [|discriminate Hsum].
  rewrite Ok_bind in Hsum. apply bind_Ok in Hsum as ([out K']&Hrun&Hsum).
  injection Hsum as -> Hbs Hlen.
  destruct (init_ok _ _ _ _ _ _ _ _ Hinit sys_cfg_ok) as (HK&Hev&Hc&Hml).
  pose proof (init_sys_ok enc_hash enc_none 4 _ _ _ _ _ _ Hinit sys_cfg_ok sys_windows) as HS.
  specialize (HS Hbs).
  destruct (allocate_slots_correct false K _ req_a 9 0 0 0 [[]; []] false HK) as (out&K2&fl&Hrun2&HK2&_&_).
  - apply (new_request_pre K _ req_a [[]; []] 0 9 0 HK Hc Hev).
    + pose proof (sys_request_wf 64 _ _ _ req_a_ok) as Hwf.
      assert (0 < num_tokens req_a ≤ 64) as Ht by (by vm_compute).
      eapply (request_hashes_ok enc_hash enc_none 4); first [exact (Hwf Ht)|exact Hbs|exact enc_hash_inj|exact enc_hash_none|exact enc_hash_ne|lia].
    + by apply (sk_others _ _ _ _ _ HS).
    + by vm_compute.
    + apply (so_windows _ (sk_setup _ _ _ _ _ HS)).
    + pose proof (empty_hit_ok (coordinator K) (block_hashes req_a) (num_tokens req_a - 1)) as He.
      change (single_type_managers (coordinator K)) with (managers_of K) in He. rewrite Hlen in He.
      by apply He.
    + done.
    + done.
    + rewrite Hml. lia.
  - rewrite Hrun in Hrun2. injection Hrun2 as <- <-.
    exists K, (Some [[Blk 1; Blk 2; Blk 3]; [Blk 4; Blk 5; Blk 6]]), K'. split; [reflexivity|]. split; [exact Hrun|]. split; [reflexivity|]. by exists fl.
Defined.

(** C11. [get_computed_blocks] never raises for a request whose full blocks are
    hashed: the hit has a row per group, each block in it is the null block or
    carries the hash of its own position in the request, no block occurs twice,
    the number of tokens is the blocks' and leaves at least the last token of the
    request to compute; without caching the rows are empty. *)
Theorem get_computed_blocks_correct K fl r :
  kv_inv K fl → hashes_ok K r →
  ∃ news n K', KVM.get_computed_blocks r K = Ok (news, n, K') ∧ kv_inv K' fl ∧
    coordinator K' = coordinator K ∧ length news = length (managers_of K) ∧
    (∀ g row i p, news !! g = Some row → row !! i = Some p → p ≠ Blk 0 →
       ∃ h, block_hashes r !! i = Some h ∧ hit (pool_of K) h (Z.of_nat g) p) ∧
    NoDup (filter (.≠ Blk 0) (concat news)) ∧ 0 ≤ n < num_tokens r ∧
    (∀ row, row ∈ news → n = len row * search_block_size (coordinator K)) ∧
    (km_enable_caching K = false → Forall (.= []) news).
Proof.
  intros HK Hh. destruct (get_computed_blocks_spec K fl r HK Hh)
    as (news&n&K'&Hrun&HK'&HC&_&_&Hhit&Hoff&Hn).
  exists news, n, K'. destruct Hhit as (Hrows&Hnd&Hht&Hm&Hlen).
  split_and!; try done; try lia.
  - symmetry. by eapply Forall2_length.
  - intros g row i p Hrow Hp Hne. eapply (hit_position (coordinator K) (block_hashes r) (num_tokens r - 1) news n);
      [apply (kv_coord _ _ HK)|exact (conj Hrows (conj Hnd (conj Hht (conj Hm Hlen))))|done..].
Qed.

Lemma get_computed_blocks_correct_witness :
  ∃ K news n K', KVM.init sys_cfg 64 true false false false 1 = Ok K ∧
    KVM.get_computed_blocks req_a K = Ok (news, n, K') ∧ 0 ≤ n < 9.
Proof.
  pose proof alloc_summary_eq as Hsum. unfold alloc_summary in Hsum.
  destruct (KVM.init sys_cfg 64 true false false false 1) as [K|] eqn:Hinit; [|discriminate Hsum].
  rewrite Ok_bind in Hsum. apply bind_Ok in Hsum as ([out K']&Hrun&Hsum).
  injection Hsum as -> Hbs _.
  destruct (init_ok _ _ _ _ _ _ _ _ Hinit sys_cfg_ok) as (HK&_).
  assert (hashes_ok K req_a) as Hh.
  { assert (0 < num_tokens req_a ≤ 64) as Ht by (by vm_compute).
    eapply (request_hashes_ok enc_hash enc_none 4);
      first [exact (sys_request_wf 64 _ _ _ req_a_ok Ht)|exact Hbs|exact enc_hash_inj
            |exact enc_hash_none|exact enc_hash_ne|lia]. }
  destruct (get_computed_blocks_correct K _ req_a HK Hh) as (news&n&K2&Hget&_&_&_&_&_&Hn&_).
  exists K, news, n, K2. split; [reflexivity|]. split; [exact Hget|exact Hn].
Defined.
