(* ===== verification/Scheduler.v ===== *)
(** * The scheduler

    Models src/vllm/v1/core/sched/scheduler.py, async_scheduler.py and utils.py:
    the step that assigns tokens to the running and the waiting requests
    ([schedule]), the update with the tokens the model sampled
    ([update_from_output]), and the arrival and the end of requests.

    A [Request] object is shared by the dictionary of requests, the queues and
    the local lists of a step; here the dictionary [requests] is the store of
    the objects and everything else holds ids.  The blocks of [schedule] between
    its comments are one definition each; a [while] loop is a [Fixpoint] with
    fuel, a bound on its iterations.  What a step collects in local variables is
    a [Step].  The list of draft tokens that [schedule] puts both in the request
    and in its output is copied: nothing changes it in between.

    Left out: the prompt embeddings in [NewRequestData] and the trace headers,
    which are passed on; logging; [shutdown] and [get_kv_connector].  The
    parameters of a KV transfer are [None] or a non-empty dictionary: the code
    only tests their truth, and an empty one would count as [None].

    The structured-output manager, the KV connector, the closure that hashes
    blocks, the order in which Python iterates over sets and the tensors passed
    through are parameters, collected in a [World]. *)
From S2P Require Import Prelude FreeQueue Request BlockHash BlockPool KVSpecs Coordinator KVManager EncoderCache RequestQueue KVConfig.

(** ** [utils.py] *)

(** [remove_all]: one item is removed in place, at its first occurrence. *)
Definition remove_all (lst : list string) (items_to_remove : gset string) : list string :=
  match elements items_to_remove with
  | [] => lst
  | [item] => match Fcfs.deque_remove item lst with Ok l => l | Err _ => lst end
  | _ => filter (.∉ items_to_remove) lst
  end.

(** [check_stop]; [pooled] is whether there is a pooler output. *)
Definition check_stop (r : Request) (max_model_len : Z) (pooled : bool) : result (bool * Request) :=
  if (max_model_len <=? num_tokens r) || (max_tokens r <=? num_output_tokens r) then
    Ok (true, set_status FINISHED_LENGTH_CAPPED r)
  else
    match pooling_params r with
    | Some _ => if pooled then Ok (true, set_status FINISHED_STOPPED r) else Ok (false, r)
    | None =>
        sp ← of_option AssertionError (sampling_params r);
        last_token_id ← py_index (output_token_ids r) (-1);
        if negb (ignore_eos sp) && bool_decide (eos_token_id r = Some last_token_id) then
          Ok (true, set_status FINISHED_STOPPED r)
        else if bool_decide (last_token_id ∈ default [] (stop_token_ids sp)) then
          Ok (true, set_stop_reason (Some last_token_id) (set_status FINISHED_STOPPED r))
        else Ok (false, r)
    end.

(** ** [SpecDecodingStats] of src/vllm/v1/spec_decode/metrics.py *)

Record SpecDecodingStats := mkSpecStats {
  ss_num_spec_tokens : Z;
  num_drafts : Z;
  num_draft_tokens : Z;
  num_accepted_tokens : Z;
  num_accepted_tokens_per_pos : list Z;
}.

Definition new_spec_stats (num_spec_tokens : Z) : SpecDecodingStats :=
  mkSpecStats num_spec_tokens 0 0 0 (py_repeat 0 num_spec_tokens).

Definition observe_draft (drafts accepted : Z) (s : SpecDecodingStats) : result SpecDecodingStats :=
  _ ← py_assert (accepted <=? ss_num_spec_tokens s);
  per_pos ← for_each (λ i l, x ← py_index l i; py_set l i (x + 1)) (py_range 0 accepted)
              (num_accepted_tokens_per_pos s);
  Ok (mkSpecStats (ss_num_spec_tokens s) (num_drafts s + 1) (num_draft_tokens s + drafts)
        (num_accepted_tokens s + accepted) per_pos).

(** ** The data of the scheduler *)

Record SchedulerConfig := mkSchedConfig {
  max_num_running_reqs : Z;
  max_num_scheduled_tokens : Z;
  max_len : Z;                        (** [self.max_model_len] *)
  long_prefill_token_threshold : Z;
  chunked_prefill_enabled : bool;
  no_chunked_mm : bool;               (** [scheduler_config.disable_chunked_mm_input] *)
  cross_encoder_tokens : Z;           (** [scheduler_config.max_num_encoder_input_tokens] *)
  encoder_budget : Z;                 (** [self.max_num_encoder_input_tokens] *)
  num_spec_tokens : Z;
  num_lookahead_tokens : Z;
  max_loras : option Z;               (** [lora_config.max_loras], if there is a [lora_config] *)
  is_encoder_decoder : bool;
  use_pp : bool;
  log_stats : bool;
  sc_block_size : Z;
  policy : SchedulingPolicy;
  async_scheduling : bool;            (** the subclass [AsyncScheduler] *)
}.

Record NewRequestData := mkNewRequest {
  nr_req_id : string;
  nr_prompt_token_ids : option (list Z);
  nr_mm_features : list MultiModalFeatureSpec;
  nr_sampling_params : option SamplingParams;
  nr_pooling_params : option PoolingParams;
  nr_block_ids : option (list (list Z));
  nr_num_computed_tokens : Z;
  nr_lora_request : option LoRARequest;
}.

Record CachedRequestData := mkCachedRequests {
  cr_req_ids : list string;
  resumed_from_preemption : list bool;
  new_token_ids : list (list Z);
  new_block_ids : list (option (list (list Z)));
  cr_num_computed_tokens : list Z;
}.

(** [NewRequestData.from_request]. *)
Definition from_request (r : Request) (block_ids : option (list (list Z))) : NewRequestData :=
  mkNewRequest (request_id r) (prompt_token_ids r) (mm_features r) (sampling_params r)
    (pooling_params r) block_ids (num_computed_tokens r) (lora_request r).

(** What one call of [schedule] collects in its local variables. *)
Record Step := mkStep {
  scheduled_new_reqs : list string;
  scheduled_resumed_reqs : list string;
  scheduled_running_reqs : list string;
  preempted_reqs : list string;
  req_to_new_blocks : gmap string KVCacheBlocks;
  num_scheduled_tokens : list (string * Z);
  token_budget : Z;
  scheduled_encoder_inputs : gmap string (list Z);
  encoder_compute_budget : Z;
  scheduled_spec_decode_tokens : gmap string (list Z);
}.

Definition first_step (c : SchedulerConfig) : Step :=
  mkStep [] [] [] [] ∅ [] (max_num_scheduled_tokens c) ∅ (encoder_budget c) ∅.

(** [num_scheduled_tokens[id] = n], [token_budget -= n] and
    [req_to_new_blocks[id] = blocks]. *)
Definition give_tokens (rid : string) (n : Z) (blocks : KVCacheBlocks) (st : Step) : Step :=
  mkStep (scheduled_new_reqs st) (scheduled_resumed_reqs st) (scheduled_running_reqs st)
    (preempted_reqs st) (<[rid := blocks]> (req_to_new_blocks st))
    (Enc.od_set rid n (num_scheduled_tokens st)) (token_budget st - n)
    (scheduled_encoder_inputs st) (encoder_compute_budget st) (scheduled_spec_decode_tokens st).
Definition set_lists (new resumed run preempted : list string) (st : Step) : Step :=
  mkStep new resumed run preempted (req_to_new_blocks st) (num_scheduled_tokens st)
    (token_budget st) (scheduled_encoder_inputs st) (encoder_compute_budget st)
    (scheduled_spec_decode_tokens st).
Definition set_encoder (inputs : gmap string (list Z)) (budget : Z) (st : Step) : Step :=
  mkStep (scheduled_new_reqs st) (scheduled_resumed_reqs st) (scheduled_running_reqs st)
    (preempted_reqs st) (req_to_new_blocks st) (num_scheduled_tokens st) (token_budget st)
    inputs budget (scheduled_spec_decode_tokens st).
Definition set_spec (spec : gmap string (list Z)) (st : Step) : Step :=
  mkStep (scheduled_new_reqs st) (scheduled_resumed_reqs st) (scheduled_running_reqs st)
    (preempted_reqs st) (req_to_new_blocks st) (num_scheduled_tokens st) (token_budget st)
    (scheduled_encoder_inputs st) (encoder_compute_budget st) spec.

(** ** Output and state *)

Section data.
Context {Q G CS Blob : Type}.

Record SchedulerOutput := mkOutput {
  out_new_reqs : list NewRequestData;
  out_cached_reqs : CachedRequestData;
  out_num_scheduled_tokens : list (string * Z);
  total_num_scheduled_tokens : Z;
  out_spec_decode_tokens : gmap string (list Z);
  out_encoder_inputs : gmap string (list Z);
  num_common_prefix_blocks : list Z;
  out_finished_req_ids : gset string;
  free_encoder_mm_hashes : list string;
  structured_output_request_ids : list (string * Z);
  grammar_bitmask : option Blob;
  kv_connector_metadata : option Blob;
}.

Record KVConnectorOutput := mkConnOutput {
  finished_sending : option (gset string);
  finished_recving : option (gset string);
  kv_connector_stats : option Blob;
}.

Record ModelRunnerOutput := mkRunnerOutput {
  req_id_to_index : gmap string Z;
  sampled_token_ids : list (list Z);
  logprobs : option Blob;
  prompt_logprobs_dict : gmap string (option Blob);
  pooler_output : list (option Blob);
  kv_connector_output : option KVConnectorOutput;
  num_nans : option (gmap string Z);
}.

(** [EngineCoreOutput], without the trace headers it passes on. *)
Record EngineCoreOutput := mkCoreOutput {
  co_request_id : string;
  co_new_token_ids : list Z;
  co_finish_reason : option FinishReason;
  co_new_logprobs : option Blob;
  co_prompt_logprobs : option Blob;
  co_pooling_output : option Blob;
  co_stop_reason : option Z;
  co_events : option (list EngineCoreEvent);
  co_kv_transfer_params : option string;
  co_num_cached_tokens : Z;
}.

Record SchedulerStats := mkSchedStats {
  num_running_reqs : Z;
  num_waiting_reqs : Z;
  kv_cache_usage : Z * Z;
  sst_prefix_cache_stats : PrefixCacheStats;
  spec_decoding_stats : option SpecDecodingStats;
  num_corrupted_reqs : Z;
  sst_connector_stats : option Blob;
}.

Record EngineCoreOutputs := mkCoreOutputs {
  outputs : list EngineCoreOutput;
  scheduler_stats : option SchedulerStats;
  finished_requests : option (gset string);
}.

(** What the scheduler calls outside the modelled files, and the orders in
    which Python happens to iterate over sets.  [Blob] is data that is only
    passed on (tensors, bitmasks, metadata). *)
Record World := mkWorld {
  block_hasher : option (Request → result (list bytes));
  use_int_hashes : bool;
  input_order : gset Z → list Z;
  id_order : gset string → list string;
  new_queue : Q;
  grammar_ready : G → Request → bool;
  bitmask_of : G → gmap string Request → list (string * Z) → gmap string (list Z) → Blob;
  should_advance : G → Request → bool;
  accept_tokens : Request → list Z → G → G;
  validate_tokens : G → Request → list Z → list Z;
  get_num_new_matched_tokens : Request → Z → CS → option Z * bool * CS;
  update_state_after_alloc : Request → KVCacheBlocks → Z → CS → CS;
  request_finished : Request → list Z → CS → bool * option string * CS;
  build_connector_meta : SchedulerOutput → CS → Blob * CS;
  connector_events : CS → list KVCacheEvent * CS;
  update_connector_output : KVConnectorOutput → CS → CS;
  slice_logprobs : Blob → Z → Z → Blob;
}.

(** The attributes of a [Scheduler].  [published] lists the batches of KV
    events given to the publisher. *)
Record Scheduler := mkSched {
  config : SchedulerConfig;
  requests : gmap string Request;
  waiting : Q;
  running : list string;
  finished_req_ids : gset string;
  finished_req_ids_dict : option (list (Z * gset string));
  finished_recving_kv_req_ids : gset string;
  encoder_cache_manager : Enc.EncoderCacheManager;
  kv_cache_manager : KVCacheManager;
  connector : option CS;
  structured_output_manager : G;
  published : list (list KVCacheEvent);
}.

Definition set_requests (x : gmap string Request) (S : Scheduler) : Scheduler :=
  mkSched (config S) x (waiting S) (running S) (finished_req_ids S) (finished_req_ids_dict S)
    (finished_recving_kv_req_ids S) (encoder_cache_manager S) (kv_cache_manager S) (connector S)
    (structured_output_manager S) (published S).
Definition set_queues (w : Q) (run : list string) (S : Scheduler) : Scheduler :=
  mkSched (config S) (requests S) w run (finished_req_ids S) (finished_req_ids_dict S)
    (finished_recving_kv_req_ids S) (encoder_cache_manager S) (kv_cache_manager S) (connector S)
    (structured_output_manager S) (published S).
Definition set_finished (x : gset string) (d : option (list (Z * gset string))) (S : Scheduler) : Scheduler :=
  mkSched (config S) (requests S) (waiting S) (running S) x d
    (finished_recving_kv_req_ids S) (encoder_cache_manager S) (kv_cache_manager S) (connector S)
    (structured_output_manager S) (published S).
Definition set_recving (x : gset string) (S : Scheduler) : Scheduler :=
  mkSched (config S) (requests S) (waiting S) (running S) (finished_req_ids S)
    (finished_req_ids_dict S) x (encoder_cache_manager S) (kv_cache_manager S) (connector S)
    (structured_output_manager S) (published S).
Definition set_caches (E : Enc.EncoderCacheManager) (K : KVCacheManager) (S : Scheduler) : Scheduler :=
  mkSched (config S) (requests S) (waiting S) (running S) (finished_req_ids S)
    (finished_req_ids_dict S) (finished_recving_kv_req_ids S) E K (connector S)
    (structured_output_manager S) (published S).
Definition set_connector (x : option CS) (S : Scheduler) : Scheduler :=
  mkSched (config S) (requests S) (waiting S) (running S) (finished_req_ids S)
    (finished_req_ids_dict S) (finished_recving_kv_req_ids S) (encoder_cache_manager S)
    (kv_cache_manager S) x (structured_output_manager S) (published S).
Definition set_grammar (x : G) (S : Scheduler) : Scheduler :=
  mkSched (config S) (requests S) (waiting S) (running S) (finished_req_ids S)
    (finished_req_ids_dict S) (finished_recving_kv_req_ids S) (encoder_cache_manager S)
    (kv_cache_manager S) (connector S) x (published S).
Definition set_published (x : list (list KVCacheEvent)) (S : Scheduler) : Scheduler :=
  mkSched (config S) (requests S) (waiting S) (running S) (finished_req_ids S)
    (finished_req_ids_dict S) (finished_recving_kv_req_ids S) (encoder_cache_manager S)
    (kv_cache_manager S) (connector S) (structured_output_manager S) x.

(** Following a reference; a reference always leads to an object in the source,
    so that the error is excluded by the invariant. *)
Definition request_of (rid : string) (S : Scheduler) : result Request :=
  of_option KeyError (requests S !! rid).
Lemma request_found rid r (S : Scheduler) : requests S !! rid = Some r → request_of rid S = Ok r.
Proof. unfold request_of. by intros ->. Qed.

(** Writing attributes of an object. *)
Definition update_request (f : Request → Request) (rid : string) (S : Scheduler) : Scheduler :=
  set_requests (alter f rid (requests S)) S.
End data.

Arguments SchedulerOutput : clear implicits.
Arguments KVConnectorOutput : clear implicits.
Arguments ModelRunnerOutput : clear implicits.
Arguments EngineCoreOutput : clear implicits.
Arguments EngineCoreOutputs : clear implicits.
Arguments SchedulerStats : clear implicits.
Arguments World : clear implicits.
Arguments Scheduler : clear implicits.

(** ** The operations *)

Module Sched.
Section ops.
Context {Q G CS Blob : Type} `{RequestQueue Q} (W : World Q G CS Blob).
Abbreviation St := (Scheduler Q G CS).

(** The encoder inputs of a request scheduled so far in this step: their
    indices and identifiers, the tokens of the request and of the encoder. *)
Record EncoderPlan := mkPlan {
  encoder_inputs_to_schedule : list Z;
  pl_num_new_tokens : Z;
  pl_budget : Z;
  mm_hashes_to_schedule : gset string;
  num_tokens_to_schedule : Z;
}.

(** The loop over the multi-modal features, from the [i]-th on. *)
Fixpoint encoder_loop (c : SchedulerConfig) (r : Request) (computed : Z)
    (feats : list MultiModalFeatureSpec) (i : Z) (pl : EncoderPlan) (M : Enc.EncoderCacheManager)
  : result (EncoderPlan * Enc.EncoderCacheManager) :=
  match feats with
  | [] => Ok (pl, M)
  | f :: feats =>
      let start_pos := mm_offset (mm_position f) in
      let num_encoder_tokens := mm_length (mm_position f) in
      let n := pl_num_new_tokens pl in
      let stop_at n M := Ok (mkPlan (encoder_inputs_to_schedule pl) n (pl_budget pl)
                               (mm_hashes_to_schedule pl) (num_tokens_to_schedule pl), M) in
      if computed + n <=? start_pos then Ok (pl, M)
      else if is_encoder_decoder c && (0 <? computed) then
        _ ← py_assert (start_pos =? 0); encoder_loop c r computed feats (i + 1) pl M
      else if start_pos + num_encoder_tokens <=? computed then
        encoder_loop c r computed feats (i + 1) pl M
      else
        '(skip, M) ← (if is_encoder_decoder c then Ok (false, M)
                      else if bool_decide (identifier f ∈ mm_hashes_to_schedule pl) then Ok (true, M)
                      else Enc.check_and_update_cache r i M);
        if skip : bool then encoder_loop c r computed feats (i + 1) pl M
        else if no_chunked_mm c && (computed <? start_pos)
                && (computed + n <? start_pos + num_encoder_tokens) then
          stop_at (start_pos - computed) M
        else
          '(room, M) ← Enc.can_allocate r i (pl_budget pl) (num_tokens_to_schedule pl) M;
          if negb room then
            stop_at (if computed <? start_pos then start_pos - computed else 0) M
          else
            encoder_loop c r computed feats (i + 1)
              (mkPlan (encoder_inputs_to_schedule pl ++ [i]) n (pl_budget pl - num_encoder_tokens)
                 (mm_hashes_to_schedule pl ∪ {[identifier f]})
                 (num_tokens_to_schedule pl + num_encoder_tokens)) M
  end.

Definition try_schedule_encoder_inputs (c : SchedulerConfig) (r : Request)
    (num_computed_tokens num_new_tokens encoder_compute_budget : Z) (M : Enc.EncoderCacheManager)
  : result (list Z * Z * Z * Enc.EncoderCacheManager) :=
  if (num_new_tokens =? 0) || negb (has_encoder_inputs r) then
    Ok ([], num_new_tokens, encoder_compute_budget, M)
  else
    _ ← py_assert (0 <? len (mm_features r));
    '(pl, M) ← encoder_loop c r num_computed_tokens (mm_features r) 0
                 (mkPlan [] num_new_tokens encoder_compute_budget ∅ 0) M;
    Ok (encoder_inputs_to_schedule pl, pl_num_new_tokens pl, pl_budget pl, M).

(** [if request.has_encoder_inputs: ... = self._try_schedule_encoder_inputs(...)]. *)
Definition plan_encoder (r : Request) (computed n budget : Z) (s : St)
  : result (list Z * Z * Z * St) :=
  if has_encoder_inputs r then
    '(inputs, n, budget, M) ← try_schedule_encoder_inputs (config s) r computed n budget
                                (encoder_cache_manager s);
    Ok (inputs, n, budget, set_caches M (kv_cache_manager s) s)
  else Ok ([], n, budget, s).

(** [if encoder_inputs_to_schedule: ...]: record them and reserve their space. *)
Definition take_encoder (r : Request) (inputs : list Z) (budget : Z) (st : Step) (s : St)
  : result (Step * St) :=
  match inputs with
  | [] => Ok (st, s)
  | _ =>
      M ← for_each (Enc.allocate r) inputs (encoder_cache_manager s);
      Ok (set_encoder (<[request_id r := inputs]> (scheduled_encoder_inputs st)) budget st,
          set_caches M (kv_cache_manager s) s)
  end.

(** ** The running requests *)

(** The cap for long prefills. *)
Definition cap_prefill (c : SchedulerConfig) (n : Z) : Z :=
  if (0 <? long_prefill_token_threshold c) && (long_prefill_token_threshold c <? n)
  then long_prefill_token_threshold c else n.

Definition running_tokens (c : SchedulerConfig) (r : Request) (token_budget : Z) : Z :=
  let n := num_tokens_with_spec r + num_output_placeholders r - num_computed_tokens r in
  Z.min (Z.min (cap_prefill c n) token_budget) (max_len c - 1 - num_computed_tokens r).

(** [max(self.running, key=lambda r: (r.priority, r.arrival_time))]: the first
    of the greatest. *)
Definition key_lt (r r' : Request) : bool :=
  (priority r <? priority r') || ((priority r =? priority r') && (arrival_time r <? arrival_time r')).
Definition max_request (rs : list Request) : result Request :=
  match rs with
  | [] => Err ValueError
  | r :: rs => Ok (foldl (λ best r, if key_lt best r then r else best) r rs)
  end.

(** The request to preempt; it leaves the list of running requests. *)
Definition pick_preempted (st : Step) (s : St) : result (Request * Step * St) :=
  match policy (config s) with
  | PRIORITY =>
      rs ← map_res (λ rid, request_of rid s) (running s);
      r ← max_request rs;
      run ← Fcfs.deque_remove (request_id r) (running s);
      let sched := match Fcfs.deque_remove (request_id r) (scheduled_running_reqs st) with
                   | Ok l => l
                   | Err _ => scheduled_running_reqs st
                   end in
      Ok (r, set_lists (scheduled_new_reqs st) (scheduled_resumed_reqs st) sched (preempted_reqs st) st,
          set_queues (waiting s) run s)
  | FCFS =>
      rid ← of_option IndexError (last (running s));
      r ← request_of rid s;
      Ok (r, st, set_queues (waiting s) (removelast (running s)) s)
  end.

(** Give back what it holds and put it at the head of the waiting queue. *)
Definition preempt (now : Z) (r : Request) (st : Step) (s : St) : result (Step * St) :=
  K ← KVM.free r (kv_cache_manager s);
  M ← Enc.free (input_order W) r (encoder_cache_manager s);
  let s := set_caches M K s in
  let r := set_num_computed_tokens 0 (set_status PREEMPTED r) in
  let r := if log_stats (config s) then record_event EV_PREEMPTED now r else r in
  w ← prepend_request r (waiting s);
  Ok (set_lists (scheduled_new_reqs st) (scheduled_resumed_reqs st) (scheduled_running_reqs st)
        (preempted_reqs st ++ [request_id r]) st,
      set_queues w (running s) (set_requests (<[request_id r := r]> (requests s)) s)).

(** The inner [while True]: allocate, preempting as long as there is no room;
    [None] when the request itself is preempted. *)
Fixpoint allocate_or_preempt (fuel : nat) (now : Z) (r : Request) (n : Z) (st : Step) (s : St)
  : result (option KVCacheBlocks * Step * St) :=
  match fuel with
  | O => Err OutOfFuel
  | S fuel =>
      '(out, K) ← KVM.allocate_slots (use_int_hashes W) r n 0 None
                    (num_lookahead_tokens (config s)) false 0 (kv_cache_manager s);
      let s := set_caches (encoder_cache_manager s) K s in
      match out with
      | Some new_blocks => Ok (Some new_blocks, st, s)
      | None =>
          '(p, st, s) ← pick_preempted st s;
          '(st, s) ← preempt now p st s;
          if decide (request_id p = request_id r) then Ok (None, st, s)
          else allocate_or_preempt fuel now r n st s
      end
  end.

(** The draft tokens of a scheduled request, trimmed to those that fit. *)
Definition take_spec (r : Request) (n : Z) (st : Step) (s : St) : Step * St :=
  match spec_token_ids r with
  | [] => (st, s)
  | spec =>
      let k := n + num_computed_tokens r - num_tokens r in
      if 0 <? k then
        let spec := py_del_from spec k in
        (set_spec (<[request_id r := spec]> (scheduled_spec_decode_tokens st)) st,
         update_request (set_spec_token_ids spec) (request_id r) s)
      else (st, s)
  end.

(** The loop over the running requests, from [req_index] on. *)
Fixpoint running_loop (fuel : nat) (now : Z) (req_index : nat) (st : Step) (s : St)
  : result (Step * St) :=
  match fuel with
  | O => Err OutOfFuel
  | S fuel =>
      match running s !! req_index with
      | None => Ok (st, s)
      | Some rid =>
          if token_budget st <=? 0 then Ok (st, s) else
          r ← request_of rid s;
          '(inputs, n, budget, s) ← plan_encoder r (num_computed_tokens r)
                                      (running_tokens (config s) r (token_budget st))
                                      (encoder_compute_budget st) s;
          if n =? 0 then running_loop fuel now (req_index + 1) st s
          else
            '(out, st, s) ← allocate_or_preempt (length (running s)) now r n st s;
            match out with
            | None => Ok (st, s)
            | Some new_blocks =>
                let st := give_tokens rid n new_blocks
                            (set_lists (scheduled_new_reqs st) (scheduled_resumed_reqs st)
                               (scheduled_running_reqs st ++ [rid]) (preempted_reqs st) st) in
                let '(st, s) := take_spec r n st s in
                '(st, s) ← take_encoder r inputs budget st s;
                running_loop fuel now (req_index + 1) st s
            end
      end
  end.

(** ** The waiting requests *)

(** [_update_waiting_for_remote_kv]. *)
Definition update_waiting_for_remote_kv (r : Request) (s : St) : result (bool * St) :=
  _ ← py_assert (bool_decide (is_Some (connector s)));
  if bool_decide (request_id r ∈ finished_recving_kv_req_ids s) then
    ids ← of_option TypeError (KVM.get_block_ids (request_id r) (kv_cache_manager s));
    block_ids ← match ids with [x] => Ok x | _ => Err ValueError end;
    let n := Z.min (len block_ids * sc_block_size (config s)) (num_tokens r) in
    let n := if n =? num_tokens r then n - 1 else n in
    K ← KVM.cache_blocks (use_int_hashes W) r n (kv_cache_manager s);
    let s := set_caches (encoder_cache_manager s) K s in
    let s := update_request (set_num_computed_tokens n) (request_id r) s in
    Ok (true, set_recving (finished_recving_kv_req_ids s ∖ {[request_id r]}) s)
  else Ok (false, s).

(** A request whose remote blocks or whose grammar are still missing is not
    ready; otherwise its status becomes [WAITING]. *)
Definition check_ready (r : Request) (s : St) : result (bool * St) :=
  match status r with
  | WAITING_FOR_REMOTE_KVS =>
      '(is_ready, s) ← update_waiting_for_remote_kv r s;
      Ok (is_ready, if is_ready : bool then update_request (set_status WAITING) (request_id r) s else s)
  | WAITING_FOR_FSM =>
      if grammar_ready W (structured_output_manager s) r then
        Ok (true, update_request (set_status WAITING) (request_id r) s)
      else Ok (false, s)
  | _ => Ok (true, s)
  end.

(** The LoRAs of the requests scheduled so far. *)
Definition running_loras (c : SchedulerConfig) (rs : list Request) : result (gset Z) :=
  match max_loras c with
  | None => Ok ∅
  | Some m =>
      let ids := list_to_set (filter (λ i, 0 < i) (omap (λ r, lora_int_id <$> lora_request r) rs)) in
      _ ← py_assert (Z.of_nat (base.size ids) <=? m); Ok ids
  end.
Definition lora_full (c : SchedulerConfig) (r : Request) (loras : gset Z) : bool :=
  match max_loras c, lora_request r with
  | Some m, Some l => (Z.of_nat (base.size loras) =? m) && bool_decide (lora_int_id l ∉ loras)
  | _, _ => false
  end.

(** What is already computed of a waiting request: the blocks and the tokens
    found in the cache, those the connector has, whether they are loaded
    asynchronously, and all the computed tokens. *)
Record Computed := mkComputed {
  new_computed_blocks : KVCacheBlocks;
  num_new_local_computed_tokens : Z;
  num_external_computed_tokens : Z;
  load_kv_async : bool;
  total_computed_tokens : Z;
}.

(** [None] when the connector cannot tell yet. *)
Definition computed_of (r : Request) (s : St) : result (option Computed * St) :=
  if num_computed_tokens r =? 0 then
    '(blocks, local, K) ← KVM.get_computed_blocks r (kv_cache_manager s);
    let s := set_caches (encoder_cache_manager s) K s in
    match connector s with
    | None => Ok (Some (mkComputed blocks local 0 false local), s)
    | Some cs =>
        let '(external, async, cs) := get_num_new_matched_tokens W r local cs in
        let s := set_connector (Some cs) s in
        match external with
        | None => Ok (None, s)
        | Some e => Ok (Some (mkComputed blocks local e async (local + e)), s)
        end
    end
  else
    Ok (Some (mkComputed (KVM.create_empty_block_list (kv_cache_manager s)) 0 0 false
                (num_computed_tokens r)), s).

(** The outcome of the part of the loop before the allocation. *)
Inductive Decision :=
  | Skip
  | Stop
  | Go (n : Z) (inputs : list Z) (budget : Z).

Definition decide_tokens (r : Request) (cp : Computed) (st : Step) (s : St) : result (Decision * St) :=
  let c := config s in
  if load_kv_async cp then
    _ ← py_assert (0 <? num_external_computed_tokens cp);
    Ok (Go 0 [] (encoder_compute_budget st), s)
  else
    let n := cap_prefill c (num_tokens r - total_computed_tokens cp) in
    if negb (chunked_prefill_enabled c) && (token_budget st <? n) then Ok (Skip, s)
    else
      let n := Z.min n (token_budget st) in
      _ ← py_assert (0 <? n);
      '(inputs, n, budget, s) ← plan_encoder r (total_computed_tokens cp) n
                                  (encoder_compute_budget st) s;
      if has_encoder_inputs r && (n =? 0) then Ok (Stop, s) else Ok (Go n inputs budget, s).

(** The call of [allocate_slots] for a waiting request. *)
Definition allocate_waiting (r : Request) (cp : Computed) (n : Z) (s : St)
  : result (option KVCacheBlocks * St) :=
  let c := config s in
  let effective_lookahead_tokens :=
    if num_computed_tokens r =? 0 then 0 else num_lookahead_tokens c in
  let num_encoder_tokens :=
    if is_encoder_decoder c && has_encoder_inputs r then cross_encoder_tokens c else 0 in
  '(out, K) ← KVM.allocate_slots (use_int_hashes W) r (n + num_external_computed_tokens cp)
                (num_new_local_computed_tokens cp) (Some (new_computed_blocks cp))
                effective_lookahead_tokens (load_kv_async cp) num_encoder_tokens (kv_cache_manager s);
  Ok (out, set_caches (encoder_cache_manager s) K s).

(** [self.waiting.pop_request()]; [skipped_waiting_requests.prepend_request(request)]. *)
Definition skip_request (r : Request) (skipped : Q) (s : St) : result (Q * St) :=
  '(_, w) ← pop_request (waiting s);
  skipped ← prepend_request r skipped;
  Ok (skipped, set_queues w (running s) s).

(** Move an allocated request to the running ones and give it its tokens. *)
Definition start_request (now : Z) (r : Request) (cp : Computed) (n : Z) (inputs : list Z)
    (budget : Z) (st : Step) (loras : gset Z) (s : St) : result (Step * gset Z * St) :=
  let rid := request_id r in
  let s := set_queues (waiting s) (running s ++ [rid]) s in
  let r := if log_stats (config s) then record_event SCHEDULED now r else r in
  st ← match status r with
       | WAITING => Ok (set_lists (scheduled_new_reqs st ++ [rid]) (scheduled_resumed_reqs st)
                          (scheduled_running_reqs st) (preempted_reqs st) st)
       | PREEMPTED => Ok (set_lists (scheduled_new_reqs st) (scheduled_resumed_reqs st ++ [rid])
                            (scheduled_running_reqs st) (preempted_reqs st) st)
       | _ => Err RuntimeError
       end;
  let loras := match max_loras (config s), lora_request r with
               | Some _, Some l => loras ∪ {[lora_int_id l]}
               | _, _ => loras
               end in
  let st := give_tokens rid n (KVM.get_blocks rid (kv_cache_manager s)) st in
  let r := set_num_computed_tokens (total_computed_tokens cp) (set_status RUNNING r) in
  let r := if num_cached_tokens r <? 0 then set_num_cached_tokens (total_computed_tokens cp) r else r in
  let s := set_requests (<[rid := r]> (requests s)) s in
  '(st, s) ← take_encoder r inputs budget st s;
  Ok (st, loras, s).

(** The loop over the waiting requests. *)
Fixpoint waiting_loop (fuel : nat) (now : Z) (skipped : Q) (loras : gset Z) (st : Step) (s : St)
  : result (Step * Q * St) :=
  match fuel with
  | O => Err OutOfFuel
  | S fuel =>
      if negb (queue_bool (waiting s)) || (token_budget st <=? 0) then Ok (st, skipped, s)
      else if len (running s) =? max_num_running_reqs (config s) then Ok (st, skipped, s)
      else
        rid ← peek_request (waiting s);
        r ← request_of rid s;
        let skip s :=
          r ← request_of rid s;
          '(skipped, s) ← skip_request r skipped s;
          waiting_loop fuel now skipped loras st s in
        '(is_ready, s) ← check_ready r s;
        if negb is_ready || lora_full (config s) r loras then skip s
        else
          r ← request_of rid s;
          '(cp, s) ← computed_of r s;
          match cp with
          | None => skip s
          | Some cp =>
              '(d, s) ← decide_tokens r cp st s;
              match d with
              | Skip => skip s
              | Stop => Ok (st, skipped, s)
              | Go n inputs budget =>
                  '(out, s) ← allocate_waiting r cp n s;
                  match out with
                  | None => Ok (st, skipped, s)
                  | Some new_blocks =>
                      let s := match connector s with
                               | None => s
                               | Some cs => set_connector (Some (update_state_after_alloc W r
                                   (Blocks.add (new_computed_blocks cp) new_blocks)
                                   (num_external_computed_tokens cp) cs)) s
                               end in
                      '(rid, w) ← pop_request (waiting s);
                      let s := set_queues w (running s) s in
                      r ← request_of rid s;
                      if load_kv_async cp then
                        skipped ← prepend_request r skipped;
                        waiting_loop fuel now skipped loras st
                          (update_request (set_status WAITING_FOR_REMOTE_KVS) rid s)
                      else
                        '(st, loras, s) ← start_request now r cp n inputs budget st loras s;
                        waiting_loop fuel now skipped loras st s
                  end
              end
          end
  end.

(** ** After the two loops *)

(** [self.waiting.prepend_requests(skipped_waiting_requests)], if there are any. *)
Definition put_back (skipped : Q) (s : St) : result St :=
  if queue_bool skipped then
    ids ← queue_iter skipped;
    rs ← map_res (λ rid, request_of rid s) ids;
    w ← prepend_requests rs (waiting s);
    Ok (set_queues w (running s) s)
  else Ok s.

(** The assertions at the end of the step. *)
Definition check_constraints (st : Step) (s : St) : result Z :=
  let total := sumZ (num_scheduled_tokens st).*2 in
  _ ← py_assert (total <=? max_num_scheduled_tokens (config s));
  _ ← py_assert (0 <=? token_budget st);
  _ ← py_assert (len (running s) <=? max_num_running_reqs (config s));
  _ ← py_assert (len (scheduled_new_reqs st) + len (scheduled_resumed_reqs st)
                 + len (scheduled_running_reqs st) <=? len (running s));
  Ok total.

Definition step_common_prefix (s : St) : result (list Z * St) :=
  match running s with
  | [] => Ok (py_repeat 0 (Z.of_nat (num_kv_cache_groups (kv_cache_manager s))), s)
  | rid :: _ =>
      any_request ← request_of rid s;
      '(ns, K) ← KVM.get_num_common_prefix_blocks any_request (len (running s)) (kv_cache_manager s);
      Ok (ns, set_caches (encoder_cache_manager s) K s)
  end.

Definition block_ids_of (rid : string) (allow_none : bool) (st : Step) (s : St)
  : result (option (list (list Z))) :=
  blocks ← of_option KeyError (req_to_new_blocks st !! rid);
  Ok (Blocks.get_block_ids (pool_of (kv_cache_manager s)) allow_none blocks).

(** [_make_cached_request_data]: the data of one request. *)
Definition cached_request_data (st : Step) (s : St) (rid : string)
  : result (string * list (list Z) * option (list (list Z)) * Z) :=
  r ← request_of rid s;
  n ← of_option KeyError (dict_get (num_scheduled_tokens st) rid);
  let num_tokens := n - len (default [] (scheduled_spec_decode_tokens st !! rid)) in
  let tokens :=
    if use_pp (config s) then
      [py_slice (all_token_ids r) (num_computed_tokens r) (num_computed_tokens r + num_tokens)]
    else if bool_decide (is_Some (connector s)) then [[]] else [] in
  ids ← block_ids_of rid true st s;
  Ok (rid, tokens, ids, num_computed_tokens r).

Definition make_cached_request_data (st : Step) (s : St) : result CachedRequestData :=
  let run := scheduled_running_reqs st in
  let resumed := scheduled_resumed_reqs st in
  l ← map_res (cached_request_data st s) (run ++ resumed);
  Ok (mkCachedRequests ((λ x, x.1.1.1) <$> l)
        (py_repeat false (len run) ++ py_repeat true (len resumed))
        (concat ((λ x, x.1.1.2) <$> l)) ((λ x, x.1.2) <$> l) ((λ x, x.2) <$> l)).

Definition get_grammar_bitmask (ids : list string) (st : Step) (s : St)
  : result (list (string * Z) * option Blob) :=
  rs ← map_res (λ rid, request_of rid s) ids;
  let structured := foldl (λ d x, if use_structured_output x.2
                                  then Enc.od_set (request_id x.2) x.1 d else d) []
                      (zip (py_range 0 (len rs)) rs) in
  Ok (structured,
      if len structured =? 0 then None
      else Some (bitmask_of W (structured_output_manager s) (requests s) structured
                   (scheduled_spec_decode_tokens st))).

(** The construction of the [SchedulerOutput]. *)
Definition make_output (total : Z) (prefix : list Z) (st : Step) (s : St)
  : result (SchedulerOutput Blob * St) :=
  new_reqs ← map_res (λ rid, r ← request_of rid s; ids ← block_ids_of rid false st s;
                             Ok (from_request r ids)) (scheduled_new_reqs st);
  cached ← make_cached_request_data st s;
  '(structured, mask) ← get_grammar_bitmask
      (scheduled_new_reqs st ++ scheduled_running_reqs st ++ scheduled_resumed_reqs st) st s;
  let '(freed, M) := Enc.get_freed_mm_hashes (encoder_cache_manager s) in
  Ok (mkOutput new_reqs cached (num_scheduled_tokens st) total (scheduled_spec_decode_tokens st)
        (scheduled_encoder_inputs st) prefix (finished_req_ids s) freed structured mask None,
      set_caches M (kv_cache_manager s) s).

(** [scheduler_output.kv_connector_metadata = meta]. *)
Definition with_metadata (out : SchedulerOutput Blob) (meta : Blob) : SchedulerOutput Blob :=
  mkOutput (out_new_reqs out) (out_cached_reqs out) (out_num_scheduled_tokens out)
    (total_num_scheduled_tokens out) (out_spec_decode_tokens out) (out_encoder_inputs out)
    (num_common_prefix_blocks out) (out_finished_req_ids out) (free_encoder_mm_hashes out)
    (structured_output_request_ids out) (grammar_bitmask out) (Some meta).

(** The connector's metadata, and the KV events of the manager and the
    connector, which are published together. *)
Definition finish_output (out : SchedulerOutput Blob) (s : St) : SchedulerOutput Blob * St :=
  let '(out, s) := match connector s with
                   | None => (out, s)
                   | Some cs => let '(meta, cs) := build_connector_meta W out cs in
                                (with_metadata out meta, set_connector (Some cs) s)
                   end in
  let '(events, K) := KVM.take_events (kv_cache_manager s) in
  let s := set_caches (encoder_cache_manager s) K s in
  let '(events, s) := match connector s with
                      | None => (events, s)
                      | Some cs => let '(more, cs) := connector_events W cs in
                                   (events ++ more, set_connector (Some cs) s)
                      end in
  (out, match events with [] => s | _ => set_published (published s ++ [events]) s end).

(** [_free_encoder_inputs]. *)
Definition free_encoder_inputs (r : Request) (s : St) : result St :=
  M ← for_each (λ i M,
        f ← py_index (mm_features r) i;
        let done := mm_offset (mm_position f) + mm_length (mm_position f) <=? num_computed_tokens r in
        if (is_encoder_decoder (config s) && (0 <? num_computed_tokens r)) || done
        then Enc.free_encoder_input r i M else Ok M)
      (input_order W (Enc.get_cached_input_ids r (encoder_cache_manager s))) (encoder_cache_manager s);
  Ok (set_caches M (kv_cache_manager s) s).

(** The loop of [_update_after_schedule]. *)
Definition advance (x : string * Z) (s : St) : result St :=
  let '(rid, n) := x in
  r ← request_of rid s;
  let r := set_num_computed_tokens (num_computed_tokens r + n) r in
  let s := set_requests (<[rid := r]> (requests s)) s in
  if has_encoder_inputs r then free_encoder_inputs r s else Ok s.

(** The loop [AsyncScheduler] adds. *)
Definition add_placeholder (x : string * Z) (s : St) : result St :=
  r ← request_of x.1 s;
  if num_computed_tokens r =? num_tokens r + num_output_placeholders r then
    Ok (update_request (set_num_output_placeholders (num_output_placeholders r + 1)) x.1 s)
  else Ok s.

Definition update_after_schedule (scheduled : list (string * Z)) (s : St) : result St :=
  s ← for_each advance scheduled s;
  let s := set_finished ∅ (finished_req_ids_dict s) s in
  if async_scheduling (config s) then for_each add_placeholder scheduled s else Ok s.

(** [schedule]. *)
Definition schedule (now : Z) (s : St) : result (SchedulerOutput Blob * St) :=
  '(st, s) ← running_loop (S (length (running s))) now 0 (first_step (config s)) s;
  rs ← map_res (λ rid, request_of rid s) (scheduled_running_reqs st);
  loras ← running_loras (config s) rs;
  '(st, skipped, s) ←
    match preempted_reqs st with
    | [] => waiting_loop (S (Z.to_nat (queue_len (waiting s)))) now (new_queue W) loras st s
    | _ => Ok (st, new_queue W, s)
    end;
  s ← put_back skipped s;
  total ← check_constraints st s;
  '(prefix, s) ← step_common_prefix s;
  '(out, s) ← make_output total prefix st s;
  let '(out, s) := finish_output out s in
  s ← update_after_schedule (out_num_scheduled_tokens out) s;
  Ok (out, s).

(** ** Ending requests *)

(** [_connector_finished]. *)
Definition connector_finished (r : Request) (s : St) : result (bool * option string * St) :=
  match connector s with
  | None => Ok (false, None, s)
  | Some cs =>
      ids ← of_option TypeError (KVM.get_block_ids (request_id r) (kv_cache_manager s));
      block_ids ← match ids with [x] => Ok x | _ => Err ValueError end;
      let '(delay, params, cs) := request_finished W r block_ids cs in
      Ok (delay, params, set_connector (Some cs) s)
  end.

(** [_free_blocks]; [del self.requests[id]] raises when there is no such id. *)
Definition free_blocks (r : Request) (s : St) : result St :=
  _ ← py_assert (is_finished r);
  K ← KVM.free r (kv_cache_manager s);
  _ ← request_of (request_id r) s;
  Ok (set_requests (delete (request_id r) (requests s)) (set_caches (encoder_cache_manager s) K s)).

(** [self.finished_req_ids_dict[client].add(id)] on a [defaultdict(set)]. *)
Fixpoint add_finished_id (client : Z) (rid : string) (d : list (Z * gset string))
  : list (Z * gset string) :=
  match d with
  | [] => [(client, {[rid]})]
  | (k, ids) :: d => if k =? client then (k, ids ∪ {[rid]}) :: d else (k, ids) :: add_finished_id client rid d
  end.

(** [_free_request]. *)
Definition free_request (r : Request) (s : St) : result (option string * St) :=
  _ ← py_assert (is_finished r);
  '(delay, params, s) ← connector_finished r s;
  M ← Enc.free (input_order W) r (encoder_cache_manager s);
  let s := set_caches M (kv_cache_manager s) s in
  let s := set_finished (finished_req_ids s ∪ {[request_id r]})
             (add_finished_id (client_index r) (request_id r) <$> finished_req_ids_dict s) s in
  if delay : bool then Ok (params, s)
  else s ← free_blocks r s; Ok (params, s).

(** Writing an object back: it is in the dictionary unless it has been freed. *)
Definition write (r : Request) (s : St) : St := update_request (λ _, r) (request_id r) s.

(** [finish_requests]; the ids are a Python set. *)
Definition finish_requests (request_ids : gset string) (finished_status : RequestStatus) (s : St)
  : result St :=
  _ ← py_assert (status_is_finished finished_status);
  let valid := omap (λ rid, requests s !! rid) (id_order W request_ids) in
  let is_running r := bool_decide (status r = RUNNING) in
  let run := request_id <$> filter is_running valid in
  let wait := request_id <$> filter (λ r, negb (is_running r)) valid in
  let s := set_queues (waiting s) (remove_all (running s) (list_to_set run)) s in
  w ← (if len wait =? 0 then Ok (waiting s) else remove_requests wait (waiting s));
  let s := set_queues w (running s) s in
  for_each (λ r s,
    let r := set_status finished_status r in
    '(_, s) ← free_request r (write r s); Ok s) valid s.

(** ** The update with the model's output *)

(** The loop of [_update_request_with_output]: append each token and check for a
    stop, which drops the rest. *)
Fixpoint append_until_stop (c : SchedulerConfig) (r : Request) (tokens kept : list Z)
  : result (list Z * bool * Request) :=
  match tokens with
  | [] => Ok (kept, false, r)
  | t :: tokens =>
      r ← append_output_token_ids (block_hasher W) [t] r;
      '(stopped, r) ← check_stop r (max_len c) false;
      if stopped : bool then Ok (kept ++ [t], true, r)
      else append_until_stop c r tokens (kept ++ [t])
  end.

(** [_update_request_with_output], with what [AsyncScheduler] adds: the
    placeholders, and caching the new tokens of a request not preempted. *)
Definition update_request_with_output (r : Request) (tokens : list Z) (s : St)
  : result (list Z * bool * Request * St) :=
  let status_before_update := status r in
  '(tokens, stopped, r) ← append_until_stop (config s) r tokens [];
  if async_scheduling (config s) then
    let r := set_num_output_placeholders (num_output_placeholders r - len tokens) r in
    _ ← py_assert (0 <=? num_output_placeholders r);
    K ← (if bool_decide (status_before_update = RUNNING) then
           KVM.cache_blocks (use_int_hashes W) r (num_computed_tokens r - num_output_placeholders r)
             (kv_cache_manager s)
         else Ok (kv_cache_manager s));
    Ok (tokens, stopped, r, set_caches (encoder_cache_manager s) K s)
  else Ok (tokens, stopped, r, s).

(** [make_spec_decoding_stats]. *)
Definition make_spec_decoding_stats (stats : option SpecDecodingStats) (drafts accepted : Z) (s : St)
  : result (option SpecDecodingStats) :=
  if negb (log_stats (config s)) then Ok None
  else
    stats ← observe_draft drafts accepted
              (default (new_spec_stats (num_spec_tokens (config s))) stats);
    Ok (Some stats).

(** The local variables of [update_from_output]: the outputs by client in order
    of first use, the statistics and the stopped requests. *)
Record Update := mkUpdate {
  up_outputs : list (Z * list (EngineCoreOutput Blob));
  up_spec_stats : option SpecDecodingStats;
  stopped_running_reqs : gset string;
  stopped_preempted_reqs : gset string;
}.

(** [outputs[client_index].append(output)] on a [defaultdict(list)]. *)
Fixpoint add_output (client : Z) (o : EngineCoreOutput Blob) (d : list (Z * list (EngineCoreOutput Blob)))
  : list (Z * list (EngineCoreOutput Blob)) :=
  match d with
  | [] => [(client, [o])]
  | (k, os) :: d => if k =? client then (k, os ++ [o]) :: d else (k, os) :: add_output client o d
  end.

(** The rejected draft tokens of a request are not computed. *)
Definition reject_drafts (out : SchedulerOutput Blob) (generated : list Z)
    (stats : option SpecDecodingStats) (r : Request) (s : St)
  : result (Request * option SpecDecodingStats) :=
  match default [] (out_spec_decode_tokens out !! request_id r) with
  | [] => Ok (r, stats)
  | drafts =>
      let num_accepted := len generated - 1 in
      let num_rejected := len drafts - num_accepted in
      stats ← make_spec_decoding_stats stats (len drafts) num_accepted s;
      Ok (set_num_computed_tokens (num_computed_tokens r - num_rejected) r, stats)
  end.

(** Append the generated tokens, or look at the pooler output, and decide
    whether the request stops. *)
Definition apply_output (mo : ModelRunnerOutput Blob) (index : Z) (generated : list Z) (r : Request)
    (s : St) : result (list Z * bool * option Blob * Request * St) :=
  '(tokens, stopped, r, s) ←
    match generated with
    | [] => Ok ([], false, r, s)
    | _ => update_request_with_output r generated s
    end;
  match pooler_output mo with
  | [] => Ok (tokens, stopped, None, r, s)
  | ps =>
      p ← py_index ps index;
      '(stopped, r) ← check_stop r (max_len (config s)) (bool_decide (is_Some p));
      Ok (tokens, stopped, p, r, s)
  end.

(** Free a stopped request and note the queue it has to leave. *)
Definition stop_request (stopped : bool) (before : RequestStatus) (r : Request) (up : Update) (s : St)
  : result (option string * Update * St) :=
  if stopped then
    '(params, s) ← free_request r s;
    let rid := {[request_id r]} in
    Ok (params,
        match before with
        | RUNNING => mkUpdate (up_outputs up) (up_spec_stats up) (stopped_running_reqs up ∪ rid)
                       (stopped_preempted_reqs up)
        | _ => mkUpdate (up_outputs up) (up_spec_stats up) (stopped_running_reqs up)
                 (stopped_preempted_reqs up ∪ rid)
        end, s)
  else Ok (None, up, s).

(** The message for the front end, and the events it takes with it. *)
Definition core_output (mo : ModelRunnerOutput Blob) (index : Z) (tokens : list Z)
    (pooled : option Blob) (params : option string) (r : Request)
  : EngineCoreOutput Blob * Request :=
  let lp := match sampling_params r ≫= sp_logprobs, logprobs mo with
            | Some _, Some l => Some (slice_logprobs W l index (index + 1))
            | _, _ => None
            end in
  let '(evs, r) := take_request_events r in
  (mkCoreOutput (request_id r) tokens (get_finished_reason r) lp
     (default None (prompt_logprobs_dict mo !! request_id r)) pooled (stop_reason r) evs params
     (num_cached_tokens r), r).

(** The loop of [update_from_output] over the scheduled requests. *)
Definition update_one (out : SchedulerOutput Blob) (mo : ModelRunnerOutput Blob) (x : string * Z)
    (ups : Update * St) : result (Update * St) :=
  let '(rid, num_tokens_scheduled) := x in
  let '(up, s) := ups in
  _ ← py_assert (0 <? num_tokens_scheduled);
  match requests s !! rid with
  | None => Ok (up, s)
  | Some r =>
      index ← of_option KeyError (req_id_to_index mo !! rid);
      generated ← match sampled_token_ids mo with [] => Ok [] | l => py_index l index end;
      '(r, stats) ← reject_drafts out generated (up_spec_stats up) r s;
      let up := mkUpdate (up_outputs up) stats (stopped_running_reqs up) (stopped_preempted_reqs up) in
      let before := status r in
      '(tokens, stopped, pooled, r, s) ← apply_output mo index generated r s;
      '(params, up, s) ← stop_request stopped before r up (write r s);
      let s := if (0 <? len tokens) && should_advance W (structured_output_manager s) r
               then set_grammar (accept_tokens W r tokens (structured_output_manager s)) s else s in
      let r := match num_nans mo ≫= (.!! rid) with
               | Some n => set_num_nans_in_logits n r
               | None => r
               end in
      if (0 <? len tokens) || bool_decide (is_Some pooled) || bool_decide (is_Some params) then
        let '(o, r) := core_output mo index tokens pooled params r in
        Ok (mkUpdate (add_output (client_index r) o (up_outputs up)) (up_spec_stats up)
              (stopped_running_reqs up) (stopped_preempted_reqs up), write r s)
      else
        _ ← py_assert (bool_decide (default None (prompt_logprobs_dict mo !! rid) = None));
        Ok (up, write r s)
  end.

(** [_update_from_kv_xfer_finished]. *)
Definition update_from_kv_xfer_finished (o : KVConnectorOutput Blob) (s : St) : result St :=
  let s := match connector s with
           | None => s
           | Some cs => set_connector (Some (update_connector_output W o cs)) s
           end in
  let s := set_recving (finished_recving_kv_req_ids s ∪ default ∅ (finished_recving o)) s in
  for_each (λ rid s, r ← request_of rid s; free_blocks r s)
    (id_order W (default ∅ (finished_sending o))) s.

(** [make_stats]. *)
Definition make_stats (spec : option SpecDecodingStats) (conn : option Blob) (s : St)
  : result (option (SchedulerStats Blob) * St) :=
  if negb (log_stats (config s)) then Ok (None, s)
  else
    let '(st, K) := KVM.make_prefix_cache_stats (kv_cache_manager s) in
    st ← of_option AssertionError st;
    rs ← map_res (λ rid, request_of rid s) (running s);
    Ok (Some (mkSchedStats (len (running s)) (queue_len (waiting s)) (KVM.usage K) st spec
                (len (filter is_output_corrupted rs)) conn),
        set_caches (encoder_cache_manager s) K s).

(** Add the finished ids of a client to its outputs. *)
Fixpoint add_finished (x : Z * gset string) (d : list (Z * EngineCoreOutputs Blob))
  : list (Z * EngineCoreOutputs Blob) :=
  match d with
  | [] => [(x.1, mkCoreOutputs [] None (Some x.2))]
  | (k, o) :: d =>
      if k =? x.1 then (k, mkCoreOutputs (outputs o) (scheduler_stats o) (Some x.2)) :: d
      else (k, o) :: add_finished x d
  end.

(** The statistics go to the first client. *)
Definition add_stats (stats : option (SchedulerStats Blob)) (d : list (Z * EngineCoreOutputs Blob))
  : list (Z * EngineCoreOutputs Blob) :=
  match stats, d with
  | None, _ => d
  | Some _, [] => [(0, mkCoreOutputs [] stats None)]
  | Some _, (k, o) :: d => (k, mkCoreOutputs (outputs o) stats (finished_requests o)) :: d
  end.

(** [update_from_output]. *)
Definition update_from_output (out : SchedulerOutput Blob) (mo : ModelRunnerOutput Blob) (s : St)
  : result (list (Z * EngineCoreOutputs Blob) * St) :=
  '(up, s) ← for_each (update_one out mo) (out_num_scheduled_tokens out) (mkUpdate [] None ∅ ∅, s);
  let s := set_queues (waiting s) (remove_all (running s) (stopped_running_reqs up)) s in
  w ← (if bool_decide (stopped_preempted_reqs up = ∅) then Ok (waiting s)
       else remove_requests (id_order W (stopped_preempted_reqs up)) (waiting s));
  let s := set_queues w (running s) s in
  s ← match kv_connector_output mo with
      | None => Ok s
      | Some o => update_from_kv_xfer_finished o s
      end;
  let outs := (λ x, (x.1, mkCoreOutputs x.2 None None)) <$> up_outputs up in
  let '(outs, s) := match finished_req_ids_dict s with
                    | None => (outs, s)
                    | Some d => (foldl (λ outs x, add_finished x outs) outs d,
                                 set_finished (finished_req_ids s) (Some []) s)
                    end in
  '(stats, s) ← make_stats (up_spec_stats up) (kv_connector_output mo ≫= kv_connector_stats) s;
  Ok (add_stats stats outs, s).

(** [update_draft_token_ids]. *)
Definition update_draft (x : string * list Z) (s : St) : St :=
  let '(rid, spec) := x in
  match requests s !! rid with
  | None => s
  | Some r =>
      if is_finished r then s
      else
        let spec := match spec with
                    | [] => []
                    | _ => if should_advance W (structured_output_manager s) r
                           then validate_tokens W (structured_output_manager s) r spec else spec
                    end in
        write (set_spec_token_ids spec r) s
  end.
Definition update_draft_token_ids (drafts : list (string * list Z)) (s : St) : St :=
  foldl (λ s x, update_draft x s) s drafts.

(** ** Arrival and queries *)

Definition add_request (now : Z) (r : Request) (s : St) : result St :=
  w ← RequestQueue.add_request r (waiting s);
  let r := if log_stats (config s) then record_event QUEUED now r else r in
  Ok (set_requests (<[request_id r := r]> (requests s)) (set_queues w (running s) s)).

Definition get_request_counts (s : St) : Z * Z := (len (running s), queue_len (waiting s)).
Definition get_num_unfinished_requests (s : St) : Z := queue_len (waiting s) + len (running s).
Definition has_finished_requests (s : St) : bool := 0 <? Z.of_nat (base.size (finished_req_ids s)).
Definition reset_prefix_cache (s : St) : result (bool * St) :=
  '(b, K) ← KVM.reset_prefix_cache (kv_cache_manager s);
  Ok (b, set_caches (encoder_cache_manager s) K s).

(** [__init__]: the fields of the configurations it reads, the groups and the
    other managers it builds.  [spec] is [(num_speculative_tokens, use_eagle())]. *)
Definition init (c : SchedulerConfig) (kv_cache_config : KVCacheConfig)
    (mm : Enc.EncBudgetConfig) (max_tokens_by_modality : option (list (string * Z)))
    (num_gpu_blocks : option Z) (enable_prefix_caching enable_kv_cache_events : bool)
    (block_size dcp_world_size : Z) (spec : option (Z * bool)) (include_finished_set : bool)
    (conn : option CS) (g : G) : result St :=
  _ ← match conn with
      | None => Ok tt
      | Some _ => _ ← py_assert (len (kv_cache_groups kv_cache_config) =? 1);
                  py_assert (negb (is_encoder_decoder c))
      end;
  _ ← py_assert (match num_gpu_blocks with Some n => 0 <? n | None => false end);
  '(compute_budget, cache_size) ← Enc.compute_encoder_budget mm max_tokens_by_modality;
  let use_eagle := match spec with Some (_, e) => e | None => false end in
  let num_spec := match spec with Some (n, _) => n | None => 0 end in
  K ← KVM.init kv_cache_config (max_len c) enable_prefix_caching use_eagle (log_stats c)
        enable_kv_cache_events dcp_world_size;
  let c := mkSchedConfig (max_num_running_reqs c) (max_num_scheduled_tokens c) (max_len c)
             (long_prefill_token_threshold c) (chunked_prefill_enabled c) (no_chunked_mm c)
             (cross_encoder_tokens c) compute_budget num_spec (if use_eagle then num_spec else 0)
             (max_loras c) (is_encoder_decoder c) (use_pp c) (log_stats c)
             (if 1 <? dcp_world_size then block_size * dcp_world_size else block_size)
             (policy c) (async_scheduling c) in
  Ok (mkSched c ∅ (new_queue W) [] ∅ (if include_finished_set then Some [] else None) ∅
        (Enc.init cache_size) K conn g []).
End ops.
End Sched.
