(* ===== verification/SchedulerCases.v ===== *)
(** * Scheduler: behaviours shown on concrete runs

    A scheduler over one group of full attention, with blocks of four tokens and
    without a KV connector, and runs of it that show where the code does not do
    what it means to: what PRIORITY preemption leaves behind, what happens to a
    prompt of exactly the maximum length, and the order of skipped requests. *)
From S2P Require Import Prelude FreeQueue Request BlockHash BlockPool KVSpecs SingleType Coordinator KVManager EncoderCache RequestQueue KVConfig System Scheduler.

(** The environment: no grammar is ever ready, sets are iterated in the order of
    their elements, a queue of class [Q]. *)
Definition run_world {Q} (q : Q) : World Q unit unit unit := {|
  block_hasher := Some (sys_hasher 4);
  use_int_hashes := false;
  input_order := elements;
  id_order := elements;
  new_queue := q;
  grammar_ready := λ _ _, false;
  bitmask_of := λ _ _ _ _, tt;
  should_advance := λ _ _, false;
  accept_tokens := λ _ _ g, g;
  validate_tokens := λ _ _ l, l;
  get_num_new_matched_tokens := λ _ _ c, (Some 0, false, c);
  update_state_after_alloc := λ _ _ _ c, c;
  request_finished := λ _ _ c, (false, None, c);
  build_connector_meta := λ _ c, (tt, c);
  connector_events := λ c, ([], c);
  update_connector_output := λ _ c, c;
  slice_logprobs := λ l _ _, l;
|}.

(** [budget] tokens per step, at most four running requests, a maximum length of
    16 tokens, [loras] adapters at once. *)
Definition run_config (p : SchedulingPolicy) (budget : Z) (loras : option Z) : SchedulerConfig :=
  mkSchedConfig 4 budget 16 0 true false 0 0 0 0 loras false false false 4 p false.

Definition run_kv (num_blocks : Z) : KVCacheConfig :=
  mkKVConfig num_blocks [] [mkGroup ["full"%string] (LayerSpec (FullAttentionSpec sys_attn None None))].

Definition run_init {Q} `{RequestQueue Q} (q : Q) (p : SchedulingPolicy) (num_blocks budget : Z)
    (loras : option Z) : result (Scheduler Q unit unit) :=
  Sched.init (run_world q) (run_config p budget loras) (run_kv num_blocks)
    (Enc.mkEncConfig false 8 0 0) None (Some num_blocks) true false 4 1 None false None tt.

(** A request with a priority and an arrival time. *)
Definition run_request (rid : string) (prio arrival : Z) (prompt : list Z) (sp : SamplingParams)
    (lora : option LoRARequest) : result Request :=
  Request.init (Some (sys_hasher 4)) rid (Some prompt) (Some sp) None None 0 arrival None [] lora None prio.

(** The output of a model that samples token 7 for each of [ids]. *)
Definition sampled (ids : list string) : ModelRunnerOutput unit :=
  mkRunnerOutput (list_to_map (zip ids (py_range 0 (len ids)))) (replicate (length ids) [7]) None ∅
    [] None None.

(** What a run is asked about a request: its status, its computed tokens, its
    blocks. *)
Definition look {Q} (s : Scheduler Q unit unit) (rid : string)
  : option (RequestStatus * Z * list (list ptr)) :=
  (λ r, (status r, num_computed_tokens r, KVM.get_blocks rid (kv_cache_manager s))) <$> requests s !! rid.

(** ** Preemption by priority *)

(** A pool with three blocks for requests.  "low" arrives first, "high" has the
    higher priority; when "high" needs its second block none is free. *)
Definition preemption_start : result (Scheduler Prio.PriorityRequestQueue unit unit) :=
  let W := run_world Prio.init in
  s ← run_init Prio.init PRIORITY 4 8 None;
  low ← run_request "low" 5 1 [1; 2; 3; 4; 5] sys_sampling None;
  high ← run_request "high" 0 2 [6; 7; 8] sys_sampling None;
  s ← Sched.add_request 0 low s;
  '(out, s) ← Sched.schedule W 0 s;
  '(_, s) ← Sched.update_from_output W out (sampled ["low"%string]) s;
  s ← Sched.add_request 0 high s;
  '(out, s) ← Sched.schedule W 0 s;
  '(_, s) ← Sched.update_from_output W out (sampled ["low"; "high"]%string) s;
  '(out, s) ← Sched.schedule W 0 s;
  '(_, s) ← Sched.update_from_output W out (sampled ["low"; "high"]%string) s;
  Ok s.

(** The next step, which preempts "low", and, once "high" is gone, the step that
    resumes it. *)
Definition preemption_step : result (list (string * Z) * list string * option (RequestStatus * Z * list (list ptr))) :=
  s ← preemption_start;
  '(out, s) ← Sched.schedule (run_world Prio.init) 0 s;
  Ok (out_num_scheduled_tokens out, running s, look s "low"%string).
Definition resume_step : result (Z * list (string * Z) * CachedRequestData) :=
  s ← preemption_start;
  '(_, s) ← Sched.schedule (run_world Prio.init) 0 s;
  s ← Sched.finish_requests (run_world Prio.init) {["high"%string]} FINISHED_ABORTED s;
  low ← request_of "low"%string s;
  '(out, s) ← Sched.schedule (run_world Prio.init) 0 s;
  Ok (num_tokens low, out_num_scheduled_tokens out, out_cached_reqs out).


(** ** A prompt of the maximum length *)

Definition long_prompt : list Z := seqZ 1 16.

(** The number of tokens of each of [k] steps, each with the tokens the model
    samples when a request is complete (never, while the prompt is prefilled). *)
Fixpoint steps (k : nat) (s : Scheduler Fcfs.FCFSRequestQueue unit unit)
  : result (list (list (string * Z)) * Scheduler Fcfs.FCFSRequestQueue unit unit) :=
  match k with
  | O => Ok ([], s)
  | S k =>
      '(out, s) ← Sched.schedule (run_world (Fcfs.mkFcfs [])) 0 s;
      '(l, s) ← steps k s;
      Ok (out_num_scheduled_tokens out :: l, s)
  end.

Definition long_start (budget : Z) : result (Scheduler Fcfs.FCFSRequestQueue unit unit) :=
  s ← run_init (Fcfs.mkFcfs []) FCFS 9 budget None;
  r ← run_request "r" 0 0 long_prompt sys_sampling None;
  Sched.add_request 0 r s.

(** The run with the prompt in pieces of 6 tokens, after three steps. *)
Definition long_stuck : result (list (list (string * Z)) * Scheduler Fcfs.FCFSRequestQueue unit unit) :=
  s ← long_start 6; steps 3 s.

(** A state whose only request is running and gets no token. *)
Record stalled (rid : string) (r : Request) (s : Scheduler Fcfs.FCFSRequestQueue unit unit) : Prop := {
  sd_running : running s = [rid];
  sd_waiting : waiting s = Fcfs.mkFcfs [];
  sd_request : requests s !! rid = Some r;
  sd_status : status r = RUNNING;
  sd_mm : mm_features r = [];
  sd_tokens : Sched.running_tokens (config s) r (max_num_scheduled_tokens (config s)) = 0;
  sd_budget : 0 < max_num_scheduled_tokens (config s);
  sd_max : 1 ≤ max_num_running_reqs (config s);
  sd_loras : max_loras (config s) = None;
  sd_async : async_scheduling (config s) = false;
  sd_connector : connector s = None;
}.

Lemma stalled_running now rid r s :
  stalled rid r s →
  Sched.running_loop (run_world (Fcfs.mkFcfs [])) 2 now 0 (first_step (config s)) s =
    Ok (first_step (config s), s).
Proof.
  intros [Hrun _ Hreq _ Hmm Htok Hbud _ _ _ _].
  cbn [Sched.running_loop].
  rewrite Hrun. change ([rid] !! 0%nat) with (Some rid). cbv iota. cbn [token_budget first_step].
  rewrite (proj2 (Z.leb_gt _ _)), (request_found rid r), Ok_bind by done.
  unfold Sched.plan_encoder, has_encoder_inputs, num_encoder_inputs. rewrite Hmm.
  change (0 <? len (@nil MultiModalFeatureSpec)) with false. cbv iota. rewrite Ok_bind.
  rewrite Htok. cbn [Z.eqb]. by rewrite Hrun.
Qed.

Lemma nothing_waiting {Q G CS Blob} `{RequestQueue Q} (W : World Q G CS Blob) fuel now sk loras st s :
  queue_bool (waiting s) = false → Sched.waiting_loop W (S fuel) now sk loras st s = Ok (st, sk, s).
Proof. cbn [Sched.waiting_loop]. by intros ->. Qed.

Lemma stalled_step now rid r s :
  stalled rid r s →
  ∃ out s', Sched.schedule (run_world (Fcfs.mkFcfs [])) now s = Ok (out, s') ∧
    out_num_scheduled_tokens out = [] ∧ stalled rid r s'.
Proof.
  intros HS. pose proof (stalled_running now rid r s HS) as Hloop.
  destruct HS as [Hrun Hwait Hreq Hst Hmm Htok Hbud Hmax Hlora Hasync Hconn].
  unfold Sched.schedule. rewrite Hrun. change (S (length [rid])) with 2%nat.
  rewrite Hloop, Ok_bind. cbn [scheduled_running_reqs first_step map_res]. rewrite Ok_bind.
  unfold Sched.running_loras. rewrite Hlora, Ok_bind.
  change (preempted_reqs (first_step (config s))) with (@nil string). cbv iota.
  rewrite nothing_waiting by (by rewrite Hwait).
  rewrite Ok_bind. cbv beta iota. unfold Sched.put_back. cbn [new_queue run_world queue_bool fcfs_queue Fcfs.deque].
  change (0 <? len (@nil string)) with false. cbv iota. rewrite Ok_bind.
  unfold Sched.check_constraints. cbn [num_scheduled_tokens first_step fmap list_fmap sumZ token_budget
    scheduled_new_reqs scheduled_resumed_reqs scheduled_running_reqs].
  rewrite Hrun, !py_assert_true, !Ok_bind; [|by apply Z.leb_le; unfold len; simpl; lia..].
  unfold Sched.step_common_prefix. rewrite Hrun. rewrite (request_found rid r) by done.
  rewrite Ok_bind. unfold KVM.get_num_common_prefix_blocks. rewrite Hst, py_assert_true, Ok_bind by done.
  destruct (Coord.get_num_common_prefix_blocks _ _ _) as [ns C]. rewrite !Ok_bind. cbv beta iota.
  unfold Sched.make_output, Sched.make_cached_request_data, Sched.get_grammar_bitmask.
  cbn [scheduled_new_reqs scheduled_running_reqs scheduled_resumed_reqs first_step app map_res].
  rewrite !Ok_bind. cbv beta iota. unfold Enc.get_freed_mm_hashes. cbv beta iota. rewrite Ok_bind. cbv beta iota.
  unfold Sched.finish_output. cbn [connector set_caches]. rewrite Hconn.
  destruct (KVM.take_events _) as [es K]. cbn [connector set_caches]. rewrite Hconn.
  cbn [out_num_scheduled_tokens]. unfold Sched.update_after_schedule. cbn [for_each num_scheduled_tokens first_step].
  rewrite !Ok_bind.
  destruct es as [|e es]; cbn [config set_caches set_finished set_published finished_req_ids_dict];
    rewrite Hasync, Ok_bind; (do 2 eexists; split; [reflexivity|split; [reflexivity|by split]]).
Qed.

Lemma stalled_steps rid r s k :
  stalled rid r s → ∃ s', steps k s = Ok (replicate k [], s') ∧ stalled rid r s'.
Proof.
  induction k as [|k IH] in s |- *; intros Hs; [by exists s|].
  destruct (stalled_step 0 rid r s Hs) as (out&s1&Hrun&Hout&Hs1).
  destruct (IH s1 Hs1) as (s2&Hrun2&Hs2). exists s2. split; [|done].
  cbn [steps]. rewrite Hrun, Ok_bind, Hrun2, Ok_bind, Hout. done.
Qed.

Definition long_stuck_view :=
  '(l, s) ← long_stuck;
  Ok (l, config s, running s, waiting s, connector s,
      (λ r, (status r, mm_features r, num_computed_tokens r, num_tokens r,
             Sched.running_tokens (config s) r (max_num_scheduled_tokens (config s)))) <$> requests s !! "r"%string).

Lemma long_stuck_look :
  ∃ c, long_stuck_view = Ok ([[("r"%string, 6)]; [("r"%string, 6)]; [("r"%string, 3)]], c, ["r"%string],
    Fcfs.mkFcfs [], None, Some (RUNNING, [], 15, 16, 0)) ∧
    max_num_scheduled_tokens c = 6 ∧ max_num_running_reqs c = 4 ∧ max_loras c = None ∧
    async_scheduling c = false.
Proof. eexists. split; [by vm_compute|done]. Qed.


(** The same prompt in one piece, scheduled again before the model's output is
    there, as with pipeline parallelism; then the output of the second step. *)
Definition long_again : result (list (list (string * Z))) :=
  s ← long_start 16; '(l, _) ← steps 2 s; Ok l.
Definition long_again_update : result unit :=
  let W := run_world (Fcfs.mkFcfs []) in
  s ← long_start 16;
  '(_, s) ← Sched.schedule W 0 s;
  '(out, s) ← Sched.schedule W 0 s;
  '(_, s) ← Sched.update_from_output W out (sampled ["r"%string]) s;
  Ok tt.

(** The same cap can be negative: a prompt of the maximum length that is fully
    scheduled is given -1 tokens by a step that comes before its output, and the
    update for that step raises [AssertionError]. *)
Theorem max_length_prompt_negative :
  long_again = Ok [[("r"%string, 16)]; [("r"%string, -1)]] ∧
  long_again_update = Err AssertionError.
Proof. split; by vm_compute. Qed.

(** ** Skipped requests *)

Definition grammar_sampling : SamplingParams := mkSampling (Some 8) None None false None true None default_sampler.

(** The waiting queue before and after a step that skips both of its requests,
    whose grammars are not compiled yet. *)
Definition skipped_run : result (list string * list string) :=
  s ← run_init (Fcfs.mkFcfs []) FCFS 9 8 None;
  a ← run_request "a" 0 0 [1; 2] grammar_sampling None;
  b ← run_request "b" 0 1 [3; 4] grammar_sampling None;
  s ← Sched.add_request 0 a s;
  s ← Sched.add_request 0 b s;
  '(_, s') ← Sched.schedule (run_world (Fcfs.mkFcfs [])) 0 s;
  Ok (Fcfs.deque (waiting s), Fcfs.deque (waiting s')).

(** A step reverses the requests it skips: under FCFS two requests that wait for
    their grammars change places in the waiting queue, so that the order of
    service is no longer the order of arrival. *)
Theorem skipped_requests_reversed :
  skipped_run = Ok (["a"; "b"]%string, ["b"; "a"]%string).
Proof. by vm_compute. Qed.

(** ** The limit on LoRA adapters *)

(** Two requests with different adapters, of which one may be used at a time.
    "a" is scheduled completely; the next step comes before its output and has
    nothing to schedule for it; then both get a token. *)
Definition lora_start : result (list (list (string * Z)) * Scheduler Fcfs.FCFSRequestQueue unit unit) :=
  let W := run_world (Fcfs.mkFcfs []) in
  s ← run_init (Fcfs.mkFcfs []) FCFS 9 8 (Some 1);
  a ← run_request "a" 0 0 [1; 2] sys_sampling (Some (mkLoRA "x" 1));
  b ← run_request "b" 0 1 [3; 4] sys_sampling (Some (mkLoRA "y" 2));
  s ← Sched.add_request 0 a s;
  '(out1, s) ← Sched.schedule W 0 s;
  s ← Sched.add_request 0 b s;
  '(out2, s) ← Sched.schedule W 0 s;
  '(_, s) ← Sched.update_from_output W out1 (sampled ["a"%string]) s;
  '(_, s) ← Sched.update_from_output W out2 (sampled ["b"%string]) s;
  Ok ([out_num_scheduled_tokens out1; out_num_scheduled_tokens out2], s).

(** The limit on adapters can be passed, and the scheduler then stops: only the
    adapters of the running requests that a step schedules are counted, so a
    request with another adapter is admitted while a running one has nothing to
    compute, and the next step, with both, fails its own assertion. *)
Theorem lora_limit_asserts :
  ('(l, s) ← lora_start; Ok (l, running s)) =
    Ok ([[("a"%string, 2)]; [("b"%string, 2)]], ["a"; "b"]%string) ∧
  ('(_, s) ← lora_start; Sched.schedule (run_world (Fcfs.mkFcfs [])) 0 s) = Err AssertionError.
Proof. split; by vm_compute. Qed.
