(* ===== verification/EncoderPlan.v ===== *)
(** * Scheduling encoder inputs

    Properties of [_try_schedule_encoder_inputs] of
    src/vllm/v1/core/sched/scheduler.py for models that are not encoder-decoder
    models: what it plans for a request can be reserved in the encoder cache, and
    the tokens it leaves to the step end before the first input that has no room.
    [sz] gives the number of encoder tokens of an identifier, as in
    [EncoderCache]. *)
From S2P Require Import Prelude Request EncoderCache KVManager RequestQueue Scheduler.
Import Enc Sched.

Section plan.
Context (sz : string → Z) (Hsz : ∀ h, 0 ≤ sz h).

Definition total_size (fs : list MultiModalFeatureSpec) : Z :=
  foldr (λ f acc, sz (identifier f) + acc) 0 fs.

Lemma total_size_snoc fs f : total_size (fs ++ [f]) = total_size fs + sz (identifier f).
Proof. unfold total_size. induction fs as [|g fs IH]; simpl in *; lia. Qed.

Lemma total_size_nonneg fs : 0 ≤ total_size fs.
Proof. induction fs as [|f fs IH]; [done|]. simpl. pose proof (Hsz (identifier f)). lia. Qed.

(** The inputs planned so far: different ones, none of them in the cache, with
    room for all of them. *)
Record planned (r : Request) (inputs : list Z) (fs : list MultiModalFeatureSpec)
    (M : EncoderCacheManager) : Prop := {
  pd_features : Forall2 (feature r) inputs fs;
  pd_distinct : NoDup (identifier <$> fs);
  pd_uncached : ∀ f, f ∈ fs → cached M !! identifier f = None;
  pd_room : total_size fs ≤ num_free_slots M;
}.

Lemma planned_nil r M : enc_inv sz M → planned r [] [] M.
Proof.
  intros HI. split; [done|constructor|by intros f ?%elem_of_nil|]. apply (ei_nonneg _ _ HI).
Qed.

(** What the cache does to entries other than the planned ones does not matter. *)
Lemma planned_mono r inputs fs M M' :
  planned r inputs fs M → (∀ h, cached M !! h = None → cached M' !! h = None) →
  num_free_slots M ≤ num_free_slots M' → planned r inputs fs M'.
Proof. intros [H1 H2 H3 H4] Hc Hf. split; [done|done|eauto|lia]. Qed.

Lemma planned_snoc r inputs fs i f M :
  planned r inputs fs M → feature r i f → identifier f ∉ identifier <$> fs →
  cached M !! identifier f = None → sz (identifier f) + total_size fs ≤ num_free_slots M →
  planned r (inputs ++ [i]) (fs ++ [f]) M.
Proof.
  intros [H1 H2 H3 H4] Hf Hnew Hc Hroom. split.
  - apply Forall2_app; [done|by constructor].
  - rewrite fmap_app. apply NoDup_app. split_and!; [done| |apply NoDup_singleton].
    intros h Hh ->%list_elem_of_singleton. done.
  - intros g [Hg| ->%list_elem_of_singleton]%elem_of_app; [by apply H3|done].
  - rewrite total_size_snoc. lia.
Qed.

(** Only the inputs of the request matter. *)
Lemma planned_request r r' inputs fs M :
  planned r inputs fs M → mm_features r' = mm_features r → planned r' inputs fs M.
Proof. intros [H1 ? ? ?] Hmm. split; try done. unfold feature in *. by rewrite Hmm. Qed.

(** Reserving what is planned succeeds. *)
Lemma planned_reserve r inputs fs M :
  enc_inv sz M → sized sz r → planned r inputs fs M →
  ∃ M', for_each (Enc.allocate r) inputs M = Ok M' ∧ enc_inv sz M'.
Proof.
  intros HI Hs [H1 H2 H3 H4].
  destruct (allocate_all_spec sz Hsz r inputs fs M HI Hs H1 H2 H3 H4) as (M'&?&?&_). by exists M'.
Qed.

(** ** The loop *)

(** The request holds a reference to the cached output for [h]. *)
Definition held (r : Request) (h : string) (M : EncoderCacheManager) : Prop :=
  ∃ refs, cached M !! h = Some refs ∧ request_id r ∈ refs.

(** The tokens [computed .. computed + n) lie in part in the input [f]. *)
Definition overlaps (computed n : Z) (f : MultiModalFeatureSpec) : Prop :=
  0 < n ∧ mm_offset (mm_position f) < computed + n ∧
  computed < mm_offset (mm_position f) + mm_length (mm_position f).

(** The inputs of [dn] these tokens need are planned or held. *)
Definition covered (r : Request) (computed n : Z) (dn fs : list MultiModalFeatureSpec)
    (M : EncoderCacheManager) : Prop :=
  ∀ f, f ∈ dn → overlaps computed n f → identifier f ∈ identifier <$> fs ∨ held r (identifier f) M.

(** The inputs come in the order of their positions. *)
Definition in_order (r : Request) : Prop :=
  StronglySorted (λ f g, mm_offset (mm_position f) ≤ mm_offset (mm_position g)) (mm_features r).

Section loop.
Context (r : Request) (computed n0 b0 : Z) (Hs : sized sz r).

(** The state of the loop after the inputs [dn]: the plan and the tokens it
    leaves. *)
Record plan_inv (dn : list MultiModalFeatureSpec) (pl : EncoderPlan)
    (fs : list MultiModalFeatureSpec) (M : EncoderCacheManager) : Prop := {
  pi_enc : enc_inv sz M;
  pi_planned : planned r (encoder_inputs_to_schedule pl) fs M;
  pi_hashes : mm_hashes_to_schedule pl = list_to_set (identifier <$> fs);
  pi_total : num_tokens_to_schedule pl = total_size fs;
  pi_tokens : 0 ≤ pl_num_new_tokens pl ≤ n0;
  pi_budget : pl_budget pl = b0 - total_size fs ∧ (fs = [] ∨ total_size fs ≤ b0);
  pi_covered : covered r computed (pl_num_new_tokens pl) dn fs M;
}.

Lemma plan_inv_mono dn pl fs M M' :
  plan_inv dn pl fs M → enc_inv sz M' →
  (∀ h, cached M !! h = None → cached M' !! h = None) →
  (∀ h, held r h M → held r h M') →
  num_free_slots M ≤ num_free_slots M' → plan_inv dn pl fs M'.
Proof.
  intros [? ? ? ? ? ? Hc] ? ? Hh ?. split; try done; [by eapply planned_mono|].
  intros f Hf Ho. destruct (Hc f Hf Ho) as [?|?]; auto.
Qed.

(** One more input that is covered or not needed. *)
Lemma plan_inv_next dn pl fs M f :
  plan_inv dn pl fs M →
  (overlaps computed (pl_num_new_tokens pl) f → identifier f ∈ identifier <$> fs ∨ held r (identifier f) M) →
  plan_inv (dn ++ [f]) pl fs M.
Proof.
  intros [? ? ? ? ? ? Hc] Hf. split; try done.
  intros g [Hg| ->%list_elem_of_singleton]%elem_of_app Ho; auto.
Qed.

(** A lookup in the cache. *)
Lemma check_keeps_plan dn pl fs M i f :
  plan_inv dn pl fs M → feature r i f →
  ∃ M', check_and_update_cache r i M = Ok (bool_decide (is_Some (cached M !! identifier f)), M') ∧
    plan_inv dn pl fs M' ∧ (cached M !! identifier f = None → cached M' !! identifier f = None) ∧
    (is_Some (cached M !! identifier f) → held r (identifier f) M').
Proof.
  intros HP Hf. destruct (check_and_update_spec sz M r i f (pi_enc _ _ _ _ HP) Hf)
    as (M'&->&HI&Hc&Hfree&_).
  assert (∀ h, cached M !! h = None → cached M' !! h = None) as Hnone.
  { intros h Hh. rewrite Hc, lookup_alter. case_decide; [subst|done]. by rewrite Hh. }
  exists M'. split_and!; [done| |auto|].
  - eapply plan_inv_mono; [done..| |lia]. intros h (refs&Hh&Hin). unfold held.
    rewrite Hc, lookup_alter. case_decide; subst; rewrite Hh; simpl;
      (eexists; split; [done|]); set_solver.
  - intros [refs Hrefs]. unfold held. rewrite Hc, lookup_alter_eq, Hrefs. simpl.
    eexists. split; [done|]. set_solver.
Qed.

(** Making room for one more input. *)
Lemma room_keeps_plan dn pl fs M i f :
  plan_inv dn pl fs M → feature r i f →
  ∃ room M', can_allocate r i (pl_budget pl) (num_tokens_to_schedule pl) M = Ok (room, M') ∧
    plan_inv dn pl fs M' ∧ (cached M !! identifier f = None → cached M' !! identifier f = None) ∧
    (room = true → sz (identifier f) + total_size fs ≤ num_free_slots M' ∧
       sz (identifier f) ≤ pl_budget pl).
Proof.
  intros HP Hf. pose proof (pi_enc _ _ _ _ HP) as HI0.
  destruct (can_allocate_spec sz Hsz M r i f (pl_budget pl) (num_tokens_to_schedule pl)
    HI0 Hf Hs) as (room&M'&ev&->&Hev&HI&Hiff&Hroom&_).
  rewrite (pi_total _ _ _ _ HP) in Hroom.
  assert (∀ h, cached M !! h = None → cached M' !! h = None) as Hnone.
  { intros h Hh. rewrite (evd_cached _ _ _ Hev). by case_decide. }
  assert (∀ h n, (h, n) ∈ ev → cached M !! h = Some ∅ ∧ n = sz h) as Hevs.
  { intros h n Hin. apply (ei_entries _ _ HI0). rewrite (evd_freeable _ _ _ Hev). set_solver. }
  exists room, M'. split_and!; [done| |auto|intros ->; split; [lia|by apply Hiff]].
  eapply plan_inv_mono; [done..| |].
  - intros h (refs&Hh&Hin). exists refs. split; [|done]. rewrite (evd_cached _ _ _ Hev).
    case_decide as Hd; [|done]. apply list_elem_of_fmap in Hd as ([h' n]&->&Hin').
    destruct (Hevs _ _ Hin') as [He _]. simpl in Hh. rewrite He in Hh. set_solver.
  - rewrite (evd_free _ _ _ Hev). assert (0 ≤ od_sum ev); [|lia].
    clear -Hevs Hsz. induction ev as [|[h n] ev IH]; [done|]. simpl.
    destruct (Hevs h n) as [_ ->]; [by left|]. pose proof (Hsz h).
    specialize (IH ltac:(intros ???; apply Hevs; by right)). lia.
Qed.

Context (c : SchedulerConfig) (Hdec : is_encoder_decoder c = false).

(** What the loop ends with. *)
Definition loop_done (pl : EncoderPlan) (fs : list MultiModalFeatureSpec) (M : EncoderCacheManager) : Prop :=
  ∃ dn, plan_inv dn pl fs M ∧
    (in_order r → covered r computed (pl_num_new_tokens pl) (mm_features r) fs M).

(** The loop may stop at [f] when the tokens end before it. *)
Lemma loop_stops dn f feats pl fs M m :
  mm_features r = dn ++ f :: feats → plan_inv dn pl fs M → 0 ≤ m ≤ pl_num_new_tokens pl →
  (m = 0 ∨ computed + m ≤ mm_offset (mm_position f)) →
  loop_done (mkPlan (encoder_inputs_to_schedule pl) m (pl_budget pl)
    (mm_hashes_to_schedule pl) (num_tokens_to_schedule pl)) fs M.
Proof.
  intros Hall [? ? ? ? ? ? Hc] Hm Hstop.
  assert (covered r computed m dn fs M) as Hc'.
  { intros g Hg (?&?&?). apply Hc; [done|]. split_and!; lia. }
  exists dn. split; [split; cbn; done || lia|]. cbn. unfold in_order. rewrite Hall.
  intros Hord g Hg Ho. rewrite elem_of_app in Hg. destruct Hg as [Hg|Hg]; [by apply Hc'|]. exfalso.
  assert (mm_offset (mm_position f) ≤ mm_offset (mm_position g)) as Hle.
  { apply StronglySorted_app_1_r, StronglySorted_inv in Hord as [_ Hord].
    apply elem_of_cons in Hg as [->|Hg]; [done|]. rewrite Forall_forall in Hord. by apply Hord. }
  destruct Ho as (?&?&?). lia.
Qed.

Lemma encoder_loop_ok feats i dn pl fs M :
  plan_inv dn pl fs M → mm_features r = dn ++ feats → i = len dn →
  ∃ pl' fs' M', encoder_loop c r computed feats i pl M = Ok (pl', M') ∧ loop_done pl' fs' M'.
Proof.
  induction feats as [|f feats IH] in i, dn, pl, fs, M |- *; intros HP Hall ->.
  { exists pl, fs, M. split; [done|]. exists dn. split; [done|].
    rewrite app_nil_r in Hall. rewrite Hall. intros _. apply HP. }
  assert (feature r (len dn) f) as Hf.
  { split; [apply len_nonneg|]. unfold len. rewrite Nat2Z.id, Hall.
    rewrite lookup_app_r, Nat.sub_diag by done. done. }
  assert (∀ pl fs M, plan_inv (dn ++ [f]) pl fs M →
    ∃ pl' fs' M', encoder_loop c r computed feats (len dn + 1) pl M = Ok (pl', M') ∧
      loop_done pl' fs' M') as Hnext.
  { intros pl1 fs1 M1 HP1. apply (IH _ _ _ _ _ HP1); [by rewrite <-app_assoc|by rewrite len_app]. }
  pose proof (pi_tokens _ _ _ _ HP) as Hn.
  cbn [encoder_loop]. rewrite Hdec. cbn [andb].
  destruct (Z.leb_spec (computed + pl_num_new_tokens pl) (mm_offset (mm_position f))) as [Hstop|Hneed].
  { exists pl, fs, M. split; [done|].
    pose proof (loop_stops _ _ _ pl fs M (pl_num_new_tokens pl) Hall HP ltac:(lia) (or_intror Hstop)) as Hd.
    by destruct pl. }
  destruct (Z.leb_spec (mm_offset (mm_position f) + mm_length (mm_position f)) computed) as [Hpast|Hin].
  { apply (Hnext pl fs M), plan_inv_next; [done|]. intros (_&_&?). lia. }
  case_bool_decide as Hplan.
  { rewrite Ok_bind. apply (Hnext pl fs M), plan_inv_next; [done|]. intros _. left.
    by rewrite (pi_hashes _ _ _ _ HP), elem_of_list_to_set in Hplan. }
  rewrite (pi_hashes _ _ _ _ HP), elem_of_list_to_set in Hplan.
  destruct (check_keeps_plan dn pl fs M _ f HP Hf) as (M1&->&HP1&Hc1&Hheld). rewrite Ok_bind.
  case_bool_decide as Hhit.
  { apply (Hnext pl fs M1), plan_inv_next; [done|]. auto. }
  assert (cached M !! identifier f = None) as Hc by (by apply eq_None_not_Some).
  destruct (no_chunked_mm c && (computed <? mm_offset (mm_position f)) && _) eqn:Hchunk.
  { apply andb_true_iff in Hchunk as [[_ Hlt%Z.ltb_lt]%andb_true_iff _].
    eexists _, fs, M1. split; [done|]. eapply loop_stops; [done..|lia|right; lia]. }
  destruct (room_keeps_plan dn pl fs M1 _ f HP1 Hf) as (room&M2&->&HP2&Hc2&Hroom).
  rewrite Ok_bind. destruct room; cbn [negb].
  2:{ eexists _, fs, M2. split; [done|].
      destruct (Z.ltb_spec computed (mm_offset (mm_position f)));
        (eapply loop_stops; [done..|lia|lia]). }
  destruct (Hroom eq_refl) as [Hfree Hbud]. apply (Hnext _ (fs ++ [f])).
  assert (mm_length (mm_position f) = sz (identifier f)) as Hlen.
  { apply Hs. rewrite Hall. set_solver. }
  pose proof (pi_budget _ _ _ _ HP2) as [Hb2 _].
  destruct HP2 as [He2 Hp2 Hh2 Ht2 Hn2 _ Hcov2].
  split; cbn; [done| | | |done| |].
  - apply planned_snoc; auto.
  - rewrite Hh2, fmap_app, list_to_set_app_L. simpl. set_solver.
  - by rewrite Ht2, total_size_snoc, Hlen.
  - rewrite total_size_snoc, Hlen. split; [lia|right; lia].
  - intros g Hg Ho. rewrite fmap_app. apply elem_of_app in Hg as [Hg|Hg%list_elem_of_singleton].
    + destruct (Hcov2 g Hg Ho); [left|right]; set_solver.
    + left. subst. set_solver.
Qed.

Lemma plan_start M : enc_inv sz M → 0 ≤ n0 → plan_inv [] (mkPlan [] n0 b0 ∅ 0) [] M.
Proof.
  intros HI Hn. split; cbn; try done; [by apply planned_nil|split; [simpl; lia|by left]|].
  by intros f ?%elem_of_nil.
Qed.

(** [_try_schedule_encoder_inputs] does not raise; what it plans can be reserved,
    and it never adds to the tokens of the step. *)
Lemma try_schedule_ok M :
  enc_inv sz M → 0 ≤ n0 →
  ∃ inputs fs n budget M',
    try_schedule_encoder_inputs c r computed n0 b0 M = Ok (inputs, n, budget, M') ∧
    enc_inv sz M' ∧ planned r inputs fs M' ∧ 0 ≤ n ≤ n0 ∧
    budget = b0 - total_size fs ∧ (fs = [] ∨ total_size fs ≤ b0) ∧
    (in_order r → covered r computed n (mm_features r) fs M').
Proof.
  intros HI Hn. unfold try_schedule_encoder_inputs.
  assert (∀ f, f ∈ mm_features r → has_encoder_inputs r = true) as Hhas.
  { intros f Hf. unfold has_encoder_inputs, num_encoder_inputs. destruct (mm_features r); [set_solver|done]. }
  destruct ((n0 =? 0) || negb (has_encoder_inputs r)) eqn:Hskip.
  { exists [], [], n0, b0, M. split_and!; try done; [by apply planned_nil|simpl; lia|by left|].
    intros _ f Hf Ho. exfalso. rewrite (Hhas f Hf), orb_false_r, Z.eqb_eq in Hskip. destruct Ho. lia. }
  apply orb_false_iff in Hskip as [_ Henc%negb_false_iff].
  rewrite py_assert_true by done. rewrite Ok_bind.
  destruct (encoder_loop_ok (mm_features r) 0 [] (mkPlan [] n0 b0 ∅ 0) [] M)
    as (pl&fs&M'&->&dn&[HI' Hp _ _ Hn' [Hb Hb'] _]&Hcov); [by apply plan_start|done|done|].
  rewrite Ok_bind. by exists (encoder_inputs_to_schedule pl), fs, (pl_num_new_tokens pl), (pl_budget pl), M'.
Qed.
End loop.
End plan.

(** ** The theorem *)

(** C18. Encoder inputs: [_try_schedule_encoder_inputs] returns, never adds tokens
    to the step or spends more than the encoder budget, the inputs it chooses can
    all be reserved in the encoder cache, and then the request holds every
    multi-modal input that one of the tokens left to the step lies in. *)
Theorem encoder_inputs_covered sz c r computed n0 b0 M :
  (∀ h, 0 ≤ sz h) → is_encoder_decoder c = false → sized sz r → in_order r →
  enc_inv sz M → 0 ≤ n0 → 0 ≤ b0 →
  ∃ inputs n budget M' M'',
    try_schedule_encoder_inputs c r computed n0 b0 M = Ok (inputs, n, budget, M') ∧
    0 ≤ n ≤ n0 ∧ 0 ≤ budget ≤ b0 ∧
    for_each (Enc.allocate r) inputs M' = Ok M'' ∧ enc_inv sz M'' ∧
    ∀ f, f ∈ mm_features r → overlaps computed n f → held r (identifier f) M''.
Proof.
  intros Hsz Hdec Hs Hord HI Hn Hb.
  destruct (try_schedule_ok sz Hsz r computed n0 b0 Hs c Hdec M HI Hn)
    as (inputs&fs&n&budget&M'&Hrun&HI'&[H1 H2 H3 H4]&Hle&Hbud&Hmax&Hcov).
  destruct (allocate_all_spec sz Hsz r inputs fs M' HI' Hs H1 H2 H3 H4) as (M''&Hall&HI''&_&Hin&Hout).
  pose proof (total_size_nonneg sz Hsz fs) as Hpos.
  exists inputs, n, budget, M', M''. split_and!; try done; try lia.
  - destruct Hmax as [->|?]; simpl in *; lia.
  - intros f Hf Ho. destruct (decide (identifier f ∈ identifier <$> fs)) as [Hd|Hd].
    + apply list_elem_of_fmap in Hd as (g&Heq&Hg). exists {[request_id r]}. rewrite Heq, (Hin g Hg). set_solver.
    + destruct (Hcov Hord f Hf Ho) as [?|(refs&Hrefs&?)]; [done|]. exists refs. by rewrite Hout.
Qed.

(** Two images in a prompt, and a cache with room for the first. *)
Definition plan_request : Request :=
  ex_request "r" [mkMM "a" (mkRange 1 3); mkMM "b" (mkRange 6 2)].
Definition plan_config : SchedulerConfig :=
  mkSchedConfig 4 8 16 0 true false 0 0 0 0 None false false false 4 FCFS false.

Lemma encoder_inputs_covered_witness :
  ∃ M' M'', try_schedule_encoder_inputs plan_config plan_request 0 10 10 (Enc.init 4) = Ok ([0], 6, 7, M') ∧
    for_each (Enc.allocate plan_request) [0] M' = Ok M'' ∧ held plan_request "a" M''.
Proof.
  destruct (encoder_inputs_covered ex_size plan_config plan_request 0 10 10 (Enc.init 4))
    as (inputs&n&budget&M'&M''&Hrun&_&_&Hall&_&Hheld); try lia; try done.
  - apply ex_size_nonneg.
  - intros f [->|[->| []%elem_of_nil]%elem_of_cons]%elem_of_cons; done.
  - repeat constructor. done.
  - by apply init_inv.
  - assert ((λ x, x.1) <$> try_schedule_encoder_inputs plan_config plan_request 0 10 10 (Enc.init 4) = Ok ([0], 6, 7))
      as Hsum by by vm_compute.
    rewrite Hrun in Hsum. injection Hsum as -> -> ->. exists M', M''. split; [exact Hrun|]. split; [exact Hall|].
    apply (Hheld (mkMM "a" (mkRange 1 3))); [by left|done].
Defined.
