(* ===== verification/SchedulerInv.v ===== *)
(** * The scheduler's invariant

    The setups the safety theorems are about, and the invariant of a scheduler:
    between two calls ([sched_ok]) and, inside [schedule], relative to the tokens
    given so far ([core]).  In the latter the request objects still have their old
    number of computed tokens, while the manager already holds the blocks of the
    new ones; [live] is the view of the running requests that agrees with the
    manager, so that the invariant [sys_ok] of [System] is about it. *)
From S2P Require Import Prelude FreeQueue Request BlockHash BlockMap BlockPool KVSpecs SingleType Coordinator KVManager EncoderCache RequestQueue KVConfig System Scheduler EncoderPlan.

(** ** Dictionaries of tokens *)

Definition tokens_of (ns : list (string * Z)) (rid : string) : Z := default 0 (dict_get ns rid).

Lemma dict_get_None {V} (d : list (string * V)) n : n ∉ d.*1 → dict_get d n = None.
Proof.
  induction d as [|[n' v'] d IH]; [done|]. rewrite fmap_cons, not_elem_of_cons. intros [? ?].
  simpl. rewrite decide_False by done. auto.
Qed.

Lemma dict_get_snoc {V} (d : list (string * V)) n v m :
  n ∉ d.*1 → dict_get (d ++ [(n, v)]) m = if decide (m = n) then Some v else dict_get d m.
Proof.
  induction d as [|[n' v'] d IH]; simpl.
  { intros _. repeat case_decide; naive_solver. }
  rewrite not_elem_of_cons. intros [? ?]. rewrite IH by done. repeat case_decide; naive_solver.
Qed.

Lemma tokens_of_new ns rid : rid ∉ ns.*1 → tokens_of ns rid = 0.
Proof. intros ?. unfold tokens_of. by rewrite dict_get_None. Qed.

Lemma tokens_of_snoc ns rid n rid' :
  rid ∉ ns.*1 → tokens_of (ns ++ [(rid, n)]) rid' = if decide (rid' = rid) then n else tokens_of ns rid'.
Proof. intros ?. unfold tokens_of. rewrite dict_get_snoc by done. by case_decide. Qed.

Lemma tokens_of_cons ns rid n rid' :
  rid ∉ ns.*1 → tokens_of ((rid, n) :: ns) rid' = if decide (rid' = rid) then n else tokens_of ns rid'.
Proof. intros ?. unfold tokens_of. simpl. repeat case_decide; naive_solver. Qed.

(** ** The setups *)

(** FCFS without speculative decoding, LoRA or encoder-decoder models. *)
Record config_ok (c : SchedulerConfig) : Prop := {
  cf_policy : policy c = FCFS;
  cf_async : async_scheduling c = false;
  cf_encdec : is_encoder_decoder c = false;
  cf_loras : max_loras c = None;
  cf_lookahead : 0 ≤ num_lookahead_tokens c;
  cf_budget : 0 ≤ max_num_scheduled_tokens c;
}.

(** The states of a request in the waiting queue. *)
Definition queued (r : Request) : Prop :=
  status r = WAITING ∨ status r = WAITING_FOR_FSM ∨ status r = PREEMPTED.
#[export] Instance queued_dec r : Decision (queued r).
Proof. unfold queued. apply _. Defined.

Lemma queued_not_running r : queued r → status r ≠ RUNNING.
Proof. by intros [->|[->| ->]]. Qed.

(** The view of the running requests that agrees with the manager. *)
Definition live (ns : list (string * Z)) (m : gmap string Request) : gmap string Request :=
  map_imap (λ rid r, if decide (status r = RUNNING)
    then Some (set_num_computed_tokens (num_computed_tokens r + tokens_of ns rid) r) else None) m.

Lemma live_lookup ns m rid :
  live ns m !! rid = m !! rid ≫= λ r, if decide (status r = RUNNING)
    then Some (set_num_computed_tokens (num_computed_tokens r + tokens_of ns rid) r) else None.
Proof. unfold live. apply map_lookup_imap. Qed.

Lemma live_running ns m rid r :
  m !! rid = Some r → status r = RUNNING →
  live ns m !! rid = Some (set_num_computed_tokens (num_computed_tokens r + tokens_of ns rid) r).
Proof. intros Hr Hs. rewrite live_lookup, Hr. simpl. by rewrite decide_True. Qed.

Lemma live_not_running ns m rid :
  (∀ r, m !! rid = Some r → status r ≠ RUNNING) → live ns m !! rid = None.
Proof.
  intros Hr. rewrite live_lookup. destruct (m !! rid) as [r|]; [|done]. simpl.
  rewrite decide_False by auto. done.
Qed.

Lemma live_agree ns ns' m m' rid :
  m !! rid = m' !! rid → tokens_of ns rid = tokens_of ns' rid → live ns m !! rid = live ns' m' !! rid.
Proof. intros Hm Hn. rewrite !live_lookup, Hm, Hn. done. Qed.

(** Moving the tokens of a request into the request. *)
Lemma live_advance ns rid n m r :
  rid ∉ ns.*1 → m !! rid = Some r →
  live ns (<[rid := set_num_computed_tokens (num_computed_tokens r + n) r]> m) = live ((rid, n) :: ns) m.
Proof.
  intros Hn Hr. apply map_eq. intros rid'. rewrite !live_lookup, lookup_insert, tokens_of_cons by done.
  destruct (decide (rid = rid')) as [<-|]; [|by rewrite decide_False by done].
  rewrite Hr, (decide_True _ _ eq_refl). simpl. rewrite tokens_of_new, Z.add_0_r by done. done.
Qed.

(** Replacing a request by one with the same property. *)
Lemma replace_iff (P : Request → Prop) (m : gmap string Request) rid r r' x :
  m !! rid = Some r → (P r' ↔ P r) →
  (∃ q, <[rid := r']> m !! x = Some q ∧ P q) ↔ (∃ q, m !! x = Some q ∧ P q).
Proof.
  intros Hr HP. rewrite lookup_insert. case_decide as Hx; [subst x|done].
  rewrite Hr. split; intros (q&Hq&?); simplify_eq; eexists; (split; [done|]); by apply HP.
Qed.

Lemma alter_found {V} (f : V → V) (m : gmap string V) k v : m !! k = Some v → alter f k m = <[k := f v]> m.
Proof.
  intros Hk. apply map_eq. intros x. rewrite lookup_alter, lookup_insert.
  case_decide; [subst; by rewrite Hk|done].
Qed.

Lemma get_computed_blocks_log r K l n K' :
  KVM.get_computed_blocks r K = Ok (l, n, K') → km_log_stats K' = km_log_stats K.
Proof.
  unfold KVM.get_computed_blocks. case_match; [by intros [= <- <- <-]|].
  intros Hrun. apply bind_Ok in Hrun as ([bl m]&_&Hrun). destruct (km_log_stats K) eqn:Hl; res_inv; done.
Qed.

Section inv.
Context {G CS Blob : Type} (W : World Fcfs.FCFSRequestQueue G CS Blob).
Context (H : bytes * list Z * option (list ExtraKey) → bytes) (N : bytes) (bs : Z) (Hbs : 0 < bs).
Context (Hinj : ∀ x y, H x = H y → x = y) (Hnone : ∀ x, H x ≠ N) (Hne : ∀ x, H x ≠ []).
Context (sz : string → Z) (Hsz : ∀ h, 0 ≤ sz h).
Abbreviation St := (Scheduler Fcfs.FCFSRequestQueue G CS).

(** The environment: the hasher of the repository, any order of iteration. *)
Record world_ok : Prop := {
  wo_hasher : block_hasher W = Some (request_block_hasher H N bs);
  wo_inputs : ∀ X, input_order W X ≡ₚ elements X;
  wo_ids : ∀ X, id_order W X ≡ₚ elements X;
  wo_queue : new_queue W = Fcfs.mkFcfs [];
}.

(** A generation request shorter than the maximum length, with its hashes. *)
Record req_ok (c : SchedulerConfig) (r : Request) : Prop := {
  qo_wf : request_wf H N bs (max_len c) r;
  qo_len : num_tokens r < max_len c;
  qo_sized : Enc.sized sz r;
  qo_spec : spec_token_ids r = [];
  qo_place : num_output_placeholders r = 0;
  qo_sampling : is_Some (sampling_params r);
  qo_pooling : pooling_params r = None;
}.

(** The requests [R] that run and [Q] that wait, when the step has given the
    tokens [ns]. *)
Record core (c : SchedulerConfig) (ns : list (string * Z)) (R Q : list string)
    (m : gmap string Request) (K : KVCacheManager) (M : Enc.EncoderCacheManager) : Prop := {
  co_kv : sys_ok H N bs (max_len c) (mkSys K (live ns m));
  co_stats : km_log_stats K = log_stats c;
  co_enc : Enc.enc_inv sz M;
  co_reqs : ∀ rid r, m !! rid = Some r → request_id r = rid ∧ req_ok c r ∧
    (status r = RUNNING ∧ 0 ≤ num_computed_tokens r ∨ queued r ∧ num_computed_tokens r = 0);
  co_run_nodup : NoDup R;
  co_run : ∀ rid, rid ∈ R ↔ ∃ r, m !! rid = Some r ∧ status r = RUNNING;
  co_queue_nodup : NoDup Q;
  co_queue : ∀ rid, rid ∈ Q ↔ ∃ r, m !! rid = Some r ∧ status r ≠ RUNNING;
}.

(** Between two calls. *)
Record sched_ok (s : St) : Prop := {
  sc_config : config_ok (config s);
  sc_connector : connector s = None;
  sc_core : core (config s) [] (running s) (Fcfs.deque (waiting s)) (requests s)
    (kv_cache_manager s) (encoder_cache_manager s);
  sc_max : len (running s) ≤ max_num_running_reqs (config s);
}.

(** Attributes that [req_ok] does not mention. *)
Lemma req_ok_status c s r : req_ok c r → req_ok c (set_status s r).
Proof. intros [[? ? ?] ? ? ? ? ? ?]. by split; [split|..]. Qed.
Lemma req_ok_computed c n r : req_ok c r → req_ok c (set_num_computed_tokens n r).
Proof. intros [[? ? ?] ? ? ? ? ? ?]. by split; [split|..]. Qed.
Lemma req_ok_cached c n r : req_ok c r → req_ok c (set_num_cached_tokens n r).
Proof. intros [[? ? ?] ? ? ? ? ? ?]. by split; [split|..]. Qed.
Lemma req_ok_events c es r : req_ok c r → req_ok c (set_events es r).
Proof. intros [[? ? ?] ? ? ? ? ? ?]. by split; [split|..]. Qed.
Lemma req_ok_nans c n r : req_ok c r → req_ok c (set_num_nans_in_logits n r).
Proof. intros [[? ? ?] ? ? ? ? ? ?]. by split; [split|..]. Qed.

(** ** Frame lemmas *)

Lemma core_enc c ns R Q m K M M' : core c ns R Q m K M → Enc.enc_inv sz M' → core c ns R Q m K M'.
Proof. intros [? ? ? ? ? ? ? ?] ?. by split. Qed.

Lemma core_queue_perm c ns R Q Q' m K M : core c ns R Q m K M → Q ≡ₚ Q' → core c ns R Q' m K M.
Proof.
  intros [? ? ? ? ? ? ? Hq] HQ. split; try done; [by rewrite <-HQ|].
  intros rid. by rewrite <-HQ.
Qed.

Lemma core_tokens c ns ns' R Q m m' K M :
  core c ns R Q m K M → live ns m = live ns' m' → core c ns R Q m' K M → core c ns' R Q m' K M.
Proof. intros [Hkv _ _ _ _ _ _ _] Hl [? ? ? ? ? ? ? ?]. split; try done. by rewrite <-Hl. Qed.

(** What the lists and the manager say of one request. *)
Definition placed (c : SchedulerConfig) (ns : list (string * Z)) (R Q : list string) (K : KVCacheManager)
    (rid : string) (o : option Request) : Prop :=
  match o with
  | None => no_tables K rid ∧ rid ∉ R ∧ rid ∉ Q
  | Some r => request_id r = rid ∧ req_ok c r ∧
      (status r = RUNNING ∧ rid ∈ R ∧ rid ∉ Q ∧ 0 ≤ num_computed_tokens r ∧
         (∃ hw, running_ok K hw (set_num_computed_tokens (num_computed_tokens r + tokens_of ns rid) r)) ∨
       queued r ∧ num_computed_tokens r = 0 ∧ rid ∉ R ∧ rid ∈ Q ∧ no_tables K rid)
  end.

(** A call for the request [rid], which may move it. *)
Lemma core_move c ns ns' R R' Q Q' m m' K K' M rid :
  core c ns R Q m K M → call_result K K' rid →
  (∀ x, x ≠ rid → m' !! x = m !! x ∧ tokens_of ns' x = tokens_of ns x ∧
     (x ∈ R' ↔ x ∈ R) ∧ (x ∈ Q' ↔ x ∈ Q)) →
  NoDup R' → NoDup Q' → placed c ns' R' Q' K' rid (m' !! rid) → core c ns' R' Q' m' K' M.
Proof.
  intros [Hkv Hst He Hreqs Hr1 Hr2 Hq1 Hq2] Hcall Hoff HR' HQ' Hp. split; try done.
  - eapply sys_ok_call; [done..| |].
    + intros x Hx. destruct (Hoff x Hx) as (Hm&Ht&_). by apply live_agree.
    + rewrite live_lookup. unfold placed in Hp. destruct (m' !! rid) as [r'|]; [|apply Hp].
      simpl. destruct Hp as (Hid&Hok&[(Hs&_&_&_&Hrun)|(Hs%queued_not_running&_&_&_&Hno)]).
      * rewrite decide_True by done. split_and!; [done|apply request_wf_tokens, Hok|done].
      * by rewrite decide_False.
  - destruct Hcall as (_&(?&?&->&_)&_). done.
  - intros x rx Hx. destruct (decide (x = rid)) as [->|Hx'].
    + rewrite Hx in Hp. destruct Hp as (?&?&[(?&_&_&?&_)|(?&?&_)]); auto.
    + apply Hreqs. destruct (Hoff x Hx') as [<- _]. done.
  - intros x. destruct (decide (x = rid)) as [->|Hx'].
    + destruct (m' !! rid) as [r'|]; unfold placed in Hp; [|naive_solver].
      destruct Hp as (_&_&[(?&?&_)|(?%queued_not_running&_&?&_)]); naive_solver.
    + destruct (Hoff x Hx') as (->&_&->&_). apply Hr2.
  - intros x. destruct (decide (x = rid)) as [->|Hx'].
    + destruct (m' !! rid) as [r'|]; unfold placed in Hp; [|naive_solver].
      destruct Hp as (_&_&[(?&_&?&_)|(?%queued_not_running&_&_&?&_)]); naive_solver.
    + destruct (Hoff x Hx') as (->&_&_&->). apply Hq2.
Qed.

(** A call for a running request that keeps the lists. *)
Lemma core_call c ns ns' R Q m K K' M rid r r' :
  core c ns R Q m K M → call_result K K' rid →
  m !! rid = Some r → status r = RUNNING → request_id r' = rid → req_ok c r' → status r' = RUNNING →
  0 ≤ num_computed_tokens r' → (∀ x, x ≠ rid → tokens_of ns' x = tokens_of ns x) →
  (∃ hw, running_ok K' hw (set_num_computed_tokens (num_computed_tokens r' + tokens_of ns' rid) r')) →
  core c ns' R Q (<[rid := r']> m) K' M.
Proof.
  intros HC Hcall Hr Hrun Hid Hok Hrun' Hnc Htok Hrok. eapply core_move; [done..| | | |].
  - intros x Hx. split_and!; [by rewrite lookup_insert_ne|by apply Htok|done..].
  - apply HC.
  - apply HC.
  - rewrite lookup_insert_eq. split_and!; [done|done|]. left. split_and!; [done| | |done|done].
    + apply (co_run _ _ _ _ _ _ _ HC). by exists r.
    + intros (q&?&?)%(co_queue _ _ _ _ _ _ _ HC). congruence.
Qed.

(** A call that leaves the requests and their tables as they are. *)
Lemma core_coordinator c ns R Q m K K' M :
  core c ns R Q m K M → (∃ fl, kv_inv K' fl) → coordinator K' = coordinator K →
  km_enable_caching K' = km_enable_caching K → km_max_model_len K' = km_max_model_len K →
  km_log_stats K' = km_log_stats K → core c ns R Q m K' M.
Proof.
  intros [Hkv Hst He Hreqs Hr1 Hr2 Hq1 Hq2] HK' Hco Hc Hm Hl. split; try done; [|congruence].
  by eapply sys_ok_coordinator.
Qed.

Lemma running_ok_grow K hw r r' :
  running_ok K hw r → request_id r' = request_id r → num_computed_tokens r' = num_computed_tokens r →
  num_tokens r ≤ num_tokens r' → hashes_ok K r' → running_ok K hw r'.
Proof.
  intros [H1 H2 H3 H4] Hid Hnc Hgrow Hh. split; rewrite ?Hnc; [lia|done|done|]. by rewrite Hid.
Qed.

(** A request that changes otherwise than in what it has computed. *)
Lemma core_write c ns R Q m K M rid r r' :
  core c ns R Q m K M → m !! rid = Some r → request_id r' = rid → req_ok c r' →
  (status r' = status r ∨ queued r ∧ queued r') → num_computed_tokens r' = num_computed_tokens r →
  num_tokens r ≤ num_tokens r' → core c ns R Q (<[rid := r']> m) K M.
Proof.
  intros [Hkv Hst He Hreqs Hr1 Hr2 Hq1 Hq2] Hr Hid Hok Hstat Hnc Hgrow.
  destruct (Hreqs _ _ Hr) as (Hid0&Hok0&Hk0).
  assert (status r' = RUNNING ↔ status r = RUNNING) as Hiff.
  { destruct Hstat as [->|[?%queued_not_running ?%queued_not_running]]; done. }
  split; try done.
  - destruct Hkv as [Hinv Hsetup Hb Hm HR HO]. simpl in *. split; try done; simpl.
    + intros x rx. destruct (decide (x = rid)) as [->|Hx].
      * rewrite live_lookup, lookup_insert_eq. simpl. case_decide as Hs; [|done]. intros [= <-].
        destruct (HR rid (set_num_computed_tokens (num_computed_tokens r + tokens_of ns rid) r))
          as (_&_&hw&Hrun); [by apply live_running; [|apply Hiff]|].
        split_and!; [done|apply request_wf_tokens, Hok|]. exists hw.
        eapply running_ok_grow; [exact Hrun|simpl; congruence|simpl; congruence|done|].
        apply (request_hashes_ok H N bs Hinj Hnone Hne (max_len c)); [apply request_wf_tokens, Hok|done].
      * rewrite (live_agree ns ns _ m) by (done || by rewrite lookup_insert_ne). by apply HR.
    + intros x Hx. apply HO. destruct (decide (x = rid)) as [->|Hne'].
      * apply live_not_running. intros r0 Hr0 Hs0. simplify_eq.
        rewrite (live_running _ _ _ r') in Hx; [done|by rewrite lookup_insert_eq|by apply Hiff].
      * by rewrite (live_agree ns ns _ m) in Hx by (done || by rewrite lookup_insert_ne).
  - intros x rx. rewrite lookup_insert. case_decide; [|by apply Hreqs]. intros; simplify_eq.
    split_and!; [done|done|]. rewrite Hnc. destruct Hk0 as [[Hrun ?]|[Hq Hz]].
    + left. split; [by apply Hiff|done].
    + right. split; [|done]. destruct Hstat as [Heq|[_ ?]]; [|done]. unfold queued. by rewrite Heq.
  - intros x. by rewrite Hr2, (replace_iff (λ q, status q = RUNNING) m rid r r').
  - intros x. by rewrite Hq2, (replace_iff (λ q, status q ≠ RUNNING) m rid r r') by (done || by rewrite Hiff).
Qed.

(** The last running request goes back to the waiting ones. *)
Lemma core_preempt c ns R Q m K K' M rid r r' :
  core c ns (R ++ [rid]) Q m K M → call_result K K' rid → no_tables K' rid →
  m !! rid = Some r → request_id r' = rid → req_ok c r' → queued r' → num_computed_tokens r' = 0 →
  core c ns R (rid :: Q) (<[rid := r']> m) K' M.
Proof.
  intros HC Hcall Hno Hr Hid Hok Hq Hnc.
  pose proof (co_run_nodup _ _ _ _ _ _ _ HC) as Hnd. apply NoDup_app in Hnd as (Hnd&Hdis&_).
  assert (rid ∉ R) as HR by (intros Hin; apply (Hdis rid Hin); by left).
  assert (rid ∉ Q) as HQ.
  { intros (q&Hq1&Hq2)%(co_queue _ _ _ _ _ _ _ HC). apply Hq2.
    destruct (proj1 (co_run _ _ _ _ _ _ _ HC rid)) as (q'&?&?); [set_solver|congruence]. }
  eapply core_move; [done..| | | |].
  - intros x Hx. split_and!; [by rewrite lookup_insert_ne|done| |]; set_solver.
  - done.
  - constructor; [done|apply HC].
  - rewrite lookup_insert_eq. split_and!; [done|done|]. right. split_and!; try done. by left.
Qed.

(** A waiting request starts to run. *)
Lemma core_start c ns ns' R Q Q' m K K' M rid r' :
  core c ns R Q m K M → call_result K K' rid → Q ≡ₚ rid :: Q' →
  request_id r' = rid → req_ok c r' → status r' = RUNNING →
  0 ≤ num_computed_tokens r' → (∀ x, x ≠ rid → tokens_of ns' x = tokens_of ns x) →
  (∃ hw, running_ok K' hw (set_num_computed_tokens (num_computed_tokens r' + tokens_of ns' rid) r')) →
  core c ns' (R ++ [rid]) Q' (<[rid := r']> m) K' M.
Proof.
  intros HC Hcall HQ Hid Hok Hs Hnc Htok Hrok.
  pose proof (co_queue_nodup _ _ _ _ _ _ _ HC) as Hnd. rewrite HQ in Hnd.
  apply NoDup_cons in Hnd as [Hnew Hnd].
  assert (rid ∉ R) as HR.
  { intros (q&Hq1&Hq2)%(co_run _ _ _ _ _ _ _ HC).
    destruct (proj1 (co_queue _ _ _ _ _ _ _ HC rid)) as (q'&?&?); [rewrite HQ; by left|congruence]. }
  eapply core_move; [done..| | | |].
  - intros x Hx. split_and!; [by rewrite lookup_insert_ne|by apply Htok|set_solver|].
    rewrite HQ. set_solver.
  - apply NoDup_app. split_and!; [apply HC| |apply NoDup_singleton].
    intros x Hx ->%list_elem_of_singleton. done.
  - done.
  - rewrite lookup_insert_eq. split_and!; [done|done|]. left. split_and!; [done|set_solver|done|done|done].
Qed.

(** A waiting request is refused. *)
Lemma core_refused c ns R Q m K K' M rid r :
  core c ns R Q m K M → call_result K K' rid → no_tables K' rid →
  m !! rid = Some r → status r ≠ RUNNING → core c ns R Q m K' M.
Proof.
  intros HC Hcall Hno Hr Hs. destruct (co_reqs _ _ _ _ _ _ _ HC _ _ Hr) as (Hid&Hok&Hk).
  eapply core_move; [done..|apply HC|apply HC|]. rewrite Hr. split_and!; [done|done|]. right.
  destruct Hk as [[? _]|[Hq Hz]]; [done|]. split_and!; try done.
  - intros (q&?&?)%(co_run _ _ _ _ _ _ _ HC). congruence.
  - apply (co_queue _ _ _ _ _ _ _ HC). by exists r.
Qed.

(** A request is forgotten. *)
Lemma core_delete c ns R Q m K K' M rid :
  core c ns R Q m K M → call_result K K' rid → no_tables K' rid →
  core c ns (filter (.≠ rid) R) (filter (.≠ rid) Q) (delete rid m) K' M.
Proof.
  intros HC Hcall Hno. eapply core_move; [done..| | | |].
  - intros x Hx. rewrite lookup_delete_ne, !list_elem_of_filter by done. naive_solver.
  - apply NoDup_filter, HC.
  - apply NoDup_filter, HC.
  - rewrite lookup_delete_eq. split_and!; [done|rewrite list_elem_of_filter; naive_solver..].
Qed.

(** A request arrives. *)
Lemma core_add c R Q m K M rid r :
  core c [] R Q m K M → m !! rid = None → request_id r = rid → req_ok c r → queued r →
  num_computed_tokens r = 0 → core c [] R (Q ++ [rid]) (<[rid := r]> m) K M.
Proof.
  intros HC Hnew Hid Hok Hq Hnc. destruct (sk_inv _ _ _ _ _ (co_kv _ _ _ _ _ _ _ HC)) as [fl HK].
  assert (no_tables K rid) as Hno.
  { apply (sk_others _ _ _ _ _ (co_kv _ _ _ _ _ _ _ HC)). apply live_not_running. intros. congruence. }
  eapply (core_move _ _ _ _ _ _ _ _ _ K K _ rid); [done| | | | |].
  - split_and!; [by eexists| |apply Forall2_same_length_lookup_2; [done|]; intros; by simplify_eq].
    exists (managers_of K), (pool_of K). split; [|done]. by destruct K as [? ? ? ? ? []].
  - intros x Hx. split_and!; [by rewrite lookup_insert_ne|done|done|set_solver].
  - apply HC.
  - apply NoDup_app. split_and!; [apply HC| |apply NoDup_singleton].
    intros x Hx ->%list_elem_of_singleton.
    apply (co_queue _ _ _ _ _ _ _ HC) in Hx as (q&?&?). congruence.
  - rewrite lookup_insert_eq. split_and!; [done|done|]. right. split_and!; try done; [|set_solver].
    intros (q&?&?)%(co_run _ _ _ _ _ _ _ HC). congruence.
Qed.

(** Counting the common prefix blocks of a running request. *)
Lemma core_common_prefix c ns R Q m K M rid r n :
  core c ns R Q m K M → m !! rid = Some r → status r = RUNNING →
  ∃ l K', KVM.get_num_common_prefix_blocks r n K = Ok (l, K') ∧ core c ns R Q m K' M.
Proof.
  intros HC Hr Hs. destruct (sk_inv _ _ _ _ _ (co_kv _ _ _ _ _ _ _ HC)) as [fl HK]. simpl in HK.
  destruct (co_reqs _ _ _ _ _ _ _ HC _ _ Hr) as (Hid&Hok&[[_ Hpos]|[?%queued_not_running _]]); [|done].
  destruct (common_prefix_ok K fl r n HK Hs) as (l&K'&->&HK'&HSK&HF). rewrite Hid in HF.
  exists l, K'. split; [done|]. rewrite <-(insert_id m rid r Hr).
  eapply core_call; [done| |done..|].
  - split_and!; [by eexists|done|]. eapply Forall2_impl; [exact HF|]. by intros M1 M2 [? _].
  - destruct (sk_running _ _ _ _ _ (co_kv _ _ _ _ _ _ _ HC) rid _ (live_running _ _ _ _ Hr Hs))
      as (_&_&hw&Hrun). exists hw.
    eapply running_skipped; [done|done|]. simpl. rewrite Hid.
    eapply Forall2_impl; [exact HF|]. intros M1 M2 (?&Hb&Hn). split_and!; [done|by rewrite Hb|done|].
    intros j p. rewrite Hb. by right.
Qed.
End inv.
