(* ===== verification/SchedulerSafety.v ===== *)
(** * The scheduler is safe

    In the setups of [SchedulerInv], [schedule], [update_from_output],
    [add_request] and [finish_requests] never raise, keep the invariant, and
    [schedule] stays within its limits. *)
From S2P Require Import Prelude FreeQueue Request BlockHash BlockMap BlockPool KVSpecs SingleType Coordinator KVManager EncoderCache RequestQueue KVConfig System Scheduler EncoderPlan SchedulerInv.

(** ** The step so far *)

(** [R] are the running requests. *)
Record step_ok (c : SchedulerConfig) (R : list string) (st : Step) : Prop := {
  st_budget : sumZ (num_scheduled_tokens st).*2 + token_budget st = max_num_scheduled_tokens c;
  st_left : 0 ≤ token_budget st;
  st_nodup : NoDup (num_scheduled_tokens st).*1;
  st_pos : Forall (λ x, 0 < x.2) (num_scheduled_tokens st);
  st_lists : scheduled_new_reqs st ++ scheduled_resumed_reqs st ++ scheduled_running_reqs st
    ≡ₚ (num_scheduled_tokens st).*1;
  st_running : ∀ rid, rid ∈ (num_scheduled_tokens st).*1 →
    rid ∈ R ∧ is_Some (req_to_new_blocks st !! rid);
  st_spec : scheduled_spec_decode_tokens st = ∅;
}.

Lemma first_step_ok c R : config_ok c → step_ok c R (first_step c).
Proof.
  intros [? ? ? ? ? ?]. split; cbn; try done; [constructor|].
  by intros rid ?%elem_of_nil.
Qed.

Lemma step_ok_encoder c R st inputs b : step_ok c R st → step_ok c R (set_encoder inputs b st).
Proof. intros [? ? ? ? ? ? ?]. by split. Qed.

Lemma step_ok_preempted c R st l :
  step_ok c R st → step_ok c R (set_lists (scheduled_new_reqs st) (scheduled_resumed_reqs st)
    (scheduled_running_reqs st) l st).
Proof. intros [? ? ? ? ? ? ?]. by split. Qed.

Lemma step_ok_running c R R' st :
  step_ok c R st → (∀ rid, rid ∈ (num_scheduled_tokens st).*1 → rid ∈ R → rid ∈ R') → step_ok c R' st.
Proof.
  intros [? ? ? ? ? Hr ?] HR. split; try done. intros rid Hin. destruct (Hr rid Hin). auto.
Qed.

(** [n] tokens for one more request. *)
Lemma give_tokens_ok c R st rid n blocks new resumed run preempted :
  step_ok c R st → rid ∉ (num_scheduled_tokens st).*1 → rid ∈ R → 0 < n ≤ token_budget st →
  new ++ resumed ++ run ≡ₚ
    rid :: scheduled_new_reqs st ++ scheduled_resumed_reqs st ++ scheduled_running_reqs st →
  let st' := give_tokens rid n blocks (set_lists new resumed run preempted st) in
  step_ok c R st' ∧ num_scheduled_tokens st' = num_scheduled_tokens st ++ [(rid, n)] ∧
  token_budget st' = token_budget st - n ∧ preempted_reqs st' = preempted.
Proof.
  intros [Hb Hl Hnd Hp Hls Hr Hs] Hnew HR Hn Hperm st'.
  assert (num_scheduled_tokens st' = num_scheduled_tokens st ++ [(rid, n)]) as Hns
    by (by apply Enc.od_set_new).
  split_and!; [|done..]. split; rewrite ?Hns, ?fmap_app; cbn.
  - rewrite sumZ_app. simpl. lia.
  - lia.
  - apply NoDup_app. split_and!; [done| |apply NoDup_singleton].
    intros x Hx ->%list_elem_of_singleton. done.
  - apply Forall_app. split; [done|]. repeat constructor; simpl; lia.
  - rewrite Hperm, Hls. by rewrite Permutation_app_comm.
  - intros x [Hx| ->%list_elem_of_singleton]%elem_of_app.
    + destruct (Hr x Hx) as [? ?]. split; [done|]. rewrite lookup_insert_ne; [done|]. by intros ->.
    + split; [done|]. rewrite lookup_insert_eq. by eexists.
  - done.
Qed.

(** What is planned in the encoder cache stays possible. *)
Definition enc_kept (M M' : Enc.EncoderCacheManager) : Prop :=
  (∀ h, Enc.cached M !! h = None → Enc.cached M' !! h = None) ∧
  Enc.num_free_slots M ≤ Enc.num_free_slots M'.
#[export] Instance enc_kept_pre : PreOrder enc_kept.
Proof. split; [by intros M|]. intros M1 M2 M3 [H1 ?] [H2 ?]. split; [auto|lia]. Qed.

Section safety.
Context {G CS Blob : Type} (W : World Fcfs.FCFSRequestQueue G CS Blob).
Context (H : bytes * list Z * option (list ExtraKey) → bytes) (N : bytes) (bs : Z) (Hbs : 0 < bs).
Context (Hinj : ∀ x y, H x = H y → x = y) (Hnone : ∀ x, H x ≠ N) (Hne : ∀ x, H x ≠ []).
Context (sz : string → Z) (Hsz : ∀ h, 0 ≤ sz h).
Context (HW : world_ok W H N bs).
Implicit Types (s : Scheduler Fcfs.FCFSRequestQueue G CS) (st : Step).

Definition state_core (ns : list (string * Z)) s : Prop :=
  core H N bs sz (config s) ns (running s) (Fcfs.deque (waiting s)) (requests s)
    (kv_cache_manager s) (encoder_cache_manager s).

(** What the two loops of [schedule] leave alone. *)
Definition same_rest s s' : Prop := config s' = config s ∧ connector s' = connector s.

(** A running request that is not scheduled yet, as the manager sees it. *)
Lemma live_unscheduled ns s rid r :
  state_core ns s → requests s !! rid = Some r → status r = RUNNING → rid ∉ ns.*1 →
  ∃ hw, running_ok (kv_cache_manager s) hw r.
Proof.
  intros HC Hr Hs Hns.
  destruct (sk_running _ _ _ _ _ (co_kv _ _ _ _ _ _ _ _ _ _ _ HC) rid _ (live_running _ _ _ _ Hr Hs))
    as (_&_&hw&Hrun). exists hw. simpl in Hrun. rewrite tokens_of_new, Z.add_0_r in Hrun by done.
  destruct Hrun as [? ? [? ? ?] ?]. by split; [| |split|].
Qed.

(** The encoder cache forgets a request. *)
Lemma enc_free_kept c r M :
  req_ok H N bs sz c r → Enc.enc_inv sz M →
  ∃ M', Enc.free (input_order W) r M = Ok M' ∧ Enc.enc_inv sz M' ∧ enc_kept M M'.
Proof.
  intros Hok HI.
  destruct (Enc.enc_free_spec sz Hsz (input_order W) M r) as (M'&->&HI'&Hin&Hout&Hfree);
    [apply HW|done|apply Hok|].
  exists M'. split_and!; [done|done|]. split; [|lia]. intros h Hh.
  destruct (decide (h ∈ identifier <$> mm_features r)) as [Hd|Hd].
  - by rewrite (Hin h Hd), Hh.
  - by rewrite (Hout h Hd).
Qed.

(** ** Preemption *)

Lemma preempt_last now st s R0 p :
  config_ok (config s) → state_core (num_scheduled_tokens st) s → running s = R0 ++ [p] →
  p ∉ (num_scheduled_tokens st).*1 →
  ∃ r s', requests s !! p = Some r ∧ request_id r = p ∧
    Sched.pick_preempted st s = Ok (r, st, set_queues (waiting s) R0 s) ∧
    Sched.preempt W now r st (set_queues (waiting s) R0 s) =
      Ok (set_lists (scheduled_new_reqs st) (scheduled_resumed_reqs st) (scheduled_running_reqs st)
            (preempted_reqs st ++ [p]) st, s') ∧
    state_core (num_scheduled_tokens st) s' ∧ running s' = R0 ∧ same_rest s s' ∧
    enc_kept (encoder_cache_manager s) (encoder_cache_manager s') ∧
    (∀ x, x ≠ p → requests s' !! x = requests s !! x).
Proof.
  intros Hcf HC HR Hp. pose proof HC as HC0. unfold state_core in HC. rewrite HR in HC.
  destruct (proj1 (co_run _ _ _ _ _ _ _ _ _ _ _ HC p)) as (r&Hr&Hs); [set_solver|].
  destruct (co_reqs _ _ _ _ _ _ _ _ _ _ _ HC _ _ Hr) as (Hid&Hok&_).
  destruct (sk_inv _ _ _ _ _ (co_kv _ _ _ _ _ _ _ _ _ _ _ HC)) as [fl HK]. simpl in HK.
  destruct (finish_spec _ fl HK r) as (K&HKf&Hcall&Hno). rewrite Hid in Hcall, Hno.
  destruct (enc_free_kept (config s) r (encoder_cache_manager s)) as (M&HM&HI&Hkept);
    [done|apply HC|].
  set (r1 := set_num_computed_tokens 0 (set_status PREEMPTED r)).
  set (r2 := if log_stats (config s) then record_event EV_PREEMPTED now r1 else r1).
  assert (req_ok H N bs sz (config s) r2 ∧ request_id r2 = p ∧ queued r2 ∧ num_computed_tokens r2 = 0)
    as (Hok2&Hid2&Hq2&Hn2).
  { unfold r2, r1. destruct (log_stats (config s)); split_and!; try done; try (right; by right);
      try apply req_ok_events; by apply req_ok_computed, req_ok_status. }
  exists r. eexists. split_and!; [done|done| | | | | | |].
  - unfold Sched.pick_preempted. rewrite (cf_policy _ Hcf), HR, last_snoc. cbn [of_option].
    rewrite Ok_bind, (request_found p r), Ok_bind, removelast_app by done.
    by rewrite app_nil_r.
  - unfold Sched.preempt. cbn [kv_cache_manager encoder_cache_manager set_queues config].
    rewrite HKf, Ok_bind, HM, Ok_bind. fold r1. cbn [config set_caches set_queues]. fold r2.
    rewrite Hid2. reflexivity.
  - unfold state_core. cbn. rewrite Hid2. eapply core_enc; [|done].
    by eapply core_preempt.
  - done.
  - done.
  - done.
  - intros x Hx. cbn. by rewrite lookup_insert_ne.
Qed.

(** ** Allocation for a running request *)

(** [allocate_slots] for a running request that is not scheduled yet. *)
Lemma allocate_running ns s rid r n :
  config_ok (config s) → state_core ns s → requests s !! rid = Some r → status r = RUNNING →
  rid ∉ ns.*1 → 0 < n → num_computed_tokens r + n ≤ num_tokens r →
  ∃ out K, KVM.allocate_slots (use_int_hashes W) r n 0 None (num_lookahead_tokens (config s)) false 0
      (kv_cache_manager s) = Ok (out, K) ∧
    let s' := set_caches (encoder_cache_manager s) K s in
    match out with
    | None => state_core ns s'
    | Some _ => state_core (ns ++ [(rid, n)]) s'
    end.
Proof.
  intros Hcf HC Hr Hs Hns Hn Hnt.
  destruct (live_unscheduled _ _ _ _ HC Hr Hs Hns) as [hw Hrun].
  destruct (co_reqs _ _ _ _ _ _ _ _ _ _ _ HC _ _ Hr) as (Hid&Hok&[[_ Hpos]|[?%queued_not_running _]]);
    [|done].
  pose proof (co_kv _ _ _ _ _ _ _ _ _ _ _ HC) as HS.
  destruct (sk_inv _ _ _ _ _ HS) as [fl HK]. simpl in HK.
  pose proof (sk_setup _ _ _ _ _ HS) as Hset. pose proof (sk_mml _ _ _ _ _ HS) as Hm. simpl in Hset, Hm.
  pose proof (qo_len _ _ _ _ _ _ Hok).
  destruct (extend_spec (use_int_hashes W) _ fl HK Hset r hw n (num_lookahead_tokens (config s)) Hrun)
    as (out&K&->&Hcall&Hout); [done|apply Hcf|done|lia|].
  rewrite Hid in Hcall. exists out, K. split; [done|]. unfold state_core. cbn.
  rewrite <-(insert_id (requests s) rid r Hr).
  destruct out as [nbs|]; (eapply core_call; [done..| |]).
  - intros x Hx. by rewrite tokens_of_snoc, decide_False.
  - by rewrite tokens_of_snoc, decide_True.
  - done.
  - rewrite tokens_of_new, Z.add_0_r by done. exists hw.
    destruct Hout as [? ? [? ? ?] ?]. by split; [| |split|].
Qed.

(** The inner loop: the request gets its slots, after the preemption of requests
    behind it in the list of running requests, or is preempted itself. *)
Lemma allocate_or_preempt_ok fuel now rid r n st s i :
  config_ok (config s) → state_core (num_scheduled_tokens st) s →
  running s !! i = Some rid → requests s !! rid = Some r →
  (∀ x, x ∈ (num_scheduled_tokens st).*1 → x ∈ take i (running s)) →
  0 < n → num_computed_tokens r + n ≤ num_tokens r → (length (running s) - i ≤ fuel)%nat →
  ∃ out k l s', Sched.allocate_or_preempt W fuel now r n st s =
      Ok (out, set_lists (scheduled_new_reqs st) (scheduled_resumed_reqs st)
                 (scheduled_running_reqs st) l st, s') ∧
    running s' = take k (running s) ∧ same_rest s s' ∧
    enc_kept (encoder_cache_manager s) (encoder_cache_manager s') ∧
    match out with
    | Some _ => (i < k)%nat ∧ requests s' !! rid = Some r ∧
        state_core (num_scheduled_tokens st ++ [(rid, n)]) s'
    | None => k = i ∧ l ≠ [] ∧ state_core (num_scheduled_tokens st) s'
    end.
Proof.
  induction fuel as [|fuel IH] in st, s |- *; intros Hcf HC Hi Hr Hpre Hn Hnt Hfuel.
  { apply lookup_lt_Some in Hi. lia. }
  pose proof (co_run_nodup _ _ _ _ _ _ _ _ _ _ _ HC) as Hnd.
  assert (rid ∉ (num_scheduled_tokens st).*1) as Hns.
  { intros Hin%Hpre. apply list_elem_of_lookup in Hin as (j&Hj). apply lookup_take_Some in Hj as [Hj ?].
    pose proof (NoDup_lookup _ _ _ _ Hnd Hi Hj). lia. }
  destruct (proj1 (co_run _ _ _ _ _ _ _ _ _ _ _ HC rid)) as (r0&Hr0&Hs); [by eapply list_elem_of_lookup_2|].
  simplify_eq. cbn [Sched.allocate_or_preempt].
  destruct (allocate_running _ _ _ _ n Hcf HC Hr Hs Hns Hn Hnt) as (out&K&->&Hout). rewrite Ok_bind.
  destruct out as [nbs|].
  { exists (Some nbs), (length (running s)), (preempted_reqs st). eexists.
    split; [by destruct st|]. split_and!; [by rewrite take_ge|done|reflexivity| |done|done].
    by eapply lookup_lt_Some. }
  destruct (exists_last (l := running s)) as (R0&p&HR); [intros E; by rewrite E in Hi|].
  set (s1 := set_caches (encoder_cache_manager s) K s) in *.
  assert (p ∉ (num_scheduled_tokens st).*1 ∧ (p = rid → i = length R0)) as [Hp Hlast].
  { assert (running s !! length R0 = Some p) as Hl by (rewrite HR; by apply list_lookup_middle).
    apply lookup_lt_Some in Hi as Hlt. rewrite HR, length_app in Hlt. simpl in Hlt. split.
    - intros Hin%Hpre. apply list_elem_of_lookup in Hin as (j&Hj). apply lookup_take_Some in Hj as [Hj ?].
      pose proof (NoDup_lookup _ _ _ _ Hnd Hl Hj). lia.
    - intros ->. by apply (NoDup_lookup _ _ _ _ Hnd Hi Hl). }
  destruct (preempt_last now st s1 R0 p Hcf Hout HR Hp)
    as (rp&s2&Hrp&Hidp&->&Hpre2&HC2&HR2&Hrest&Hkept&Hoff).
  rewrite Ok_bind. cbn beta iota. rewrite Hpre2, Ok_bind. cbn beta iota.
  destruct (co_reqs _ _ _ _ _ _ _ _ _ _ _ HC _ _ Hr) as (Hid&_). rewrite Hidp, Hid.
  case_decide as Heq.
  { specialize (Hlast Heq). exists None, i. do 2 eexists. split; [done|].
    split_and!; [|done|done|done|by destruct (preempted_reqs st)|done].
    by rewrite HR2, HR, take_app_length' by done. }
  assert (running s2 = take (length R0) (running s)) as HR2' by (by rewrite HR2, HR, take_app_length).
  assert (i < length R0)%nat as Hlt.
  { apply lookup_lt_Some in Hi as Hlt. rewrite HR, length_app in Hlt. simpl in Hlt.
    destruct (decide (i = length R0)); [|lia]. subst i. rewrite HR, list_lookup_middle in Hi by done. congruence. }
  edestruct (IH (set_lists (scheduled_new_reqs st) (scheduled_resumed_reqs st)
    (scheduled_running_reqs st) (preempted_reqs st ++ [p]) st) s2) as (out&k&l&s'&Hrun&HR'&Hrest'&Hkept'&Hout').
  - by rewrite (proj1 Hrest).
  - exact HC2.
  - rewrite HR2', lookup_take_lt by done. exact Hi.
  - rewrite Hoff by done. exact Hr.
  - intros x Hx. rewrite HR2', take_take, Nat.min_l by lia. by apply Hpre.
  - done.
  - done.
  - rewrite HR2. rewrite HR, length_app in Hfuel. simpl in Hfuel. lia.
  - exists out, (k `min` length R0)%nat, l, s'. split; [exact Hrun|].
    rewrite HR', HR2', take_take. split; [done|].
    split; [destruct Hrest, Hrest'; split; etrans; done|]. split; [by etrans|].
    destruct out as [nbs|]; destruct Hout' as (?&?&?); split_and!; try done; lia.
Qed.

(** ** Encoder inputs in a step *)

Lemma plan_encoder_ok r computed n budget s :
  config_ok (config s) → req_ok H N bs sz (config s) r → Enc.enc_inv sz (encoder_cache_manager s) → 0 ≤ n →
  ∃ inputs fs n' budget' M,
    Sched.plan_encoder r computed n budget s = Ok (inputs, n', budget', set_caches M (kv_cache_manager s) s) ∧
    Enc.enc_inv sz M ∧ planned sz r inputs fs M ∧ 0 ≤ n' ≤ n ∧ (has_encoder_inputs r = false → n' = n).
Proof.
  intros Hcf Hok HI Hn. unfold Sched.plan_encoder. destruct (has_encoder_inputs r) eqn:Hhas.
  - destruct (try_schedule_ok sz Hsz r computed n budget (qo_sized _ _ _ _ _ _ Hok) (config s)
      (cf_encdec _ Hcf) (encoder_cache_manager s) HI Hn) as (inputs&fs&n'&b'&M&->&HI'&Hp&Hn'&_).
    rewrite Ok_bind. by exists inputs, fs, n', b', M.
  - exists [], [], n, budget, (encoder_cache_manager s). split; [by destruct s|].
    split_and!; try done. by apply planned_nil.
Qed.

Lemma take_encoder_ok ns c r inputs fs budget st s :
  state_core ns s → req_ok H N bs sz c r → planned sz r inputs fs (encoder_cache_manager s) →
  ∃ st' M, Sched.take_encoder r inputs budget st s = Ok (st', set_caches M (kv_cache_manager s) s) ∧
    (st' = st ∨ ∃ m, st' = set_encoder m budget st) ∧
    state_core ns (set_caches M (kv_cache_manager s) s).
Proof.
  intros HC Hok Hp. unfold Sched.take_encoder. destruct inputs as [|i inputs].
  { exists st, (encoder_cache_manager s). split; [by destruct s|]. split; [by left|]. by destruct s. }
  destruct (planned_reserve sz Hsz r (i :: inputs) fs (encoder_cache_manager s)) as (M&->&HI);
    [apply HC|apply Hok|done|].
  rewrite Ok_bind. do 2 eexists. split; [done|]. split; [right; by eexists|].
  unfold state_core. cbn. by eapply core_enc.
Qed.

(** ** The loop over the running requests *)

Lemma running_tokens_bounds c r hw K budget :
  running_ok K hw r → req_ok H N bs sz c r → 0 < budget →
  0 ≤ Sched.running_tokens c r budget ≤ budget ∧
  num_computed_tokens r + Sched.running_tokens c r budget ≤ num_tokens r.
Proof.
  intros [Hnc _ _ _] Hok Hb. pose proof (qo_len _ _ _ _ _ _ Hok).
  unfold Sched.running_tokens, Sched.cap_prefill, num_tokens_with_spec.
  rewrite (qo_spec _ _ _ _ _ _ Hok), (qo_place _ _ _ _ _ _ Hok). change (len (@nil Z)) with 0.
  fold (num_tokens r).
  destruct (Z.ltb_spec 0 (long_prefill_token_threshold c)); simpl; [|lia].
  destruct (Z.ltb_spec (long_prefill_token_threshold c)
    (num_tokens r + 0 + 0 - num_computed_tokens r)); lia.
Qed.

Lemma running_loop_ok fuel now i st s :
  config_ok (config s) → state_core (num_scheduled_tokens st) s →
  step_ok (config s) (running s) st →
  (∀ x, x ∈ (num_scheduled_tokens st).*1 → x ∈ take i (running s)) →
  (length (running s) - i < fuel)%nat →
  ∃ st' s', Sched.running_loop W fuel now i st s = Ok (st', s') ∧
    state_core (num_scheduled_tokens st') s' ∧ step_ok (config s') (running s') st' ∧
    same_rest s s' ∧ (length (running s') ≤ length (running s))%nat.
Proof.
  induction fuel as [|fuel IH] in i, st, s |- *; intros Hcf HC Hst Hpre Hfuel; [lia|].
  cbn [Sched.running_loop]. destruct (running s !! i) as [rid|] eqn:Hi; [|by exists st, s].
  destruct (Z.leb_spec (token_budget st) 0) as [|Hbud]; [by exists st, s|].
  destruct (proj1 (co_run _ _ _ _ _ _ _ _ _ _ _ HC rid)) as (r&Hr&Hs); [by eapply list_elem_of_lookup_2|].
  destruct (co_reqs _ _ _ _ _ _ _ _ _ _ _ HC _ _ Hr) as (Hid&Hok&_).
  assert (rid ∉ (num_scheduled_tokens st).*1) as Hns.
  { intros Hin%Hpre. apply list_elem_of_lookup in Hin as (j&Hj). apply lookup_take_Some in Hj as [Hj ?].
    pose proof (NoDup_lookup _ _ _ _ (co_run_nodup _ _ _ _ _ _ _ _ _ _ _ HC) Hi Hj). lia. }
  destruct (live_unscheduled _ _ _ _ HC Hr Hs Hns) as [hw Hrun].
  destruct (running_tokens_bounds _ _ _ _ _ Hrun Hok Hbud) as [Hn Hnt].
  rewrite (request_found rid r), Ok_bind by done.
  destruct (plan_encoder_ok r (num_computed_tokens r) _ (encoder_compute_budget st) s Hcf Hok
    (co_enc _ _ _ _ _ _ _ _ _ _ _ HC) (proj1 Hn)) as (inputs&fs&n&b&M&->&HI&Hp&Hn'&_).
  rewrite Ok_bind. cbn beta iota. set (s1 := set_caches M (kv_cache_manager s) s).
  assert (state_core (num_scheduled_tokens st) s1) as HC1 by (unfold state_core; cbn; by eapply core_enc).
  apply lookup_lt_Some in Hi as Hlt.
  destruct (Z.eqb_spec n 0) as [|Hn0].
  { destruct (IH (i + 1)%nat st s1) as (st'&s'&Hloop&HC'&Hst'&Hrest&Hlen); [done..| |simpl; lia|].
    - intros x Hx%Hpre. change (running s1) with (running s).
      replace (i + 1)%nat with (S i) by lia. rewrite (take_S_r _ _ _ Hi). set_solver.
    - by exists st', s'. }
  destruct (allocate_or_preempt_ok (length (running s1)) now rid r n st s1 i)
    as (out&k&l&s2&->&HR&Hrest&Hkept&Hout); try done; [lia|lia|simpl; lia|].
  rewrite Ok_bind. cbn beta iota.
  set (st1 := set_lists (scheduled_new_reqs st) (scheduled_resumed_reqs st) (scheduled_running_reqs st) l st).
  assert (∀ x, x ∈ (num_scheduled_tokens st).*1 → (i ≤ k)%nat → x ∈ running s2) as Hkeep.
  { intros x Hx%Hpre Hik. rewrite HR. apply list_elem_of_lookup in Hx as (j&Hj).
    apply lookup_take_Some in Hj as [Hj ?]. apply (list_elem_of_lookup_2 _ j).
    rewrite lookup_take_lt by lia. exact Hj. }
  assert (same_rest s s2) as Hrest2 by exact Hrest.
  assert (length (running s2) ≤ length (running s))%nat as Hlen by (rewrite HR, length_take; simpl; lia).
  destruct out as [nbs|].
  2:{ destruct Hout as (->&_&HC2). exists st1, s2. split_and!; try done.
      rewrite (proj1 Hrest). eapply step_ok_running; [by apply step_ok_preempted|]. auto. }
  destruct Hout as (Hik&Hr2&HC2).
  assert (rid ∈ running s2) as Hin.
  { rewrite HR. apply (list_elem_of_lookup_2 _ i). by rewrite lookup_take_lt. }
  assert (step_ok (config s) (running s2) st1) as Hst1.
  { eapply step_ok_running; [by apply step_ok_preempted|]. intros x Hx _. apply Hkeep; [done|lia]. }
  destruct (give_tokens_ok (config s) (running s2) st1 rid n nbs (scheduled_new_reqs st1)
    (scheduled_resumed_reqs st1) (scheduled_running_reqs st1 ++ [rid]) (preempted_reqs st1) Hst1 Hns Hin)
    as (Hst2&Hns2&_); [simpl; lia|by rewrite !(assoc_L (++)), Permutation_app_comm|].
  set (st2 := give_tokens rid n nbs _) in *.
  unfold Sched.take_spec. rewrite (qo_spec _ _ _ _ _ _ Hok). cbn beta iota.
  destruct (take_encoder_ok (num_scheduled_tokens st2) (config s) r inputs fs b st2 s2) as (st3&M3&->&Hst3&HC3).
  { by rewrite Hns2. } { done. } { destruct Hkept. by eapply planned_mono. }
  rewrite Ok_bind. cbn beta iota. set (s3 := set_caches M3 (kv_cache_manager s2) s2) in *.
  assert (num_scheduled_tokens st3 = num_scheduled_tokens st2 ∧ step_ok (config s) (running s2) st3)
    as [Hns3 Hst3'].
  { destruct Hst3 as [->|[m ->]]; [done|]. split; [done|]. by apply step_ok_encoder. }
  destruct (IH (i + 1)%nat st3 s3) as (st'&s'&Hloop&HC'&Hst'&Hrest'&Hlen').
  - simpl. by rewrite (proj1 Hrest).
  - by rewrite Hns3.
  - simpl. by rewrite (proj1 Hrest).
  - rewrite Hns3, Hns2, fmap_app. simpl. intros x [Hx|Hx%list_elem_of_singleton]%elem_of_app.
    + rewrite HR. apply Hpre in Hx. rewrite take_take. apply list_elem_of_lookup in Hx as (j&Hj).
      apply lookup_take_Some in Hj as [Hj ?]. apply (list_elem_of_lookup_2 _ j).
      rewrite lookup_take_lt by lia. exact Hj.
    + subst x. apply (list_elem_of_lookup_2 _ i). rewrite lookup_take_lt by lia. by rewrite HR, lookup_take_lt.
  - simpl. lia.
  - exists st', s'. split_and!; try done; [|simpl in Hlen'; lia].
    destruct Hrest2, Hrest'; split; simpl in *; congruence.
Qed.
End safety.
