(* ===== verification/SchedulerWaiting.v ===== *)
(** * The scheduler is safe: the waiting requests

    The loop of [schedule] over the waiting requests: it never raises, starts
    only requests that have their blocks, and keeps the limits. *)
From S2P Require Import Prelude FreeQueue Request BlockHash BlockMap BlockPool KVSpecs SingleType Coordinator KVManager EncoderCache RequestQueue KVConfig System Scheduler EncoderPlan SchedulerInv SchedulerSafety.

Section waiting.
Context {G CS Blob : Type} (W : World Fcfs.FCFSRequestQueue G CS Blob).
Context (H : bytes * list Z * option (list ExtraKey) → bytes) (N : bytes) (bs : Z) (Hbs : 0 < bs).
Context (Hinj : ∀ x y, H x = H y → x = y) (Hnone : ∀ x, H x ≠ N) (Hne : ∀ x, H x ≠ []).
Context (sz : string → Z) (Hsz : ∀ h, 0 ≤ sz h).
Context (HW : world_ok W H N bs).
Implicit Types (s : Scheduler Fcfs.FCFSRequestQueue G CS) (st : Step).

(** The waiting requests are those of the queue and those skipped so far. *)
Definition wait_core (ns : list (string * Z)) (skipped : Fcfs.FCFSRequestQueue) s : Prop :=
  core H N bs sz (config s) ns (running s) (Fcfs.deque (waiting s) ++ Fcfs.deque skipped) (requests s)
    (kv_cache_manager s) (encoder_cache_manager s).

(** The request at the head of the queue. *)
Definition at_head (ns : list (string * Z)) (skipped : Fcfs.FCFSRequestQueue) (rid : string) (r : Request) s : Prop :=
  config_ok (config s) ∧ connector s = None ∧ wait_core ns skipped s ∧
  head (Fcfs.deque (waiting s)) = Some rid ∧ requests s !! rid = Some r ∧
  queued r ∧ num_computed_tokens r = 0.

Lemma head_of ns skipped rid w s :
  config_ok (config s) → connector s = None → wait_core ns skipped s →
  Fcfs.deque (waiting s) = rid :: w → ∃ r, at_head ns skipped rid r s.
Proof.
  intros Hcf Hcn HC Hw.
  destruct (proj1 (co_queue _ _ _ _ _ _ _ _ _ _ _ HC rid)) as (r&Hr&Hs); [rewrite Hw; set_solver|].
  destruct (co_reqs _ _ _ _ _ _ _ _ _ _ _ HC _ _ Hr) as (_&_&[[? _]|[? ?]]); [done|].
  exists r. split_and!; try done. by rewrite Hw.
Qed.

Lemma check_ready_ok ns skipped rid r s :
  at_head ns skipped rid r s →
  ∃ b r' s', Sched.check_ready W r s = Ok (b, s') ∧ at_head ns skipped rid r' s' ∧
    same_rest s s' ∧ running s' = running s ∧ waiting s' = waiting s ∧
    (b = true → status r' = WAITING ∨ status r' = PREEMPTED).
Proof.
  intros (Hcf&Hcn&HC&Hh&Hr&Hq&Hnc). unfold Sched.check_ready.
  destruct (co_reqs _ _ _ _ _ _ _ _ _ _ _ HC _ _ Hr) as (Hid&Hok&_).
  destruct (status r) eqn:Hs; try (by destruct Hq as [?|[?|?]]; congruence).
  - exists true, r, s. split_and!; try done. by left.
  - destruct (grammar_ready W (structured_output_manager s) r); [|by exists false, r, s].
    exists true, (set_status WAITING r). eexists. split; [done|].
    assert (alter (set_status WAITING) (request_id r) (requests s) =
      <[rid := set_status WAITING r]> (requests s)) as Halter by (rewrite Hid; by apply alter_found).
    split; [|split_and!; try done; by left].
    unfold at_head, wait_core. cbn. rewrite Halter. split_and!; try done.
    + eapply core_write; try done; [by apply req_ok_status|]. right. split; [done|by left].
    + by rewrite lookup_insert_eq.
    + by left.
  - exists true, r, s. split_and!; try done. by right.
Qed.

Lemma skip_request_ok ns skipped rid r w s :
  at_head ns skipped rid r s → Fcfs.deque (waiting s) = rid :: w →
  ∃ skipped' s', Sched.skip_request r skipped s = Ok (skipped', s') ∧ wait_core ns skipped' s' ∧
    same_rest s s' ∧ running s' = running s ∧ Fcfs.deque (waiting s') = w.
Proof.
  intros (Hcf&Hcn&HC&Hh&Hr&Hq&Hnc) Hw. unfold Sched.skip_request.
  cbn [pop_request fcfs_queue]. unfold Fcfs.pop_request. rewrite Hw, Ok_bind. cbn beta iota.
  cbn [prepend_request fcfs_queue]. unfold Fcfs.prepend_request. rewrite Ok_bind.
  destruct (co_reqs _ _ _ _ _ _ _ _ _ _ _ HC _ _ Hr) as (Hid&_). rewrite Hid.
  do 2 eexists. split; [done|]. split_and!; try done.
  unfold wait_core. cbn. eapply core_queue_perm; [exact HC|]. rewrite Hw. simpl.
  by rewrite Permutation_middle.
Qed.

(** The lookup in the prefix cache. *)
Lemma computed_of_ok ns skipped rid r s :
  at_head ns skipped rid r s →
  ∃ news n K, Sched.computed_of W r s =
      Ok (Some (Sched.mkComputed news n 0 false n), set_caches (encoder_cache_manager s) K s) ∧
    at_head ns skipped rid r (set_caches (encoder_cache_manager s) K s) ∧
    hit_ok (coordinator K) (block_hashes r) (num_tokens r - 1) news n ∧ 0 ≤ n < num_tokens r.
Proof.
  intros (Hcf&Hcn&HC&Hh&Hr&Hq&Hnc). unfold Sched.computed_of. rewrite Hnc. cbn [Z.eqb].
  destruct (co_reqs _ _ _ _ _ _ _ _ _ _ _ HC _ _ Hr) as (Hid&Hok&_).
  pose proof (co_kv _ _ _ _ _ _ _ _ _ _ _ HC) as HS.
  destruct (sk_inv _ _ _ _ _ HS) as [fl HK]. pose proof (sk_bs _ _ _ _ _ HS) as Hb. simpl in HK, Hb.
  pose proof (request_hashes_ok H N bs Hinj Hnone Hne _ _ r (qo_wf _ _ _ _ _ _ Hok) Hb) as Hhs.
  destruct (get_computed_blocks_spec _ fl r HK Hhs) as (news&n&K&Hg&HK'&Hco&Hen&Hml&Hhit&_&Hn).
  rewrite Hg, Ok_bind. cbn beta iota zeta. cbn [connector set_caches]. rewrite Hcn.
  exists news, n, K. split; [done|]. split; [|rewrite Hco; done].
  split_and!; try done. unfold wait_core. cbn.
  eapply core_coordinator; [done..|exact HC|by eexists|done|done|done|].
  by eapply get_computed_blocks_log.
Qed.

(** The number of tokens for a waiting request. *)
Lemma decide_tokens_ok ns skipped rid r s st news n0 :
  at_head ns skipped rid r s → 0 ≤ n0 < num_tokens r → 0 < token_budget st →
  ∃ d M, Sched.decide_tokens r (Sched.mkComputed news n0 0 false n0) st s =
      Ok (d, set_caches M (kv_cache_manager s) s) ∧
    at_head ns skipped rid r (set_caches M (kv_cache_manager s) s) ∧
    match d with
    | Sched.Go n inputs b => 0 < n ≤ token_budget st ∧ n0 + n ≤ num_tokens r ∧ ∃ fs, planned sz r inputs fs M
    | _ => True
    end.
Proof.
  intros Hhead Hn0 Hbud. pose proof Hhead as (Hcf&Hcn&HC&Hh&Hr&Hq&Hnc).
  destruct (co_reqs _ _ _ _ _ _ _ _ _ _ _ HC _ _ Hr) as (Hid&Hok&_).
  assert (set_caches (encoder_cache_manager s) (kv_cache_manager s) s = s) as Hsame by (by destruct s).
  unfold Sched.decide_tokens. cbn [Sched.load_kv_async Sched.total_computed_tokens].
  set (n := Sched.cap_prefill (config s) (num_tokens r - n0)).
  assert (0 < n ≤ num_tokens r - n0) as Hn.
  { unfold n, Sched.cap_prefill. destruct (Z.ltb_spec 0 (long_prefill_token_threshold (config s))); simpl; [|lia].
    destruct (Z.ltb_spec (long_prefill_token_threshold (config s)) (num_tokens r - n0)); lia. }
  destruct (negb _ && _).
  { exists Sched.Skip, (encoder_cache_manager s). rewrite Hsame. done. }
  rewrite py_assert_true, Ok_bind by (apply Z.ltb_lt; lia).
  destruct (plan_encoder_ok H N bs sz Hsz r n0 (Z.min n (token_budget st)) (encoder_compute_budget st) s Hcf Hok
    (co_enc _ _ _ _ _ _ _ _ _ _ _ HC) ltac:(lia)) as (inputs&fs&n'&b&M&->&HI&Hp&Hn'&Hno).
  rewrite Ok_bind. cbn beta iota.
  assert (at_head ns skipped rid r (set_caches M (kv_cache_manager s) s)) as Hhead'.
  { split_and!; try done. unfold wait_core. cbn. by eapply core_enc. }
  destruct (has_encoder_inputs r && (n' =? 0)) eqn:Hstop; [by exists Sched.Stop, M|].
  exists (Sched.Go n' inputs b), M. split_and!; try done; [|lia|lia|by exists fs].
  apply andb_false_iff in Hstop as [He|?%Z.eqb_neq]; [|lia]. rewrite (Hno He). lia.
Qed.

(** ** Starting a request *)

Lemma allocate_waiting_ok ns skipped rid r s news n0 n :
  at_head ns skipped rid r s → hit_ok (coordinator (kv_cache_manager s)) (block_hashes r) (num_tokens r - 1) news n0 →
  0 < n → n0 + n ≤ num_tokens r →
  ∃ out K, Sched.allocate_waiting W r (Sched.mkComputed news n0 0 false n0) n s =
      Ok (out, set_caches (encoder_cache_manager s) K s) ∧
    match out with
    | None => wait_core ns skipped (set_caches (encoder_cache_manager s) K s)
    | Some _ => call_result (kv_cache_manager s) K rid ∧
        ∃ hw, running_ok K hw (set_num_computed_tokens (n0 + n) r)
    end.
Proof.
  intros (Hcf&Hcn&HC&Hh&Hr&Hq&Hnc) Hhit Hn Hnt.
  destruct (co_reqs _ _ _ _ _ _ _ _ _ _ _ HC _ _ Hr) as (Hid&Hok&_).
  pose proof (co_kv _ _ _ _ _ _ _ _ _ _ _ HC) as HS.
  destruct (sk_inv _ _ _ _ _ HS) as [fl HK]. pose proof (sk_setup _ _ _ _ _ HS) as Hset.
  pose proof (sk_bs _ _ _ _ _ HS) as Hb. pose proof (sk_mml _ _ _ _ _ HS) as Hm. simpl in HK, Hset, Hb, Hm.
  pose proof (request_hashes_ok H N bs Hinj Hnone Hne _ _ r (qo_wf _ _ _ _ _ _ Hok) Hb) as Hhs.
  assert (no_tables (kv_cache_manager s) (request_id r)) as Hno.
  { rewrite Hid. apply (sk_others _ _ _ _ _ HS). apply live_not_running. intros q Hq'. simplify_eq.
    by apply queued_not_running. }
  pose proof (qo_len _ _ _ _ _ _ Hok).
  destruct (admit_spec (use_int_hashes W) _ fl HK Hset r news n0 n 0 Hhs Hno Hnc Hhit)
    as (out&K&Hrun&Hcall&Hout); [done|done|done|lia|].
  unfold Sched.allocate_waiting. rewrite Hnc, (cf_encdec _ Hcf). cbn [Z.eqb andb].
  cbn [Sched.num_external_computed_tokens Sched.num_new_local_computed_tokens Sched.new_computed_blocks
    Sched.load_kv_async]. rewrite Z.add_0_r, Hrun, Ok_bind. rewrite Hid in Hcall, Hout.
  exists out, K. split; [done|]. destruct out as [nbs|]; [done|].
  unfold wait_core. cbn. eapply core_refused; [done..|]. by apply queued_not_running.
Qed.

Lemma start_request_ok now skipped rid r w s st news n0 n inputs fs b loras K :
  at_head (num_scheduled_tokens st) skipped rid r s → Fcfs.deque (waiting s) = rid :: w →
  status r = WAITING ∨ status r = PREEMPTED →
  step_ok (config s) (running s) st → 0 < n ≤ token_budget st → 0 ≤ n0 →
  planned sz r inputs fs (encoder_cache_manager s) → call_result (kv_cache_manager s) K rid →
  (∃ hw, running_ok K hw (set_num_computed_tokens (n0 + n) r)) →
  ∃ st' loras' s', Sched.start_request now r (Sched.mkComputed news n0 0 false n0) n inputs b st loras
      (set_queues (Fcfs.mkFcfs w) (running s) (set_caches (encoder_cache_manager s) K s)) =
      Ok (st', loras', s') ∧
    wait_core (num_scheduled_tokens st') skipped s' ∧ step_ok (config s') (running s') st' ∧
    same_rest s s' ∧ running s' = running s ++ [rid] ∧ Fcfs.deque (waiting s') = w.
Proof.
  intros (Hcf&Hcn&HC&Hh&Hr&Hq&Hnc) Hw Hs Hst Hn Hn0 Hp Hcall [hw Hrun].
  destruct (co_reqs _ _ _ _ _ _ _ _ _ _ _ HC _ _ Hr) as (Hid&Hok&_).
  assert (rid ∉ running s) as HR.
  { intros (q&?&?)%(co_run _ _ _ _ _ _ _ _ _ _ _ HC). apply queued_not_running in Hq. congruence. }
  assert (rid ∉ (num_scheduled_tokens st).*1) as Hns by (intros [? _]%(st_running _ _ _ Hst); done).
  unfold Sched.start_request. cbn [config set_queues set_caches running waiting].
  set (r1 := if log_stats (config s) then record_event SCHEDULED now r else r).
  assert (status r1 = status r ∧ request_id r1 = rid ∧ req_ok H N bs sz (config s) r1 ∧
    mm_features r1 = mm_features r ∧ running_ok K hw (set_num_computed_tokens (n0 + n) r1))
    as (Hs1&Hid1&Hok1&Hmm1&Hrun1).
  { unfold r1. destruct (log_stats (config s)); [|done]. split_and!; try done; [by apply req_ok_events|].
    destruct Hrun as [? ? [? ? ?] ?]. by split; [| |split|]. }
  set (st1 := match status r1 with WAITING => Ok _ | PREEMPTED => Ok _ | _ => _ end).
  assert (∃ new resumed, st1 = Ok (set_lists new resumed (scheduled_running_reqs st) (preempted_reqs st) st) ∧
    new ++ resumed ++ scheduled_running_reqs st ≡ₚ
      rid :: scheduled_new_reqs st ++ scheduled_resumed_reqs st ++ scheduled_running_reqs st)
    as (new&resumed&->&Hperm).
  { unfold st1. rewrite Hs1, Hid. destruct Hs as [-> | ->]; (do 2 eexists; split; [done|]);
      by rewrite <-!Permutation_middle, app_nil_l || (rewrite <-?(assoc_L (++)); simpl; by rewrite <-?Permutation_middle). }
  rewrite Ok_bind. cbn zeta.
  assert (rid ∈ running s ++ [rid]) as Hin by set_solver.
  assert (step_ok (config s) (running s ++ [rid]) st) as Hst0.
  { eapply step_ok_running; [done|]. set_solver. }
  rewrite Hid.
  set (bl := KVM.get_blocks rid _).
  destruct (give_tokens_ok (config s) (running s ++ [rid]) st rid n bl new resumed
    (scheduled_running_reqs st) (preempted_reqs st) Hst0 Hns Hin Hn Hperm) as (Hst2&Hns2&_).
  set (st2 := give_tokens rid n bl _) in *.
  cbn [Sched.total_computed_tokens].
  set (r2 := set_num_computed_tokens n0 (set_status RUNNING r1)).
  set (r3 := if num_cached_tokens r2 <? 0 then set_num_cached_tokens n0 r2 else r2).
  assert (status r3 = RUNNING ∧ request_id r3 = rid ∧ req_ok H N bs sz (config s) r3 ∧
    mm_features r3 = mm_features r ∧ num_computed_tokens r3 = n0 ∧
    running_ok K hw (set_num_computed_tokens (n0 + n) r3)) as (Hs3&Hid3&Hok3&Hmm3&Hnc3&Hrun3).
  { unfold r3. destruct (num_cached_tokens r2 <? 0); split_and!; try done;
      try apply req_ok_cached; try (by apply req_ok_computed, req_ok_status);
      destruct Hrun1 as [? ? [? ? ?] ?]; by split; [| |split|]. }
  set (s3 := set_requests (<[rid := r3]> _) _).
  assert (wait_core (num_scheduled_tokens st2) skipped s3) as HC3.
  { rewrite Hns2. unfold wait_core, s3. cbn. eapply core_start; [done..|exact HC|exact Hcall| |done|done|done|lia| |].
    - by rewrite Hw.
    - intros x Hx. by rewrite tokens_of_snoc, decide_False.
    - exists hw. by rewrite tokens_of_snoc, decide_True, Hnc3. }
  unfold Sched.take_encoder.
  destruct inputs as [|i inputs].
  { rewrite Ok_bind. do 3 eexists. split; [reflexivity|]. by split_and!. }
  destruct (planned_reserve sz Hsz r3 (i :: inputs) fs (encoder_cache_manager s3)) as (M&->&HI);
    [apply HC3|apply Hok3|by eapply planned_request|].
  rewrite !Ok_bind. do 3 eexists. split; [reflexivity|]. split_and!; try done.
  - unfold wait_core. cbn. by eapply core_enc.
  - by apply step_ok_encoder.
Qed.

(** ** The loop *)

(** What an iteration, and the loop, leave. *)
Definition loop_result s (st' : Step) (skipped' : Fcfs.FCFSRequestQueue) (s' : Scheduler Fcfs.FCFSRequestQueue G CS) : Prop :=
  wait_core (num_scheduled_tokens st') skipped' s' ∧ step_ok (config s') (running s') st' ∧
  same_rest s s' ∧ len (running s') ≤ max_num_running_reqs (config s').

Lemma loop_result_trans s1 s2 st sk s3 : same_rest s1 s2 → loop_result s2 st sk s3 → loop_result s1 st sk s3.
Proof. intros [? ?] (?&?&[? ?]&?). split_and!; try done. split; congruence. Qed.

Lemma waiting_loop_ok fuel now skipped loras st s :
  config_ok (config s) → connector s = None → loop_result s st skipped s →
  (length (Fcfs.deque (waiting s)) < fuel)%nat →
  ∃ st' skipped' s', Sched.waiting_loop W fuel now skipped loras st s = Ok (st', skipped', s') ∧
    loop_result s st' skipped' s'.
Proof.
  induction fuel as [|fuel IH] in skipped, loras, st, s |- *; intros Hcf Hcn Hres Hfuel; [lia|].
  pose proof Hres as (HC&Hst&_&Hmax).
  cbn [Sched.waiting_loop]. destruct (negb (queue_bool (waiting s)) || (token_budget st <=? 0)) eqn:Hempty.
  { by exists st, skipped, s. }
  apply orb_false_iff in Hempty as [Hbool%negb_false_iff Hbud%Z.leb_gt].
  destruct (Z.eqb_spec (len (running s)) (max_num_running_reqs (config s))) as [|Hroom].
  { by exists st, skipped, s. }
  destruct (Fcfs.deque (waiting s)) as [|rid w] eqn:Hw.
  { cbn [queue_bool fcfs_queue] in Hbool. by rewrite Hw in Hbool. }
  destruct (head_of _ _ _ _ _ Hcf Hcn HC Hw) as (r&Hhead).
  cbn [peek_request fcfs_queue]. unfold Fcfs.peek_request. rewrite Hw, Ok_bind.
  rewrite (request_found rid r), Ok_bind by apply Hhead.
  destruct (check_ready_ok _ _ _ _ _ Hhead) as (ready&r1&s1&->&Hhead1&Hrest1&HR1&Hw1&Hready).
  rewrite Ok_bind. cbn beta iota zeta.
  pose proof Hhead1 as (Hcf1&Hcn1&HC1&_&Hr1&_).
  (* every way of skipping the request *)
  assert (∀ M K, at_head (num_scheduled_tokens st) skipped rid r1 (set_caches M K s1) →
    ∃ st' skipped' s', (r ← request_of rid (set_caches M K s1);
        '(skipped, s) ← Sched.skip_request r skipped (set_caches M K s1);
        Sched.waiting_loop W fuel now skipped loras st s) = Ok (st', skipped', s') ∧
      loop_result s st' skipped' s') as Hskip.
  { intros M K Hat. rewrite (request_found rid r1), Ok_bind by done.
    destruct (skip_request_ok _ _ _ _ w _ Hat) as (sk2&s2&->&HC2&Hrest2&HR2&Hw2);
      [cbn; by rewrite Hw1|].
    rewrite Ok_bind. cbn beta iota. destruct Hrest1 as [Hc1 Hn1], Hrest2 as [Hc2 Hn2]. cbn in Hc2, Hn2, HR2.
    destruct (IH sk2 loras st s2) as (st'&sk'&s'&Hloop&Hres'); [congruence|congruence| | |].
    - split_and!; [done| |done|]; rewrite HR2, HR1, Hc2, Hc1; done.
    - rewrite Hw2. simpl in Hfuel. lia.
    - exists st', sk', s'. split; [exact Hloop|]. eapply loop_result_trans; [|exact Hres']. split; congruence. }
  assert (set_caches (encoder_cache_manager s1) (kv_cache_manager s1) s1 = s1) as Hsame by (by destruct s1).
  destruct (negb ready || Sched.lora_full (config s1) r loras) eqn:Hskip1.
  { rewrite <-Hsame. apply Hskip. by rewrite Hsame. }
  apply orb_false_iff in Hskip1 as [Hrd%negb_false_iff _]. specialize (Hready Hrd).
  rewrite (request_found rid r1), Ok_bind by done.
  destruct (computed_of_ok _ _ _ _ _ Hhead1) as (news&n0&K2&->&Hhead2&Hhit&Hn0).
  rewrite Ok_bind. cbn beta iota. set (s2 := set_caches (encoder_cache_manager s1) K2 s1) in *.
  destruct (decide_tokens_ok _ _ _ _ _ st news _ Hhead2 Hn0 Hbud) as (d&M3&->&Hhead3&Hd).
  rewrite Ok_bind. cbn beta iota. set (s3 := set_caches M3 (kv_cache_manager s2) s2) in *.
  assert (same_rest s s3) as Hrest3 by exact Hrest1.
  destruct d as [| |n inputs b].
  { apply (Hskip M3 K2). exact Hhead3. }
  { exists st, skipped, s3. split; [done|].
    split_and!; [apply Hhead3|by rewrite (proj1 Hrest3), (HR1 : running s3 = _)|done|].
    by rewrite (proj1 Hrest3), (HR1 : running s3 = _). }
  destruct Hd as (Hn&Hnt&fs&Hp).
  destruct (allocate_waiting_ok _ _ _ _ s3 news n0 n Hhead3 Hhit (proj1 Hn) Hnt) as (out&K4&->&Hout).
  rewrite Ok_bind. cbn beta iota. set (s4 := set_caches (encoder_cache_manager s3) K4 s3) in *.
  destruct out as [nbs|].
  2:{ exists st, skipped, s4. split; [done|].
      split_and!; [done|by rewrite (proj1 Hrest3 : config s4 = _), (HR1 : running s4 = _)|done|].
      by rewrite (proj1 Hrest3 : config s4 = _), (HR1 : running s4 = _). }
  destruct Hout as [Hcall Hrun].
  change (connector s4) with (connector s1). rewrite Hcn1.
  cbn [pop_request fcfs_queue]. unfold Fcfs.pop_request. change (waiting s4) with (waiting s1).
  rewrite Hw1, Hw, Ok_bind. cbn beta iota zeta.
  rewrite (request_found rid r1), Ok_bind by done. cbn [Sched.load_kv_async].
  assert (Fcfs.deque (waiting s3) = rid :: w) as Hw3 by (change (waiting s3) with (waiting s1); by rewrite Hw1).
  destruct (start_request_ok now skipped rid r1 w s3 st news n0 n inputs fs b loras K4 Hhead3 Hw3 Hready)
    as (st5&loras5&s5&Hstart&HC5&Hst5&Hrest5&HR5&Hw5); try done; try lia.
  { by rewrite (proj1 Hrest3), (HR1 : running s3 = _). }
  change (running s4) with (running s3). unfold s4 at 1. rewrite Hstart, Ok_bind. cbn beta iota.
  assert (same_rest s s5) as [Hc5 Hn5] by (destruct Hrest3, Hrest5; split; congruence).
  destruct (IH skipped loras5 st5 s5) as (st'&sk'&s'&Hloop&Hres'); [congruence|congruence| | |].
  - split_and!; try done. rewrite HR5, Hc5, len_app, (HR1 : running s3 = _). change (len [rid]) with 1. lia.
  - rewrite Hw5. simpl in Hfuel. lia.
  - exists st', sk', s'. split; [exact Hloop|]. eapply loop_result_trans; [|exact Hres']. done.
Qed.
End waiting.
