(* ===== verification/SchedulerStep.v ===== *)
(** * The scheduler is safe: a whole step

    What [schedule] does after its two loops, and the theorem about [schedule]. *)
From S2P Require Import Prelude FreeQueue Request BlockHash BlockMap BlockPool KVSpecs SingleType Coordinator KVManager EncoderCache RequestQueue KVConfig System Scheduler EncoderPlan SchedulerInv SchedulerSafety SchedulerWaiting.

Lemma map_res_total {A B} (f : A → result B) (l : list A) :
  (∀ x, x ∈ l → ∃ y, f x = Ok y) → ∃ ys, map_res f l = Ok ys ∧ Forall2 (λ x y, f x = Ok y) l ys.
Proof.
  induction l as [|x l IH]; intros Hf; [by exists []|].
  destruct (Hf x) as [y Hy]; [by left|]. destruct IH as (ys&Hys&HF); [intros; apply Hf; by right|].
  exists (y :: ys). simpl. rewrite Hy, Ok_bind, Hys, Ok_bind. split; [done|]. by constructor.
Qed.

Section step.
Context {G CS Blob : Type} (W : World Fcfs.FCFSRequestQueue G CS Blob).
Context (H : bytes * list Z * option (list ExtraKey) → bytes) (N : bytes) (bs : Z) (Hbs : 0 < bs).
Context (Hinj : ∀ x y, H x = H y → x = y) (Hnone : ∀ x, H x ≠ N) (Hne : ∀ x, H x ≠ []).
Context (sz : string → Z) (Hsz : ∀ h, 0 ≤ sz h).
Context (HW : world_ok W H N bs).
Implicit Types (s : Scheduler Fcfs.FCFSRequestQueue G CS) (st : Step).
Local Abbreviation state_core := (state_core H N bs sz).
Local Abbreviation sched_ok := (sched_ok H N bs sz).

(** ** After the loops *)

Lemma put_back_ok ns skipped s :
  wait_core H N bs sz ns skipped s →
  ∃ w, Sched.put_back skipped s = Ok (set_queues w (running s) s) ∧
    state_core ns (set_queues w (running s) s) ∧
    Fcfs.deque w = Fcfs.deque skipped ++ Fcfs.deque (waiting s).
Proof.
  intros HC. unfold Sched.put_back. cbn [queue_bool queue_iter prepend_requests fcfs_queue].
  destruct (Z.ltb_spec 0 (len (Fcfs.deque skipped))) as [Hpos|Hnil].
  - rewrite Ok_bind. destruct (map_res_total (λ rid, request_of rid s) (Fcfs.deque skipped)) as (rs&->&HF).
    { intros rid Hin. destruct (proj1 (co_queue _ _ _ _ _ _ _ _ _ _ _ HC rid)) as (r&Hr&_); [set_solver|].
      exists r. by apply request_found. }
    rewrite !Ok_bind. assert (request_id <$> rs = Fcfs.deque skipped) as Hids.
    { clear -HF HC. induction HF as [|rid r l rs Hr HF IH]; [done|]. csimpl. f_equal; [|exact IH].
      unfold request_of in Hr. destruct (requests s !! rid) eqn:E; simplify_eq/=.
      by destruct (co_reqs _ _ _ _ _ _ _ _ _ _ _ HC _ _ E). }
    assert (Fcfs.deque (Fcfs.prepend_requests (reverse (request_id <$> rs)) (waiting s)) =
      Fcfs.deque skipped ++ Fcfs.deque (waiting s)) as Hw.
    { cbn. by rewrite foldl_cons_reverse, reverse_involutive, Hids. }
    eexists. split; [done|]. split; [|exact Hw].
    unfold SchedulerSafety.state_core. cbn [config running waiting requests kv_cache_manager encoder_cache_manager set_queues].
    rewrite Hw. eapply core_queue_perm; [exact HC|]. by rewrite Permutation_app_comm.
  - assert (Fcfs.deque skipped = []) as Hsk by (apply len_0_nil; pose proof (len_nonneg (Fcfs.deque skipped)); lia).
    assert (set_queues (waiting s) (running s) s = s) as Hsame by (by destruct s).
    exists (waiting s). rewrite Hsame, Hsk. split_and!; try done.
    unfold wait_core in HC. by rewrite Hsk, app_nil_r in HC.
Qed.

Lemma step_counts c s st :
  step_ok c (running s) st → NoDup (running s) →
  len (scheduled_new_reqs st) + len (scheduled_resumed_reqs st) + len (scheduled_running_reqs st)
    ≤ len (running s).
Proof.
  intros Hst Hnd. pose proof (Permutation_length (st_lists _ _ _ Hst)) as Hl.
  assert ((num_scheduled_tokens st).*1 ⊆+ running s) as Hsub.
  { apply NoDup_submseteq; [apply Hst|]. intros x Hx. by apply (st_running _ _ _ Hst). }
  apply submseteq_length in Hsub. rewrite !length_app in Hl. unfold len. lia.
Qed.

Lemma check_constraints_ok s st :
  step_ok (config s) (running s) st → NoDup (running s) →
  len (running s) ≤ max_num_running_reqs (config s) →
  Sched.check_constraints st s = Ok (sumZ (num_scheduled_tokens st).*2).
Proof.
  intros Hst Hnd Hmax. pose proof (step_counts _ _ _ Hst Hnd).
  pose proof (st_budget _ _ _ Hst). pose proof (st_left _ _ _ Hst).
  unfold Sched.check_constraints.
  rewrite !py_assert_true, !Ok_bind; [done|apply Z.leb_le; lia..].
Qed.

Lemma step_common_prefix_ok ns s :
  state_core ns s →
  ∃ l K, Sched.step_common_prefix s = Ok (l, set_caches (encoder_cache_manager s) K s) ∧
    state_core ns (set_caches (encoder_cache_manager s) K s).
Proof.
  intros HC. unfold Sched.step_common_prefix. destruct (running s) as [|rid R] eqn:HR.
  { eexists _, (kv_cache_manager s). split; [by destruct s|]. by destruct s. }
  destruct (proj1 (co_run _ _ _ _ _ _ _ _ _ _ _ HC rid)) as (r&Hr&Hs); [rewrite HR; by left|].
  rewrite (request_found rid r), Ok_bind by done.
  destruct (core_common_prefix H N bs sz _ _ _ _ _ _ _ rid r (len (rid :: R)) HC Hr Hs) as (l&K&->&HC').
  rewrite Ok_bind. exists l, K. split; [done|]. exact HC'.
Qed.

(** The requests of a step, their blocks and tokens can all be looked up. *)
Lemma scheduled_found c ns s st rid :
  state_core ns s → step_ok c (running s) st →
  rid ∈ scheduled_new_reqs st ++ scheduled_resumed_reqs st ++ scheduled_running_reqs st →
  ∃ r blocks n, request_of rid s = Ok r ∧ req_to_new_blocks st !! rid = Some blocks ∧
    dict_get (num_scheduled_tokens st) rid = Some n.
Proof.
  intros HC Hst. rewrite (st_lists _ _ _ Hst). intros Hin.
  destruct (st_running _ _ _ Hst rid Hin) as [HR [bl Hbl]].
  destruct (proj1 (co_run _ _ _ _ _ _ _ _ _ _ _ HC rid) HR) as (r&Hr&_).
  apply list_elem_of_fmap in Hin as ([x n]&->&Hx). exists r, bl, n.
  split_and!; [by apply request_found|done|]. apply dict_get_in; [apply Hst|done].
Qed.

Lemma make_output_ok ns s st total prefix :
  state_core ns s → step_ok (config s) (running s) st →
  ∃ out M, Sched.make_output W total prefix st s = Ok (out, set_caches M (kv_cache_manager s) s) ∧
    out_num_scheduled_tokens out = num_scheduled_tokens st ∧
    total_num_scheduled_tokens out = total ∧ out_spec_decode_tokens out = ∅ ∧
    cr_req_ids (out_cached_reqs out) = scheduled_running_reqs st ++ scheduled_resumed_reqs st ∧
    nr_req_id <$> out_new_reqs out = scheduled_new_reqs st ∧
    state_core ns (set_caches M (kv_cache_manager s) s).
Proof.
  intros HC Hst. unfold Sched.make_output.
  pose proof (λ rid, scheduled_found _ _ _ _ rid HC Hst) as Hfound.
  destruct (map_res_total (λ rid, r ← request_of rid s; ids ← Sched.block_ids_of rid false st s;
    Ok (from_request r ids)) (scheduled_new_reqs st)) as (news&->&HFn).
  { intros rid Hin. destruct (Hfound rid) as (r&bl&n&->&Hbl&_); [set_solver|].
    unfold Sched.block_ids_of. rewrite Hbl. by eexists. }
  rewrite Ok_bind. unfold Sched.make_cached_request_data.
  destruct (map_res_total (Sched.cached_request_data st s)
    (scheduled_running_reqs st ++ scheduled_resumed_reqs st)) as (cached&->&HFc).
  { intros rid Hin. destruct (Hfound rid) as (r&bl&n&Hr&Hbl&Hn); [set_solver|].
    unfold Sched.cached_request_data, Sched.block_ids_of. rewrite Hr, Ok_bind, Hn, Hbl. by eexists. }
  rewrite !Ok_bind. unfold Sched.get_grammar_bitmask.
  destruct (map_res_total (λ rid, request_of rid s)
    (scheduled_new_reqs st ++ scheduled_running_reqs st ++ scheduled_resumed_reqs st)) as (rs&->&_).
  { intros rid Hin. destruct (Hfound rid) as (r&_&_&Hr&_); [set_solver|]. by exists r. }
  rewrite !Ok_bind. cbn beta iota.
  destruct (Enc.freed_hashes_spec sz (encoder_cache_manager s) (co_enc _ _ _ _ _ _ _ _ _ _ _ HC)) as (HI&_&_).
  destruct (Enc.get_freed_mm_hashes (encoder_cache_manager s)) as [fr M]. cbn beta iota.
  do 2 eexists. split; [reflexivity|]. split_and!; try done.
  - apply Hst.
  - cbn. clear -HFc. revert HFc. generalize (scheduled_running_reqs st ++ scheduled_resumed_reqs st).
    intros ids HFc. induction HFc as [|rid x l k Hx HF IH]; [done|]. csimpl. f_equal; [|exact IH].
    unfold Sched.cached_request_data in Hx. res_inv. done.
  - cbn. clear -HFn HC. revert HFn. generalize (scheduled_new_reqs st). intros new HFn. induction HFn as [|rid x l k Hx HF IH]; [done|]. csimpl. f_equal; [|exact IH].
    apply bind_Ok in Hx as (r&Hr&Hx). apply bind_Ok in Hx as (ids&_&Hx). simplify_eq. cbn.
    unfold request_of in Hr. destruct (requests s !! rid) eqn:E; simplify_eq/=.
    by destruct (co_reqs _ _ _ _ _ _ _ _ _ _ _ HC _ _ E).
  - unfold SchedulerSafety.state_core. cbn. by eapply core_enc.
Qed.

Lemma finish_output_ok ns s out :
  connector s = None → state_core ns s → Sched.finish_output W out s = (out, s).
Proof.
  intros Hcn HC. unfold Sched.finish_output. rewrite Hcn.
  pose proof (so_events _ (sk_setup _ _ _ _ _ (co_kv _ _ _ _ _ _ _ _ _ _ _ HC))) as Hev. simpl in Hev.
  assert (KVM.take_events (kv_cache_manager s) = ([], kv_cache_manager s)) as ->.
  { unfold KVM.take_events, Pool.take_events. rewrite Hev. f_equal.
    by destruct (kv_cache_manager s) as [? ? ? ? ? []]. }
  cbn beta iota zeta. cbn [connector set_caches]. rewrite Hcn. by destruct s.
Qed.

(** ** The bookkeeping after the step *)

Lemma free_encoder_inputs_ok c r s :
  config_ok (config s) → req_ok H N bs sz c r → Enc.enc_inv sz (encoder_cache_manager s) →
  ∃ M, Sched.free_encoder_inputs W r s = Ok (set_caches M (kv_cache_manager s) s) ∧ Enc.enc_inv sz M.
Proof.
  intros Hcf Hok HI. unfold Sched.free_encoder_inputs.
  set (f := λ i M, _). set (ids := input_order W _).
  destruct (for_each_ind f (λ _ M, Enc.enc_inv sz M) ids (encoder_cache_manager s) HI) as (M&->&HM).
  - intros dn i rest M Hids HM. unfold f.
    assert (i ∈ Enc.get_cached_input_ids r (encoder_cache_manager s)) as Hi.
    { apply elem_of_elements. rewrite <-(wo_inputs _ _ _ _ HW). fold ids. rewrite Hids. set_solver. }
    apply Enc.cached_ids_spec in Hi as (g&Hg&_).
    rewrite (Enc.feature_index r i g), Ok_bind by done. rewrite (cf_encdec _ Hcf). cbn [andb orb].
    destruct (_ <=? _); [|by exists M].
    destruct (Enc.free_encoder_input_spec sz Hsz M r i g) as (M'&->&HM'&_); [done|done|apply Hok|by exists M'].
  - rewrite Ok_bind. by exists M.
Qed.

(** What [advance] does to the requests: those of [ns] have their tokens added. *)
Definition advanced (ns : list (string * Z)) (m : gmap string Request) : gmap string Request :=
  map_imap (λ rid r, Some (if decide (rid ∈ ns.*1)
    then set_num_computed_tokens (num_computed_tokens r + tokens_of ns rid) r else r)) m.

Lemma advanced_lookup ns m rid r :
  m !! rid = Some r → rid ∈ ns.*1 →
  advanced ns m !! rid = Some (set_num_computed_tokens (num_computed_tokens r + tokens_of ns rid) r).
Proof. intros Hr Hin. unfold advanced. rewrite map_lookup_imap, Hr. simpl. by rewrite decide_True. Qed.

Lemma advanced_nil m : advanced [] m = m.
Proof.
  apply map_eq. intros x. unfold advanced. rewrite map_lookup_imap. by destruct (m !! x).
Qed.

Lemma advanced_cons rid n ns m r :
  rid ∉ ns.*1 → m !! rid = Some r →
  advanced ns (<[rid := set_num_computed_tokens (num_computed_tokens r + n) r]> m) = advanced ((rid, n) :: ns) m.
Proof.
  intros Hnew Hr. apply map_eq. intros x. unfold advanced. rewrite !map_lookup_imap, lookup_insert.
  destruct (decide (rid = x)) as [<-|Hx].
  - rewrite Hr. cbn [mbind option_bind]. rewrite decide_False, decide_True by set_solver.
    rewrite tokens_of_cons, decide_True by done. done.
  - destruct (m !! x) as [q|]; [|done]. cbn [mbind option_bind]. rewrite tokens_of_cons, (decide_False (P := x = rid)) by done.
    f_equal. destruct (decide (x ∈ ns.*1)); [rewrite decide_True by set_solver|rewrite decide_False by set_solver]; done.
Qed.

Lemma advance_all ns s :
  config_ok (config s) → state_core ns s → NoDup ns.*1 → (∀ rid, rid ∈ ns.*1 → rid ∈ running s) →
  Forall (λ x, 0 < x.2) ns →
  ∃ s', for_each (Sched.advance W) ns s = Ok s' ∧ state_core [] s' ∧ same_rest s s' ∧
    running s' = running s ∧ requests s' = advanced ns (requests s) ∧
    kv_cache_manager s' = kv_cache_manager s.
Proof.
  induction ns as [|[rid n] ns IH] in s |- *; intros Hcf HC Hnd Hin Hpos.
  { exists s. rewrite advanced_nil. by split_and!. }
  apply NoDup_cons in Hnd as [Hnew Hnd]. apply Forall_cons in Hpos as [Hp Hpos]. simpl in Hp. cbn [for_each Sched.advance].
  destruct (proj1 (co_run _ _ _ _ _ _ _ _ _ _ _ HC rid)) as (r&Hr&Hs); [apply Hin; by left|].
  rewrite (request_found rid r), Ok_bind by done.
  destruct (co_reqs _ _ _ _ _ _ _ _ _ _ _ HC _ _ Hr) as (Hid&Hok&[[_ Hnc]|[?%queued_not_running _]]); [|done].
  set (r' := set_num_computed_tokens (num_computed_tokens r + n) r).
  set (s1 := set_requests (<[rid := r']> (requests s)) s).
  assert (state_core ns s1) as HC1.
  { pose proof HC as [Hkv Hst He Hreqs Hr1 Hr2 Hq1 Hq2]. unfold SchedulerSafety.state_core. cbn.
    split; try done.
    - unfold r'. rewrite live_advance by done. exact Hkv.
    - intros x q. rewrite lookup_insert. case_decide; [|by apply Hreqs]. intros [= <-]. subst x.
      split_and!; [done|by apply req_ok_computed|left; split; [done|cbn; lia]].
    - intros x. by rewrite Hr2, (replace_iff (λ q, status q = RUNNING) _ rid r r').
    - intros x. by rewrite Hq2, (replace_iff (λ q, status q ≠ RUNNING) _ rid r r'). }
  assert (∃ M, (if has_encoder_inputs r' then Sched.free_encoder_inputs W r' s1 else Ok s1) =
      Ok (set_caches M (kv_cache_manager s1) s1) ∧ Enc.enc_inv sz M) as (M&->&HM).
  { destruct (has_encoder_inputs r').
    - apply (free_encoder_inputs_ok (config s)); [done|by apply req_ok_computed|apply HC1].
    - exists (encoder_cache_manager s1). split; [by destruct s1|apply HC1]. }
  rewrite Ok_bind. set (s2 := set_caches M (kv_cache_manager s1) s1).
  destruct (IH s2) as (s'&->&HC'&Hrest&HR&Hreq&HK); [done| |done| |done|].
  - unfold SchedulerSafety.state_core. cbn. by eapply core_enc.
  - intros x Hx. apply Hin. by right.
  - exists s'. split_and!; try done. rewrite Hreq. unfold s2, s1. cbn. by apply advanced_cons.
Qed.

(** ** [schedule] *)

(** What a step promises: the tokens of different running requests, each with at
    least one, together within the budget. *)
Record output_ok (s : Scheduler Fcfs.FCFSRequestQueue G CS) (out : SchedulerOutput Blob)
    (s' : Scheduler Fcfs.FCFSRequestQueue G CS) : Prop := {
  oo_distinct : NoDup (out_num_scheduled_tokens out).*1;
  oo_positive : ∀ rid n, (rid, n) ∈ out_num_scheduled_tokens out → 0 < n;
  oo_total : total_num_scheduled_tokens out = sumZ (out_num_scheduled_tokens out).*2;
  oo_budget : total_num_scheduled_tokens out ≤ max_num_scheduled_tokens (config s);
  oo_lists : (nr_req_id <$> out_new_reqs out) ++ cr_req_ids (out_cached_reqs out)
    ≡ₚ (out_num_scheduled_tokens out).*1;
  oo_running : ∀ rid n, (rid, n) ∈ out_num_scheduled_tokens out →
    ∃ r, requests s' !! rid = Some r ∧ status r = RUNNING ∧ rid ∈ running s' ∧
      n ≤ num_computed_tokens r ≤ num_tokens r ∧
      Forall (λ M, required (num_computed_tokens r) 0 M ≤ len (blocks_of M rid))
        (managers_of (kv_cache_manager s'));
  oo_spec : out_spec_decode_tokens out = ∅;
}.

Lemma running_slots K hw r :
  running_ok K hw r → (∃ fl, kv_inv K fl) → setup_ok K →
  Forall (λ M, required (num_computed_tokens r) 0 M ≤ len (blocks_of M (request_id r))) (managers_of K).
Proof.
  intros Hrun [fl HK] Hset. destruct (managers_ok K fl HK (so_caching _ Hset)) as [Hb HMs].
  apply Forall_forall. intros M HM.
  pose proof (ro_tables _ _ _ Hrun) as Ht. rewrite Forall_forall in Ht. destruct (Ht M HM) as [-> _].
  destruct (HMs M HM) as (Hbs'&Hcr&_). apply required_mono; [lia|done|]. apply Hrun.
Qed.

Lemma schedule_ok now s :
  sched_ok s →
  ∃ out s', Sched.schedule W now s = Ok (out, s') ∧ sched_ok s' ∧ same_rest s s' ∧ output_ok s out s'.
Proof.
  intros [Hcf Hcn HC Hmax]. unfold Sched.schedule.
  destruct (running_loop_ok W H N bs Hbs Hinj Hnone Hne sz Hsz HW (S (length (running s))) now 0
    (first_step (config s)) s Hcf) as (st1&s1&->&HC1&Hst1&[Hc1 Hn1]&Hlen1); [exact HC| | |lia|].
  { by apply first_step_ok. } { by intros x ?%elem_of_nil. }
  rewrite Ok_bind. cbn beta iota.
  destruct (map_res_total (λ rid, request_of rid s1) (scheduled_running_reqs st1)) as (rs&->&_).
  { intros rid Hin. destruct (scheduled_found _ _ _ _ rid HC1 Hst1) as (r&_&_&Hr&_); [set_solver|].
    by exists r. }
  rewrite Ok_bind. unfold Sched.running_loras. rewrite Hc1, (cf_loras _ Hcf), Ok_bind.
  rewrite (wo_queue _ _ _ _ HW).
  assert (∃ st2 sk2 s2, match preempted_reqs st1 with
      | [] => Sched.waiting_loop W (S (Z.to_nat (queue_len (waiting s1)))) now (Fcfs.mkFcfs []) ∅ st1 s1
      | _ => Ok (st1, Fcfs.mkFcfs [], s1) end = Ok (st2, sk2, s2) ∧
    loop_result H N bs sz s1 st2 sk2 s2) as (st2&sk2&s2&->&HC2&Hst2&[Hc2 Hn2]&Hmax2).
  { assert (loop_result H N bs sz s1 st1 (Fcfs.mkFcfs []) s1) as Hres.
    { split_and!; [|done|done|rewrite Hc1; unfold len in *; lia]. unfold wait_core. cbn. by rewrite app_nil_r. }
    destruct (preempted_reqs st1); [|by do 3 eexists].
    apply (waiting_loop_ok W H N bs Hbs Hinj Hnone Hne sz Hsz HW); [by rewrite Hc1|congruence|done|].
    cbn [queue_len fcfs_queue]. unfold len. lia. }
  rewrite Ok_bind. cbn beta iota.
  destruct (put_back_ok _ _ _ HC2) as (w&->&HC3&_). rewrite Ok_bind. set (s3 := set_queues w (running s2) s2) in *.
  assert (config s3 = config s) as Hc3 by (cbn; congruence).
  rewrite (check_constraints_ok s3 st2), Ok_bind; [|done|apply HC3|done].
  destruct (step_common_prefix_ok _ _ HC3) as (prefix&K4&->&HC4). rewrite Ok_bind. cbn beta iota.
  set (s4 := set_caches (encoder_cache_manager s3) K4 s3) in *.
  destruct (make_output_ok _ s4 st2 (sumZ (num_scheduled_tokens st2).*2) prefix HC4 Hst2)
    as (out&M5&->&Hns&Htot&Hspec&Hcr&Hnr&HC5).
  rewrite Ok_bind. cbn beta iota. set (s5 := set_caches M5 (kv_cache_manager s4) s4) in *.
  assert (connector s5 = None) as Hcn5 by (cbn; congruence).
  rewrite (finish_output_ok _ s5 out Hcn5 HC5). cbn beta iota. rewrite Hns.
  unfold Sched.update_after_schedule.
  destruct (advance_all (num_scheduled_tokens st2) s5) as (s6&->&HC6&[Hc6 Hn6]&HR6&Hreq6&HK6).
  { by rewrite (Hc3 : config s5 = _). } { exact HC5. } { apply Hst2. }
  { intros rid Hin. by apply (st_running _ _ _ Hst2). } { apply Hst2. }
  assert (config s6 = config s) as Hc6' by (rewrite Hc6; exact Hc3).
  rewrite Ok_bind. cbn zeta. cbn [config set_finished]. rewrite Hc6', (cf_async _ Hcf), Ok_bind.
  do 2 eexists. split; [done|]. split_and!.
  - split; cbn [config connector set_finished running waiting requests kv_cache_manager encoder_cache_manager].
    + by rewrite Hc6'.
    + congruence.
    + exact HC6.
    + rewrite HR6, Hc6'. rewrite (Hc2 : config s2 = _), Hc1 in Hmax2. exact Hmax2.
  - split; cbn; congruence.
  - pose proof (st_budget _ _ _ Hst2) as Hbud. pose proof (st_left _ _ _ Hst2). rewrite Hc2, Hc1 in Hbud.
    split; rewrite ?Hns, ?Htot; try apply Hst2; try done.
    + pose proof (st_pos _ _ _ Hst2) as Hp. rewrite Forall_forall in Hp. intros rid n Hin. by apply (Hp (rid, n)).
    + lia.
    + rewrite Hnr, Hcr, <-(st_lists _ _ _ Hst2). apply Permutation_app_head, Permutation_app_comm.
    + intros rid n Hin. assert (rid ∈ (num_scheduled_tokens st2).*1) as Hin' by (apply list_elem_of_fmap; by exists (rid, n)).
      destruct (st_running _ _ _ Hst2 rid Hin') as [HR _].
      destruct (proj1 (co_run _ _ _ _ _ _ _ _ _ _ _ HC5 rid) HR) as (r&Hr&Hs).
      pose proof (advanced_lookup (num_scheduled_tokens st2) _ _ _ Hr Hin') as Hadv. rewrite <-Hreq6 in Hadv.
      assert (tokens_of (num_scheduled_tokens st2) rid = n) as Htok.
      { unfold tokens_of. by rewrite (dict_get_in _ _ n) by (done || apply Hst2). }
      destruct (co_reqs _ _ _ _ _ _ _ _ _ _ _ HC5 _ _ Hr) as (Hid&_&[[_ Hpos]|[?%queued_not_running _]]); [|done].
      destruct (live_unscheduled H N bs sz [] s6 rid _ HC6 Hadv Hs (not_elem_of_nil _)) as [hw Hrun].
      eexists. split; [exact Hadv|]. rewrite Htok in *. split_and!; [done|cbn; by rewrite HR6|cbn; lia|apply Hrun|].
      pose proof (co_kv _ _ _ _ _ _ _ _ _ _ _ HC6) as HS6.
      pose proof (running_slots _ _ _ Hrun (sk_inv _ _ _ _ _ HS6) (sk_setup _ _ _ _ _ HS6)) as Hslots.
      cbn in Hslots. by rewrite Hid in Hslots.
Qed.
End step.
