(* ===== verification/SchedulerUpdate.v ===== *)
(** * The scheduler is safe: updates, arrivals and ends

    [update_from_output], [add_request] and [finish_requests], and the tokens a
    request keeps of those the model sampled. *)
From S2P Require Import Prelude FreeQueue Request BlockHash BlockMap BlockPool KVSpecs SingleType Coordinator KVManager EncoderCache RequestQueue KVConfig System Scheduler SchedulerCases EncoderPlan SchedulerInv SchedulerSafety SchedulerWaiting SchedulerStep.

(** ** The tokens that are kept *)

(** The [k]-th sampled token [t] ends the request. *)
Definition ends (c : SchedulerConfig) (r : Request) (sp : SamplingParams) (k t : Z) : bool :=
  (max_len c <=? num_tokens r + k) || (max_tokens r <=? num_output_tokens r + k)
  || (negb (ignore_eos sp) && bool_decide (eos_token_id r = Some t))
  || bool_decide (t ∈ default [] (stop_token_ids sp)).

(** The tokens up to and including the first that ends the request. *)
Fixpoint up_to_end (c : SchedulerConfig) (r : Request) (sp : SamplingParams) (k : Z) (tokens : list Z)
  : list Z * bool :=
  match tokens with
  | [] => ([], false)
  | t :: tokens =>
      if ends c r sp k t then ([t], true)
      else let '(kept, b) := up_to_end c r sp (k + 1) tokens in (t :: kept, b)
  end.

(** What appending tokens leaves alone. *)
Definition same_identity (r r' : Request) : Prop :=
  request_id r' = request_id r ∧ num_computed_tokens r' = num_computed_tokens r ∧
  mm_features r' = mm_features r ∧ sampling_params r' = sampling_params r ∧
  pooling_params r' = pooling_params r ∧ eos_token_id r' = eos_token_id r ∧
  max_tokens r' = max_tokens r ∧ spec_token_ids r' = spec_token_ids r ∧
  num_output_placeholders r' = num_output_placeholders r ∧ client_index r' = client_index r.

#[export] Instance same_identity_pre : PreOrder same_identity.
Proof. split; [by intros r|]. intros r1 r2 r3 (?&?&?&?&?&?&?&?&?&?) (?&?&?&?&?&?&?&?&?&?). split_and!; congruence. Qed.

Lemma ends_snoc c r r' sp k t x :
  same_identity r r' → num_tokens r' = num_tokens r + 1 → num_output_tokens r' = num_output_tokens r + 1 →
  x = k + 1 → ends c r' sp k t = ends c r sp x t.
Proof.
  intros (_&_&_&_&_&He&Hm&_) Ht Ho ->. unfold ends. rewrite Ht, Ho, He, Hm.
  do 2 f_equal. f_equal; f_equal; lia.
Qed.

Lemma up_to_end_snoc c r r' sp k tokens x :
  same_identity r r' → num_tokens r' = num_tokens r + 1 → num_output_tokens r' = num_output_tokens r + 1 →
  x = k + 1 → up_to_end c r' sp k tokens = up_to_end c r sp x tokens.
Proof.
  intros Hsame Ht Ho. induction tokens as [|t tokens IH] in k, x |- *; intros ->; [done|]. simpl.
  rewrite (ends_snoc c r r' sp k t (k + 1)) by done. case_match; [done|].
  by rewrite (IH (k + 1) (k + 1 + 1)).
Qed.

Lemma py_index_last {A} (l : list A) (x : A) : py_index (l ++ [x]) (-1) = Ok x.
Proof.
  unfold py_index. cbn [Z.ltb Z.compare].
  assert (len (l ++ [x]) + -1 = len l) as -> by (rewrite len_app; change (len [x]) with 1; lia).
  pose proof (len_nonneg l). rewrite (proj2 (Z.ltb_ge _ _)) by lia.
  unfold len. by rewrite Nat2Z.id, lookup_app_r, Nat.sub_diag by done.
Qed.

Section tokens.
Context {G CS Blob : Type} (W : World Fcfs.FCFSRequestQueue G CS Blob).
Context (H : bytes * list Z * option (list ExtraKey) → bytes) (N : bytes) (bs : Z) (Hbs : 0 < bs).
Context (Hhash : block_hasher W = Some (request_block_hasher H N bs)).

(** One token: the request ends exactly when [ends] says so. *)
Lemma append_one c r sp t :
  hashes_wf H N bs r → sampling_params r = Some sp → pooling_params r = None →
  ∃ r1 b r', append_output_token_ids (block_hasher W) [t] r = Ok r1 ∧
    check_stop r1 (max_len c) false = Ok (b, r') ∧ b = ends c r sp 1 t ∧
    same_identity r r' ∧ all_token_ids r' = all_token_ids r ++ [t] ∧
    output_token_ids r' = output_token_ids r ++ [t] ∧
    hashes_wf H N bs r' ∧ len (block_hashes r') = num_tokens r' / bs ∧
    (if b then is_finished r' = true else status r' = status r).
Proof.
  intros Hwf Hsp Hpp. rewrite Hhash.
  destruct (append_hashes H N bs Hbs r [t] Hwf) as (r1&Happ&Hwf1&Hfull&_&Hall&Hmm).
  assert (same_identity r r1 ∧ output_token_ids r1 = output_token_ids r ++ [t] ∧ status r1 = status r)
    as ((Hi&?&?&Hsp1&Hpp1&He1&Hm1&?)&Hout&Hst1).
  { unfold append_output_token_ids in Happ. res_inv. done. }
  assert (num_tokens r1 = num_tokens r + 1 ∧ num_output_tokens r1 = num_output_tokens r + 1) as [Ht Ho].
  { unfold num_tokens, num_output_tokens. rewrite Hall, Hout, !len_app. done. }
  exists r1. unfold check_stop. rewrite Ht, Ho, Hm1, Hpp1, Hpp, Hsp1, Hsp. cbn [of_option].
  rewrite Ok_bind, Hout, py_index_last, Ok_bind, He1.
  unfold ends. destruct ((max_len c <=? _) || _) eqn:Hlen; simpl.
  { do 2 eexists. split_and!; done. }
  destruct (negb (ignore_eos sp) && _); simpl.
  { do 2 eexists. split_and!; done. }
  case_bool_decide as Hstop.
  { do 2 eexists. split_and!; done. }
  do 2 eexists. split_and!; done.
Qed.

(** The loop keeps exactly the tokens up to the first that ends the request. *)
Lemma append_until_stop_ok c r sp tokens kept0 :
  hashes_wf H N bs r → len (block_hashes r) = num_tokens r / bs → num_tokens r < max_len c →
  sampling_params r = Some sp → pooling_params r = None →
  ∃ kept b r', Sched.append_until_stop W c r tokens kept0 = Ok (kept0 ++ kept, b, r') ∧
    up_to_end c r sp 1 tokens = (kept, b) ∧ same_identity r r' ∧
    all_token_ids r' = all_token_ids r ++ kept ∧ output_token_ids r' = output_token_ids r ++ kept ∧
    hashes_wf H N bs r' ∧ len (block_hashes r') = num_tokens r' / bs ∧
    (if b then is_finished r' = true else status r' = status r ∧ num_tokens r' < max_len c).
Proof.
  induction tokens as [|t tokens IH] in r, kept0 |- *; intros Hwf Hfull Hlt Hsp Hpp.
  { exists [], false, r. cbn. rewrite !app_nil_r. by split_and!. }
  cbn [Sched.append_until_stop up_to_end].
  destruct (append_one c r sp t Hwf Hsp Hpp) as (r1&b&r2&->&Hcheck&Hb&Hsame&Hall&Hout&Hwf2&Hfull2&Hst).
  rewrite Ok_bind, Hcheck, Ok_bind. cbn beta iota. rewrite <-Hb. destruct b.
  { exists [t], true, r2. by split_and!. }
  pose proof Hsame as (_&_&_&Hsp2&Hpp2&_).
  assert (num_tokens r2 = num_tokens r + 1 ∧ num_output_tokens r2 = num_output_tokens r + 1) as [Ht Ho].
  { unfold num_tokens, num_output_tokens. rewrite Hall, Hout, !len_app. done. }
  destruct (IH r2 (kept0 ++ [t])) as (kept&b&r'&->&Hup&Hsame'&Hall'&Hout'&Hwf'&Hfull'&Hst');
    [done|done| |congruence|congruence|].
  { symmetry in Hb. unfold ends in Hb. rewrite !orb_false_iff, Z.leb_gt in Hb. lia. }
  rewrite (up_to_end_snoc c r r2 sp 1 tokens (1 + 1)) in Hup by done. rewrite Hup.
  exists (t :: kept), b, r'. rewrite <-app_assoc. split_and!; try done.
  - by etrans.
  - by rewrite Hall', Hall, <-app_assoc.
  - by rewrite Hout', Hout, <-app_assoc.
  - destruct b; [done|]. by rewrite <-Hst.
Qed.
End tokens.

(** ** Freeing a request that has ended *)

Lemma remove_all_spec l X : NoDup l → remove_all l X = filter (.∉ X) l.
Proof.
  intros Hnd. unfold remove_all. destruct (elements X) as [|x [|y xs]] eqn:HX.
  - apply elements_empty_inv in HX. symmetry. apply filter_id. intros x _. set_solver.
  - assert (∀ y, y ∈ X ↔ y = x) as Hx.
    { intros y. by rewrite <-elem_of_elements, HX, list_elem_of_singleton. }
    assert (match Fcfs.deque_remove x l with Ok l' => l' | Err _ => l end = filter (.≠ x) l) as ->.
    { clear HX Hx X. induction Hnd as [|z l Hz Hnd IH]; [done|]. simpl. rewrite filter_cons.
      destruct (decide (z = x)) as [->|Hzx].
      - rewrite decide_False by naive_solver. symmetry. apply filter_id. intros ? ? ->. done.
      - rewrite decide_True by done. rewrite <-IH. by destruct (Fcfs.deque_remove x l). }
    apply filter_ext_elem. intros y _. by rewrite Hx.
  - done.
Qed.

Section ending.
Context {G CS Blob : Type} (W : World Fcfs.FCFSRequestQueue G CS Blob).
Context (H : bytes * list Z * option (list ExtraKey) → bytes) (N : bytes) (bs : Z) (Hbs : 0 < bs).
Context (Hinj : ∀ x y, H x = H y → x = y) (Hnone : ∀ x, H x ≠ N) (Hne : ∀ x, H x ≠ []).
Context (sz : string → Z) (Hsz : ∀ h, 0 ≤ sz h).
Context (HW : world_ok W H N bs).
Implicit Types (s : Scheduler Fcfs.FCFSRequestQueue G CS).
Local Abbreviation core := (core H N bs sz).
Local Abbreviation sched_ok := (sched_ok H N bs sz).

(** What ending requests and updating them leaves alone. *)
Definition same_lists s s' : Prop :=
  same_rest s s' ∧ running s' = running s ∧ waiting s' = waiting s.

#[local] Instance same_lists_pre : PreOrder same_lists.
Proof.
  split; [by intros s|]. intros s1 s2 s3 ((?&?)&?&?) ((?&?)&?&?). split_and!; [split|..]; congruence.
Qed.

Lemma filter_filter_sing (l : list string) x (X : gset string) :
  filter (.≠ x) (filter (.∉ X) l) = filter (.∉ X ∪ {[x]}) l.
Proof. rewrite list_filter_filter. apply filter_ext_elem. set_solver. Qed.

(** A finished request is freed, whatever list it was in. *)
Lemma free_one c R Q m r r0 s :
  connector s = None → requests s = <[request_id r := r]> m → m !! request_id r = Some r0 →
  is_finished r = true → Enc.sized sz r →
  core c [] R Q m (kv_cache_manager s) (encoder_cache_manager s) →
  ∃ s', Sched.free_request W r s = Ok (None, s') ∧ requests s' = delete (request_id r) m ∧
    core c [] (filter (.≠ request_id r) R) (filter (.≠ request_id r) Q) (requests s')
      (kv_cache_manager s') (encoder_cache_manager s') ∧ same_lists s s' ∧
    finished_req_ids s' = finished_req_ids s ∪ {[request_id r]}.
Proof.
  intros Hcn Hreqs Hr Hfin Hsized HC. unfold Sched.free_request, Sched.connector_finished.
  rewrite Hfin, py_assert_true, Ok_bind, Hcn, Ok_bind by done. cbn beta iota.
  destruct (Enc.enc_free_spec sz Hsz (input_order W) (encoder_cache_manager s) r) as (M&->&HI&_);
    [apply HW|apply HC|done|].
  rewrite Ok_bind. cbn zeta iota. unfold Sched.free_blocks. rewrite Hfin, py_assert_true, Ok_bind by done.
  destruct (sk_inv _ _ _ _ _ (co_kv _ _ _ _ _ _ _ _ _ _ _ HC)) as [fl HK]. simpl in HK.
  destruct (finish_spec _ fl HK r) as (K&HKf&Hcall&Hno).
  cbn [kv_cache_manager set_finished set_caches encoder_cache_manager]. rewrite HKf, Ok_bind.
  rewrite (request_found _ r) by (cbn; by rewrite Hreqs, lookup_insert_eq). rewrite Ok_bind.
  eexists. split; [done|]. cbn. rewrite Hreqs, delete_insert_eq.
  split_and!; try done. eapply core_enc; [|done]. by apply core_delete with (kv_cache_manager s).
Qed.

(** ** One scheduled request *)

(** The answer of the model to a step: a row for each of its requests. *)
Record answer_ok (out : SchedulerOutput Blob) (mo : ModelRunnerOutput Blob) : Prop := {
  an_pooler : pooler_output mo = [];
  an_connector : kv_connector_output mo = None;
  an_drafts : out_spec_decode_tokens out = ∅;
  an_distinct : NoDup (out_num_scheduled_tokens out).*1;
  an_positive : ∀ rid n, (rid, n) ∈ out_num_scheduled_tokens out → 0 < n;
  an_rows : ∀ rid, rid ∈ (out_num_scheduled_tokens out).*1 → ∃ i, req_id_to_index mo !! rid = Some i ∧
    (sampled_token_ids mo = [] ∨ ∃ row, py_index (sampled_token_ids mo) i = Ok row);
  an_prompt : ∀ rid, default None (prompt_logprobs_dict mo !! rid) = None;
}.

(** The tokens the model sampled for a request. *)
Definition sampled (mo : ModelRunnerOutput Blob) (rid : string) : list Z :=
  match req_id_to_index mo !! rid with
  | Some i => match py_index (sampled_token_ids mo) i with Ok row => row | Err _ => [] end
  | None => []
  end.

(** A request [r] that got the tokens [kept]; [b] when it ended. *)
Definition grown (c : SchedulerConfig) (r : Request) (gen kept : list Z) (b : bool) (r' : Request) : Prop :=
  (∃ sp, sampling_params r = Some sp ∧ up_to_end c r sp 1 gen = (kept, b)) ∧ same_identity r r' ∧
  all_token_ids r' = all_token_ids r ++ kept ∧ output_token_ids r' = output_token_ids r ++ kept ∧
  (if b then is_finished r' = true else status r' = status r ∧ num_tokens r' < max_len c).

Lemma apply_output_ok mo i gen r s :
  config_ok (config s) → pooler_output mo = [] → req_ok H N bs sz (config s) r →
  ∃ kept b r', Sched.apply_output W mo i gen r s = Ok (kept, b, None, r', s) ∧
    grown (config s) r gen kept b r' ∧ Enc.sized sz r' ∧
    (b = false → req_ok H N bs sz (config s) r') ∧ num_tokens r ≤ num_tokens r'.
Proof.
  intros Hcf Hpool Hok. destruct (qo_sampling _ _ _ _ _ _ Hok) as [sp Hsp].
  pose proof Hok as [[Hwf Hfull Htok] Hlt Hsized Hspec Hplace _ Hpp].
  unfold Sched.apply_output. rewrite Hpool.
  destruct (append_until_stop_ok W H N bs Hbs (wo_hasher _ _ _ _ HW) (config s) r sp gen [])
    as (kept&b&r'&Hrun&Hup&Hsame&Hall&Hout&Hwf'&Hfull'&Hst); [done..|].
  assert (num_tokens r ≤ num_tokens r') as Hgrow.
  { unfold num_tokens. rewrite Hall, len_app. pose proof (len_nonneg kept). lia. }
  assert (match gen with [] => Ok ([], false, r, s)
    | _ => Sched.update_request_with_output W r gen s end = Ok (kept, b, r', s)) as ->.
  { destruct gen; [cbn in Hrun; by injection Hrun as <- <- <-|].
    unfold Sched.update_request_with_output. by rewrite Hrun, Ok_bind, (cf_async _ Hcf). }
  rewrite Ok_bind. exists kept, b, r'. pose proof Hsame as (?&?&Hmm&Hsp'&Hpp'&_&_&Hspec'&Hplace'&_).
  assert (Enc.sized sz r') as Hsized' by (unfold Enc.sized; by rewrite Hmm).
  split_and!; [done| |done| |done].
  - split_and!; [by exists sp|done..].
  - intros ->. destruct Hst. split; [split; [done|done|lia]| |done|congruence..| |congruence]; [done|].
    rewrite Hsp'. by eexists.
Qed.

(** Between two requests of the loop: those that stopped are still in the lists. *)
Definition update_core (up : Sched.Update (Blob := Blob)) s : Prop :=
  core (config s) [] (filter (.∉ Sched.stopped_running_reqs up) (running s))
    (filter (.∉ Sched.stopped_preempted_reqs up) (Fcfs.deque (waiting s))) (requests s)
    (kv_cache_manager s) (encoder_cache_manager s).

(** Storing a request that has grown, then freeing it if it stopped. *)
Lemma stop_request_ok up r r' b s gen kept :
  connector s = None → update_core up s → requests s !! request_id r = Some r →
  grown (config s) r gen kept b r' → Enc.sized sz r' → (b = false → req_ok H N bs sz (config s) r') →
  num_tokens r ≤ num_tokens r' →
  ∃ up' s', Sched.stop_request W b (status r) r' up (Sched.write r' s) = Ok (None, up', s') ∧
    update_core up' s' ∧ same_lists s s' ∧ Sched.up_outputs up' = Sched.up_outputs up ∧
    requests s' = (if b then delete (request_id r) (requests s) else <[request_id r := r']> (requests s)) ∧
    finished_req_ids s' = (if b then finished_req_ids s ∪ {[request_id r]} else finished_req_ids s).
Proof.
  intros Hcn HC Hr (_&(Hid&Hnc&_)&_&_&Hst) Hsized Hok Hgrow. unfold Sched.stop_request, Sched.write.
  assert (requests (update_request (λ _, r') (request_id r') s) = <[request_id r' := r']> (requests s)) as Hreqs.
  { cbn. rewrite Hid. by rewrite (alter_found _ _ _ r). }
  destruct b.
  - destruct (free_one (config s) (filter (.∉ Sched.stopped_running_reqs up) (running s))
      (filter (.∉ Sched.stopped_preempted_reqs up) (Fcfs.deque (waiting s))) (requests s) r' r
      (update_request (λ _, r') (request_id r') s)) as (s'&->&Hdel&HC'&Hsame&Hfin); try done.
    { by rewrite Hid. }
    rewrite Ok_bind. cbn beta iota zeta.
    assert (same_lists s s') as Hs by (etrans; [|exact Hsame]; done).
    pose proof Hs as ((Hcfg&_)&HR&HQ). rewrite Hid in *.
    do 2 eexists. split; [done|]. split_and!; [|done|by destruct (status r)|done|done].
    unfold update_core. rewrite HR, HQ, Hcfg.
    destruct (co_reqs _ _ _ _ _ _ _ _ _ _ _ HC _ _ Hr) as (_&_&[[Hs' _]|[Hq _]]).
    + rewrite Hs'. cbn. rewrite <-filter_filter_sing.
      rewrite (filter_id _ (filter (.∉ Sched.stopped_preempted_reqs up) _)) in HC'; [exact HC'|].
      intros x Hx ->. apply (co_queue _ _ _ _ _ _ _ _ _ _ _ HC) in Hx as (q&?&?). congruence.
    + rewrite (filter_id _ (filter (.∉ Sched.stopped_running_reqs up) _)) in HC'.
      * destruct Hq as [->|[->| ->]]; cbn; by rewrite <-filter_filter_sing.
      * intros x Hx ->. apply (co_run _ _ _ _ _ _ _ _ _ _ _ HC) in Hx as (q&?&?).
        apply queued_not_running in Hq. congruence.
  - destruct Hst as [Hst _]. do 2 eexists. split; [done|]. rewrite <-Hid.
    split_and!; [|done|done|done|done]. unfold update_core. rewrite Hreqs.
    cbn [config update_request running waiting kv_cache_manager encoder_cache_manager set_requests].
    eapply core_write; [exact Hinj|exact Hnone|exact Hne|exact HC|by rewrite Hid|done|by apply Hok|by left|done|done].
Qed.

Lemma grown_nans c r gen kept b r' n : grown c r gen kept b r' → grown c r gen kept b (set_num_nans_in_logits n r').
Proof. done. Qed.
Lemma grown_events c r gen kept b r' es : grown c r gen kept b r' → grown c r gen kept b (set_events es r').
Proof. done. Qed.

(** What is stored back, after the call that may have freed the request. *)
Lemma write_back_ok up s r r' r'' b gen kept :
  update_core up s → grown (config s) r gen kept b r' → grown (config s) r gen kept b r'' →
  (b = false → req_ok H N bs sz (config s) r'') →
  requests s !! request_id r = (if b then None else Some r') →
  let s' := Sched.write r'' s in
  update_core up s' ∧ requests s' !! request_id r = (if b then None else Some r'') ∧
  same_lists s s' ∧ finished_req_ids s' = finished_req_ids s ∧
  (∀ x, x ≠ request_id r → requests s' !! x = requests s !! x).
Proof.
  intros HC (_&(Hid1&Hnc1&_)&Hall1&_&Hst1) (_&(Hid2&Hnc2&_)&Hall2&_&Hst2) Hok Hr. cbn zeta.
  assert (requests (Sched.write r'' s) = if b then requests s else <[request_id r := r'']> (requests s)) as Hreqs.
  { unfold Sched.write. cbn. rewrite Hid2. destruct b.
    - apply map_eq. intros x. rewrite lookup_alter. case_decide; [|done]. subst x. by rewrite Hr.
    - by rewrite (alter_found _ _ _ r'). }
  split_and!; [|rewrite Hreqs; by destruct b; [|rewrite lookup_insert_eq]|done|done|].
  - unfold update_core. rewrite Hreqs. cbn [config Sched.write update_request running waiting kv_cache_manager encoder_cache_manager set_requests].
    destruct b; [exact HC|].
    assert (num_tokens r'' = num_tokens r') as Htok by (unfold num_tokens; congruence).
    destruct Hst1, Hst2. eapply core_write; [exact Hinj|exact Hnone|exact Hne|exact HC|exact Hr|done|by apply Hok| | |lia];
      [left|]; congruence.
  - intros x Hx. rewrite Hreqs. by destruct b; [|rewrite lookup_insert_ne].
Qed.

(** The message about a request carries the tokens it kept. *)
Definition message_ok (r r' : Request) (kept : list Z) (outs outs' : list (Z * list (EngineCoreOutput Blob))) : Prop :=
  match kept with
  | [] => outs' = outs
  | _ => ∃ o, outs' = Sched.add_output (client_index r) o outs ∧ co_request_id o = request_id r ∧
      co_new_token_ids o = kept ∧ co_finish_reason o = get_finished_reason r'
  end.

Lemma update_one_ok out mo rid n up s r :
  config_ok (config s) → connector s = None → answer_ok out mo →
  (rid, n) ∈ out_num_scheduled_tokens out → update_core up s → requests s !! rid = Some r →
  ∃ up' s' kept b r', Sched.update_one W out mo (rid, n) (up, s) = Ok (up', s') ∧
    grown (config s) r (sampled mo rid) kept b r' ∧ message_ok r r' kept (Sched.up_outputs up) (Sched.up_outputs up') ∧
    update_core up' s' ∧ same_lists s s' ∧ requests s' !! rid = (if b then None else Some r') ∧
    (∀ x, x ≠ rid → requests s' !! x = requests s !! x) ∧
    finished_req_ids s' = (if b then finished_req_ids s ∪ {[rid]} else finished_req_ids s).
Proof.
  intros Hcf Hcn [Hpool _ Hdrafts _ Hpos Hrows Hprompt] Hin HC Hr.
  destruct (co_reqs _ _ _ _ _ _ _ _ _ _ _ HC _ _ Hr) as (Hid&Hok&_). subst rid.
  unfold Sched.update_one. rewrite (py_assert_true (0 <? n)), Ok_bind, Hr by (apply Z.ltb_lt; by apply (Hpos (request_id r))).
  destruct (Hrows (request_id r)) as (i&Hi&Hrow); [apply list_elem_of_fmap; by exists (request_id r, n)|].
  rewrite Hi. cbn [of_option]. rewrite Ok_bind.
  assert (match sampled_token_ids mo with [] => Ok [] | l => py_index l i end = Ok (sampled mo (request_id r))) as ->.
  { unfold sampled. rewrite Hi. destruct (sampled_token_ids mo) as [|row rows]; [unfold py_index|].
    - by rewrite lookup_nil; destruct (_ <? 0).
    - destruct Hrow as [?|[row' ->]]; done. }
  rewrite Ok_bind. unfold Sched.reject_drafts. rewrite Hdrafts, lookup_empty. cbn [default]. rewrite Ok_bind.
  cbn beta iota zeta.
  destruct (apply_output_ok mo i (sampled mo (request_id r)) r s Hcf Hpool Hok)
    as (kept&b&r'&->&Hg&Hsized&Hok'&Hgrow).
  rewrite Ok_bind. cbn beta iota.
  set (up1 := Sched.mkUpdate _ _ _ _).
  destruct (stop_request_ok up1 r r' b s _ kept Hcn HC Hr Hg Hsized Hok' Hgrow)
    as (up2&s2&->&HC2&Hsame2&Hout2&Hreq2&Hfin2).
  rewrite Ok_bind. cbn beta iota.
  set (s3 := if (0 <? len kept) && _ then _ else s2).
  assert (update_core up2 s3 ∧ same_lists s s3 ∧ requests s3 = requests s2 ∧ finished_req_ids s3 = finished_req_ids s2)
    as (HC3&Hsame3&Hreq3&Hfin3) by (unfold s3; destruct (_ && _); done).
  set (r3 := match num_nans mo ≫= _ with Some k => set_num_nans_in_logits k r' | None => r' end).
  assert (grown (config s3) r (sampled mo (request_id r)) kept b r3 ∧ (b = false → req_ok H N bs sz (config s3) r3))
    as [Hg3 Hok3].
  { destruct Hsame3 as [[-> _] _]. unfold r3. destruct (num_nans mo ≫= _); [|done].
    split; [done|]. intros ?. by apply req_ok_nans, Hok'. }
  assert (grown (config s3) r (sampled mo (request_id r)) kept b r') as Hg' by by destruct Hsame3 as [[-> _] _].
  assert (requests s3 !! request_id r = if b then None else Some r') as Hreq'.
  { rewrite Hreq3, Hreq2. destruct b; [by rewrite lookup_delete_eq|by rewrite lookup_insert_eq]. }
  assert (∀ x, x ≠ request_id r → requests s3 !! x = requests s !! x) as Hother.
  { intros x Hx. rewrite Hreq3, Hreq2. destruct b; [by rewrite lookup_delete_ne|by rewrite lookup_insert_ne]. }
  cbn [bool_decide option_map]. rewrite !bool_decide_false, !orb_false_r by (intros []; done).
  set (r4 := if 0 <? len kept then (take_request_events r3).2 else r3).
  assert (grown (config s3) r (sampled mo (request_id r)) kept b r4 ∧ (b = false → req_ok H N bs sz (config s3) r4)
      ∧ get_finished_reason r4 = get_finished_reason r3 ∧ status r4 = status r3)
    as (Hg4&Hok4&Hreason&_).
  { unfold r4, take_request_events. destruct (0 <? len kept), (events r3); cbn; split_and!; try done.
    intros ?. by apply req_ok_events, Hok3. }
  destruct (write_back_ok up2 s3 r r' r4 b _ kept HC3 Hg' Hg4 Hok4 Hreq') as (HC4&Hreq4&Hsame4&Hfin4&Hoth4).
  pose proof (proj1 (proj1 Hsame3)) as Hc3.
  pose proof Hg3 as (_&(Hid3&_&_&_&_&_&_&_&_&Hcl3)&_).
  unfold r4 in *. destruct kept as [|t kept].
  - cbn [len length Z.of_nat Z.ltb Z.compare] in *. rewrite Hprompt, bool_decide_true, (py_assert_true true), Ok_bind by done.
    do 5 eexists. split; [done|]. rewrite <-Hc3. split; [exact Hg3|]. split; [exact Hout2|].
    split_and!; [done|by etrans|done| |etrans; [exact Hfin4|congruence]]. intros x Hx. etrans; [by apply Hoth4|by apply Hother].
  - assert (0 <? len (t :: kept) = true) as Hpk.
    { apply Z.ltb_lt. rewrite len_cons. pose proof (len_nonneg kept). lia. }
    rewrite Hpk in *. unfold Sched.core_output. destruct (take_request_events r3) as [evs r5] eqn:He.
    cbn [fst snd] in *. pose proof Hg4 as (_&(_&_&_&_&_&_&_&_&_&Hcl4)&_).
    do 5 eexists. split; [done|]. rewrite <-Hc3. split; [exact Hg4|]. split.
    { eexists. split; [cbn; by rewrite Hcl4, Hout2|]. split_and!; [by destruct Hg4 as (_&[-> _]&_)|done|done]. }
    split_and!; [done|by etrans|done| |etrans; [exact Hfin4|congruence]]. intros x Hx. etrans; [by apply Hoth4|by apply Hother].
Qed.

(** ** The whole update *)

Definition sent (d : list (Z * list (EngineCoreOutput Blob))) (client : Z) (o : EngineCoreOutput Blob) : Prop :=
  ∃ os, (client, os) ∈ d ∧ o ∈ os.
Definition delivered (d : list (Z * EngineCoreOutputs Blob)) (client : Z) (o : EngineCoreOutput Blob) : Prop :=
  ∃ os, (client, os) ∈ d ∧ o ∈ outputs os.

Lemma add_output_sent client o d client' o' :
  sent d client' o' ∨ client' = client ∧ o' = o → sent (Sched.add_output client o d) client' o'.
Proof.
  induction d as [|[k os] d IH]; simpl.
  { intros [(os&[]%elem_of_nil&_)|[-> ->]]. exists [o]. split; by left. }
  destruct (Z.eqb_spec k client) as [->|Hk].
  - intros [(os'&[[= -> ->]|Hin]%elem_of_cons&Ho)|[-> ->]].
    + exists (os ++ [o]). split; [by left|]. apply elem_of_app. by left.
    + exists os'. split; [by right|done].
    + exists (os ++ [o]). split; [by left|]. apply elem_of_app. right. by left.
  - intros Hor. assert (client' = k ∧ o' ∈ os ∨ sent d client' o' ∨ client' = client ∧ o' = o) as [[-> Ho]|Hd].
    { destruct Hor as [(os'&[[= -> ->]|Hin]%elem_of_cons&Ho)|?]; [by left| |by right; right].
      right. left. by exists os'. }
    + exists os. split; [by left|done].
    + destruct (IH Hd) as (os'&?&?). exists os'. split; [by right|done].
Qed.

Lemma add_finished_delivered x d client o : delivered d client o → delivered (Sched.add_finished x d) client o.
Proof.
  induction d as [|[k os] d IH]; simpl; [intros (?&[]%elem_of_nil&_)|].
  intros (os'&[[= -> ->]|Hin]%elem_of_cons&Ho).
  - case_match; eexists; (split; [by left|done]).
  - destruct IH as (os2&?&?); [by exists os'|]. case_match; [exists os'|exists os2]; (split; [by right|done]).
Qed.

Lemma add_stats_delivered st d client o : delivered d client o → delivered (Sched.add_stats st d) client o.
Proof.
  destruct st, d as [|[k os] d]; simpl; try done; intros (os'&Hin&Ho); [by apply elem_of_nil in Hin|].
  apply elem_of_cons in Hin as [[= -> ->]|Hin]; eexists; (split; [by constructor|done]).
Qed.

(** What an update does to the scheduled request [r], and what its client is sent. *)
Definition answered (mo : ModelRunnerOutput Blob) s (finished : gset string) (tell : Z → EngineCoreOutput Blob → Prop)
    (r : Request) (o : option Request) : Prop :=
  ∃ kept b r', grown (config s) r (sampled mo (request_id r)) kept b r' ∧
    o = (if b then None else Some r') ∧ (b = true → request_id r ∈ finished) ∧
    (kept ≠ [] → ∃ msg, tell (client_index r) msg ∧ co_request_id msg = request_id r ∧
       co_new_token_ids msg = kept ∧ co_finish_reason msg = get_finished_reason r').

Lemma answered_mono mo s f f' (tell tell' : Z → EngineCoreOutput Blob → Prop) r o :
  answered mo s f tell r o → f ⊆ f' → (∀ c m, tell c m → tell' c m) → answered mo s f' tell' r o.
Proof.
  intros (kept&b&r'&Hg&Ho&Hf&Hm) Hff Htell. exists kept, b, r'. split_and!; [done|done|set_solver|].
  intros Hk. destruct (Hm Hk) as (msg&?&?). exists msg. by split; [apply Htell|].
Qed.

(** What the loop has done for the requests [ids]. *)
Definition loop_done (mo : ModelRunnerOutput Blob) s (ids : list string) (up : Sched.Update) s1 : Prop :=
  update_core up s1 ∧ same_lists s s1 ∧
  (∀ rid r, rid ∈ ids → requests s !! rid = Some r →
     answered mo s (finished_req_ids s1) (sent (Sched.up_outputs up)) r (requests s1 !! rid)) ∧
  (∀ rid, rid ∉ ids ∨ requests s !! rid = None → requests s1 !! rid = requests s !! rid).

Lemma update_loop_ok out mo s :
  sched_ok s → answer_ok out mo →
  ∃ up s1, for_each (Sched.update_one W out mo) (out_num_scheduled_tokens out) (Sched.mkUpdate [] None ∅ ∅, s) = Ok (up, s1) ∧
    loop_done mo s (out_num_scheduled_tokens out).*1 up s1.
Proof.
  intros [Hcf Hcn HC _] Han.
  destruct (for_each_ind (Sched.update_one W out mo)
    (λ dn ups, loop_done mo s dn.*1 ups.1 ups.2)
    (out_num_scheduled_tokens out) (Sched.mkUpdate [] None ∅ ∅, s)) as ([up s1]&->&Hdone); [| |by exists up, s1].
  { split_and!; [|done|by intros ? ? ?%elem_of_nil|done]. unfold update_core. cbn.
    rewrite !filter_id by set_solver. exact HC. }
  intros dn [rid n] rest [up s1] Hl (HC1&Hsame&Hold&Hrest). cbn [fst snd] in *.
  pose proof Hsame as ((Hc1&Hn1)&_).
  assert (rid ∉ dn.*1 ∧ (rid, n) ∈ out_num_scheduled_tokens out) as [Hnew Hin].
  { pose proof (an_distinct _ _ Han) as Hnd. rewrite Hl, fmap_app in Hnd. apply NoDup_app in Hnd as (_&Hd&_).
    split; [|rewrite Hl; set_solver]. intros ?. apply (Hd rid); [done|by left]. }
  pose proof (Hrest rid (or_introl Hnew)) as Heq.
  destruct (requests s !! rid) as [r|] eqn:Hr.
  - destruct (co_reqs _ _ _ _ _ _ _ _ _ _ _ HC _ _ Hr) as (Hid&_).
    destruct (update_one_ok out mo rid n up s1 r) as (up'&s'&kept&b&r'&->&Hg&Hmsg&HC'&Hsame'&Hr'&Hoff&Hfin);
      [congruence|congruence|done..|].
    rewrite Hc1 in Hg. exists (up', s'). split; [done|]. cbn [fst snd]. rewrite fmap_app. cbn.
    assert (∀ c m, sent (Sched.up_outputs up) c m → sent (Sched.up_outputs up') c m) as Hmono.
    { unfold message_ok in Hmsg. destruct kept; [by rewrite Hmsg|]. destruct Hmsg as (o&->&_). intros c m ?.
      apply add_output_sent. by left. }
    split_and!; [done|by etrans| |].
    + intros x q Hx Hq. apply elem_of_app in Hx as [Hx| ->%list_elem_of_singleton].
      * assert (x ≠ rid) by (intros ->; done). rewrite Hoff by done.
        apply answered_mono with (finished_req_ids s1) (sent (Sched.up_outputs up)); [by apply Hold| |done].
        rewrite Hfin. destruct b; set_solver.
      * simplify_eq. exists kept, b, r'. rewrite Hfin. split_and!; [done|done|intros ->; set_solver|].
        unfold message_ok in Hmsg. destruct kept as [|t kept]; [done|]. intros _.
        destruct Hmsg as (o&->&?). exists o. split; [|done]. apply add_output_sent. by right.
    + intros x Hx. assert (x ≠ rid) by (intros ->; set_solver). rewrite Hoff by done. apply Hrest. set_solver.
  - exists (up, s1). split.
    { unfold Sched.update_one. rewrite (py_assert_true (0 <? n)), Ok_bind, Heq; [done|].
      apply Z.ltb_lt. by apply (an_positive _ _ Han rid). }
    cbn [fst snd]. rewrite fmap_app. cbn. split_and!; [done|done| |].
    + intros x q Hx Hq. apply Hold; [|done]. apply elem_of_app in Hx as [?| ->%list_elem_of_singleton]; [done|congruence].
    + intros x Hx. apply Hrest. set_solver.
Qed.

(** The statistics can be made. *)
Lemma make_stats_ok spec (conn : option Blob) s ns :
  core (config s) ns (running s) (Fcfs.deque (waiting s)) (requests s) (kv_cache_manager s) (encoder_cache_manager s) →
  ∃ st K, Sched.make_stats spec conn s = Ok (st, set_caches (encoder_cache_manager s) K s) ∧
    core (config s) ns (running s) (Fcfs.deque (waiting s)) (requests s) K (encoder_cache_manager s).
Proof.
  intros HC. unfold Sched.make_stats. destruct (log_stats (config s)) eqn:Hlog; cbn [negb].
  2: { exists None, (kv_cache_manager s). split; [by destruct s|done]. }
  pose proof (co_stats _ _ _ _ _ _ _ _ _ _ _ HC) as Hst. rewrite Hlog in Hst.
  destruct (sk_inv _ _ _ _ _ (co_kv _ _ _ _ _ _ _ _ _ _ _ HC)) as [fl HK]. simpl in HK.
  destruct (kv_stats _ _ HK Hst) as [ps Hps]. unfold KVM.make_prefix_cache_stats. rewrite Hst, Hps. cbn [of_option].
  rewrite Ok_bind.
  destruct (map_res_total (λ rid, request_of rid s) (running s)) as (rs&->&_).
  { intros rid (r&Hr&_)%(co_run _ _ _ _ _ _ _ _ _ _ _ HC). exists r. by apply request_found. }
  rewrite Ok_bind. do 2 eexists. split; [done|].
  eapply core_coordinator; [exact Hinj|exact Hnone|exact Hne|exact HC| |done..]. exists fl. destruct HK. by split.
Qed.

Lemma set_finished_same s : set_finished (finished_req_ids s) (finished_req_ids_dict s) s = s.
Proof. by destruct s. Qed.

(** The lists without the requests that stopped. *)
Lemma leave_lists_ok up s :
  NoDup (running s) → update_core up s →
  ∃ w, (if bool_decide (Sched.stopped_preempted_reqs up = ∅) then Ok (waiting s)
        else remove_requests (id_order W (Sched.stopped_preempted_reqs up)) (waiting s)) = Ok w ∧
    core (config s) [] (remove_all (running s) (Sched.stopped_running_reqs up)) (Fcfs.deque w) (requests s)
      (kv_cache_manager s) (encoder_cache_manager s) ∧
    len (remove_all (running s) (Sched.stopped_running_reqs up)) ≤ len (running s).
Proof.
  intros Hnd HC. unfold update_core in HC. rewrite remove_all_spec by done. case_bool_decide as Hemp.
  - exists (waiting s). split; [done|]. rewrite (filter_id (.∉ Sched.stopped_preempted_reqs up)) in HC by set_solver.
    split; [exact HC|]. unfold len. pose proof (length_filter (.∉ Sched.stopped_running_reqs up) (running s)). lia.
  - eexists. split; [done|]. split.
    + cbn. erewrite (filter_ext_elem (λ r, r ∉ id_order W _)); [exact HC|]. intros x _. cbn.
      by rewrite (wo_ids _ _ _ _ HW), elem_of_elements.
    + unfold len. pose proof (length_filter (.∉ Sched.stopped_running_reqs up) (running s)). lia.
Qed.

Lemma update_from_output_ok out mo s :
  sched_ok s → answer_ok out mo →
  ∃ outs s', Sched.update_from_output W out mo s = Ok (outs, s') ∧ sched_ok s' ∧ same_rest s s' ∧
    (∀ rid r, rid ∈ (out_num_scheduled_tokens out).*1 → requests s !! rid = Some r →
       answered mo s (finished_req_ids s') (delivered outs) r (requests s' !! rid)) ∧
    (∀ rid, rid ∉ (out_num_scheduled_tokens out).*1 → requests s' !! rid = requests s !! rid).
Proof.
  intros Hok Han. destruct (update_loop_ok out mo s Hok Han) as (up&s1&Hrun&HC1&((Hc1&Hn1)&HR1&HQ1)&Hold&Hrest).
  unfold Sched.update_from_output. rewrite Hrun, Ok_bind. cbn beta iota.
  assert (NoDup (running s1)) as Hnd by (rewrite HR1; apply Hok).
  destruct (leave_lists_ok up s1 Hnd HC1) as (w&Hw&HC2&Hlen).
  cbn [waiting set_queues running]. rewrite Hw, Ok_bind, (an_connector _ _ Han), Ok_bind. cbn beta iota zeta.
  set (R := remove_all _ _) in *. set (s2 := set_queues w R (set_queues (waiting s1) R s1)).
  set (outs0 := (λ x, (x.1, mkCoreOutputs x.2 None None)) <$> Sched.up_outputs up).
  assert (∀ c m, sent (Sched.up_outputs up) c m → delivered outs0 c m) as Hdel.
  { intros c m (os&Hin&Hm). exists (mkCoreOutputs os None None). split; [|done].
    apply list_elem_of_fmap. by exists (c, os). }
  set (told := match finished_req_ids_dict s2 with None => (outs0, s2) | Some d => _ end).
  assert (∃ outs1 fd, told = (outs1, set_finished (finished_req_ids s1) fd s2) ∧
    ∀ c m, delivered outs0 c m → delivered outs1 c m) as (outs1&fd&->&Hdel1).
  { unfold told. destruct (finished_req_ids_dict s2) as [d|] eqn:Hd.
    - do 2 eexists. split; [done|]. clear. generalize outs0. induction d as [|x d IH]; [done|].
      intros outs c m Hdm. simpl. apply IH. by apply add_finished_delivered.
    - exists outs0, (finished_req_ids_dict s2). split; [|done]. by rewrite <-(set_finished_same s2) at 1. }
  cbn beta iota.
  set (s3 := set_finished _ fd s2).
  destruct (make_stats_ok (Sched.up_spec_stats up) (None ≫= kv_connector_stats) s3 []) as (st&K&->&HC4); [exact HC2|].
  rewrite Ok_bind. do 2 eexists. split; [done|]. destruct Hok as [Hcf Hcn HC Hmax]. split_and!.
  - split; cbn; [by rewrite Hc1|congruence|exact HC4|]. rewrite Hc1. fold R in Hlen. rewrite HR1 in Hlen. lia.
  - by split; cbn.
  - intros rid r Hin Hr. eapply answered_mono; [by apply Hold|done|].
    intros c m Hs. by apply add_stats_delivered, Hdel1, Hdel.
  - intros rid Hin. apply Hrest. by left.
Qed.
End ending.

(** ** The tokens that are kept, as a prefix *)

Lemma up_to_end_spec c r sp k tokens kept b :
  up_to_end c r sp k tokens = (kept, b) →
  (∃ rest, tokens = kept ++ rest ∧ (b = false → rest = [])) ∧ (b = true → kept ≠ []) ∧
  (∀ i t, kept !! i = Some t → ends c r sp (k + Z.of_nat i) t = true ↔ b = true ∧ S i = length kept).
Proof.
  induction tokens as [|x tokens IH] in k, kept, b |- *; simpl.
  { intros [= <- <-]. split_and!; [by exists []|done|by intros i t ?]. }
  destruct (ends c r sp k x) eqn:Hx.
  { intros [= <- <-]. split_and!; [by exists tokens|done|].
    intros [|i] t Ht; [|done]. injection Ht as <-. by rewrite Z.add_0_r. }
  destruct (up_to_end c r sp (k + 1) tokens) as [kept1 b1] eqn:Hup. intros [= <- <-].
  destruct (IH _ _ _ Hup) as ((rest&->&Hrest)&Hne&Hall). split_and!; [by exists rest|done|].
  intros [|i] t Ht; simpl in *.
  - injection Ht as <-. rewrite Z.add_0_r, Hx. split; [done|]. intros [Hb Hl].
    destruct kept1; [by apply Hne in Hb|done].
  - replace (k + Z.of_nat (S i)) with (k + 1 + Z.of_nat i) by lia. rewrite (Hall i t Ht).
    split; intros [? ?]; (split; [done|lia]).
Qed.

(** C17. The stop check drops exactly the tokens behind the end: of the tokens the
    model sampled for a request the loop keeps a prefix, whose only token that
    ends the request (by the maximum length, the limit of output tokens, the
    end-of-sequence token or a stop token) can be its last; the request is
    finished exactly when there is one, and otherwise every token is kept.  The
    hashes of the blocks that became full are computed on the way. *)
Theorem append_until_stop_correct {G CS Blob} (W : World Fcfs.FCFSRequestQueue G CS Blob) H N bs c r sp tokens :
  0 < bs → block_hasher W = Some (request_block_hasher H N bs) →
  request_wf H N bs (max_len c) r → num_tokens r < max_len c → is_finished r = false →
  sampling_params r = Some sp → pooling_params r = None →
  ∃ kept rest b r', Sched.append_until_stop W c r tokens [] = Ok (kept, b, r') ∧
    tokens = kept ++ rest ∧ (b = false → rest = []) ∧ is_finished r' = b ∧
    (∀ i t, kept !! i = Some t → ends c r sp (1 + Z.of_nat i) t = true ↔ b = true ∧ S i = length kept) ∧
    all_token_ids r' = all_token_ids r ++ kept ∧ output_token_ids r' = output_token_ids r ++ kept ∧
    hashes_wf H N bs r' ∧ len (block_hashes r') = num_tokens r' / bs.
Proof.
  intros Hbs Hhash [Hwf Hfull _] Hlt Hnf Hsp Hpp.
  destruct (append_until_stop_ok W H N bs Hbs Hhash c r sp tokens []) as (kept&b&r'&Hrun&Hup&_&Hall&Hout&Hwf'&Hfull'&Hst);
    [done..|].
  destruct (up_to_end_spec _ _ _ _ _ _ _ Hup) as ((rest&Hrest&Hb)&_&Hends).
  exists kept, rest, b, r'. split_and!; try done. destruct b; [done|]. destruct Hst as [Hst _].
  unfold is_finished in *. by rewrite Hst.
Qed.

(** A request with the stop token 8, whose model samples 6, 7, 8 and 9. *)
Definition stop_sampling : SamplingParams := mkSampling (Some 8) None None false (Some [8]) false None default_sampler.
Definition stop_example : Request := get_request (run_request "s" 0 0 [1; 2; 3; 4; 5] stop_sampling None).

Lemma append_until_stop_correct_witness :
  ∃ kept r', Sched.append_until_stop (run_world (Fcfs.mkFcfs [])) (run_config FCFS 8 None) stop_example [6; 7; 8; 9] [] =
      Ok (kept, true, r') ∧ kept = [6; 7; 8] ∧ is_finished r' = true ∧ all_token_ids r' = [1; 2; 3; 4; 5; 6; 7; 8].
Proof.
  destruct (init_hashes enc_hash enc_none 4 ltac:(lia) "s"%string (Some [1; 2; 3; 4; 5]) (Some stop_sampling) None None 0 0
    None [] None None 0 stop_example) as [Hwf Hfull]; [by vm_compute|].
  assert (num_tokens stop_example = 5) as Hn by by vm_compute.
  assert (request_wf enc_hash enc_none 4 16 stop_example) as Hrq by (split; [done|done|lia]).
  destruct (append_until_stop_correct (run_world (Fcfs.mkFcfs [])) enc_hash enc_none 4 (run_config FCFS 8 None) stop_example
    stop_sampling [6; 7; 8; 9]) as (kept&rest&b&r'&Hrun&Hl&Hb&Hfin&_&Hall&_); try done; try by vm_compute.
  assert ((λ x, x.1) <$> Sched.append_until_stop (run_world (Fcfs.mkFcfs [])) (run_config FCFS 8 None) stop_example
    [6; 7; 8; 9] [] = Ok ([6; 7; 8], true)) as Hsum by by vm_compute.
  rewrite Hrun in Hsum. injection Hsum as -> ->. exists [6; 7; 8], r'. split; [exact Hrun|].
  split; [done|]. split; [exact Hfin|]. by rewrite Hall.
Defined.
