(* ===== verification/SchedulerSafe.v ===== *)
(** * The scheduler is safe: arrivals, ends and every interleaving

    [add_request] and [finish_requests] keep the invariant, a new scheduler has
    it, and so does every state that a sequence of calls reaches. *)
From stdpp Require Import relations.
From S2P Require Import Prelude FreeQueue Request BlockHash BlockMap BlockPool KVSpecs SingleType Coordinator KVManager EncoderCache RequestQueue KVConfig System Scheduler SchedulerCases EncoderPlan SchedulerInv SchedulerSafety SchedulerWaiting SchedulerStep SchedulerUpdate.

Section calls.
Context {G CS Blob : Type} (W : World Fcfs.FCFSRequestQueue G CS Blob).
Context (H : bytes * list Z * option (list ExtraKey) → bytes) (N : bytes) (bs : Z) (Hbs : 0 < bs).
Context (Hinj : ∀ x y, H x = H y → x = y) (Hnone : ∀ x, H x ≠ N) (Hne : ∀ x, H x ≠ []).
Context (sz : string → Z) (Hsz : ∀ h, 0 ≤ sz h).
Context (HW : world_ok W H N bs).
Implicit Types (s : Scheduler Fcfs.FCFSRequestQueue G CS).
Local Abbreviation core := (core H N bs sz).
Local Abbreviation sched_ok := (sched_ok H N bs sz).

(** ** Arrival *)

(** A request as the engine hands it over. *)
Definition arriving s (r : Request) : Prop :=
  req_ok H N bs sz (config s) r ∧ (status r = WAITING ∨ status r = WAITING_FOR_FSM) ∧
  num_computed_tokens r = 0 ∧ requests s !! request_id r = None.

Lemma add_request_ok now r s :
  sched_ok s → arriving s r →
  ∃ s', Sched.add_request now r s = Ok s' ∧ sched_ok s' ∧ same_rest s s' ∧
    running s' = running s ∧ Fcfs.deque (waiting s') = Fcfs.deque (waiting s) ++ [request_id r] ∧
    ∀ x, x ≠ request_id r → requests s' !! x = requests s !! x.
Proof.
  intros [Hcf Hcn HC Hmax] (Hok&Hst&Hnc&Hnew). unfold Sched.add_request. cbn [add_request fcfs_queue].
  unfold Fcfs.add_request. rewrite Ok_bind. eexists. split; [done|].
  set (r' := if log_stats (config s) then record_event QUEUED now r else r).
  assert (request_id r' = request_id r ∧ req_ok H N bs sz (config s) r' ∧ queued r' ∧ num_computed_tokens r' = 0)
    as (Hid&Hok'&Hq&Hnc').
  { unfold r', queued. destruct (log_stats (config s)); (split_and!; [done| |destruct Hst; auto|done]); [|done].
    by apply req_ok_events. }
  split_and!; [|done|done|done|].
  - split; [done|done| |done]. cbn. fold r'. rewrite Hid. by eapply core_add.
  - intros x Hx. cbn. fold r'. by rewrite Hid, lookup_insert_ne.
Qed.

(** ** Ending requests from outside *)

Lemma status_finished_set st r : status_is_finished st = true → is_finished (set_status st r) = true.
Proof. done. Qed.

(** Freeing the requests one by one, whose ids have left the lists. *)
Lemma free_all_ok c st (valid : list Request) R Q s s0 :
  status_is_finished st = true → connector s0 = None →
  NoDup (request_id <$> valid) → (∀ r, r ∈ valid → requests s !! request_id r = Some r) →
  requests s0 = requests s →
  core c [] R Q (requests s0) (kv_cache_manager s0) (encoder_cache_manager s0) →
  ∃ s', for_each (λ r s, let r := set_status st r in
      '(_, s) ← Sched.free_request W r (Sched.write r s); Ok s) valid s0 = Ok s' ∧
    same_lists s0 s' ∧
    core c [] (filter (.∉ request_id <$> valid) R) (filter (.∉ request_id <$> valid) Q) (requests s')
      (kv_cache_manager s') (encoder_cache_manager s') ∧
    ∀ x, requests s' !! x = if decide (x ∈ request_id <$> valid) then None else requests s !! x.
Proof.
  intros Hfin Hcn Hnd Hvalid Hreq0 HC0.
  set (f := λ r s1, _).
  set (I := λ (dn : list Request) s1, same_lists s0 s1 ∧
    core c [] (filter (.∉ request_id <$> dn) R) (filter (.∉ request_id <$> dn) Q) (requests s1)
      (kv_cache_manager s1) (encoder_cache_manager s1) ∧
    ∀ x, requests s1 !! x = if decide (x ∈ request_id <$> dn) then None else requests s !! x).
  destruct (for_each_ind f I valid s0) as (s'&Hrun&HI); [| |by exists s'].
  { split_and!; [done|cbn; by rewrite !filter_id by set_solver|]. intros x. by rewrite Hreq0. }
  intros dn r rest s1 -> (Hsame&HC&Hreqs). unfold f. cbn zeta.
  assert (request_id r ∉ request_id <$> dn) as Hnew.
  { rewrite fmap_app in Hnd. apply NoDup_app in Hnd as (_&Hd&_). intros ?. apply (Hd (request_id r)); [done|by left]. }
  assert (requests s1 !! request_id r = Some r) as Hr.
  { rewrite Hreqs, decide_False by done. apply Hvalid. set_solver. }
  destruct (co_reqs _ _ _ _ _ _ _ _ _ _ _ HC _ _ Hr) as (_&Hok&_).
  destruct (free_one W H N bs sz Hsz HW c (filter (.∉ request_id <$> dn) R) (filter (.∉ request_id <$> dn) Q) (requests s1) (set_status st r) r
    (Sched.write (set_status st r) s1)) as (s'&->&Hdel&HC'&Hsame'&_).
  { pose proof (proj2 (proj1 Hsame)) as Hcn1. cbn. congruence. }
  { cbn. by rewrite (alter_found _ _ _ r). }
  { exact Hr. } { by apply status_finished_set. } { apply Hok. } { exact HC. }
  rewrite Ok_bind. exists s'. split; [done|]. split_and!.
  - eapply same_lists_pre; [exact Hsame|exact Hsame'].
  - cbn in HC'. rewrite !list_filter_filter in HC'.
    erewrite (filter_ext_elem _ _ R), (filter_ext_elem _ _ Q); [exact HC'|..]; intros x _; rewrite fmap_app; set_solver.
  - intros x. rewrite Hdel, fmap_app. cbn. destruct (decide (x = request_id r)) as [->|Hx].
    + rewrite lookup_delete_eq, decide_True by set_solver. done.
    + rewrite lookup_delete_ne, Hreqs by done. by repeat case_decide; set_solver.
Qed.

(** The requests that are ended: one for each known id. *)
Lemma valid_requests s (l : list string) :
  NoDup l → (∀ rid r, requests s !! rid = Some r → request_id r = rid) →
  let valid := omap (λ rid, requests s !! rid) l in
  NoDup (request_id <$> valid) ∧ (∀ r, r ∈ valid → requests s !! request_id r = Some r) ∧
  (∀ x, x ∈ request_id <$> valid ↔ x ∈ l ∧ is_Some (requests s !! x)).
Proof.
  intros Hnd Hid. cbn zeta.
  assert (∀ (l : list string) r, r ∈ omap (λ rid, requests s !! rid) l ↔ request_id r ∈ l ∧ requests s !! request_id r = Some r) as Hin.
  { clear Hnd l. intros l r. rewrite list_elem_of_omap. split.
    - intros (x&Hx&Hr). by rewrite (Hid _ _ Hr).
    - intros [Hx Hr]. by exists (request_id r). }
  split_and!.
  - induction Hnd as [|x l Hx Hnd IH]; [constructor|]. csimpl. destruct (requests s !! x) as [r|] eqn:Hr; [|done].
    csimpl. constructor; [|done]. intros (q&Hq1&[Hq2 _]%Hin)%list_elem_of_fmap.
    rewrite (Hid _ _ Hr) in Hq1. congruence.
  - intros r Hr. by apply Hin in Hr as [_ ?].
  - intros x. rewrite list_elem_of_fmap. split.
    + intros (r&->&[Hx Hr]%Hin). split; [done|by eexists].
    + intros [Hx [r Hr]]. exists r. rewrite Hin, (Hid _ _ Hr). done.
Qed.

Lemma finish_requests_ok ids st s :
  sched_ok s → status_is_finished st = true →
  ∃ s', Sched.finish_requests W ids st s = Ok s' ∧ sched_ok s' ∧ same_rest s s' ∧
    ∀ x, requests s' !! x = if decide (x ∈ ids) then None else requests s !! x.
Proof.
  intros [Hcf Hcn HC Hmax] Hfin. unfold Sched.finish_requests. rewrite Hfin, py_assert_true, Ok_bind by done.
  cbn zeta. set (valid := omap _ _). set (run := request_id <$> filter _ valid).
  set (wait := request_id <$> filter _ valid).
  destruct (valid_requests s (id_order W ids)) as (Hnd&Hvalid&Hids); [|apply HC|].
  { rewrite (wo_ids _ _ _ _ HW). apply NoDup_elements. } fold valid in Hnd, Hvalid, Hids.
  assert (∀ x, x ∈ request_id <$> valid ↔ x ∈ ids ∧ is_Some (requests s !! x)) as Hids'.
  { intros x. by rewrite Hids, (wo_ids _ _ _ _ HW), elem_of_elements. }
  assert (∀ x, x ∈ running s → x ∈ run ↔ x ∈ request_id <$> valid) as Hrun.
  { intros x (r&Hr&Hs)%(co_run _ _ _ _ _ _ _ _ _ _ _ HC). unfold run. rewrite !list_elem_of_fmap. split.
    - intros (q&->&[_ ?]%list_elem_of_filter). by exists q.
    - intros (q&->&Hq). exists q. split; [done|]. apply list_elem_of_filter. split; [|done].
      apply Hvalid in Hq. simplify_eq. by rewrite bool_decide_true. }
  assert (∀ x, x ∈ Fcfs.deque (waiting s) → x ∈ wait ↔ x ∈ request_id <$> valid) as Hwait.
  { intros x (r&Hr&Hs)%(co_queue _ _ _ _ _ _ _ _ _ _ _ HC). unfold wait. rewrite !list_elem_of_fmap. split.
    - intros (q&->&[_ ?]%list_elem_of_filter). by exists q.
    - intros (q&->&Hq). exists q. split; [done|]. apply list_elem_of_filter. split; [|done].
      apply Hvalid in Hq. simplify_eq. by rewrite bool_decide_false. }
  cbn [running set_queues]. rewrite remove_all_spec by apply HC.
  set (R := filter _ (running s)).
  assert (R = filter (.∉ request_id <$> valid) (running s)) as HR.
  { apply filter_ext_elem. intros x Hx. rewrite elem_of_list_to_set. by rewrite (Hrun x Hx). }
  assert (∃ w, (if len wait =? 0 then Ok (waiting s) else remove_requests wait (waiting s)) = Ok w ∧
    Fcfs.deque w = filter (.∉ request_id <$> valid) (Fcfs.deque (waiting s))) as (w&Hw&HQ).
  { destruct (Z.eqb_spec (len wait) 0) as [Hz%len_0_nil|_]; eexists; (split; [done|]).
    - symmetry. apply filter_id. intros x Hx. rewrite <-(Hwait x Hx), Hz. set_solver.
    - cbn. apply filter_ext_elem. intros x Hx. by rewrite (Hwait x Hx). }
  cbn [waiting set_queues]. rewrite Hw, Ok_bind.
  destruct (free_all_ok (config s) st valid (running s) (Fcfs.deque (waiting s)) s
    (set_queues w R (set_queues (waiting s) R s))) as (s'&Hall&((Hc'&Hn')&HR'&HQ')&HC'&Hreq'); [done..|].
  exists s'. split; [exact Hall|]. cbn in Hc', Hn', HR', HQ'. split_and!.
  - split; [congruence|congruence| |].
    + by rewrite Hc', HR', HQ', HR, HQ.
    + rewrite HR', Hc'. unfold R, len. pose proof (length_filter (.∉ (list_to_set run : gset string)) (running s)). unfold len in Hmax. lia.
  - done.
  - intros x. rewrite Hreq'. destruct (decide (x ∈ ids)) as [Hx|Hx]; case_decide as Hd; try done.
    + destruct (requests s !! x) as [r|] eqn:E; [|done]. destruct Hd. apply Hids'. by rewrite E.
    + by apply Hids' in Hd as [? _].
Qed.

(** ** A new scheduler *)

(** The arguments of [__init__] for the setups of the theorems. *)
Record args_ok (c : SchedulerConfig) (cfg : KVCacheConfig) (mm : Enc.EncBudgetConfig)
    (dcp : Z) (spec : option (Z * bool)) : Prop := {
  ar_policy : policy c = FCFS;
  ar_async : async_scheduling c = false;
  ar_encdec : is_encoder_decoder c = false;
  ar_loras : max_loras c = None;
  ar_budget : 0 ≤ max_num_scheduled_tokens c;
  ar_running : 0 ≤ max_num_running_reqs c;
  ar_spec : 0 ≤ default 0 (fst <$> spec);
  ar_cache : 0 ≤ Enc.encoder_cache_size mm;
  ar_groups : cfg_ok cfg true (default false (snd <$> spec)) dcp;
  ar_windows : ∀ g a w, g ∈ kv_cache_groups cfg → layer_of g (SlidingWindowSpec a w) → 1 ≤ w;
}.

Lemma encoder_size mm by_modality compute size :
  0 ≤ Enc.encoder_cache_size mm → Enc.compute_encoder_budget mm by_modality = Ok (compute, size) → 0 ≤ size.
Proof.
  intros Hmm. unfold Enc.compute_encoder_budget, Enc.compute_mm_encoder_budget, Enc.compute_text_encoder_budget.
  repeat case_match; intros [= <- <-]; lia.
Qed.

Lemma init_sched_ok c cfg mm by_modality blocks block_size dcp spec finished g s0 :
  Sched.init W c cfg mm by_modality blocks true false block_size dcp spec finished None g = Ok s0 →
  args_ok c cfg mm dcp spec → search_block_size (coordinator (kv_cache_manager s0)) = bs →
  sched_ok s0 ∧ requests s0 = ∅ ∧ running s0 = [] ∧ Fcfs.deque (waiting s0) = [].
Proof.
  intros Hinit [] Hb. unfold Sched.init in Hinit. rewrite Ok_bind in Hinit.
  apply bind_Ok in Hinit as (u&_&Hinit). apply bind_Ok in Hinit as ([compute size]&Henc&Hinit).
  apply bind_Ok in Hinit as (K&HK&Hinit). rewrite (wo_queue _ _ _ _ HW) in Hinit.
  assert (match spec with Some (_, e) => e | None => false end = default false (snd <$> spec)) as Heagle
    by by destruct spec as [[? ?]|].
  rewrite Heagle in *. injection Hinit as <-. cbn in Hb.
  assert (km_log_stats K = log_stats c) as Hstats.
  { unfold KVM.init in HK. apply bind_Ok in HK as (?&_&HK). apply bind_Ok in HK as (?&_&HK). by simplify_eq. }
  split_and!; try done. split; cbn; [split; cbn; try done|done| |done].
  - destruct spec as [[n e]|]; simpl in *; [by destruct e|done].
  - split; try done; try (by constructor).
    + assert (live [] ∅ = ∅) as -> by (apply map_eq; intros x; rewrite live_lookup, lookup_empty; done).
      by eapply init_sys_ok.
    + apply Enc.init_inv. by eapply encoder_size.
    + intros rid. split; [by intros ?%elem_of_nil|]. intros (r&Hr&_). by rewrite lookup_empty in Hr.
    + intros rid. split; [by intros ?%elem_of_nil|]. intros (r&Hr&_). by rewrite lookup_empty in Hr.
Qed.

(** ** Interleavings *)

(** One call of the engine. *)
Inductive sched_step : Scheduler Fcfs.FCFSRequestQueue G CS → Scheduler Fcfs.FCFSRequestQueue G CS → Prop :=
  | step_add now r s s' : arriving s r → Sched.add_request now r s = Ok s' → sched_step s s'
  | step_schedule now s out s' : Sched.schedule W now s = Ok (out, s') → sched_step s s'
  | step_update out mo s outs s' :
      answer_ok out mo → Sched.update_from_output W out mo s = Ok (outs, s') → sched_step s s'
  | step_finish ids st s s' :
      status_is_finished st = true → Sched.finish_requests W ids st s = Ok s' → sched_step s s'.

Lemma sched_step_ok s s' : sched_step s s' → sched_ok s → sched_ok s'.
Proof.
  intros [now r s1 s2 Har Hrun|now s1 out s2 Hrun|out mo s1 outs s2 Han Hrun|ids st s1 s2 Hst Hrun] Hok.
  - destruct (add_request_ok now r s1 Hok Har) as (s3&Hr&?&_). congruence.
  - destruct (schedule_ok W H N bs Hbs Hinj Hnone Hne sz Hsz HW now s1 Hok) as (out'&s3&Hr&?&_). congruence.
  - destruct (update_from_output_ok W H N bs Hbs Hinj Hnone Hne sz Hsz HW out mo s1 Hok Han)
      as (outs'&s3&Hr&?&_). congruence.
  - destruct (finish_requests_ok ids st s1 Hok Hst) as (s3&Hr&?&_). congruence.
Qed.

Lemma reachable_ok s s' : rtc sched_step s s' → sched_ok s → sched_ok s'.
Proof. induction 1 as [|s1 s2 s3 Hstep _ IH]; [done|]. intros Hok. by apply IH, (sched_step_ok s1). Qed.

Lemma all_blocks_free s :
  sched_ok s → requests s = ∅ →
  Pool.get_num_free_blocks (pool_of (kv_cache_manager s)) = num_gpu_blocks (pool_of (kv_cache_manager s)) - 1.
Proof.
  intros [_ _ HC _] Hempty. apply (sys_all_free H N bs _ _ (co_kv _ _ _ _ _ _ _ _ _ _ _ HC)).
  apply map_eq. intros x. simpl. by rewrite live_lookup, Hempty, lookup_empty.
Qed.
End calls.

(** ** The theorems *)

(** The environment of the theorems, with a hash function without collisions. *)
Record setup {G CS Blob : Type} (W : World Fcfs.FCFSRequestQueue G CS Blob)
    (H : bytes * list Z * option (list ExtraKey) → bytes) (N : bytes) (bs : Z) (sz : string → Z) : Prop := {
  su_bs : 0 < bs;
  su_inj : ∀ x y, H x = H y → x = y;
  su_none : ∀ x, H x ≠ N;
  su_ne : ∀ x, H x ≠ [];
  su_sz : ∀ h, 0 ≤ sz h;
  su_world : world_ok W H N bs;
}.

Section theorems.
Context {G CS Blob : Type} (W : World Fcfs.FCFSRequestQueue G CS Blob).
Context (H : bytes * list Z * option (list ExtraKey) → bytes) (N : bytes) (bs : Z) (sz : string → Z).
Context (HS : setup W H N bs sz).
Implicit Types (s : Scheduler Fcfs.FCFSRequestQueue G CS).

(** C1. The scheduler is safe: from a new scheduler (FCFS, no KV connector), in
    every interleaving of arrivals, steps, updates with the model's output and
    aborts, the invariant holds and no call raises: every assertion, dictionary
    lookup and list access of the calls succeeds.  When no request is left, every
    block but the null block is free again. *)
Theorem scheduler_safe c cfg mm by_modality blocks block_size dcp spec finished g s0 s :
  Sched.init W c cfg mm by_modality blocks true false block_size dcp spec finished None g = Ok s0 →
  args_ok c cfg mm dcp spec → search_block_size (coordinator (kv_cache_manager s0)) = bs →
  rtc (sched_step W H N bs sz) s0 s →
  sched_ok H N bs sz s ∧
  (∀ now r, arriving H N bs sz s r → is_ok (Sched.add_request now r s) = true) ∧
  (∀ now, is_ok (Sched.schedule W now s) = true) ∧
  (∀ out mo, answer_ok out mo → is_ok (Sched.update_from_output W out mo s) = true) ∧
  (∀ ids st, status_is_finished st = true → is_ok (Sched.finish_requests W ids st s) = true) ∧
  (requests s = ∅ → Pool.get_num_free_blocks (pool_of (kv_cache_manager s)) =
     num_gpu_blocks (pool_of (kv_cache_manager s)) - 1).
Proof.
  destruct HS as [Hbs Hinj Hnone Hne Hsz HW]. intros Hinit Hargs Hb Hsteps.
  destruct (init_sched_ok W H N bs Hbs sz HW _ _ _ _ _ _ _ _ _ _ _ Hinit Hargs Hb) as (Hok0&_).
  pose proof (reachable_ok W H N bs Hbs Hinj Hnone Hne sz Hsz HW _ _ Hsteps Hok0) as Hok.
  split_and!; [done|..].
  - intros now r Har. destruct (add_request_ok H N bs Hbs Hinj Hnone Hne sz Hsz now r s Hok Har) as (s'&->&_). done.
  - intros now. by destruct (schedule_ok W H N bs Hbs Hinj Hnone Hne sz Hsz HW now s Hok) as (out&s'&->&_).
  - intros out mo Han.
    by destruct (update_from_output_ok W H N bs Hbs Hinj Hnone Hne sz Hsz HW out mo s Hok Han) as (outs&s'&->&_).
  - intros ids st Hst.
    by destruct (finish_requests_ok W H N bs Hbs Hinj Hnone Hne sz Hsz HW ids st s Hok Hst) as (s'&->&_).
  - by apply all_blocks_free with H N bs sz.
Qed.

(** C2. A step: [schedule] returns, keeps the invariant, and what it returns is
    sound: the requests it names are different and running, each gets at least one
    token and no more than it has left, together they stay within the token
    budget, the lists of new and cached requests are exactly the requests with
    tokens, and the manager holds blocks for every token computed afterwards. *)
Theorem schedule_correct now s :
  sched_ok H N bs sz s →
  ∃ out s', Sched.schedule W now s = Ok (out, s') ∧ sched_ok H N bs sz s' ∧ config s' = config s ∧
    output_ok s out s'.
Proof.
  destruct HS as [Hbs Hinj Hnone Hne Hsz HW]. intros Hok.
  destruct (schedule_ok W H N bs Hbs Hinj Hnone Hne sz Hsz HW now s Hok) as (out&s'&?&?&[? _]&?).
  by exists out, s'.
Qed.

(** C3. An update with the model's output: each scheduled request that is still
    known gets the sampled tokens up to the first that ends it; it is deleted and
    reported finished exactly when a token ended it, its client is sent the tokens
    that were kept, and every other request is as before. *)
Theorem update_from_output_correct out mo s :
  sched_ok H N bs sz s → answer_ok out mo →
  ∃ outs s', Sched.update_from_output W out mo s = Ok (outs, s') ∧ sched_ok H N bs sz s' ∧
    (∀ rid r, rid ∈ (out_num_scheduled_tokens out).*1 → requests s !! rid = Some r →
       answered mo s (finished_req_ids s') (delivered outs) r (requests s' !! rid)) ∧
    (∀ rid, rid ∉ (out_num_scheduled_tokens out).*1 → requests s' !! rid = requests s !! rid).
Proof.
  destruct HS as [Hbs Hinj Hnone Hne Hsz HW]. intros Hok Han.
  destruct (update_from_output_ok W H N bs Hbs Hinj Hnone Hne sz Hsz HW out mo s Hok Han)
    as (outs&s'&?&?&_&?&?). by exists outs, s'.
Qed.

(** C16. Aborting requests: whatever set of ids, known or not, running or waiting,
    exactly the requests named are gone, from the dictionary, the running list and
    the queue, with their blocks. *)
Theorem finish_requests_correct ids st s :
  sched_ok H N bs sz s → status_is_finished st = true →
  ∃ s', Sched.finish_requests W ids st s = Ok s' ∧ sched_ok H N bs sz s' ∧
    requests s' = filter (λ x, x.1 ∉ ids) (requests s) ∧
    (∀ rid, rid ∈ ids → rid ∉ running s' ∧ rid ∉ Fcfs.deque (waiting s') ∧ no_tables (kv_cache_manager s') rid).
Proof.
  destruct HS as [Hbs Hinj Hnone Hne Hsz HW]. intros Hok Hst.
  destruct (finish_requests_ok W H N bs Hbs Hinj Hnone Hne sz Hsz HW ids st s Hok Hst) as (s'&Hrun&Hok'&_&Hreq).
  exists s'. split_and!; [done|done| |].
  - apply map_eq. intros x. rewrite Hreq, map_lookup_filter.
    destruct (requests s !! x) as [r|]; cbn; [|by case_decide]. by repeat case_guard || case_decide.
  - intros rid Hin. pose proof (Hreq rid) as Hnone'. rewrite decide_True in Hnone' by done.
    destruct Hok' as [_ _ HC' _]. split_and!.
    + intros (r&?&_)%(co_run _ _ _ _ _ _ _ _ _ _ _ HC'). congruence.
    + intros (r&?&_)%(co_queue _ _ _ _ _ _ _ _ _ _ _ HC'). congruence.
    + apply (sk_others _ _ _ _ _ (co_kv _ _ _ _ _ _ _ _ _ _ _ HC')).
      apply live_not_running. intros r ?. congruence.
Qed.
End theorems.

(** ** Concrete runs for the witnesses *)

Definition safe_world : World Fcfs.FCFSRequestQueue unit unit unit := run_world (Fcfs.mkFcfs []).
Definition safe_sizes (h : string) : Z := 0.
Definition safe_init : result (Scheduler Fcfs.FCFSRequestQueue unit unit) :=
  run_init (Fcfs.mkFcfs []) FCFS 9 8 None.
Definition safe_request (rid : string) : Request :=
  get_request (run_request rid 0 0 [1; 2; 3; 4; 5] sys_sampling None).

Lemma safe_setup : setup safe_world enc_hash enc_none 4 safe_sizes.
Proof.
  split; [done|apply enc_hash_inj|apply enc_hash_none|apply enc_hash_ne|done|]. by split.
Qed.

Lemma safe_args : args_ok (run_config FCFS 8 None) (run_kv 9) (Enc.mkEncConfig false 8 0 0) 1 None.
Proof.
  split; try done.
  - split; [lia|done|repeat constructor|]. intros _. unfold run_kv. cbn [kv_cache_groups].
    apply Forall_cons_2; [|apply Forall_nil_2]. intros s [= <-]. by repeat split.
  - intros g a w Hg Hl. unfold run_kv in Hg. cbn [kv_cache_groups] in Hg.
    apply list_elem_of_singleton in Hg as ->. by cbn in Hl.
Qed.

Definition safe_summary : result (Z * Z) :=
  s ← safe_init; Ok (search_block_size (coordinator (kv_cache_manager s)), max_len (config s)).
Lemma safe_summary_eq : safe_summary = Ok (4, 16).
Proof. by vm_compute. Qed.

Lemma safe_init_ok :
  ∃ s0, safe_init = Ok s0 ∧ search_block_size (coordinator (kv_cache_manager s0)) = 4 ∧
    max_len (config s0) = 16 ∧ sched_ok enc_hash enc_none 4 safe_sizes s0 ∧ requests s0 = ∅.
Proof.
  pose proof safe_summary_eq as Hsum. unfold safe_summary in Hsum.
  destruct safe_init as [s0|] eqn:Hinit; [|done]. rewrite Ok_bind in Hsum. injection Hsum as Hb Hlen.
  pose proof safe_setup as [].
  destruct (init_sched_ok safe_world enc_hash enc_none 4 ltac:(done) safe_sizes ltac:(done)
    (run_config FCFS 8 None) (run_kv 9) (Enc.mkEncConfig false 8 0 0) None (Some 9) 4 1 None false tt s0
    Hinit safe_args Hb) as (Hok&Hempty&_).
  by exists s0.
Qed.

Lemma safe_request_ok rid c : max_len c = 16 → req_ok enc_hash enc_none 4 safe_sizes c (safe_request rid).
Proof.
  intros Hlen. assert (num_tokens (safe_request rid) = 5) as Hn by by vm_compute.
  destruct (init_hashes enc_hash enc_none 4 ltac:(lia) rid (Some [1; 2; 3; 4; 5]) (Some sys_sampling) None None 0 0
    None [] None None 0 (safe_request rid)) as [Hwf Hfull]; [by vm_compute|].
  split; try done; [|lia|by intros ? ?%elem_of_nil]. rewrite Hlen. split; [done|done|lia].
Qed.

Lemma safe_arriving rid (s : Scheduler Fcfs.FCFSRequestQueue unit unit) :
  max_len (config s) = 16 → requests s !! rid = None →
  arriving enc_hash enc_none 4 safe_sizes s (safe_request rid).
Proof. intros Hlen Hnew. split_and!; [by apply safe_request_ok|by left|done|done]. Qed.

(** A request arrives, is scheduled, gets a token and is aborted. *)
Definition safe_answer : ModelRunnerOutput unit := SchedulerCases.sampled ["a"%string].
Definition safe_run : result (list string * list (string * Z) * gset string * nat) :=
  s ← safe_init;
  s1 ← Sched.add_request 0 (safe_request "a") s;
  '(out, s2) ← Sched.schedule safe_world 0 s1;
  '(_, s3) ← Sched.update_from_output safe_world out safe_answer s2;
  s4 ← Sched.finish_requests safe_world {["a"%string]} FINISHED_ABORTED s3;
  Ok (running s3, out_num_scheduled_tokens out, dom (requests s3), base.size (requests s4)).
Lemma safe_run_eq : safe_run = Ok (["a"%string], [("a"%string, 5)], {["a"%string]}, 0%nat).
Proof. by vm_compute. Qed.

Lemma safe_answer_ok out :
  out_num_scheduled_tokens out = [("a"%string, 5)] → out_spec_decode_tokens out = ∅ → answer_ok out safe_answer.
Proof.
  intros Hout Hspec. split; rewrite ?Hout; try done.
  - apply NoDup_singleton.
  - intros rid n [= -> ->]%list_elem_of_singleton. lia.
  - intros rid ->%list_elem_of_singleton. exists 0. split; [done|]. right. by exists [7].
Qed.

(** The states of that run. *)
Lemma safe_states :
  ∃ s0 s1 out s2 outs s3 s4, safe_init = Ok s0 ∧
    (search_block_size (coordinator (kv_cache_manager s0)) = 4 ∧ arriving enc_hash enc_none 4 safe_sizes s0 (safe_request "a")) ∧
    Sched.add_request 0 (safe_request "a") s0 = Ok s1 ∧ sched_ok enc_hash enc_none 4 safe_sizes s1 ∧
    Sched.schedule safe_world 0 s1 = Ok (out, s2) ∧ sched_ok enc_hash enc_none 4 safe_sizes s2 ∧
    out_num_scheduled_tokens out = [("a"%string, 5)] ∧ answer_ok out safe_answer ∧
    Sched.update_from_output safe_world out safe_answer s2 = Ok (outs, s3) ∧ sched_ok enc_hash enc_none 4 safe_sizes s3 ∧
    running s3 = ["a"%string] ∧
    Sched.finish_requests safe_world {["a"%string]} FINISHED_ABORTED s3 = Ok s4 ∧ requests s4 = ∅.
Proof.
  destruct safe_init_ok as (s0&Hinit&Hb&Hlen&Hok0&Hempty). pose proof safe_setup as [].
  pose proof safe_run_eq as Hsum. unfold safe_run in Hsum. rewrite Hinit, Ok_bind in Hsum.
  assert (arriving enc_hash enc_none 4 safe_sizes s0 (safe_request "a")) as Har
    by (apply safe_arriving; [done|by rewrite Hempty]).
  destruct (add_request_ok enc_hash enc_none 4 ltac:(done) ltac:(done) ltac:(done) ltac:(done) safe_sizes
    ltac:(done) 0 (safe_request "a") s0 Hok0 Har) as (s1&Hadd&Hok1&_).
  rewrite Hadd, Ok_bind in Hsum.
  destruct (schedule_ok safe_world enc_hash enc_none 4 ltac:(done) ltac:(done) ltac:(done) ltac:(done) safe_sizes
    ltac:(done) ltac:(done) 0 s1 Hok1) as (out&s2&Hsched&Hok2&_&Hout).
  rewrite Hsched, Ok_bind in Hsum. cbn beta iota in Hsum.
  apply bind_Ok in Hsum as ([outs s3]&Hupd&Hsum). apply bind_Ok in Hsum as (s4&Hfin&Hsum).
  injection Hsum as Hrun Hns _ Hsize.
  assert (answer_ok out safe_answer) as Han by (apply safe_answer_ok; [done|apply Hout]).
  assert (sched_ok enc_hash enc_none 4 safe_sizes s3) as Hok3.
  { apply (sched_step_ok safe_world enc_hash enc_none 4 ltac:(done) ltac:(done) ltac:(done) ltac:(done) safe_sizes
      ltac:(done) ltac:(done) s2); [|exact Hok2]. exact (step_update _ _ _ _ _ out safe_answer s2 outs s3 Han Hupd). }
  apply map_size_empty_inv in Hsize. exists s0, s1, out, s2, outs, s3, s4.
  exact (conj Hinit (conj (conj Hb Har) (conj Hadd (conj Hok1 (conj Hsched (conj Hok2 (conj Hns (conj Han
    (conj Hupd (conj Hok3 (conj Hrun (conj Hfin Hsize)))))))))))).
Qed.

Lemma scheduler_safe_witness :
  ∃ s0 s, safe_init = Ok s0 ∧ rtc (sched_step safe_world enc_hash enc_none 4 safe_sizes) s0 s ∧
    requests s = ∅ ∧ is_ok (Sched.schedule safe_world 1 s) = true ∧
    Pool.get_num_free_blocks (pool_of (kv_cache_manager s)) = num_gpu_blocks (pool_of (kv_cache_manager s)) - 1.
Proof.
  destruct safe_states as (s0&s1&out&s2&outs&s3&s4&Hinit&[Hb Har]&Hadd&_&Hsched&_&_&Han&Hupd&_&_&Hfin&Hempty).
  assert (rtc (sched_step safe_world enc_hash enc_none 4 safe_sizes) s0 s4) as Hsteps.
  { eapply rtc_l; [exact (step_add _ _ _ _ _ _ _ _ _ Har Hadd)|].
    eapply rtc_l; [exact (step_schedule _ _ _ _ _ _ _ _ _ Hsched)|].
    eapply rtc_l; [exact (step_update _ _ _ _ _ _ _ _ _ _ Han Hupd)|].
    apply rtc_once. exact (step_finish _ _ _ _ _ _ FINISHED_ABORTED _ _ eq_refl Hfin). }
  exists s0, s4. split; [done|]. split; [done|]. split; [done|].
  destruct (scheduler_safe safe_world enc_hash enc_none 4 safe_sizes safe_setup (run_config FCFS 8 None) (run_kv 9)
    (Enc.mkEncConfig false 8 0 0) None (Some 9) 4 1 None false tt s0 s4 Hinit safe_args Hb Hsteps)
    as (_&_&Hs&_&_&Hfree).
  split; [apply Hs|by apply Hfree].
Defined.

Lemma schedule_correct_witness :
  ∃ s out s', sched_ok enc_hash enc_none 4 safe_sizes s ∧ Sched.schedule safe_world 0 s = Ok (out, s') ∧
    out_num_scheduled_tokens out = [("a"%string, 5)] ∧ output_ok s out s'.
Proof.
  destruct safe_states as (s0&s1&out&s2&outs&s3&s4&_&_&_&Hok1&Hsched&_&Hout&_).
  destruct (schedule_correct safe_world enc_hash enc_none 4 safe_sizes safe_setup 0 s1 Hok1) as (out'&s'&Hrun&_&_&Ho).
  rewrite Hsched in Hrun. injection Hrun as <- <-. exists s1, out, s2. exact (conj Hok1 (conj Hsched (conj Hout Ho))).
Defined.

Lemma update_from_output_correct_witness :
  ∃ out s outs s', sched_ok enc_hash enc_none 4 safe_sizes s ∧ answer_ok out safe_answer ∧
    out_num_scheduled_tokens out = [("a"%string, 5)] ∧
    Sched.update_from_output safe_world out safe_answer s = Ok (outs, s') ∧
    ∀ rid, rid ≠ "a"%string → requests s' !! rid = requests s !! rid.
Proof.
  destruct safe_states as (s0&s1&out&s2&outs&s3&s4&_&_&_&_&_&Hok2&Hout&Han&_).
  destruct (update_from_output_correct safe_world enc_hash enc_none 4 safe_sizes safe_setup out safe_answer s2 Hok2 Han)
    as (outs'&s'&Hrun&_&_&Hrest).
  exists out, s2, outs', s'. split; [exact Hok2|]. split; [exact Han|]. split; [exact Hout|]. split; [exact Hrun|].
  intros rid Hrid. apply Hrest. rewrite Hout. by intros ->%list_elem_of_singleton.
Defined.

Lemma finish_requests_correct_witness :
  ∃ s s', sched_ok enc_hash enc_none 4 safe_sizes s ∧ running s = ["a"%string] ∧
    Sched.finish_requests safe_world {["a"%string]} FINISHED_ABORTED s = Ok s' ∧ "a"%string ∉ running s'.
Proof.
  destruct safe_states as (s0&s1&out&s2&outs&s3&s4&_&_&_&_&_&_&_&_&_&Hok3&Hrun&_).
  destruct (finish_requests_correct safe_world enc_hash enc_none 4 safe_sizes safe_setup {["a"%string]} FINISHED_ABORTED
    s3 Hok3) as (s'&Hfin&_&_&Hgone); [done|].
  exists s3, s'. split; [exact Hok3|]. split; [exact Hrun|]. split; [exact Hfin|].
  by apply (Hgone "a"%string), elem_of_singleton.
Defined.
