(* ===== verification/Offload.v ===== *)
(** * KV offloading: the manager and its backends

    Models src/vllm/v1/kv_offload/: the interface of a backend (backend.py), the
    CPU backend (backends/cpu.py), the specifications of where data is
    (mediums.py) and the LRU manager of offloaded blocks (lru_manager.py), which
    is written against the interface.

    A [BlockStatus] is a mutable object that is reachable only through the
    manager's dictionary, so it is a value there.  An [OrderedDict] is the list
    of its items in order. *)
From S2P Require Import Prelude FreeQueue.

(** ** Ordered dictionaries *)

Module Od.
Section od.
Context {K V : Type} `{EqDecision K}.

Fixpoint get (k : K) (d : list (K * V)) : option V :=
  match d with
  | [] => None
  | (k', v) :: d => if decide (k = k') then Some v else get k d
  end.
(** [d[k] = v]: in place, or at the end. *)
Fixpoint set (k : K) (v : V) (d : list (K * V)) : list (K * V) :=
  match d with
  | [] => [(k, v)]
  | (k', w) :: d => if decide (k = k') then (k, v) :: d else (k', w) :: set k v d
  end.
(** [del d[k]]. *)
Definition del (k : K) (d : list (K * V)) : list (K * V) := filter (λ kv, kv.1 ≠ k) d.
Definition pop (k : K) (d : list (K * V)) : result (V * list (K * V)) :=
  v ← of_option KeyError (get k d); Ok (v, del k d).
Definition move_to_end (k : K) (d : list (K * V)) : result (list (K * V)) :=
  v ← of_option KeyError (get k d); Ok (del k d ++ [(k, v)]).
End od.
End Od.

(** An [Iterable]: a list, or an iterator, which is empty once it was consumed. *)
Inductive iterable (A : Type) : Type :=
  | PyList (l : list A)
  | PyIterator (l : list A).
Arguments PyList {A} l.
Arguments PyIterator {A} l.

Definition items {A} (it : iterable A) : list A :=
  match it with PyList l | PyIterator l => l end.
Definition items_again {A} (it : iterable A) : list A :=
  match it with PyList l => l | PyIterator _ => [] end.

(** ** Where data is *)

(** [GPULoadStoreSpec] and [CPULoadStoreSpec]: arrays of int64 block ids. *)
Inductive LoadStoreSpec : Set :=
  | GPULoadStoreSpec (block_ids : list Z)
  | CPULoadStoreSpec (block_ids : list Z).

Definition spec_medium (s : LoadStoreSpec) : string :=
  match s with GPULoadStoreSpec _ => "GPU" | CPULoadStoreSpec _ => "CPU" end.
Definition spec_block_ids (s : LoadStoreSpec) : list Z :=
  match s with GPULoadStoreSpec ids | CPULoadStoreSpec ids => ids end.

(** ** Backends *)

(** [load_info] is what a subclass adds to [BlockStatus]. *)
Record BlockStatus (B : Type) := mkStatus { status_ref_cnt : Z; load_info : B }.
Arguments mkStatus {B} _ _.
Arguments status_ref_cnt {B} _.
Arguments load_info {B} _.

Definition is_ready {B} (b : BlockStatus B) : bool := 0 <=? status_ref_cnt b.
(** [block.ref_cnt = n], a [c_int32]. *)
Definition set_ref {B} (n : Z) (b : BlockStatus B) : BlockStatus B := mkStatus (i32 n) (load_info b).

Class Backend (S B : Type) := {
  be_block_size : S → Z;
  be_medium : S → string;
  get_num_free_blocks : S → Z;
  allocate_blocks : list bytes → S → result (list (BlockStatus B) * S);
  be_free : BlockStatus B → S → result S;
  get_load_store_spec : list bytes → list (BlockStatus B) → S → result LoadStoreSpec;
}.

(** What the docstrings of the interface promise.  [owns s l]: the blocks that were
    allocated and not yet freed are [l]; there are [capacity s] in all. *)
Class BackendLaws (S B : Type) `{Backend S B} := {
  owns : S → list B → Prop;
  capacity : S → Z;
  owns_perm s l l' : l ≡ₚ l' → owns s l → owns s l';
  owns_nodup s l : owns s l → NoDup l;
  owns_count s l : owns s l → get_num_free_blocks s + len l = capacity s ∧ 0 ≤ get_num_free_blocks s;
  allocate_law s l hs :
    owns s l → len hs ≤ get_num_free_blocks s →
    ∃ bs s', allocate_blocks hs s = Ok (bs, s') ∧ length bs = length hs ∧
      Forall (λ b, status_ref_cnt b = -1) bs ∧ owns s' ((load_info <$> bs) ++ l) ∧
      capacity s' = capacity s ∧ be_block_size s' = be_block_size s ∧ be_medium s' = be_medium s;
  free_law s l b :
    owns s (load_info b :: l) →
    ∃ s', be_free b s = Ok s' ∧ owns s' l ∧
      capacity s' = capacity s ∧ be_block_size s' = be_block_size s ∧ be_medium s' = be_medium s;
  spec_law s hs bs : ∃ spec, get_load_store_spec hs bs s = Ok spec;
}.

(** ** The CPU backend *)

Module Cpu.
Record CPUBackend := mkCpu {
  block_size : Z;
  num_blocks : Z;
  num_allocated_blocks : Z;
  allocated_blocks_free_list : list Z;
}.

Definition init (block_size num_blocks : Z) : CPUBackend := mkCpu block_size num_blocks 0 [].

(** [CPUBlockStatus(block_id)]: not ready; [block_id] is a [c_int64]. *)
Definition CPUBlockStatus (block_id : Z) : BlockStatus Z := mkStatus (-1) (i64 block_id).

Definition get_num_free_blocks (s : CPUBackend) : Z :=
  len (allocated_blocks_free_list s) + num_blocks s - num_allocated_blocks s.

Definition fresh_block (_ : Z) (s : CPUBackend) : result (BlockStatus Z * CPUBackend) :=
  Ok (CPUBlockStatus (num_allocated_blocks s),
      mkCpu (block_size s) (num_blocks s) (num_allocated_blocks s + 1) (allocated_blocks_free_list s)).

(** [allocated_blocks_free_list.pop()] takes the last element. *)
Definition reused_block (_ : Z) (s : CPUBackend) : result (BlockStatus Z * CPUBackend) :=
  match reverse (allocated_blocks_free_list s) with
  | [] => Err IndexError
  | block_id :: rest =>
      Ok (CPUBlockStatus block_id,
          mkCpu (block_size s) (num_blocks s) (num_allocated_blocks s) (reverse rest))
  end.

Definition allocate_blocks (block_hashes : list bytes) (s : CPUBackend)
  : result (list (BlockStatus Z) * CPUBackend) :=
  let num_fresh_blocks := Z.min (len block_hashes) (num_blocks s - num_allocated_blocks s) in
  let num_reused_blocks := len block_hashes - num_fresh_blocks in
  _ ← py_assert (num_reused_blocks <=? len (allocated_blocks_free_list s));
  '(fresh, s) ← map_acc fresh_block (py_range 0 num_fresh_blocks) s;
  '(reused, s) ← map_acc reused_block (py_range 0 num_reused_blocks) s;
  Ok (fresh ++ reused, s).

Definition free (block : BlockStatus Z) (s : CPUBackend) : result CPUBackend :=
  Ok (mkCpu (block_size s) (num_blocks s) (num_allocated_blocks s)
        (allocated_blocks_free_list s ++ [load_info block])).

Definition get_load_store_spec (_ : list bytes) (bs : list (BlockStatus Z)) (_ : CPUBackend)
  : result LoadStoreSpec :=
  Ok (CPULoadStoreSpec (load_info <$> bs)).
End Cpu.

#[export] Instance cpu_backend : Backend Cpu.CPUBackend Z := {|
  be_block_size := Cpu.block_size;
  be_medium := λ _, spec_medium (CPULoadStoreSpec []);
  get_num_free_blocks := Cpu.get_num_free_blocks;
  allocate_blocks := Cpu.allocate_blocks;
  be_free := Cpu.free;
  get_load_store_spec := Cpu.get_load_store_spec;
|}.

(** ** The LRU manager *)

Record OffloadingEvent := mkOffEvent {
  oe_block_hashes : list bytes;
  oe_block_size : Z;
  oe_medium : string;
  oe_removed : bool;
}.

Record PrepareStoreOutput := mkStore {
  block_hashes_to_store : list bytes;
  store_spec : LoadStoreSpec;
  block_hashes_evicted : list bytes;
}.

Module Lru.
Section lru.
Context {S B : Type} `{Backend S B}.

Record LRUOffloadingManager := mkLru {
  backend : S;
  blocks : list (bytes * BlockStatus B);
  events : option (list OffloadingEvent);
}.

Definition init (backend : S) (enable_events : bool) : LRUOffloadingManager :=
  mkLru backend [] (if enable_events then Some [] else None).

Definition set_blocks (x : list (bytes * BlockStatus B)) (m : LRUOffloadingManager) : LRUOffloadingManager :=
  mkLru (backend m) x (events m).
Definition set_backend (x : S) (m : LRUOffloadingManager) : LRUOffloadingManager :=
  mkLru x (blocks m) (events m).
(** [if hashes and self.events is not None: self.events.append(...)]. *)
Definition add_event (hashes : list bytes) (removed : bool) (m : LRUOffloadingManager) : LRUOffloadingManager :=
  match events m with
  | Some es =>
      if bool_decide (hashes = []) then m
      else mkLru (backend m) (blocks m)
             (Some (es ++ [mkOffEvent hashes (be_block_size (backend m)) (be_medium (backend m)) removed]))
  | None => m
  end.

(** The loop of [lookup]. *)
Fixpoint lookup (block_hashes : list bytes) (m : LRUOffloadingManager) : Z :=
  match block_hashes with
  | [] => 0
  | h :: hs =>
      match Od.get h (blocks m) with
      | Some b => if is_ready b then 1 + lookup hs m else 0
      | None => 0
      end
  end.

Definition load_one (h : bytes) (m : LRUOffloadingManager) : result LRUOffloadingManager :=
  block ← of_option KeyError (Od.get h (blocks m));
  _ ← py_assert (is_ready block);
  Ok (set_blocks (Od.set h (set_ref (status_ref_cnt block + 1) block) (blocks m)) m).
(** The list of blocks holds references, so it shows the final counts; the backend
    gets the iterable that the loop has consumed. *)
Definition prepare_load (block_hashes : iterable bytes) (m : LRUOffloadingManager)
  : result (LoadStoreSpec * LRUOffloadingManager) :=
  m ← for_each load_one (items block_hashes) m;
  bs ← map_res (λ h, of_option KeyError (Od.get h (blocks m))) (items block_hashes);
  spec ← get_load_store_spec (items_again block_hashes) bs (backend m);
  Ok (spec, m).

Definition touch_one (h : bytes) (m : LRUOffloadingManager) : result LRUOffloadingManager :=
  match Od.get h (blocks m) with
  | Some _ => bs ← Od.move_to_end h (blocks m); Ok (set_blocks bs m)
  | None => Ok m
  end.
Definition touch (block_hashes : list bytes) (m : LRUOffloadingManager) : result LRUOffloadingManager :=
  for_each touch_one (reverse block_hashes) m.

Definition loaded_one (h : bytes) (m : LRUOffloadingManager) : result LRUOffloadingManager :=
  block ← of_option KeyError (Od.get h (blocks m));
  _ ← py_assert (0 <? status_ref_cnt block);
  Ok (set_blocks (Od.set h (set_ref (status_ref_cnt block - 1) block) (blocks m)) m).
Definition complete_load (block_hashes : list bytes) (m : LRUOffloadingManager) : result LRUOffloadingManager :=
  for_each loaded_one block_hashes m.

(** The loop that picks [n > 0] idle blocks; [None] is its [else] branch. *)
Fixpoint pick_idle (n : Z) (d : list (bytes * BlockStatus B)) : option (list bytes) :=
  match d with
  | [] => None
  | (h, block) :: d =>
      if status_ref_cnt block =? 0 then
        if n - 1 =? 0 then Some [h] else (λ l, h :: l) <$> pick_idle (n - 1) d
      else pick_idle n d
  end.
Definition evict_one (h : bytes) (m : LRUOffloadingManager) : result LRUOffloadingManager :=
  '(block, bs) ← Od.pop h (blocks m);
  be ← be_free block (backend m);
  Ok (set_backend be (set_blocks bs m)).
Definition put_blocks (hbs : list (bytes * BlockStatus B)) (d : list (bytes * BlockStatus B))
  : list (bytes * BlockStatus B) :=
  foldl (λ d hb, Od.set hb.1 hb.2 d) d hbs.

Definition prepare_store (block_hashes : list bytes) (m : LRUOffloadingManager)
  : result (option PrepareStoreOutput * LRUOffloadingManager) :=
  let to_store := filter (λ h, Od.get h (blocks m) = None) block_hashes in
  let num_blocks_to_evict := len to_store - get_num_free_blocks (backend m) in
  match (if 0 <? num_blocks_to_evict then pick_idle num_blocks_to_evict (blocks m) else Some []) with
  | None => Ok (None, m)
  | Some to_evict =>
      m ← for_each evict_one to_evict m;
      let m := add_event to_evict true m in
      '(bs, be) ← allocate_blocks to_store (backend m);
      _ ← py_assert (len bs =? len to_store);
      let m := set_blocks (put_blocks (zip to_store bs) (blocks m)) (set_backend be m) in
      spec ← get_load_store_spec to_store bs (backend m);
      Ok (Some (mkStore to_store spec to_evict), m)
  end.

Definition stored_one (h : bytes) (s : list bytes * LRUOffloadingManager) : result (list bytes * LRUOffloadingManager) :=
  let '(stored, m) := s in
  block ← of_option KeyError (Od.get h (blocks m));
  if is_ready block then Ok (stored, m)
  else Ok (stored ++ [h], set_blocks (Od.set h (set_ref 0 block) (blocks m)) m).
Definition drop_one (h : bytes) (m : LRUOffloadingManager) : result LRUOffloadingManager :=
  block ← of_option KeyError (Od.get h (blocks m));
  if is_ready block then Ok m
  else
    be ← be_free block (backend m);
    Ok (set_blocks (Od.del h (blocks m)) (set_backend be m)).
Definition complete_store (block_hashes : list bytes) (success : bool) (m : LRUOffloadingManager)
  : result LRUOffloadingManager :=
  '(stored, m) ← (if success then for_each stored_one block_hashes ([], m)
                  else m ← for_each drop_one block_hashes m; Ok ([], m));
  Ok (add_event stored false m).

(** The events that the generator yields, and the state when it is exhausted. *)
Definition take_events (m : LRUOffloadingManager) : list OffloadingEvent * LRUOffloadingManager :=
  match events m with
  | Some es => (es, mkLru (backend m) (blocks m) (Some []))
  | None => ([], m)
  end.
End lru.
Arguments LRUOffloadingManager : clear implicits.
End Lru.
