(* ===== verification/OffloadFacts.v ===== *)
(** * KV offloading: lemmas

    Ordered dictionaries, the laws of the CPU backend, and what each operation of
    the LRU manager does to the state of a manager whose backend keeps the laws.
    [lru_ok L S m] is the invariant: [L] counts, per hash, the loads that have not
    completed and [S] are the hashes whose store has not completed. *)
From stdpp Require Import gmultiset.
From S2P Require Import Prelude FreeQueue Offload.

(** ** Ordered dictionaries *)

Section od.
Context {K V : Type} `{EqDecision K}.
Implicit Types (k : K) (v : V) (d : list (K * V)).

Lemma od_get_None k d : Od.get k d = None ↔ k ∉ d.*1.
Proof.
  induction d as [|[k' v] d IH]; simpl; [split; [intros _; apply not_elem_of_nil|done]|].
  case_decide as Hk; rewrite not_elem_of_cons; [subst; naive_solver|]. naive_solver.
Qed.
Lemma od_get_Some k d : k ∈ d.*1 → ∃ v, Od.get k d = Some v.
Proof. intros Hk. destruct (Od.get k d) eqn:E; [by eexists|]. by apply od_get_None in E. Qed.
Lemma od_get_elem k v d : Od.get k d = Some v → (k, v) ∈ d.
Proof.
  induction d as [|[k' w] d IH]; simpl; [done|]. case_decide; [|right; auto]. intros ?. simplify_eq. left.
Qed.
Lemma od_get_key k v d : Od.get k d = Some v → k ∈ d.*1.
Proof. intros Hg%od_get_elem. apply list_elem_of_fmap. by exists (k, v). Qed.
Lemma od_elem_get k v d : NoDup d.*1 → (k, v) ∈ d → Od.get k d = Some v.
Proof.
  induction d as [|[k' w] d IH]; simpl; intros Hnd Hin; [by apply not_elem_of_nil in Hin|].
  apply NoDup_cons in Hnd as [Hn Hnd]. apply elem_of_cons in Hin as [[= -> ->]|Hin]; [by rewrite decide_True|].
  rewrite decide_False; [auto|]. intros ->. apply Hn, list_elem_of_fmap. by exists (k', v).
Qed.
Lemma od_get_perm k d d' : NoDup d.*1 → d ≡ₚ d' → Od.get k d' = Od.get k d.
Proof.
  intros Hnd Hp. assert (NoDup d'.*1) as Hnd' by (by rewrite <-Hp).
  destruct (Od.get k d) eqn:E.
  - apply od_elem_get; [done|]. rewrite <-Hp. by apply od_get_elem.
  - apply od_get_None. rewrite <-Hp. by apply od_get_None.
Qed.

Lemma od_get_set k k' v d : Od.get k' (Od.set k v d) = if decide (k' = k) then Some v else Od.get k' d.
Proof. induction d as [|[k0 w] d IH]; simpl; repeat (case_decide; simpl; simplify_eq); auto; congruence. Qed.
Lemma od_set_keys k v d : k ∈ d.*1 → (Od.set k v d).*1 = d.*1.
Proof.
  induction d as [|[k' w] d IH]; simpl; [by intros ?%not_elem_of_nil|]. intros Hk.
  case_decide; simpl; [by subst|]. f_equal. apply IH. by apply elem_of_cons in Hk as [?|?].
Qed.
Lemma od_set_fresh k v d : k ∉ d.*1 → Od.set k v d = d ++ [(k, v)].
Proof.
  induction d as [|[k' w] d IH]; simpl; [done|]. intros [? ?]%not_elem_of_cons.
  rewrite decide_False by done. by rewrite IH.
Qed.
(** An update that keeps a projection of the values. *)
Lemma od_set_proj {A} (f : V → A) k v w d : Od.get k d = Some w → f v = f w → f <$> (Od.set k v d).*2 = f <$> d.*2.
Proof.
  induction d as [|[k' u] d IH]; simpl; [done|]. case_decide; simpl; intros Hg Hf; [by simplify_eq; rewrite Hf|].
  f_equal. by apply IH.
Qed.

Lemma od_get_filter k d (P : K → Prop) `{∀ k, Decision (P k)} :
  Od.get k (filter (λ kv, P kv.1) d) = if decide (P k) then Od.get k d else None.
Proof.
  induction d as [|[k' v] d IH]; simpl; [by case_decide|]. rewrite filter_cons. cbn [fst].
  destruct (decide (P k')); simpl; rewrite IH; repeat case_decide; simplify_eq; auto; done.
Qed.
Lemma od_get_del k k' d : Od.get k' (Od.del k d) = if decide (k' = k) then None else Od.get k' d.
Proof. pose proof (od_get_filter k' d (λ x, x ≠ k)) as Hx. unfold Od.del. rewrite Hx. repeat case_decide; done. Qed.
Lemma od_filter_keys d (P : K → Prop) `{∀ k, Decision (P k)} : (filter (λ kv, P kv.1) d).*1 = filter P d.*1.
Proof.
  induction d as [|[k v] d IH]; [done|]. rewrite fmap_cons, !filter_cons. cbn [fst].
  destruct (decide (P k)); [rewrite fmap_cons|]; by rewrite IH.
Qed.
Lemma od_del_perm k v d : NoDup d.*1 → Od.get k d = Some v → d ≡ₚ (k, v) :: Od.del k d.
Proof.
  induction d as [|[k' w] d IH]; simpl; [done|]. intros [Hn Hnd]%NoDup_cons Hg. unfold Od.del. rewrite filter_cons. cbn [fst].
  destruct (decide (k = k')) as [->|Hk].
  - simplify_eq. rewrite decide_False by (intros []; done). rewrite filter_id; [done|].
    intros [k v'] Hin. cbn. intros ->. apply Hn, list_elem_of_fmap. by exists (k', v').
  - rewrite decide_True by congruence. rewrite (IH Hnd Hg) at 1. apply perm_swap.
Qed.
Lemma od_del_nodup k d : NoDup d.*1 → NoDup (Od.del k d).*1.
Proof.
  intros Hnd. pose proof (od_filter_keys d (λ x, x ≠ k)) as Hx. unfold Od.del. rewrite Hx. by apply NoDup_filter.
Qed.
End od.

(** ** The CPU backend keeps the promises *)

Lemma map_acc_fresh l s :
  map_acc Cpu.fresh_block l s =
    Ok (Cpu.CPUBlockStatus <$> seqZ (Cpu.num_allocated_blocks s) (len l),
        Cpu.mkCpu (Cpu.block_size s) (Cpu.num_blocks s) (Cpu.num_allocated_blocks s + len l)
          (Cpu.allocated_blocks_free_list s)).
Proof.
  induction l as [|x l IH] in s |- *.
  - cbn. rewrite Z.add_0_r. by destruct s.
  - cbn [map_acc]. unfold Cpu.fresh_block at 2. cbv beta. rewrite Ok_bind, IH. cbn. rewrite len_cons.
    rewrite (seqZ_cons _ (1 + len l)) by len_lia. cbn. f_equal. f_equal; f_equal; try lia.
    f_equal. f_equal; lia.
Qed.

Lemma map_acc_reused l s :
  len l ≤ len (Cpu.allocated_blocks_free_list s) →
  map_acc Cpu.reused_block l s =
    Ok (Cpu.CPUBlockStatus <$> take (length l) (reverse (Cpu.allocated_blocks_free_list s)),
        Cpu.mkCpu (Cpu.block_size s) (Cpu.num_blocks s) (Cpu.num_allocated_blocks s)
          (reverse (drop (length l) (reverse (Cpu.allocated_blocks_free_list s))))).
Proof.
  induction l as [|x l IH] in s |- *; intros Hl.
  - cbn [map_acc length]. rewrite take_0, drop_0, reverse_involutive. by destruct s.
  - cbn [map_acc]. unfold Cpu.reused_block at 2. cbv beta.
    destruct (reverse (Cpu.allocated_blocks_free_list s)) as [|b rest] eqn:Hr.
    { apply (f_equal length) in Hr. rewrite length_reverse in Hr. unfold len in *. simpl in *. lia. }
    rewrite Ok_bind, IH.
    + cbn [Cpu.allocated_blocks_free_list]. by rewrite reverse_involutive.
    + cbn [Cpu.allocated_blocks_free_list]. apply (f_equal length) in Hr. rewrite length_reverse in Hr. rewrite len_reverse. unfold len in *. simpl in *. lia.
Qed.

Lemma cpu_ids (l : list Z) : (∀ b, b ∈ l → 0 ≤ b < 2 ^ 63) → load_info <$> (Cpu.CPUBlockStatus <$> l) = l.
Proof.
  intros Hl. rewrite <-list_fmap_compose. rewrite <-(list_fmap_id l) at 2. apply list_fmap_ext.
  intros i b Hb%list_elem_of_lookup_2. cbn. apply Hl in Hb. rewrite i64_small; [done|lia].
Qed.

(** The blocks in use and the free list are the blocks that were ever given out. *)
Definition cpu_owns (s : Cpu.CPUBackend) (l : list Z) : Prop :=
  l ++ Cpu.allocated_blocks_free_list s ≡ₚ seqZ 0 (Cpu.num_allocated_blocks s) ∧
  0 ≤ Cpu.num_allocated_blocks s ≤ Cpu.num_blocks s ∧ Cpu.num_blocks s < 2 ^ 63.

Lemma cpu_owns_len s l : cpu_owns s l → len l + len (Cpu.allocated_blocks_free_list s) = Cpu.num_allocated_blocks s.
Proof.
  intros (Hp&Hr&_). apply Permutation_length in Hp. rewrite length_app, length_seqZ in Hp. unfold len. lia.
Qed.

Lemma cpu_owns_range s l (b : Z) : cpu_owns s l → b ∈ l ++ Cpu.allocated_blocks_free_list s → 0 ≤ b < 2 ^ 63.
Proof. intros (Hp&Hr&Hn) Hb. rewrite Hp in Hb. apply elem_of_seqZ in Hb. lia. Qed.

Lemma cpu_allocate s l hs :
  cpu_owns s l → len hs ≤ Cpu.get_num_free_blocks s →
  ∃ bs s', Cpu.allocate_blocks hs s = Ok (bs, s') ∧ length bs = length hs ∧
    Forall (λ b, status_ref_cnt b = -1) bs ∧ cpu_owns s' ((load_info <$> bs) ++ l) ∧
    Cpu.num_blocks s' = Cpu.num_blocks s ∧ Cpu.block_size s' = Cpu.block_size s.
Proof.
  intros Ho Hle. pose proof (cpu_owns_len _ _ Ho) as Hlen. pose proof (λ b, cpu_owns_range _ _ b Ho) as Hrange.
  destruct Ho as (Hp&Hr&Hn). unfold Cpu.get_num_free_blocks in Hle. unfold Cpu.allocate_blocks.
  set (na := Cpu.num_allocated_blocks s) in *. set (fl := Cpu.allocated_blocks_free_list s) in *.
  set (n := Z.min (len hs) (Cpu.num_blocks s - na)).
  assert (0 ≤ n ≤ len hs ∧ n ≤ Cpu.num_blocks s - na ∧ len hs - n ≤ len fl) as (Hn1&Hn2&Hn3) by (unfold n; pose proof (len_nonneg hs); pose proof (len_nonneg fl); lia).
  rewrite (proj2 (Z.leb_le _ _)) by lia. cbn [py_assert]. rewrite Ok_bind, map_acc_fresh, Ok_bind.
  assert (∀ k, 0 ≤ k → len (py_range 0 k) = k) as Hpr.
  { intros k Hk. unfold len, py_range. rewrite length_seqZ. lia. }
  rewrite map_acc_reused; cbn [Cpu.allocated_blocks_free_list]; fold fl; [|by rewrite Hpr by lia].
  rewrite Ok_bind, Hpr by lia. fold na.
  assert (length (py_range 0 (len hs - n)) = Z.to_nat (len hs - n)) as -> by (unfold py_range; rewrite length_seqZ; lia).
  set (t := Z.to_nat (len hs - n)). cbn.
  assert (take t (reverse fl) ++ reverse (drop t (reverse fl)) ≡ₚ fl) as Hfl.
  { rewrite (reverse_Permutation (drop t _)), take_drop. apply reverse_Permutation. }
  eexists _, _. split; [done|]. split_and!.
  - rewrite length_app, !length_fmap, length_seqZ, length_take, length_reverse. unfold len in Hn1, Hn3. unfold t, len. lia.
  - apply Forall_app. split; by apply Forall_fmap, Forall_true.
  - split; [|cbn; lia]. cbn. rewrite fmap_app, !cpu_ids.
    + rewrite seqZ_app, Z.add_0_l, <-Hp by lia. clear -Hfl.
      generalize dependent (reverse (drop t (reverse fl))). generalize (take t (reverse fl)) as x. intros x y <-.
      rewrite (Permutation_app_comm (l ++ _)), <-!app_assoc. apply Permutation_app_head.
      rewrite !app_assoc. f_equiv. apply Permutation_app_comm.
    + intros b Hb. apply Hrange. apply elem_of_app. right. rewrite <-Hfl. apply elem_of_app. by left.
    + intros b Hb%elem_of_seqZ. lia.
  - done.
  - done.
Qed.

#[export] Program Instance cpu_laws : BackendLaws Cpu.CPUBackend Z := {|
  owns := cpu_owns;
  capacity := Cpu.num_blocks;
|}.
Next Obligation. intros s l l' Hl (Hp&?). split; [by rewrite <-Hl|done]. Qed.
Next Obligation.
  intros s l (Hp&?). assert (NoDup (l ++ Cpu.allocated_blocks_free_list s)) as Hnd by (rewrite Hp; apply NoDup_seqZ).
  by apply NoDup_app in Hnd as [? _].
Qed.
Next Obligation.
  intros s l Ho. pose proof (cpu_owns_len _ _ Ho). destruct Ho as (_&?&_). cbn. unfold Cpu.get_num_free_blocks.
  pose proof (len_nonneg (Cpu.allocated_blocks_free_list s)). lia.
Qed.
Next Obligation.
  intros s l hs Ho Hle. destruct (cpu_allocate s l hs Ho Hle) as (bs&s'&?&?&?&?&?&?). eexists bs, s'. by split_and!.
Qed.
Next Obligation.
  intros s l b (Hp&?&?). eexists. split; [done|]. split_and!; [|done..]. split; [|done]. cbn.
  rewrite <-Hp. cbn. by rewrite Permutation_app_comm, <-app_assoc, Permutation_app_comm, <-app_assoc, (Permutation_app_comm l).
Qed.
Next Obligation. intros s hs bs. by eexists. Qed.

(** ** The state of the manager *)

Import Lru.

Section lru.
Context {S B : Type} `{Laws : BackendLaws S B}.
Implicit Types (m : LRUOffloadingManager S B) (h : bytes) (L : gmultiset bytes) (St : gset bytes).

Definition infos m : list B := load_info <$> (blocks m).*2.
(** Where the data of a hash is. *)
Definition addr m h : option B := load_info <$> Od.get h (blocks m).
Definition tracked m h : Prop := h ∈ (blocks m).*1.

#[export] Instance tracked_dec m h : Decision (tracked m h).
Proof. unfold tracked. apply _. Defined.

Record lru_ok L St m : Prop := {
  lo_keys : NoDup (blocks m).*1;
  lo_owns : owns (backend m) (infos m);
  lo_ref h b : Od.get h (blocks m) = Some b →
    status_ref_cnt b = if decide (h ∈ St) then -1 else Z.of_nat (multiplicity h L);
  lo_loads h : h ∈ L → tracked m h ∧ h ∉ St;
  lo_storing h : h ∈ St → tracked m h;
  lo_width h : Z.of_nat (multiplicity h L) < 2 ^ 31;
}.

Lemma lru_init_ok s ev : owns s [] → lru_ok ∅ ∅ (init s ev).
Proof. intros Ho. split; cbn; [apply NoDup_nil_2|done|done| | |]; [multiset_solver|set_solver|]. intros h. rewrite multiplicity_empty. lia. Qed.

Lemma tracked_get m h : tracked m h ↔ ∃ b, Od.get h (blocks m) = Some b.
Proof. split; [apply od_get_Some|]. intros [b Hb]. by eapply od_get_key. Qed.
Lemma not_tracked m h : ¬ tracked m h ↔ Od.get h (blocks m) = None.
Proof. by rewrite od_get_None. Qed.

(** Readiness and idleness in terms of the invariant. *)
Lemma ready_iff L St m h b :
  lru_ok L St m → Od.get h (blocks m) = Some b → is_ready b = true ↔ h ∉ St.
Proof.
  intros Ho Hb. unfold is_ready. rewrite Z.leb_le, (lo_ref _ _ _ Ho _ _ Hb). case_decide; split; try done; lia.
Qed.
Lemma idle_iff L St m h b :
  lru_ok L St m → Od.get h (blocks m) = Some b → status_ref_cnt b = 0 ↔ h ∉ St ∧ h ∉ L.
Proof.
  intros Ho Hb. rewrite (lo_ref _ _ _ Ho _ _ Hb), not_elem_of_multiplicity.
  case_decide; [split; [done|by intros []]|]. split; [split; [done|lia]|intros []; lia].
Qed.

(** Changing the count of one block. *)
Lemma set_ref_frame m h b n :
  Od.get h (blocks m) = Some b →
  let m' := set_blocks (Od.set h (set_ref n b) (blocks m)) m in
  (blocks m').*1 = (blocks m).*1 ∧ infos m' = infos m ∧ (∀ h', addr m' h' = addr m h') ∧
  (∀ h', Od.get h' (blocks m') = if decide (h' = h) then Some (set_ref n b) else Od.get h' (blocks m)).
Proof.
  intros Hb m'. unfold m', infos, addr. cbn. split_and!.
  - apply od_set_keys. by eapply od_get_key.
  - by eapply od_set_proj.
  - intros h'. rewrite od_get_set. case_decide; [subst; by rewrite Hb|done].
  - intros h'. apply od_get_set.
Qed.

Lemma set_ref_ok L St L' St' m h b n :
  lru_ok L St m → Od.get h (blocks m) = Some b →
  i32 n = (if decide (h ∈ St') then -1 else Z.of_nat (multiplicity h L')) →
  (∀ h', h' ≠ h → multiplicity h' L' = multiplicity h' L ∧ (h' ∈ St' ↔ h' ∈ St)) →
  (h ∈ L' → h ∉ St') → Z.of_nat (multiplicity h L') < 2 ^ 31 →
  let m' := set_blocks (Od.set h (set_ref n b) (blocks m)) m in
  lru_ok L' St' m' ∧ ∀ h', addr m' h' = addr m h'.
Proof.
  intros Ho Hb Hn Hrest HL Hw m'. destruct (set_ref_frame m h b n Hb) as (Hk&Hi&Ha&Hg). fold m' in Hk, Hi, Ha, Hg.
  split; [|done]. split.
  - rewrite Hk. apply Ho.
  - rewrite Hi. apply Ho.
  - intros h' b' Hb'. rewrite Hg in Hb'. case_decide as Hh; [simplify_eq/=; done|].
    rewrite (lo_ref _ _ _ Ho _ _ Hb'). destruct (Hrest h' Hh) as [-> HSt]. by repeat case_decide; naive_solver.
  - intros h' Hh'. unfold tracked. rewrite Hk. destruct (decide (h' = h)) as [->|Hne].
    + split; [by eapply od_get_key|auto].
    + destruct (Hrest h' Hne) as [Hm HSt]. rewrite HSt. apply (lo_loads _ _ _ Ho). unfold elem_of, gmultiset_elem_of in *. lia.
  - intros h' Hh'. unfold tracked. rewrite Hk. destruct (decide (h' = h)) as [->|Hne]; [by eapply od_get_key|].
    apply (lo_storing _ _ _ Ho). by apply Hrest.
  - intros h'. destruct (decide (h' = h)) as [->|Hne]; [done|]. destruct (Hrest h' Hne) as [-> _]. apply (lo_width _ _ _ Ho).
Qed.

(** ** Loads *)

Lemma load_one_ok L St m h :
  lru_ok L St m → tracked m h → h ∉ St → Z.of_nat (multiplicity h L) + 1 < 2 ^ 31 →
  ∃ m', load_one h m = Ok m' ∧ lru_ok ({[+ h +]} ⊎ L) St m' ∧ (blocks m').*1 = (blocks m).*1 ∧
    (∀ h', addr m' h' = addr m h') ∧ backend m' = backend m ∧ events m' = events m.
Proof.
  intros Ho [b Hb]%tracked_get HSt Hw. unfold load_one. rewrite Hb. cbn [of_option].
  rewrite Ok_bind, (proj2 (ready_iff _ _ _ _ _ Ho Hb) HSt). cbn [py_assert]. rewrite Ok_bind.
  eexists. split; [done|].
  pose proof (lo_ref _ _ _ Ho _ _ Hb) as Hr. rewrite decide_False in Hr by done.
  destruct (set_ref_ok L St ({[+ h +]} ⊎ L) St m h b (status_ref_cnt b + 1) Ho Hb) as [Ho' Ha].
  - rewrite decide_False by done. rewrite Hr, multiplicity_disj_union, multiplicity_singleton_eq.
    rewrite i32_small by lia. lia.
  - intros h' Hne. split; [|done]. rewrite multiplicity_disj_union, multiplicity_singleton_ne by done. lia.
  - done.
  - rewrite multiplicity_disj_union, multiplicity_singleton_eq. lia.
  - split_and!; [done| |done|done|done]. apply set_ref_frame. done.
Qed.

Lemma load_loop_ok hs L St m :
  lru_ok L St m → (∀ h, h ∈ hs → tracked m h ∧ h ∉ St) →
  (∀ h, Z.of_nat (multiplicity h (list_to_set_disj hs ⊎ L)) < 2 ^ 31) →
  ∃ m', for_each load_one hs m = Ok m' ∧ lru_ok (list_to_set_disj hs ⊎ L) St m' ∧
    (blocks m').*1 = (blocks m).*1 ∧ (∀ h', addr m' h' = addr m h') ∧ backend m' = backend m ∧ events m' = events m.
Proof.
  induction hs as [|h hs IH] in L, m |- *; intros Ho Ht Hw; simpl.
  - eexists. split; [done|]. by rewrite gmultiset_disj_union_left_id.
  - destruct (Ht h ltac:(by left)) as [Hth HSt].
    destruct (load_one_ok L St m h Ho Hth HSt) as (m1&->&Ho1&Hk1&Ha1&Hb1&He1).
    { specialize (Hw h). simpl in Hw. rewrite !multiplicity_disj_union, multiplicity_singleton_eq in Hw. lia. }
    rewrite Ok_bind. destruct (IH ({[+ h +]} ⊎ L) m1 Ho1) as (m2&->&Ho2&Hk2&Ha2&Hb2&He2).
    + intros h' Hh'. unfold tracked. rewrite Hk1. apply Ht. by right.
    + intros h'. specialize (Hw h'). simpl in Hw. rewrite !multiplicity_disj_union in Hw |- *. lia.
    + eexists. split; [done|]. split_and!; [|congruence|congruence|congruence|congruence].
      by replace ({[+ h +]} ⊎ list_to_set_disj hs ⊎ L) with (list_to_set_disj hs ⊎ ({[+ h +]} ⊎ L)) by multiset_solver.
Qed.

Lemma loaded_one_ok L St m h :
  lru_ok L St m → h ∈ L →
  ∃ m', loaded_one h m = Ok m' ∧ lru_ok (L ∖ {[+ h +]}) St m' ∧ (∀ h', addr m' h' = addr m h') ∧ backend m' = backend m.
Proof.
  intros Ho HL. destruct (lo_loads _ _ _ Ho h HL) as [[b Hb]%tracked_get HSt].
  pose proof (lo_ref _ _ _ Ho _ _ Hb) as Hr. rewrite decide_False in Hr by done.
  pose proof (lo_width _ _ _ Ho h) as Hw. unfold elem_of, gmultiset_elem_of in HL.
  unfold loaded_one. rewrite Hb. cbn [of_option]. rewrite Ok_bind, (proj2 (Z.ltb_lt 0 _)) by lia.
  cbn [py_assert]. rewrite Ok_bind. eexists. split; [done|].
  match goal with |- ?P ∧ ?Q ∧ _ => cut (P ∧ Q); [by intros []; split_and!|] end. apply (set_ref_ok L St); try done.
  - rewrite decide_False by done. rewrite Hr, multiplicity_difference, multiplicity_singleton_eq, i32_small by lia. lia.
  - intros h' Hne. split; [|done]. rewrite multiplicity_difference, multiplicity_singleton_ne by done. lia.
  - rewrite multiplicity_difference. lia.
Qed.

Lemma complete_load_ok hs L St m :
  lru_ok L St m → list_to_set_disj hs ⊆ L →
  ∃ m', complete_load hs m = Ok m' ∧ lru_ok (L ∖ list_to_set_disj hs) St m' ∧ (∀ h', addr m' h' = addr m h') ∧
    backend m' = backend m.
Proof.
  unfold complete_load. induction hs as [|h hs IH] in L, m |- *; intros Ho Hsub; simpl in *.
  - eexists. split; [done|]. by replace (L ∖ ∅) with L by multiset_solver.
  - destruct (loaded_one_ok L St m h Ho) as (m1&->&Ho1&Ha1&Hb1); [multiset_solver|].
    rewrite Ok_bind. destruct (IH _ m1 Ho1) as (m2&->&Ho2&Ha2&Hb2); [multiset_solver|].
    eexists. split; [done|]. split_and!; [|congruence|congruence].
    by replace (L ∖ ({[+ h +]} ⊎ list_to_set_disj hs)) with (L ∖ {[+ h +]} ∖ list_to_set_disj hs) by multiset_solver.
Qed.

Lemma map_res_get hs m :
  (∀ h, h ∈ hs → tracked m h) →
  ∃ bs, map_res (λ h, of_option KeyError (Od.get h (blocks m))) hs = Ok bs ∧
    Forall2 (λ h b, Od.get h (blocks m) = Some b) hs bs.
Proof.
  induction hs as [|h hs IH]; intros Ht; simpl; [by eexists|].
  destruct (proj1 (tracked_get m h) (Ht h ltac:(by left))) as [b Hb]. rewrite Hb. simpl.
  destruct IH as (bs&->&Hbs); [intros; apply Ht; by right|]. simpl. eexists. split; [done|]. by constructor.
Qed.

Lemma prepare_load_ok it L St m :
  lru_ok L St m → (∀ h, h ∈ items it → tracked m h ∧ h ∉ St) →
  (∀ h, Z.of_nat (multiplicity h (list_to_set_disj (items it) ⊎ L)) < 2 ^ 31) →
  ∃ bs spec m', prepare_load it m = Ok (spec, m') ∧
    get_load_store_spec (items_again it) bs (backend m) = Ok spec ∧
    Forall2 (λ h b, addr m h = Some (load_info b)) (items it) bs ∧
    lru_ok (list_to_set_disj (items it) ⊎ L) St m' ∧ (∀ h, addr m' h = addr m h) ∧ backend m' = backend m.
Proof.
  intros Ho Ht Hw. unfold prepare_load.
  destruct (load_loop_ok (items it) L St m Ho Ht Hw) as (m1&->&Ho1&Hk1&Ha1&Hb1&He1). rewrite Ok_bind.
  destruct (map_res_get (items it) m1) as (bs&->&Hbs).
  { intros h Hh. unfold tracked. rewrite Hk1. by apply Ht. }
  rewrite Ok_bind. destruct (spec_law (backend m1) (items_again it) bs) as [spec Hs].
  exists bs, spec, m1. rewrite Hs, Ok_bind, <-Hb1. split_and!; [done|done| |done|done|done].
  eapply Forall2_impl; [done|]. intros h b Hb. cbn. rewrite <-Ha1. unfold addr. by rewrite Hb.
Qed.

(** ** Recency *)

(** Reordering the dictionary changes nothing else. *)
Lemma perm_ok L St m d :
  lru_ok L St m → d ≡ₚ blocks m → lru_ok L St (set_blocks d m) ∧ ∀ h, Od.get h d = Od.get h (blocks m).
Proof.
  intros Ho Hp. assert (∀ h, Od.get h d = Od.get h (blocks m)) as Hg.
  { intros h. apply od_get_perm; [apply Ho|done]. }
  split; [|done]. split; cbn.
  - rewrite Hp. apply Ho.
  - eapply owns_perm; [|apply Ho]. unfold infos. cbn. by rewrite Hp.
  - intros h b. rewrite Hg. apply Ho.
  - intros h Hh. unfold tracked. cbn. rewrite Hp. by apply (lo_loads _ _ _ Ho).
  - intros h Hh. unfold tracked. cbn. rewrite Hp. by apply (lo_storing _ _ _ Ho).
  - apply Ho.
Qed.

Lemma touch_one_ok L St m h :
  lru_ok L St m → ∃ d, touch_one h m = Ok (set_blocks d m) ∧ d ≡ₚ blocks m.
Proof.
  intros Ho. unfold touch_one. destruct (Od.get h (blocks m)) as [b|] eqn:Hb; [|exists (blocks m); by destruct m].
  unfold Od.move_to_end. rewrite Hb. eexists. split; [done|].
  rewrite (od_del_perm h b (blocks m) (lo_keys _ _ _ Ho) Hb) at 2. symmetry. apply Permutation_cons_append.
Qed.

Lemma touch_loop_ok hs L St m :
  lru_ok L St m → ∃ d, for_each touch_one hs m = Ok (set_blocks d m) ∧ d ≡ₚ blocks m.
Proof.
  induction hs as [|h hs IH] in m |- *; intros Ho; simpl; [exists (blocks m); by destruct m|].
  destruct (touch_one_ok L St m h Ho) as (d1&->&Hd1). rewrite Ok_bind.
  destruct (perm_ok L St m _ Ho Hd1) as [Ho1 _]. destruct (IH _ Ho1) as (d&->&Hd).
  exists d. split; [done|]. cbn in Hd. by rewrite Hd.
Qed.

Lemma touch_ok hs L St m :
  lru_ok L St m →
  ∃ d, touch hs m = Ok (set_blocks d m) ∧ d ≡ₚ blocks m ∧ lru_ok L St (set_blocks d m) ∧
    ∀ h, addr (set_blocks d m) h = addr m h.
Proof.
  intros Ho. destruct (touch_loop_ok (reverse hs) L St m Ho) as (d&Ht&Hd).
  destruct (perm_ok L St m d Ho Hd) as [Ho' Hg]. exists d. split_and!; [done|done|done|].
  intros h. unfold addr. cbn. by rewrite Hg.
Qed.

(** ** Stores *)

Definition idle (hb : bytes * BlockStatus B) : Prop := status_ref_cnt hb.2 = 0.
#[export] Instance idle_dec hb : Decision (idle hb).
Proof. unfold idle. apply _. Defined.

(** The loop takes the first [n] idle blocks. *)
Lemma pick_idle_spec n (d : list (bytes * BlockStatus B)) :
  0 < n → pick_idle n d = if decide (n ≤ len (filter idle d)) then Some (take (Z.to_nat n) (filter idle d).*1) else None.
Proof.
  induction d as [|[h b] d IH] in n |- *; intros Hn; cbn [pick_idle].
  { rewrite filter_nil, len_nil, decide_False by lia. done. }
  destruct (Z.eqb_spec (status_ref_cnt b) 0) as [H0|H0].
  - rewrite (filter_cons_True idle (h, b) d) by exact H0. rewrite len_cons.
    destruct (Z.eqb_spec (n - 1) 0) as [H1|H1].
    + assert (n = 1) as -> by lia. rewrite decide_True by len_lia. done.
    + rewrite IH by lia. assert (Z.to_nat n = Datatypes.S (Z.to_nat (n - 1))) as -> by lia.
      repeat case_decide; try lia; done.
  - rewrite (filter_cons_False idle (h, b) d) by exact H0. by apply IH.
Qed.

(** The parts of the backend that no operation changes. *)
Definition same_backend m m' : Prop :=
  capacity (backend m') = capacity (backend m) ∧ be_block_size (backend m') = be_block_size (backend m) ∧
  be_medium (backend m') = be_medium (backend m).
#[export] Instance same_backend_pre : PreOrder same_backend.
Proof. split; [done|]. intros m1 m2 m3 (?&?&?) (?&?&?). unfold same_backend. by split_and!; etrans. Qed.

(** Removing a block that nobody waits for and giving it back to the backend. *)
Lemma remove_ok L St St' m h b :
  lru_ok L St m → Od.get h (blocks m) = Some b → h ∉ L → St' = St ∖ {[h]} →
  ∃ be, be_free b (backend m) = Ok be ∧
    let m' := set_blocks (Od.del h (blocks m)) (set_backend be m) in
    lru_ok L St' m' ∧ same_backend m m' ∧
    get_num_free_blocks (backend m') = get_num_free_blocks (backend m) + 1.
Proof.
  intros Ho Hb HL ->. pose proof (od_del_perm h b _ (lo_keys _ _ _ Ho) Hb) as Hp.
  assert (infos m ≡ₚ load_info b :: (load_info <$> (Od.del h (blocks m)).*2)) as Hi
    by exact (fmap_Permutation load_info _ _ (fmap_Permutation snd _ _ Hp)).
  pose proof (owns_perm _ _ _ Hi (lo_owns _ _ _ Ho)) as Hown.
  destruct (free_law _ _ _ Hown) as (be&Hfree&Hown'&Hcap&Hbs&Hmed). exists be. split; [done|].
  assert (∀ h', Od.get h' (Od.del h (blocks m)) = if decide (h' = h) then None else Od.get h' (blocks m)) as Hg
    by (intros; apply od_get_del).
  cbn zeta. split_and!; [split; cbn|done|].
  - apply od_del_nodup, Ho.
  - done.
  - intros h' b'. rewrite Hg. case_decide as Hh; [done|]. intros Hb'. rewrite (lo_ref _ _ _ Ho _ _ Hb').
    destruct (decide (h' ∈ St)), (decide (h' ∈ St ∖ {[h]})); [done|set_solver|set_solver|done].
  - intros h' Hh'. assert (h' ≠ h) as Hne by (by intros ->). destruct (lo_loads _ _ _ Ho h' Hh') as [Ht Hs].
    split; [|set_solver]. apply tracked_get. cbn. rewrite Hg, decide_False by done. by apply tracked_get.
  - intros h' Hh'. assert (h' ≠ h) as Hne by set_solver. apply tracked_get. cbn. rewrite Hg, decide_False by done.
    apply tracked_get, (lo_storing _ _ _ Ho). set_solver.
  - apply Ho.
  - cbn. destruct (owns_count _ _ Hown) as [Hc _]. destruct (owns_count _ _ Hown') as [Hc' _]. rewrite len_cons in Hc. lia.
Qed.

Lemma evict_loop_ok l L St m :
  lru_ok L St m → NoDup l → (∀ h, h ∈ l → ∃ b, Od.get h (blocks m) = Some b ∧ status_ref_cnt b = 0) →
  ∃ m', for_each evict_one l m = Ok m' ∧ blocks m' = filter (λ hb, hb.1 ∉ l) (blocks m) ∧ lru_ok L St m' ∧
    events m' = events m ∧ same_backend m m' ∧ get_num_free_blocks (backend m') = get_num_free_blocks (backend m) + len l.
Proof.
  induction l as [|h l IH] in m |- *; intros Ho Hnd Hl; simpl.
  { exists m. rewrite len_nil, filter_id by (intros; apply not_elem_of_nil). split_and!; (done || lia). }
  apply NoDup_cons in Hnd as [Hn Hnd]. destruct (Hl h ltac:(by left)) as (b&Hb&H0).
  pose proof (proj1 (idle_iff _ _ _ _ _ Ho Hb) H0) as [HSt HL].
  destruct (remove_ok L St St m h b Ho Hb HL) as (be&Hf&Ho1&Hs1&Hc1); [set_solver|].
  unfold evict_one at 2. unfold Od.pop. rewrite Hb. cbn [of_option]. rewrite !Ok_bind, Hf, !Ok_bind.
  set (m1 := set_blocks _ (set_backend be m)) in *. change (set_backend be (set_blocks _ m)) with m1.
  destruct (IH m1 Ho1 Hnd) as (m'&->&Hb'&Ho'&He'&Hs'&Hc').
  { intros h' Hh'. destruct (Hl h' ltac:(by right)) as (b'&Hb''&?). exists b'. split; [|done].
    cbn. rewrite od_get_del, decide_False; [done|]. by intros ->. }
  exists m'. split; [done|]. split_and!; [|done|done|by etrans|rewrite Hc', Hc1, len_cons; lia].
  rewrite Hb'. cbn. unfold Od.del. rewrite list_filter_filter. apply list_filter_iff.
  intros [h' b']. cbn. rewrite not_elem_of_cons. tauto.
Qed.

Lemma put_blocks_new (hbs d : list (bytes * BlockStatus B)) :
  NoDup hbs.*1 → (∀ h, h ∈ hbs.*1 → h ∉ d.*1) → put_blocks hbs d = d ++ hbs.
Proof.
  unfold put_blocks. induction hbs as [|[h b] hbs IH] in d |- *; simpl; intros Hnd Hd; [by rewrite app_nil_r|].
  apply NoDup_cons in Hnd as [Hn Hnd]. rewrite od_set_fresh by (apply Hd; by left).
  rewrite IH; [by rewrite <-app_assoc|done|]. intros h' Hh'. rewrite fmap_app. cbn.
  rewrite not_elem_of_app, list_elem_of_singleton. split; [apply Hd; by right|]. by intros ->.
Qed.

Lemma od_get_app {V} h (d e : list (bytes * V)) :
  Od.get h (d ++ e) = match Od.get h d with Some v => Some v | None => Od.get h e end.
Proof. induction d as [|[k v] d IH]; simpl; [done|]. by case_decide. Qed.

(** Adding the blocks of a new store. *)
Lemma add_ok L St m need bs be :
  lru_ok L St m → NoDup need → (∀ h, h ∈ need → ¬ tracked m h ∧ h ∉ L) → length bs = length need →
  Forall (λ b, status_ref_cnt b = -1) bs → owns be ((load_info <$> bs) ++ infos m) →
  let m' := set_blocks (put_blocks (zip need bs) (blocks m)) (set_backend be m) in
  lru_ok L (St ∪ list_to_set need) m' ∧ blocks m' = blocks m ++ zip need bs.
Proof.
  intros Ho Hnd Hnew Hlen Hbs Hown m'.
  assert ((zip need bs).*1 = need) as Hfst by (apply fst_zip; lia).
  assert (blocks m' = blocks m ++ zip need bs) as Heq.
  { unfold m'. cbn. apply put_blocks_new; rewrite Hfst; [done|]. intros h Hh. by apply Hnew. }
  split; [|done]. assert (∀ h, tracked m' h ↔ tracked m h ∨ h ∈ need) as Ht.
  { intros h. unfold tracked. by rewrite Heq, fmap_app, Hfst, elem_of_app. }
  split.
  - rewrite Heq, fmap_app, Hfst. apply NoDup_app. split_and!; [apply Ho| |done]. intros h Hh Hin. exact (proj1 (Hnew h Hin) Hh).
  - unfold infos. rewrite Heq, fmap_app, snd_zip, fmap_app by lia. eapply owns_perm; [|exact Hown]. apply Permutation_app_comm.
  - intros h b. rewrite Heq, od_get_app. destruct (Od.get h (blocks m)) as [b'|] eqn:Hb.
    + intros ?; simplify_eq. rewrite (lo_ref _ _ _ Ho _ _ Hb).
      assert (h ∉ need) by (intros Hin; apply Hnew in Hin as [Hin _]; apply Hin, tracked_get; by eexists).
      destruct (decide (h ∈ St)), (decide (h ∈ St ∪ list_to_set need)); [done|set_solver|set_solver|done].
    + intros Hz%od_get_elem. pose proof (elem_of_zip_l _ _ _ _ Hz) as Hl. apply elem_of_zip_r in Hz.
      rewrite decide_True by set_solver. by eapply Forall_forall in Hbs.
  - intros h Hh. destruct (lo_loads _ _ _ Ho h Hh) as [Htr Hs]. split; [apply Ht; by left|].
    rewrite elem_of_union, elem_of_list_to_set. intros [?|Hin]; [done|]. by apply Hnew in Hin as [].
  - intros h. rewrite Ht, elem_of_union, elem_of_list_to_set. intros [?|?]; [left; by apply (lo_storing _ _ _ Ho)|by right].
  - apply Ho.
Qed.

End lru.
