(* ===== verification/OffloadSafe.v ===== *)
(** * KV offloading: correctness of the manager

    What [prepare_store] and [complete_store] do, and the safety of every sequence
    of calls that follows the protocol of the interface: loads are of blocks that
    are ready, completions are of transfers that were started, a store names
    distinct hashes.  All of it is proved for any backend that keeps the laws. *)
From stdpp Require Import gmultiset.
From S2P Require Import Prelude FreeQueue Offload OffloadFacts.
Import Lru.

Section store.
Context {S B : Type} `{Laws : BackendLaws S B}.
Implicit Types (m : LRUOffloadingManager S B) (h : bytes) (L : gmultiset bytes) (St : gset bytes).

(** The hashes that are new, how many blocks have to go, and which ones. *)
Definition needed m (hs : list bytes) : list bytes := filter (λ h, Od.get h (blocks m) = None) hs.
Definition shortage m hs : Z := len (needed m hs) - get_num_free_blocks (backend m).
Definition idle_hashes m : list bytes := (filter idle (blocks m)).*1.
Definition victims m hs : list bytes := take (Z.to_nat (shortage m hs)) (idle_hashes m).

Lemma add_event_frame m hs r :
  blocks (add_event hs r m) = blocks m ∧ backend (add_event hs r m) = backend m.
Proof. unfold add_event. by destruct (events m); [case_bool_decide|]. Qed.
Lemma add_event_ok m hs r L St : lru_ok L St m → lru_ok L St (add_event hs r m).
Proof. intros Ho. destruct (add_event_frame m hs r) as [Hb He]. split; unfold tracked, infos; rewrite ?Hb, ?He; apply Ho. Qed.

Lemma pick_result m hs :
  (if 0 <? shortage m hs then pick_idle (shortage m hs) (blocks m) else Some [])
    = if decide (0 < shortage m hs ∧ len (idle_hashes m) < shortage m hs) then None else Some (victims m hs).
Proof.
  assert (len (idle_hashes m) = len (filter idle (blocks m))) as Hl by apply len_fmap.
  unfold victims, idle_hashes in *. destruct (Z.ltb_spec 0 (shortage m hs)) as [Hk|Hk].
  - rewrite pick_idle_spec by done. rewrite Hl. repeat case_decide; try lia; done.
  - rewrite decide_False by lia. by replace (Z.to_nat (shortage m hs)) with 0%nat by lia.
Qed.

(** Victims are tracked, idle and distinct. *)
Lemma victims_ok L St m hs :
  lru_ok L St m → NoDup (victims m hs) ∧ sublist (victims m hs) (idle_hashes m) ∧
    ∀ h, h ∈ victims m hs → ∃ b, Od.get h (blocks m) = Some b ∧ status_ref_cnt b = 0.
Proof.
  intros Ho. assert (sublist (idle_hashes m) (blocks m).*1) as Hs by apply (fmap_sublist fst), sublist_filter.
  assert (sublist (victims m hs) (idle_hashes m)) as Hv by apply sublist_take.
  split_and!; [eapply sublist_NoDup; [|etrans; eassumption]; apply Ho|done|].
  intros h Hh. eapply elem_of_sublist in Hh; [|exact Hv]. apply list_elem_of_fmap in Hh as ([h' b]&->&Hin).
  apply list_elem_of_filter in Hin as [Hi Hin]. exists b. split; [|exact Hi]. apply od_elem_get; [apply Ho|done].
Qed.

(** Everything that [prepare_store] does. *)
Lemma prepare_store_spec hs L St m :
  lru_ok L St m → NoDup hs →
  if decide (0 < shortage m hs ∧ len (idle_hashes m) < shortage m hs)
  then prepare_store hs m = Ok (None, m)
  else ∃ spec bs m',
    prepare_store hs m = Ok (Some (mkStore (needed m hs) spec (victims m hs)), m') ∧
    length bs = length (needed m hs) ∧ Forall (λ b, status_ref_cnt b = -1) bs ∧
    blocks m' = filter (λ hb, hb.1 ∉ victims m hs) (blocks m) ++ zip (needed m hs) bs ∧
    get_load_store_spec (needed m hs) bs (backend m') = Ok spec ∧
    events m' = events (add_event (victims m hs) true m) ∧
    lru_ok L (St ∪ list_to_set (needed m hs)) m' ∧ same_backend m m'.
Proof.
  intros Ho Hnd. unfold prepare_store. fold (needed m hs). change (len (needed m hs) - _) with (shortage m hs).
  rewrite pick_result. case_decide as Hk; [done|]. set (out := victims m hs). set (need := needed m hs).
  destruct (victims_ok L St m hs Ho) as (Hout&_&Hidle). fold out in Hout, Hidle.
  destruct (evict_loop_ok out L St m Ho Hout Hidle) as (m1&->&Hb1&Ho1&He1&Hs1&Hc1). rewrite Ok_bind.
  destruct (add_event_frame m1 out true) as [Hb2 Hk2]. pose proof (add_event_ok m1 out true L St Ho1) as Ho2.
  assert (events (add_event out true m1) = events (add_event out true m)) as He2.
  { destruct Hs1 as (_&Hbs&Hmed). unfold add_event. rewrite He1, Hbs, Hmed. destruct (events m) eqn:E; [|congruence].
    case_bool_decide; [congruence|done]. }
  set (m2 := add_event out true m1) in *.
  destruct (allocate_law (backend m2) (infos m2) need (lo_owns _ _ _ Ho2)) as (bs&be&->&Hlen&Hbs&Hown&Hcap&Hsz&Hmed).
  { rewrite Hk2, Hc1. unfold out, victims. pose proof (owns_count _ _ (lo_owns _ _ _ Ho)) as [_ Hnn].
    unfold out, victims. unfold len at 2. rewrite length_take. fold (len (idle_hashes m)).
    pose proof (eq_refl : shortage m hs = len need - get_num_free_blocks (backend m)). unfold len in *. lia. }
  rewrite Ok_bind, (proj2 (Z.eqb_eq _ _)) by (unfold len; lia). cbn [py_assert]. rewrite Ok_bind.
  set (m3 := set_blocks _ _). destruct (spec_law (backend m3) need bs) as [spec Hsp]. rewrite Hsp, Ok_bind.
  assert (∀ h, h ∈ need → Od.get h (blocks m) = None) as Hneed by (by intros h [? _]%list_elem_of_filter).
  destruct (add_ok L St m2 need bs be Ho2) as [Ho3 Hb3]; [by apply NoDup_filter| |done..|].
  { intros h Hh. pose proof (Hneed h Hh) as Hg. split.
    - apply not_tracked. rewrite Hb2, Hb1. pose proof (od_get_filter h (blocks m) (λ x, x ∉ out)) as Hf. rewrite Hf. by case_decide.
    - intros HL. apply (lo_loads _ _ _ Ho) in HL as [Ht _]. by apply not_tracked in Hg. }
  fold m3 in Ho3, Hb3. exists spec, bs, m3. split_and!; try done.
  - by rewrite Hb3, Hb2, Hb1.
  - destruct Hs1 as (?&?&?). unfold same_backend. cbn. rewrite Hk2 in *. by split_and!; etrans.
Qed.

(** A successful store makes its blocks ready. *)
Lemma stored_loop_ok hs L St m stored :
  lru_ok L St m → (∀ h, h ∈ hs → tracked m h) →
  ∃ stored' m', for_each stored_one hs (stored, m) = Ok (stored', m') ∧ lru_ok L (St ∖ list_to_set hs) m' ∧
    (∀ h, addr m' h = addr m h) ∧ backend m' = backend m ∧ (∀ h, h ∈ stored' ↔ h ∈ stored ∨ h ∈ hs ∧ h ∈ St).
Proof.
  induction hs as [|h hs IH] in St, m, stored |- *; intros Ho Ht; simpl.
  { eexists _, _. split; [done|]. split_and!; [by replace (St ∖ ∅) with St by set_solver|done|done|].
    intros h. rewrite elem_of_nil. tauto. }
  destruct (proj1 (tracked_get m h) (Ht h ltac:(by left))) as [b Hb]. rewrite Hb. cbn [of_option]. rewrite Ok_bind.
  pose proof (ready_iff _ _ _ _ _ Ho Hb) as Hready. destruct (is_ready b).
  - assert (h ∉ St) as HSt by by apply Hready. rewrite Ok_bind. destruct (IH St m stored Ho) as (st&m'&->&Ho'&Ha&Hbe&Hin).
    { intros; apply Ht; by right. }
    exists st, m'. split; [done|]. split_and!; [|done|done|].
    + by replace (St ∖ ({[h]} ∪ list_to_set hs)) with (St ∖ list_to_set hs) by set_solver.
    + intros h'. rewrite Hin, elem_of_cons. split; [naive_solver|]. intros [?|[[->|?] ?]]; [by left|done|by right].
  - assert (h ∈ St) as HSt by (apply dec_stable; intros Hn; by apply Hready in Hn). rewrite Ok_bind.
    destruct (set_ref_ok L St L (St ∖ {[h]}) m h b 0 Ho Hb) as [Ho1 Ha1].
    + rewrite decide_False by set_solver. destruct (decide (h ∈ L)) as [HL|HL].
      * by apply (lo_loads _ _ _ Ho) in HL as [_ ?].
      * apply not_elem_of_multiplicity in HL. by rewrite HL.
    + intros h' Hne. split; [done|]. set_solver.
    + set_solver.
    + apply (lo_width _ _ _ Ho).
    + destruct (IH (St ∖ {[h]}) _ (stored ++ [h]) Ho1) as (st&m'&->&Ho'&Ha&Hbe&Hin).
      { intros h' Hh'. unfold tracked. rewrite (proj1 (set_ref_frame m h b 0 Hb)). apply Ht. by right. }
      exists st, m'. split; [done|]. split_and!; [|by intros; rewrite Ha, Ha1|done|].
      * by replace (St ∖ ({[h]} ∪ list_to_set hs)) with (St ∖ {[h]} ∖ list_to_set hs) by set_solver.
      * intros h'. rewrite Hin, elem_of_app, list_elem_of_singleton, elem_of_cons, elem_of_difference, elem_of_singleton.
        destruct (decide (h' = h)) as [->|]; tauto.
Qed.

(** A failed store drops its blocks. *)
Lemma drop_loop_ok hs L St m :
  lru_ok L St m → NoDup hs → (∀ h, h ∈ hs → tracked m h) →
  ∃ m', for_each drop_one hs m = Ok m' ∧ lru_ok L (St ∖ list_to_set hs) m' ∧ same_backend m m' ∧
    (∀ h, Od.get h (blocks m') = if decide (h ∈ hs ∧ h ∈ St) then None else Od.get h (blocks m)).
Proof.
  induction hs as [|h hs IH] in St, m |- *; intros Ho Hnd Ht; simpl.
  { eexists. split; [done|]. split_and!; [by replace (St ∖ ∅) with St by set_solver|done|done]. }
  apply NoDup_cons in Hnd as [Hn Hnd].
  destruct (proj1 (tracked_get m h) (Ht h ltac:(by left))) as [b Hb]. unfold drop_one at 2. rewrite Hb. cbn [of_option].
  rewrite Ok_bind. pose proof (ready_iff _ _ _ _ _ Ho Hb) as Hready. destruct (is_ready b).
  - assert (h ∉ St) as HSt by by apply Hready. rewrite Ok_bind. destruct (IH St m Ho Hnd) as (m'&->&Ho'&Hs&Hg).
    { intros; apply Ht; by right. }
    exists m'. split; [done|]. split_and!; [|done|].
    + by replace (St ∖ ({[h]} ∪ list_to_set hs)) with (St ∖ list_to_set hs) by set_solver.
    + intros h'. rewrite Hg. apply decide_ext. rewrite elem_of_cons. destruct (decide (h' = h)) as [->|]; tauto.
  - assert (h ∈ St) as HSt by (apply dec_stable; intros Hn'; by apply Hready in Hn').
    assert (h ∉ L) as HL by (intros HL; by apply (lo_loads _ _ _ Ho) in HL as [_ ?]).
    destruct (remove_ok L St _ m h b Ho Hb HL eq_refl) as (be&Hf&Ho1&Hs1&_).
    rewrite Hf, !Ok_bind. set (m1 := set_blocks _ _) in *.
    assert (∀ h', Od.get h' (blocks m1) = if decide (h' = h) then None else Od.get h' (blocks m)) as Hg1
      by (intros; apply od_get_del).
    destruct (IH (St ∖ {[h]}) m1 Ho1 Hnd) as (m'&->&Ho'&Hs&Hg).
    { intros h' Hh'. apply tracked_get. rewrite Hg1, decide_False by (by intros ->). apply tracked_get, Ht. by right. }
    exists m'. split; [done|]. split_and!; [|by etrans|].
    + by replace (St ∖ ({[h]} ∪ list_to_set hs)) with (St ∖ {[h]} ∖ list_to_set hs) by set_solver.
    + intros h'. rewrite Hg, Hg1. destruct (decide (h' = h)) as [->|Hne].
      * rewrite (decide_True (P := h ∈ h :: hs ∧ _)) by (split; [left|done]). by case_decide.
      * apply decide_ext. rewrite elem_of_cons, elem_of_difference, elem_of_singleton. tauto.
Qed.
End store.

(** ** The protocol *)

Inductive call : Type :=
  | PrepareLoad (block_hashes : iterable bytes)
  | CompleteLoad (block_hashes : list bytes)
  | Touch (block_hashes : list bytes)
  | PrepareStore (block_hashes : list bytes)
  | CompleteStore (block_hashes : list bytes) (success : bool)
  | TakeEvents.

Section protocol.
Context {S B : Type} `{Laws : BackendLaws S B}.

(** A manager with the transfers that its callers have started and not completed. *)
Record run_state := mkRun {
  manager : LRUOffloadingManager S B;
  loading : gmultiset bytes;
  storing : gset bytes;
}.
Implicit Types (r : run_state).

Definition call_ok (c : call) r : Prop :=
  match c with
  | PrepareLoad it =>
      lookup (items it) (manager r) = len (items it) ∧
      Forall (λ h, Z.of_nat (multiplicity h (list_to_set_disj (items it) ⊎ loading r)) < 2 ^ 31) (items it)
  | CompleteLoad hs => list_to_set_disj hs ⊆ loading r
  | PrepareStore hs => NoDup hs
  | CompleteStore hs success => Forall (tracked (manager r)) hs ∧ (success = false → NoDup hs)
  | Touch _ | TakeEvents => True
  end.

Definition run_call (c : call) r : result run_state :=
  match c with
  | PrepareLoad it =>
      '(_, m) ← prepare_load it (manager r); Ok (mkRun m (list_to_set_disj (items it) ⊎ loading r) (storing r))
  | CompleteLoad hs =>
      m ← complete_load hs (manager r); Ok (mkRun m (loading r ∖ list_to_set_disj hs) (storing r))
  | Touch hs => m ← touch hs (manager r); Ok (mkRun m (loading r) (storing r))
  | PrepareStore hs =>
      '(out, m) ← prepare_store hs (manager r);
      Ok (mkRun m (loading r)
            (storing r ∪ match out with Some o => list_to_set (block_hashes_to_store o) | None => ∅ end))
  | CompleteStore hs success =>
      m ← complete_store hs success (manager r); Ok (mkRun m (loading r) (storing r ∖ list_to_set hs))
  | TakeEvents => Ok (mkRun (take_events (manager r)).2 (loading r) (storing r))
  end.

Fixpoint calls_ok (cs : list call) r : Prop :=
  match cs with
  | [] => True
  | c :: cs => call_ok c r ∧ match run_call c r with Ok r' => calls_ok cs r' | Err _ => True end
  end.

Definition run_ok r : Prop := lru_ok (loading r) (storing r) (manager r).

(** [h] has a transfer that the call does not end. *)
Definition protected (c : call) r (h : bytes) : Prop :=
  (h ∈ loading r ∨ h ∈ storing r) ∧ match c with CompleteStore hs false => h ∉ hs | _ => True end.

(** A hit of [lookup] over the whole list: every block is there and ready. *)
Lemma lookup_all hs r :
  run_ok r → lookup hs (manager r) = len hs → ∀ h, h ∈ hs → tracked (manager r) h ∧ h ∉ storing r.
Proof.
  intros Ho. assert (∀ hs, lookup hs (manager r) ≤ len hs) as Hle.
  { clear hs. induction hs as [|h hs IH]; simpl; [done|]. rewrite len_cons. pose proof (len_nonneg hs). repeat case_match; lia. }
  induction hs as [|h hs IH]; simpl; intros Hl h' Hh'; [by apply not_elem_of_nil in Hh'|].
  rewrite len_cons in Hl. pose proof (len_nonneg hs). specialize (Hle hs).
  destruct (Od.get h (blocks (manager r))) as [b|] eqn:Hb; [|lia]. destruct (is_ready b) eqn:Hr; [|lia].
  apply elem_of_cons in Hh' as [->|Hin]; [|apply IH; [lia|done]].
  split; [apply tracked_get; by eexists|]. by apply (ready_iff _ _ _ _ _ Ho Hb).
Qed.

Lemma multiplicity_list h (hs : list bytes) : h ∉ hs → multiplicity h (list_to_set_disj (C := gmultiset bytes) hs) = 0%nat.
Proof.
  intros Hn. destruct (decide (h ∈ list_to_set_disj (C := gmultiset bytes) hs)) as [Hin|Hin].
  - by apply elem_of_list_to_set_disj in Hin.
  - by apply not_elem_of_multiplicity.
Qed.

Lemma addr_tracked (m m' : LRUOffloadingManager S B) h : tracked m h → addr m' h = addr m h → is_Some (addr m' h).
Proof. intros [b Hb]%tracked_get ->. unfold addr. rewrite Hb. by eexists. Qed.

Lemma run_call_ok c r :
  run_ok r → call_ok c r →
  ∃ r', run_call c r = Ok r' ∧ run_ok r' ∧ same_backend (manager r) (manager r') ∧
    ∀ h, protected c r h → addr (manager r') h = addr (manager r) h.
Proof.
  intros Ho. pose proof Ho as Ho0. destruct r as [m L St]. unfold run_ok in Ho. cbn in Ho. destruct c as [it|hs|hs|hs|hs success|]; cbn; intros Hc.
  - destruct Hc as [Hl Hw]. destruct (prepare_load_ok it L St m Ho) as (bs&spec&m'&->&_&_&Ho'&Ha&Hbe).
    + intros h. by apply (lookup_all (items it) (mkRun m L St)).
    + intros h. destruct (decide (h ∈ items it)) as [Hin|Hn]; [by eapply Forall_forall in Hw|].
      rewrite multiplicity_disj_union, multiplicity_list by done. apply Ho.
    + rewrite Ok_bind. eexists. split; [done|]. split_and!; [done|unfold same_backend; cbn; by rewrite Hbe|by intros].
  - destruct (complete_load_ok hs L St m Ho Hc) as (m'&->&Ho'&Ha&Hbe). rewrite Ok_bind.
    eexists. split; [done|]. split_and!; [done|unfold same_backend; cbn; by rewrite Hbe|by intros].
  - destruct (touch_ok hs L St m Ho) as (d&->&Hd&Ho'&Ha). rewrite Ok_bind. eexists. split; [done|]. by split_and!; intros.
  - pose proof (prepare_store_spec hs L St m Ho Hc) as Hps. case_decide as Hk.
    + rewrite Hps, Ok_bind, union_empty_r_L. eexists. split; [done|]. by split_and!; intros.
    + destruct Hps as (spec&bs&m'&->&Hlen&Hbs&Hb&_&_&Ho'&Hs). rewrite Ok_bind. eexists. split; [done|].
      split_and!; [done|done|]. intros h [Hp _]. cbn in *. unfold addr. rewrite Hb, od_get_app.
      pose proof (od_get_filter h (blocks m) (λ x, x ∉ victims m hs)) as Hf. rewrite Hf. rewrite decide_True.
      * assert (tracked m h) as [b Hg]%tracked_get; [|by rewrite Hg].
        destruct Hp as [HL|HSt]; [by apply (lo_loads _ _ _ Ho)|by apply (lo_storing _ _ _ Ho)].
      * intros Hin. destruct (victims_ok L St m hs Ho) as (_&_&Hv). destruct (Hv h Hin) as (b&Hg&H0).
        apply (idle_iff _ _ _ _ _ Ho Hg) in H0 as [??]. by destruct Hp.
  - destruct Hc as [Ht Hnd]. rewrite Forall_forall in Ht. unfold complete_store. destruct success.
    + destruct (stored_loop_ok hs L St m [] Ho Ht) as (st&m'&->&Ho'&Ha&Hbe&_). rewrite !Ok_bind.
      destruct (add_event_frame m' st false) as [Hb1 Hb2]. eexists. split; [done|]. split_and!.
      * by apply add_event_ok.
      * unfold same_backend. cbn. by rewrite Hb2, Hbe.
      * intros h _. cbn. unfold addr. rewrite Hb1. apply Ha.
    + destruct (drop_loop_ok hs L St m Ho (Hnd eq_refl) Ht) as (m'&->&Ho'&Hs&Hg). rewrite !Ok_bind.
      destruct (add_event_frame m' [] false) as [Hb1 Hb2]. eexists. split; [done|]. split_and!.
      * by apply add_event_ok.
      * destruct Hs as (?&?&?). unfold same_backend. cbn. by rewrite Hb2.
      * intros h [_ Hn]. cbn. unfold addr. rewrite Hb1, Hg, decide_False; [done|]. by intros [].
  - eexists. split; [done|]. unfold take_events. destruct (events m) eqn:He; [|by split_and!].
    split_and!; [|done|done]. destruct Ho. by split.
Qed.

Fixpoint run (cs : list call) r : result run_state :=
  match cs with
  | [] => Ok r
  | c :: cs => r ← run_call c r; run cs r
  end.

Lemma run_calls_ok cs r :
  run_ok r → calls_ok cs r → ∃ r', run cs r = Ok r' ∧ run_ok r' ∧ same_backend (manager r) (manager r').
Proof.
  induction cs as [|c cs IH] in r |- *; simpl; intros Ho Hc; [by eexists|].
  destruct Hc as [Hc Hcs]. destruct (run_call_ok c r Ho Hc) as (r1&Hr1&Ho1&Hs1&_). rewrite Hr1 in Hcs |- *. rewrite Ok_bind.
  destruct (IH r1 Ho1 Hcs) as (r2&->&Ho2&Hs2). exists r2. split_and!; [done|done|by etrans].
Qed.
End protocol.
Arguments run_state : clear implicits.

#[export] Instance call_ok_dec {S B} `{Backend S B} c (r : run_state S B) : Decision (call_ok c r).
Proof. destruct c; unfold call_ok; apply _. Defined.
#[export] Instance calls_ok_dec {S B} `{Backend S B} cs (r : run_state S B) : Decision (calls_ok cs r).
Proof. revert r. induction cs as [|c cs IH]; intros r; simpl; [apply _|]. destruct (run_call c r); apply _. Defined.

(** ** Correctness *)


(** The run of tests/v1/kv_offload/test_cpu_manager.py up to the store that evicts
    three blocks; the two stores without room are part of it. *)
Definition ex_hash (i : Z) : bytes := [48 + i].
Definition ex_hashes (l : list Z) : list bytes := ex_hash <$> l.
Definition ex_new : run_state Cpu.CPUBackend Z := mkRun (init (Cpu.init 256 4) true) ∅ ∅.
Definition ex_calls : list call :=
  [PrepareStore (ex_hashes [1; 2]); CompleteStore (ex_hashes [1; 2]) true; TakeEvents;
   PrepareStore (ex_hashes [2; 3; 4; 5]); PrepareStore (ex_hashes [1; 6]); CompleteStore (ex_hashes [2; 3; 4; 5]) true;
   PrepareLoad (PyList (ex_hashes [2; 3])); PrepareStore (ex_hashes [6; 7; 8]); CompleteLoad (ex_hashes [2; 3])].

Lemma ex_owns : owns (Cpu.init 256 4) ([] : list Z).
Proof. by split. Qed.
Lemma ex_new_ok : run_ok ex_new.
Proof. apply lru_init_ok, ex_owns. Qed.

Definition ex_state : run_state Cpu.CPUBackend Z :=
  match run ex_calls ex_new with Ok r => r | Err _ => ex_new end.
Lemma ex_calls_ok : calls_ok ex_calls ex_new.
Proof. apply (bool_decide_unpack _). vm_compute. done. Qed.
Lemma ex_state_ok : run_ok ex_state.
Proof.
  destruct (run_calls_ok ex_calls ex_new ex_new_ok ex_calls_ok) as (r&Hr&Ho&_). unfold ex_state. by rewrite Hr.
Qed.


(** C12. The manager is safe with every backend that keeps the laws.  After any sequence
    of calls that follows the protocol, none of which raises, the blocks in use are
    distinct and with the free ones make up the backend's capacity (none is lost or
    shared); a block counts exactly the loads that have not completed, and is not
    ready exactly while its store has not.  No further call moves or evicts a block
    with a transfer: it stays where it is until the transfer is completed. *)
Theorem offload_manager_safe {S B} `{BackendLaws S B} s ev cs :
  owns s [] → calls_ok cs (mkRun (init s ev) ∅ ∅) →
  ∃ r, run cs (mkRun (init s ev) ∅ ∅) = Ok r ∧
    NoDup (infos (manager r)) ∧
    get_num_free_blocks (backend (manager r)) + len (blocks (manager r)) = capacity s ∧
    (∀ h b, Od.get h (blocks (manager r)) = Some b →
       status_ref_cnt b = if decide (h ∈ storing r) then -1 else Z.of_nat (multiplicity h (loading r))) ∧
    (∀ c, call_ok c r → ∃ r', run_call c r = Ok r' ∧
       ∀ h, protected c r h → addr (manager r') h = addr (manager r) h ∧ is_Some (addr (manager r) h)).
Proof.
  intros Hown Hcs. destruct (run_calls_ok cs (mkRun (init s ev) ∅ ∅) (lru_init_ok s ev Hown) Hcs) as (r&Hr&Ho&Hcap&_).
  exists r. split_and!; [done|apply (owns_nodup _ _ (lo_owns _ _ _ Ho))| |apply (lo_ref _ _ _ Ho)|].
  - destruct (owns_count _ _ (lo_owns _ _ _ Ho)) as [Hc _]. unfold infos in Hc. rewrite !len_fmap in Hc. cbn in Hcap. lia.
  - intros c Hc. destruct (run_call_ok c r Ho Hc) as (r'&Hr'&_&_&Ha). exists r'. split; [done|].
    intros h Hp. split; [by apply Ha|]. apply (addr_tracked (manager r)); [|done].
    destruct Hp as [[HL|HSt] _]; [by apply (lo_loads _ _ _ Ho)|by apply (lo_storing _ _ _ Ho)].
Qed.

Example offload_manager_safe_witness :
  ∃ r, run ex_calls ex_new = Ok r ∧ NoDup (infos (manager r)) ∧
    ((λ hb, (hb.1, load_info hb.2)) <$> blocks (manager r)) = [(ex_hash 2, 1); (ex_hash 3, 2); (ex_hash 4, 3); (ex_hash 5, 0)].
Proof.
  destruct (offload_manager_safe (Cpu.init 256 4) true ex_calls ex_owns ex_calls_ok) as (r&Hr&Hnd&_).
  exists r. split; [exact Hr|]. split; [exact Hnd|]. vm_compute in Hr. injection Hr as <-. reflexivity.
Defined.
