(* ===== verification/OffloadConnector.v ===== *)
(** * KV offloading: the connector

    Models src/vllm/distributed/kv_transfer/kv_connector/v1/offloading_connector.py:
    the scheduler side, which decides what is loaded and stored and tells the
    manager ([Conn]), and the worker side, which runs the transfers as jobs
    ([Work]), with the dispatcher of kv_offload/worker/worker.py ([Dispatch]).

    The scheduler side holds references to the scheduler's requests, so it keeps
    their ids and its operations take the dictionary of the requests as they are.
    Where the code iterates over a set, the order is a parameter. *)
From S2P Require Import Prelude FreeQueue Request BlockHash BlockPool KVSpecs BlockMap KVManager Scheduler Offload.

(** [itertools.islice(l, start, stop, step)], consumed. *)
Definition islice {A} (l : list A) (start : Z) (stop : option Z) (step : Z) : result (list A) :=
  if (start <? 0) || (from_option (λ e, e <? 0) false stop) || (step <? 1) then Err ValueError
  else
    let stop' := match stop with Some e => Z.min e (len l) | None => len l end in
    Ok (omap (λ i, l !! Z.to_nat i) ((λ k, start + step * k) <$> py_range 0 (cdiv (stop' - start) step))).

(** [a // b]. *)
Definition floordiv (a b : Z) : result Z := if b =? 0 then Err ZeroDivisionError else Ok (a / b).

(** (source, destination). *)
Definition TransferSpec : Set := LoadStoreSpec * LoadStoreSpec.

Record OffloadingConnectorMetadata := mkMeta {
  meta_to_load : list (string * TransferSpec);
  meta_to_store : list (string * TransferSpec);
}.

(** The two sizes of [OffloadingSpec.__init__]. *)
Definition offloaded_size (gpu_block_size : Z) (extra_block_size : option Z) : result Z :=
  let size := default gpu_block_size extra_block_size in
  if gpu_block_size =? 0 then Err ZeroDivisionError
  else _ ← py_assert (size mod gpu_block_size =? 0); Ok size.

(** ** The scheduler side *)

Module Conn.
Section conn.
Context {S B : Type} `{Backend S B}.

Record OffloadingConnectorScheduler := mkConn {
  gpu_block_size : Z;
  offloaded_block_size : Z;
  block_size_factor : Z;
  manager : Lru.LRUOffloadingManager S B;
  requests : gset string;
  request_block_ids : gmap string (list Z);
  reqs_to_load : list (string * TransferSpec);
  next_stored_block_idx : gmap string Z;
  reqs_being_stored : gmap string (gset bytes);
  reqs_being_loaded : gmap string (gset bytes);
}.
Implicit Types (c : OffloadingConnectorScheduler).

Definition init (gpu_size off_size : Z) (m : Lru.LRUOffloadingManager S B) : result OffloadingConnectorScheduler :=
  factor ← floordiv off_size gpu_size;
  Ok (mkConn gpu_size off_size factor m ∅ ∅ [] ∅ ∅ ∅).

Definition set_manager m c : OffloadingConnectorScheduler :=
  mkConn (gpu_block_size c) (offloaded_block_size c) (block_size_factor c) m (requests c) (request_block_ids c)
    (reqs_to_load c) (next_stored_block_idx c) (reqs_being_stored c) (reqs_being_loaded c).
Definition set_ids x c : OffloadingConnectorScheduler :=
  mkConn (gpu_block_size c) (offloaded_block_size c) (block_size_factor c) (manager c) (requests c) x
    (reqs_to_load c) (next_stored_block_idx c) (reqs_being_stored c) (reqs_being_loaded c).
Definition set_next_idx x c : OffloadingConnectorScheduler :=
  mkConn (gpu_block_size c) (offloaded_block_size c) (block_size_factor c) (manager c) (requests c)
    (request_block_ids c) (reqs_to_load c) x (reqs_being_stored c) (reqs_being_loaded c).
Definition set_being_stored x c : OffloadingConnectorScheduler :=
  mkConn (gpu_block_size c) (offloaded_block_size c) (block_size_factor c) (manager c) (requests c)
    (request_block_ids c) (reqs_to_load c) (next_stored_block_idx c) x (reqs_being_loaded c).
Definition set_to_load x c : OffloadingConnectorScheduler :=
  mkConn (gpu_block_size c) (offloaded_block_size c) (block_size_factor c) (manager c) (requests c)
    (request_block_ids c) x (next_stored_block_idx c) (reqs_being_stored c) (reqs_being_loaded c).

(** [_get_block_hashes]: the last hash of every offloaded block. *)
Definition get_block_hashes (r : Request) (start_idx : Z) (end_idx : option Z) c : result (list bytes) :=
  let f := block_size_factor c in
  islice (block_hashes r) (f * start_idx + f - 1)
    (match end_idx with Some e => if e =? 0 then None else Some (f * e) | None => None end) f.

Definition get_num_new_matched_tokens (r : Request) (num_computed_tokens : Z) c
  : result (Z * bool * OffloadingConnectorScheduler) :=
  num_blocks ← floordiv (num_tokens r) (offloaded_block_size c);
  have ← floordiv (len (block_hashes r)) (block_size_factor c);
  _ ← py_assert (have =? num_blocks);
  hashes ← get_block_hashes r 0 None c;
  m ← Lru.touch hashes (manager c);
  let c := set_manager m c in
  let full_block_tokens := offloaded_block_size c * num_blocks in
  if full_block_tokens - num_computed_tokens <? offloaded_block_size c then Ok (0, false, c)
  else
    start_block_idx ← floordiv num_computed_tokens (offloaded_block_size c);
    hashes ← get_block_hashes r start_block_idx None c;
    let hits := Lru.lookup hashes (manager c) in
    if hits =? 0 then Ok (0, false, c)
    else
      let num_hit_tokens := offloaded_block_size c * (start_block_idx + hits) - num_computed_tokens in
      if num_hit_tokens <? offloaded_block_size c then Ok (0, false, c) else Ok (num_hit_tokens, true, c).

(** [self._requests[id] = request] and [self._request_block_ids[id] = []]. *)
Definition register (r : Request) c : OffloadingConnectorScheduler :=
  mkConn (gpu_block_size c) (offloaded_block_size c) (block_size_factor c) (manager c)
    ({[request_id r]} ∪ requests c) (<[request_id r := []]> (request_block_ids c))
    (reqs_to_load c) (next_stored_block_idx c) (reqs_being_stored c) (reqs_being_loaded c).

(** [defaultdict(set)]: the entry, made when it is missing. *)
Definition add_hashes (rid : string) (hs : gset bytes) (d : gmap string (gset bytes)) : gmap string (gset bytes) :=
  <[rid := default ∅ (d !! rid) ∪ hs]> d.

Definition update_state_after_alloc (P : BlockPool) (r : Request) (bs : KVCacheBlocks) (num_external_tokens : Z) c
  : result OffloadingConnectorScheduler :=
  let c := register r c in
  if num_external_tokens =? 0 then Ok c
  else
    group ← py_index bs 0;
    let block_ids := id_of (pool_heap P) <$> group in
    let num_computed_gpu_blocks := len (filter (λ p, hash_at P p ≠ None) group) in
    let num_computed_tokens := num_computed_gpu_blocks * gpu_block_size c in
    let full_block_tokens := num_computed_tokens + num_external_tokens in
    num_blocks ← floordiv full_block_tokens (offloaded_block_size c);
    _ ← py_assert (full_block_tokens mod offloaded_block_size c =? 0);
    let num_pending_gpu_blocks := len block_ids - num_computed_gpu_blocks in
    _ ← py_assert (num_external_tokens =? num_pending_gpu_blocks * gpu_block_size c);
    start_block_idx ← floordiv num_computed_tokens (offloaded_block_size c);
    have ← floordiv (len (block_hashes r)) (block_size_factor c);
    _ ← py_assert (num_blocks <=? have);
    hashes ← get_block_hashes r start_block_idx (Some num_blocks) c;
    '(src_spec, m) ← Lru.prepare_load (PyIterator hashes) (manager c);
    let dst_spec := GPULoadStoreSpec (py_from block_ids num_computed_gpu_blocks) in
    Ok (mkConn (gpu_block_size c) (offloaded_block_size c) (block_size_factor c) m (requests c) (request_block_ids c)
          (Od.set (request_id r) (src_spec, dst_spec) (reqs_to_load c))
          (<[request_id r := num_blocks]> (next_stored_block_idx c)) (reqs_being_stored c)
          (add_hashes (request_id r) (list_to_set hashes) (reqs_being_loaded c))).

(** [yield_req_data]. *)
Definition yield_req_data {Blob : Type} (out : SchedulerOutput Blob)
  : list (string * option (list (list Z)) * bool) :=
  let cached := out_cached_reqs out in
  ((λ r, (nr_req_id r, nr_block_ids r, false)) <$> out_new_reqs out) ++
  zip (zip (cr_req_ids cached) (new_block_ids cached)) (resumed_from_preemption cached).

(** The block ids of the request, brought up to date. *)
Definition collect_ids (rid : string) (new_block_id_groups : option (list (list Z))) (preempted : bool) c
  : result (list Z * OffloadingConnectorScheduler) :=
  let c := if preempted then set_ids (<[rid := []]> (request_block_ids c)) c else c in
  c ← match new_block_id_groups with
      | Some (new_block_ids :: _) =>
          ids ← of_option KeyError (request_block_ids c !! rid);
          Ok (set_ids (<[rid := ids ++ new_block_ids]> (request_block_ids c)) c)
      | _ => Ok c
      end;
  ids ← of_option KeyError (request_block_ids c !! rid);
  Ok (ids, c).

(** The GPU blocks of the offloaded blocks that are stored; [idx] counts from
    [start_block_idx]. *)
Fixpoint src_ids (f : Z) (block_ids : list Z) (to_store : gset bytes) (idx : Z) (hashes : list bytes) : result (list Z) :=
  match hashes with
  | [] => Ok []
  | h :: hs =>
      if decide (h ∈ to_store) then
        ids ← map_res (λ i, py_index block_ids (idx * f + i)) (py_range 0 f);
        rest ← src_ids f block_ids to_store (idx + 1) hs;
        Ok (ids ++ rest)
      else src_ids f block_ids to_store (idx + 1) hs
  end.

(** The body of the loop for one request: [None] is the [break]. *)
Definition store_one (store : gmap string Request) (num_scheduled_tokens : list (string * Z))
    (rid : string) (groups : option (list (list Z))) (preempted : bool)
    (to_store : list (string * TransferSpec)) c
  : result (option (list (string * TransferSpec)) * OffloadingConnectorScheduler) :=
  '(block_ids, c) ← collect_ids rid groups preempted c;
  req ← of_option KeyError (if decide (rid ∈ requests c) then store !! rid else None);
  new_tokens ← of_option KeyError (Od.get rid num_scheduled_tokens);
  let total_tokens := num_computed_tokens req + new_tokens in
  num_blocks ← floordiv total_tokens (offloaded_block_size c);
  let start_block_idx := default 0 (next_stored_block_idx c !! rid) in
  let num_new_blocks := num_blocks - start_block_idx in
  if num_new_blocks <=? 0 then Ok (Some to_store, c)
  else
    _ ← py_assert (num_blocks * block_size_factor c <=? len (block_hashes req));
    new_block_hashes ← get_block_hashes req start_block_idx (Some num_blocks) c;
    '(store_output, m) ← Lru.prepare_store new_block_hashes (manager c);
    let c := set_manager m c in
    match store_output with
    | None => Ok (None, c)
    | Some out =>
        let c := set_next_idx (<[rid := num_blocks]> (next_stored_block_idx c)) c in
        if bool_decide (block_hashes_to_store out = []) then Ok (Some to_store, c)
        else
          let hashes_to_store := list_to_set (block_hashes_to_store out) : gset bytes in
          hashes ← get_block_hashes req 0 (Some num_blocks) c;
          m ← Lru.touch hashes (manager c);
          let c := set_manager m c in
          ids ← src_ids (block_size_factor c) block_ids hashes_to_store start_block_idx new_block_hashes;
          Ok (Some (Od.set rid (GPULoadStoreSpec ids, store_spec out) to_store),
              set_being_stored (add_hashes rid hashes_to_store (reqs_being_stored c)) c)
    end.

(** [_get_reqs_to_store]. *)
Fixpoint get_reqs_to_store (store : gmap string Request) (num_scheduled_tokens : list (string * Z))
    (data : list (string * option (list (list Z)) * bool)) (to_store : list (string * TransferSpec)) c
  : result (list (string * TransferSpec) * OffloadingConnectorScheduler) :=
  match data with
  | [] => Ok (to_store, c)
  | (rid, groups, preempted) :: data =>
      '(next, c) ← store_one store num_scheduled_tokens rid groups preempted to_store c;
      match next with
      | Some to_store => get_reqs_to_store store num_scheduled_tokens data to_store c
      | None => Ok (to_store, c)
      end
  end.

Definition build_connector_meta {Blob : Type} (store : gmap string Request) (out : SchedulerOutput Blob) c
  : result (OffloadingConnectorMetadata * OffloadingConnectorScheduler) :=
  '(to_store, c') ← get_reqs_to_store store (out_num_scheduled_tokens out) (yield_req_data out) [] c;
  Ok (mkMeta (reqs_to_load c) to_store, set_to_load [] c').

Section output.
Context (id_order : gset string → list string) (hash_order : gset bytes → list bytes).

(** [pop(req_id, None)], then the completion if the set is not empty. *)
Definition stored_req (rid : string) c : result OffloadingConnectorScheduler :=
  let hs := default ∅ (reqs_being_stored c !! rid) in
  let c := set_being_stored (delete rid (reqs_being_stored c)) c in
  if bool_decide (hs = ∅) then Ok c
  else m ← Lru.complete_store (hash_order hs) true (manager c); Ok (set_manager m c).
Definition loaded_req (rid : string) c : result OffloadingConnectorScheduler :=
  let hs := default ∅ (reqs_being_loaded c !! rid) in
  let c := mkConn (gpu_block_size c) (offloaded_block_size c) (block_size_factor c) (manager c) (requests c)
             (request_block_ids c) (reqs_to_load c) (next_stored_block_idx c) (reqs_being_stored c)
             (delete rid (reqs_being_loaded c)) in
  if bool_decide (hs = ∅) then Ok c
  else m ← Lru.complete_load (hash_order hs) (manager c); Ok (set_manager m c).

Definition update_connector_output {Blob : Type} (out : KVConnectorOutput Blob) c : result OffloadingConnectorScheduler :=
  c ← for_each stored_req (id_order (default ∅ (finished_sending out))) c;
  for_each loaded_req (id_order (default ∅ (finished_recving out))) c.
End output.

Definition request_finished (rid : string) c : bool * OffloadingConnectorScheduler :=
  (bool_decide (is_Some (reqs_being_stored c !! rid)),
   mkConn (gpu_block_size c) (offloaded_block_size c) (block_size_factor c) (manager c) (requests c ∖ {[rid]})
     (delete rid (request_block_ids c)) (reqs_to_load c) (delete rid (next_stored_block_idx c))
     (reqs_being_stored c) (reqs_being_loaded c)).

(** [BlockStored] and [BlockRemoved] events for the manager's events. *)
Definition kv_event (e : OffloadingEvent) : KVCacheEvent :=
  if oe_removed e then BlockRemoved (HBytes <$> oe_block_hashes e) (oe_medium e)
  else BlockStored (HBytes <$> oe_block_hashes e) None [] (oe_block_size e) None (oe_medium e).
Definition take_events c : list KVCacheEvent * OffloadingConnectorScheduler :=
  let '(es, m) := Lru.take_events (manager c) in (kv_event <$> es, set_manager m c).
End conn.
Arguments OffloadingConnectorScheduler : clear implicits.
End Conn.
