(* ===== verification/OffloadTransfer.v ===== *)
(** * KV offloading: the transfers

    Models src/vllm/v1/kv_offload/worker/cpu_gpu.py: the expansion of block ids and
    the handler that copies blocks between the GPU and the CPU.  The CUDA kernel
    [swap_blocks] of src/csrc/cache_kernels.cu copies block by block, in order.

    The KV cache of a layer is one tensor whose first dimension is the block, or
    two of them (keys and values); [plane] is one such tensor: the contents of its
    blocks, of size [gpu_block_size] on both sides.  A stream performs its copies
    in the order they are issued, so a transfer is modelled by its effect at the
    time its event has passed; [event_done] is [Event.query]. *)
From S2P Require Import Prelude FreeQueue Offload.

(** ** Expanding block ids *)

(** [output[a:b] = vals] on a numpy array: the slice is clamped, the shapes must
    agree, and a single value is broadcast. *)
Definition np_assign (output : list Z) (a b : Z) (vals : list Z) : result (list Z) :=
  let a' := Z.min a (len output) in
  let b' := Z.max a' (Z.min b (len output)) in
  let vals' := match vals with [v] => py_repeat v (b' - a') | _ => vals end in
  if len vals' =? b' - a' then Ok (take (Z.to_nat a') output ++ vals' ++ drop (Z.to_nat b') output)
  else Err ValueError.

(** The loop; [indices] are those of the next block, int64 like the ids. *)
Fixpoint expand_loop (block_size_factor : Z) (block_ids : list Z) (indices : list Z) (output_idx : Z)
    (output : list Z) : result (list Z) :=
  match block_ids with
  | [] => Ok output
  | block_id :: rest =>
      let base_block_id := i64 (block_id * block_size_factor) in
      let output_end_idx := output_idx + len indices in
      output ← np_assign output output_idx output_end_idx ((λ i, i64 (base_block_id + i)) <$> indices);
      expand_loop block_size_factor rest (py_range 0 block_size_factor) output_end_idx output
  end.

Definition expand_block_ids (block_ids : list Z) (block_size_factor : Z) (output : list Z) (skip_count : Z)
  : result (list Z) :=
  _ ← py_assert (skip_count <? block_size_factor);
  expand_loop block_size_factor block_ids (py_range skip_count block_size_factor) 0 output.

(** ** The handler *)

Section handler.
Context {A : Type} (zero : A).
(** What [np.empty] leaves in a column of [n] entries. *)
Context (np_empty : Z → list Z).
Context (event_done : Z → bool).

Abbreviation plane := (gmap Z A).
Abbreviation tensor := (list (gmap Z A)).

(** [swap_blocks]: every block of the mapping in turn. *)
Definition swap_blocks (src dst : plane) (block_mapping : list (Z * Z)) : plane :=
  foldl (λ dst '(s, d), partial_alter (λ _, src !! s) d dst) dst block_mapping.

Record CpuGpuOffloadingHandler := mkHandler {
  factor : Z;                      (** [self.block_size_factor] *)
  transfer_events : list (Z * Z);
  events_pool : list Z;
  num_events : Z;                  (** the events created so far name the next one *)
  gpu_tensors : list tensor;
  cpu_tensors : list tensor;
  kv_dim_before_num_blocks : list bool;
}.

(** One layer of [__init__]; [test_shape] is what its attention backend answers. *)
Definition init_layer (num_blocks : Z) (layer : tensor * list Z) : result (bool * tensor) :=
  let '(gpu_tensor, test_shape) := layer in
  n ← py_index test_shape 0;
  kv_dim ← (if n =? 1234 then Ok false
            else
              _ ← py_assert (n =? 2);
              n1 ← py_index test_shape 1;
              _ ← py_assert (n1 =? 1234);
              _ ← py_assert (len gpu_tensor =? 2);
              Ok true);
  let empty_plane := list_to_map ((λ i, (i, zero)) <$> py_range 0 num_blocks) : plane in
  Ok (kv_dim, (λ _, empty_plane) <$> gpu_tensor).

Definition init (gpu_block_size cpu_block_size num_cpu_blocks : Z) (gpu_caches : list (tensor * list Z))
  : result CpuGpuOffloadingHandler :=
  if gpu_block_size =? 0 then Err ZeroDivisionError
  else
    _ ← py_assert (cpu_block_size mod gpu_block_size =? 0);
    let f := cpu_block_size / gpu_block_size in
    layers ← map_res (init_layer (num_cpu_blocks * f)) gpu_caches;
    Ok (mkHandler f [] [] 0 gpu_caches.*1 layers.*2 layers.*1).

Definition swap_plane (i : Z) (src dst : tensor) (m : list (Z * Z)) : result tensor :=
  s ← py_index src i;
  d ← py_index dst i;
  py_set dst i (swap_blocks s d m).
Definition swap_tensor (m : list (Z * Z)) (x : tensor * tensor * bool) : result tensor :=
  let '(src, dst, kv_dim) := x in
  dst ← swap_plane 0 src dst m;
  if kv_dim : bool then swap_plane 1 src dst m else Ok dst.

(** The copies of a transfer: [zip] stops at the shortest list, and the tensors
    beyond it stay. *)
Definition swap_all (src dst : list tensor) (kv_dims : list bool) (m : list (Z * Z)) : result (list tensor) :=
  ts ← map_res (swap_tensor m) (zip (zip src dst) kv_dims);
  Ok (ts ++ drop (length ts) dst).

(** The array [src_to_dst]. *)
Definition block_mapping (src_blocks dst_blocks : list Z) (src_factor dst_factor : Z) : result (list (Z * Z)) :=
  let skip := (- len src_blocks) mod dst_factor in
  let count := len src_blocks * src_factor in
  _ ← py_assert (count =? len dst_blocks * dst_factor - skip);
  srcs ← expand_block_ids src_blocks src_factor (np_empty count) 0;
  dsts ← expand_block_ids dst_blocks dst_factor (np_empty count) skip;
  Ok (zip srcs dsts).

(** Taking an event from the pool or making one, and recording it for the job. *)
Definition record_transfer (job_id : Z) (h : CpuGpuOffloadingHandler) (gpu cpu : list tensor) : CpuGpuOffloadingHandler :=
  match reverse (events_pool h) with
  | e :: pool =>
      mkHandler (factor h) (Od.set job_id e (transfer_events h)) (reverse pool) (num_events h) gpu cpu
        (kv_dim_before_num_blocks h)
  | [] =>
      mkHandler (factor h) (Od.set job_id (num_events h) (transfer_events h)) [] (num_events h + 1) gpu cpu
        (kv_dim_before_num_blocks h)
  end.

Definition transfer_async (job_id : Z) (spec : LoadStoreSpec * LoadStoreSpec) (h : CpuGpuOffloadingHandler)
  : result (bool * CpuGpuOffloadingHandler) :=
  match spec with
  | (CPULoadStoreSpec src, GPULoadStoreSpec dst) =>
      m ← block_mapping src dst (factor h) 1;
      gpu ← swap_all (cpu_tensors h) (gpu_tensors h) (kv_dim_before_num_blocks h) m;
      Ok (true, record_transfer job_id h gpu (cpu_tensors h))
  | (GPULoadStoreSpec src, CPULoadStoreSpec dst) =>
      m ← block_mapping src dst 1 (factor h);
      cpu ← swap_all (gpu_tensors h) (cpu_tensors h) (kv_dim_before_num_blocks h) m;
      Ok (true, record_transfer job_id h (gpu_tensors h) cpu)
  | _ => Err AssertionError
  end.

Definition get_finished (h : CpuGpuOffloadingHandler) : list (Z * bool) * CpuGpuOffloadingHandler :=
  let finished := filter (λ je, event_done je.2 = true) (transfer_events h) in
  ((λ je, (je.1, true)) <$> finished,
   mkHandler (factor h) (foldl (λ d je, Od.del je.1 d) (transfer_events h) finished)
     (events_pool h ++ finished.*2) (num_events h) (gpu_tensors h) (cpu_tensors h) (kv_dim_before_num_blocks h)).
End handler.
Arguments CpuGpuOffloadingHandler : clear implicits.

(** ** What the expansion computes *)

(** The sub-blocks of the blocks, in order. *)
Definition sub_blocks (f : Z) (ids : list Z) : list Z := ids ≫= λ b, seqZ (b * f) f.

Lemma sub_blocks_cons f b ids : sub_blocks f (b :: ids) = seqZ (b * f) f ++ sub_blocks f ids.
Proof. done. Qed.

Lemma len_seqZ a n : 0 ≤ n → len (seqZ a n) = n.
Proof. intros Hn. unfold len. rewrite length_seqZ. lia. Qed.

Lemma len_sub_blocks f ids : 0 ≤ f → len (sub_blocks f ids) = f * len ids.
Proof.
  intros Hf. induction ids as [|b ids IH]; [unfold sub_blocks, len; cbn; lia|].
  rewrite sub_blocks_cons, len_app, len_seqZ, IH, len_cons by done. lia.
Qed.

Lemma np_assign_exact out vals tail :
  np_assign (out ++ tail) (len out) (len out + len vals) vals =
    if decide (len vals ≤ len tail) then Ok (out ++ vals ++ drop (length vals) tail)
    else np_assign (out ++ tail) (len out) (len out + len vals) vals.
Proof.
  case_decide as Hle; [|done]. unfold np_assign. rewrite len_app.
  pose proof (len_nonneg out). pose proof (len_nonneg vals).
  rewrite (Z.min_l (len out)), (Z.min_l (len out + len vals)), (Z.max_r (len out)) by lia.
  replace (len out + len vals - len out) with (len vals) by lia.
  assert (match vals with [v] => py_repeat v (len vals) | _ => vals end = vals) as -> by (by destruct vals as [|v []]).
  rewrite Z.eqb_refl. unfold len. rewrite Nat2Z.id, take_app_length, <-Nat2Z.inj_add, Nat2Z.id.
  by rewrite drop_app_add.
Qed.

Lemma drop_seqZ a n i : 0 ≤ i ≤ n → drop (Z.to_nat i) (seqZ a n) = seqZ (a + i) (n - i).
Proof.
  intros Hi. replace n with (i + (n - i)) at 1 by lia. rewrite seqZ_app by lia.
  apply drop_app_length'. by rewrite length_seqZ.
Qed.

Lemma base_indices b f i0 :
  0 ≤ b → 0 ≤ i0 ≤ f → (b + 1) * f < 2 ^ 63 →
  (λ i, i64 (i64 (b * f) + i)) <$> py_range i0 f = drop (Z.to_nat i0) (seqZ (b * f) f).
Proof.
  intros Hb Hi Hw. unfold py_range. rewrite (i64_small (b * f)) by nia.
  rewrite drop_seqZ, <-(fmap_add_seqZ (b * f) i0 (f - i0)) by lia. apply list_fmap_ext. intros k x Hx%lookup_seqZ. apply i64_small. nia.
Qed.

Lemma expand_loop_ok f i0 ids out tail :
  0 ≤ i0 < f → (∀ b, b ∈ ids → 0 ≤ b ∧ (b + 1) * f < 2 ^ 63) →
  len tail = f * len ids - i0 →
  ids ≠ [] →
  expand_loop f ids (py_range i0 f) (len out) (out ++ tail) = Ok (out ++ drop (Z.to_nat i0) (sub_blocks f ids)).
Proof.
  induction ids as [|b rest IH] in i0, out, tail |- *; intros Hi Hb Hlen Hne; [done|]. cbn [expand_loop].
  destruct (Hb b ltac:(by left)) as [Hb0 Hbw]. rewrite base_indices by lia.
  set (vals := drop (Z.to_nat i0) (seqZ (b * f) f)).
  assert (len vals = f - i0) as Hv by (unfold vals, len; rewrite length_drop, length_seqZ; lia).
  assert (len (py_range i0 f) = len vals) as -> by (rewrite Hv; apply len_seqZ; lia).
  rewrite len_cons in Hlen. pose proof (len_nonneg rest).
  rewrite np_assign_exact, decide_True by nia. rewrite Ok_bind.
  rewrite sub_blocks_cons, drop_app_le by (rewrite length_seqZ; lia). fold vals. rewrite app_assoc, <-len_app.
  destruct rest as [|b' rest].
  - cbn [expand_loop]. rewrite len_nil in Hlen. unfold sub_blocks. cbn. rewrite app_nil_r.
    rewrite drop_ge, app_nil_r; [done|]. unfold len in *. lia.
  - rewrite IH; [|lia|intros; apply Hb; by right| |done].
    + by rewrite drop_0, <-!app_assoc.
    + unfold len in *. rewrite length_drop. lia.
Qed.

(** With room for exactly the sub-blocks that are not skipped, all of them are
    written, whatever was there. *)
Lemma expand_ok ids f out skip :
  0 ≤ skip < f → (∀ b, b ∈ ids → 0 ≤ b ∧ (b + 1) * f < 2 ^ 63) → len out = Z.max 0 (f * len ids - skip) →
  (ids = [] → skip = 0) →
  expand_block_ids ids f out skip = Ok (drop (Z.to_nat skip) (sub_blocks f ids)).
Proof.
  intros Hs Hb Hlen Hnil. unfold expand_block_ids. rewrite (proj2 (Z.ltb_lt _ _)) by lia. cbn [py_assert]. rewrite Ok_bind.
  destruct (decide (ids = [])) as [->|Hne].
  - pose proof (Hnil eq_refl) as H0. subst skip. change (f * len []) with (f * 0) in Hlen. cbn. f_equal. apply len_0_nil. lia.
  - apply (expand_loop_ok f skip ids [] out); [done|done| |done].
    destruct ids; [done|]. rewrite len_cons in Hlen |- *. pose proof (len_nonneg ids). nia.
Qed.

Lemma elem_of_sub_blocks f ids x : 0 < f → x ∈ sub_blocks f ids ↔ x / f ∈ ids.
Proof.
  intros Hf. unfold sub_blocks. rewrite list_elem_of_bind. split.
  - intros (b&Hx%elem_of_seqZ&Hb). replace (x / f) with b; [done|]. apply (Z.div_unique x f b (x - b * f)); lia.
  - intros Hx. exists (x / f). split; [|done]. apply elem_of_seqZ.
    pose proof (Z.mul_div_le x f Hf). pose proof (Z.mul_succ_div_gt x f Hf). lia.
Qed.

Lemma NoDup_sub_blocks f ids : 0 < f → NoDup ids → NoDup (sub_blocks f ids).
Proof.
  intros Hf. induction ids as [|b ids IH]; intros Hnd; [apply NoDup_nil_2|]. apply NoDup_cons in Hnd as [Hn Hnd].
  rewrite sub_blocks_cons. apply NoDup_app. split_and!; [apply NoDup_seqZ| |by apply IH].
  intros x Hx%elem_of_seqZ Hin%elem_of_sub_blocks; [|done]. apply Hn. replace b with (x / f); [done|].
  symmetry. apply (Z.div_unique x f b (x - b * f)); lia.
Qed.

(** ** What a transfer copies *)

Section transfer.
Context {A : Type} (zero : A) (np_empty : Z → list Z) (Hempty : ∀ n, 0 ≤ n → len (np_empty n) = n).
Implicit Types (src dst : gmap Z A) (h : CpuGpuOffloadingHandler A).

(** With distinct destinations, every destination gets its source and nothing else
    changes. *)
Lemma swap_blocks_spec src dst m :
  NoDup m.*2 →
  (∀ s d, (s, d) ∈ m → swap_blocks src dst m !! d = src !! s) ∧
  (∀ d, d ∉ m.*2 → swap_blocks src dst m !! d = dst !! d).
Proof.
  unfold swap_blocks. induction m as [|[s d] m IH] in dst |- *; simpl; intros Hnd.
  { split; [by intros ?? ?%not_elem_of_nil|done]. }
  apply NoDup_cons in Hnd as [Hn Hnd]. destruct (IH (partial_alter (λ _, src !! s) d dst) Hnd) as [IH1 IH2]. split.
  - intros s' d' [[= -> ->]|Hin]%elem_of_cons; [|by apply IH1]. rewrite IH2 by done. by rewrite lookup_partial_alter_eq.
  - intros d' [Hne Hd']%not_elem_of_cons. rewrite IH2 by done. by rewrite lookup_partial_alter_ne.
Qed.

(** A plane of a layer, and the contents of a block of it. *)
Definition plane_at (ts : list (list (gmap Z A))) (l p : nat) : option (gmap Z A) := ts !! l ≫= (.!! p).
Definition block_at (ts : list (list (gmap Z A))) (l p : nat) (b : Z) : option A := plane_at ts l p ≫= (.!! b).

(** Tensors of the two sides have the same layers, with one plane or two. *)
Definition layer_ok (g c : list (gmap Z A)) (kv_dim : bool) : Prop :=
  length g = (if kv_dim then 2 else 1)%nat ∧ length c = (if kv_dim then 2 else 1)%nat.
Definition shapes_ok (g c : list (list (gmap Z A))) (kv_dims : list bool) : Prop := Forall3 layer_ok g c kv_dims.

Lemma swap_tensor_ok m s d kv_dim :
  layer_ok s d kv_dim → swap_tensor m (s, d, kv_dim) = Ok (zip_with (λ s d, swap_blocks s d m) s d).
Proof.
  unfold layer_ok. destruct kv_dim; intros [Hs Hd].
  - by destruct s as [|s0 [|s1 []]], d as [|d0 [|d1 []]].
  - by destruct s as [|s0 []], d as [|d0 []].
Qed.

Lemma swap_all_ok m ss ds kvs :
  shapes_ok ss ds kvs →
  ∃ ts, swap_all ss ds kvs m = Ok ts ∧ shapes_ok ss ts kvs ∧
    ∀ l p, plane_at ts l p = (s ← plane_at ss l p; d ← plane_at ds l p; Some (swap_blocks s d m)).
Proof.
  unfold swap_all. intros Hok.
  assert (∃ ts, map_res (swap_tensor m) (zip (zip ss ds) kvs) = Ok ts ∧ shapes_ok ss ts kvs ∧ length ts = length ds ∧
    ∀ l p, plane_at ts l p = (s ← plane_at ss l p; d ← plane_at ds l p; Some (swap_blocks s d m))) as (ts&->&Hts&Hl&Hp).
  { induction Hok as [|s d kv ss ds kvs Hsd Hok IH]; [by exists []; split_and!; [|constructor| |]|].
    destruct IH as (ts&Hr&Hts&Hl&Hp). cbn [zip zip_with map_res]. rewrite (swap_tensor_ok m s d kv Hsd), Ok_bind.
    fold (zip ss ds). fold (zip (zip ss ds) kvs). rewrite Hr, Ok_bind. eexists. split; [done|]. split_and!.
    - constructor; [|done]. destruct Hsd as [Hs Hd]. split; [done|]. rewrite length_zip_with, Hs, Hd. lia.
    - cbn. by rewrite Hl.
    - intros [|l] p; [|apply Hp]. unfold plane_at. cbn. rewrite lookup_zip_with. done. }
  rewrite Ok_bind. exists ts. rewrite Hl, drop_all, app_nil_r. by split_and!.
Qed.

(** The blocks that the ids stand for fit in int64. *)
Definition ids_ok (f : Z) (ids : list Z) : Prop := ∀ b, b ∈ ids → 0 ≤ b ∧ (b + 1) * f < 2 ^ 63.

Lemma block_mapping_ok (src dst : list Z) fs fd :
  0 < fs → 0 < fd → ids_ok fs src → ids_ok fd dst → len src * fs = len dst * fd - (- len src) mod fd →
  block_mapping np_empty src dst fs fd
    = Ok (zip (sub_blocks fs src) (drop (Z.to_nat ((- len src) mod fd)) (sub_blocks fd dst))).
Proof.
  intros Hfs Hfd Hs Hd Hlen. unfold block_mapping. rewrite (proj2 (Z.eqb_eq _ _) Hlen). cbn [py_assert]. rewrite Ok_bind.
  pose proof (Z.mod_pos_bound (- len src) fd Hfd). pose proof (len_nonneg src).
  rewrite (expand_ok src fs); [|lia|done|rewrite Hempty by nia; nia|by intros _]. rewrite drop_0, Ok_bind.
  rewrite (expand_ok dst fd); [done|lia|done|rewrite Hempty by nia; nia|].
  intros ->. change (len (@nil Z)) with 0 in *. nia.
Qed.

(** Two sides of the same shape have the same planes. *)
Lemma shapes_planes g c kvs l p :
  shapes_ok g c kvs →
  (is_Some (plane_at g l p) ↔ ∃ kv : bool, kvs !! l = Some kv ∧ (p < if kv then 2 else 1)%nat) ∧
  (is_Some (plane_at c l p) ↔ ∃ kv : bool, kvs !! l = Some kv ∧ (p < if kv then 2 else 1)%nat).
Proof.
  unfold plane_at. intros Hok. induction Hok as [|x y kv g c kvs [Hx Hy] _ IH] in l |- *.
  { cbn. split; (split; [by intros []|by intros (?&?&?)]). }
  destruct l as [|l]; [|apply IH]. cbn. rewrite !lookup_lt_is_Some, Hx, Hy.
  split; (split; [intros ?; by exists kv|by intros (?&[= ->]&?)]).
Qed.

Lemma copied ss ds ts kvs m :
  shapes_ok ss ds kvs → NoDup m.*2 →
  (∀ l p, plane_at ts l p = (s ← plane_at ss l p; d ← plane_at ds l p; Some (swap_blocks s d m))) →
  (∀ l p s d, (s, d) ∈ m → block_at ts l p d = block_at ss l p s) ∧
  (∀ l p d, d ∉ m.*2 → block_at ts l p d = block_at ds l p d).
Proof.
  intros Hok Hnd Hp. unfold block_at.
  assert (∀ l p, (plane_at ss l p = None ∧ plane_at ds l p = None) ∨
    ∃ s d, plane_at ss l p = Some s ∧ plane_at ds l p = Some d) as Hcases.
  { intros l p. destruct (shapes_planes ss ds kvs l p Hok) as [H1 H2]. rewrite <-H2 in H1. clear -H1.
    destruct (plane_at ss l p) as [s|], (plane_at ds l p) as [d|]; [right; by exists s, d| | |by left].
    - by destruct (proj1 H1 (ex_intro _ s eq_refl)).
    - by destruct (proj2 H1 (ex_intro _ d eq_refl)). }
  split.
  - intros l p s d Hin. rewrite Hp. destruct (Hcases l p) as [[-> ->]|(s0&d0&->&->)]; [done|]. cbn.
    by apply swap_blocks_spec.
  - intros l p d Hin. rewrite Hp. destruct (Hcases l p) as [[-> ->]|(s0&d0&->&->)]; [done|]. cbn.
    by apply swap_blocks_spec.
Qed.

Lemma record_transfer_frame j h g c :
  gpu_tensors (record_transfer j h g c) = g ∧ cpu_tensors (record_transfer j h g c) = c ∧
  factor (record_transfer j h g c) = factor h ∧
  kv_dim_before_num_blocks (record_transfer j h g c) = kv_dim_before_num_blocks h.
Proof. unfold record_transfer. by destruct (reverse (events_pool h)). Qed.

Lemma shapes_swap g c kvs : shapes_ok g c kvs → shapes_ok c g kvs.
Proof. induction 1 as [|x y kv g c kvs [Hx Hy] _ IH]; constructor; by split || done. Qed.

Lemma sub_blocks_1 ids : sub_blocks 1 ids = ids.
Proof. induction ids as [|b ids IH]; [done|]. rewrite sub_blocks_cons, IH, Z.mul_1_r. done. Qed.

(** The array of a transfer of whole offloaded blocks. *)
Lemma whole_mapping gpu cpu f :
  0 < f → ids_ok f cpu → ids_ok 1 gpu → len gpu = len cpu * f →
  block_mapping np_empty gpu cpu 1 f = Ok (zip gpu (sub_blocks f cpu)) ∧
  block_mapping np_empty cpu gpu f 1 = Ok (zip (sub_blocks f cpu) gpu) ∧ length gpu = length (sub_blocks f cpu).
Proof.
  intros Hf Hc Hg Hlen. assert ((- len gpu) mod f = 0) as Hskip.
  { rewrite Hlen, <-Z.mul_opp_l. apply Z.mod_mul. lia. }
  split_and!.
  - rewrite block_mapping_ok, Hskip by (done || lia). by rewrite drop_0, sub_blocks_1.
  - rewrite block_mapping_ok, Z.mod_1_r by (done || rewrite ?Z.mod_1_r; lia). by rewrite drop_0, sub_blocks_1.
  - pose proof (len_sub_blocks f cpu ltac:(lia)). unfold len in *. lia.
Qed.

End transfer.

(** Two layers, one with keys and values apart; a CPU block is two GPU blocks. *)
Definition ex_plane (n : Z) : gmap Z Z := list_to_map ((λ i, (i, n + i)) <$> py_range 0 6).
Definition ex_handler : CpuGpuOffloadingHandler Z :=
  match init 0 16 32 3 [([ex_plane 100; ex_plane 200], [2; 1234; 16; 8; 256]); ([ex_plane 300], [1234; 16; 8; 256])] with
  | Ok h => h
  | Err _ => mkHandler 0 [] [] 0 [] [] []
  end.
Definition ex_empty (n : Z) : list Z := py_repeat 7 n.

Lemma ex_ids_ok f ids : forallb (λ b, (0 <=? b) && ((b + 1) * f <? 2 ^ 63)) ids = true → ids_ok f ids.
Proof. rewrite forallb_forall. intros Hall b Hb%list_elem_of_In%Hall. lia. Qed.

