(* ===== verification/OffloadWorker.v ===== *)
(** * KV offloading: the worker side

    Models the dispatcher of transfers, [OffloadingWorker] of
    src/vllm/v1/kv_offload/worker/worker.py ([Dispatch]), and the worker side of the
    connector, [OffloadingConnectorWorker] of
    src/vllm/distributed/kv_transfer/kv_connector/v1/offloading_connector.py
    ([Work]): it runs every transfer as a job and tells the scheduler which
    requests have all their transfers behind them.

    Handlers are objects with an identity, so the dispatcher refers to them by
    their index in a list.  Where the code iterates over a set, the order is a
    parameter. *)
From S2P Require Import Prelude FreeQueue Offload OffloadConnector.

(** An [OffloadingHandler]: submitting may raise, and the handler may have changed
    even so. *)
Class OffloadingHandler (H : Type) := {
  handler_transfer_async : Z → TransferSpec → H → result bool * H;
  handler_get_finished : H → list (Z * bool) * H;
}.

(** ** The dispatcher *)

Module Dispatch.
Section dispatch.
Context {H : Type} `{OffloadingHandler H}.
Context (handler_order : gset nat → list nat).

Record OffloadingWorker := mkDispatch {
  objects : list H;
  handlers : gset nat;
  transfer_type_to_handler : gmap (string * string) nat;
}.

Definition register_handler (src_medium dst_medium : string) (handler : nat) (w : OffloadingWorker)
  : result OffloadingWorker :=
  _ ← py_assert (bool_decide (transfer_type_to_handler w !! (src_medium, dst_medium) = None));
  Ok (mkDispatch (objects w) ({[handler]} ∪ handlers w)
        (<[(src_medium, dst_medium) := handler]> (transfer_type_to_handler w))).

Definition transfer_async (job_id : Z) (spec : TransferSpec) (w : OffloadingWorker) : result (bool * OffloadingWorker) :=
  i ← of_option AssertionError (transfer_type_to_handler w !! (spec_medium spec.1, spec_medium spec.2));
  h ← of_option AssertionError (objects w !! i);
  let '(success, h) := handler_transfer_async job_id spec h in
  Ok (match success with Ok b => b | Err _ => false end,
      mkDispatch (<[i := h]> (objects w)) (handlers w) (transfer_type_to_handler w)).

Definition finished_of (i : nat) (w : OffloadingWorker) : list (Z * bool) * OffloadingWorker :=
  match objects w !! i with
  | Some h =>
      let '(res, h) := handler_get_finished h in
      (res, mkDispatch (<[i := h]> (objects w)) (handlers w) (transfer_type_to_handler w))
  | None => ([], w)
  end.
Definition get_finished (w : OffloadingWorker) : list (Z * bool) * OffloadingWorker :=
  foldl (λ '(finished, w) i, let '(res, w) := finished_of i w in (finished ++ res, w)) ([], w)
    (handler_order (handlers w)).
End dispatch.
Arguments OffloadingWorker : clear implicits.
End Dispatch.

(** ** The worker side of the connector *)

Module Work.
Section work.
Context {W : Type}.
(** [self.worker]. *)
Context (transfer_async : Z → TransferSpec → W → result (bool * W)) (worker_finished : W → list (Z * bool) * W).
Context (id_order : gset string → list string).

Record OffloadingConnectorWorker := mkWork {
  worker : W;
  job_counter : Z;
  jobs : gmap Z (string * bool);
  load_job : gmap string Z;
  store_jobs : gmap string (gset Z);
  finished_reqs_waiting_for_store : gset string;
}.
Implicit Types (w : OffloadingConnectorWorker).

Definition init (x : W) : OffloadingConnectorWorker := mkWork x 0 ∅ ∅ ∅ ∅.

(** [assert self.worker.transfer_async(job_id, transfer_spec)]. *)
Definition submit (job_id : Z) (spec : TransferSpec) w : result OffloadingConnectorWorker :=
  '(ok, x) ← transfer_async job_id spec (worker w);
  _ ← py_assert ok;
  Ok (mkWork x (job_counter w) (jobs w) (load_job w) (store_jobs w) (finished_reqs_waiting_for_store w)).

Definition start_load (req : string * TransferSpec) w : result OffloadingConnectorWorker :=
  let '(rid, spec) := req in
  let job_id := job_counter w in
  _ ← py_assert (bool_decide (load_job w !! rid = None));
  submit job_id spec
    (mkWork (worker w) (job_id + 1) (<[job_id := (rid, false)]> (jobs w)) (<[rid := job_id]> (load_job w))
       (store_jobs w) (finished_reqs_waiting_for_store w)).
Definition start_load_kv (meta : OffloadingConnectorMetadata) w : result OffloadingConnectorWorker :=
  for_each start_load (meta_to_load meta) w.

Definition start_store (req : string * TransferSpec) w : result OffloadingConnectorWorker :=
  let '(rid, spec) := req in
  let job_id := job_counter w in
  submit job_id spec
    (mkWork (worker w) (job_id + 1) (<[job_id := (rid, true)]> (jobs w)) (load_job w)
       (<[rid := {[job_id]} ∪ default ∅ (store_jobs w !! rid)]> (store_jobs w)) (finished_reqs_waiting_for_store w)).
Definition start_store_kv (meta : OffloadingConnectorMetadata) w : result OffloadingConnectorWorker :=
  for_each start_store (meta_to_store meta) w.

(** The two sets that [get_finished] returns, and the state. *)
Definition reports : Type := gset string * gset string * OffloadingConnectorWorker.

(** The first loop: one finished job. *)
Definition finish_job (job : Z * bool) (x : reports) : result reports :=
  let '(sending, recving, w) := x in
  let '(job_id, success) := job in
  _ ← py_assert success;
  '(rid, store) ← of_option KeyError (jobs w !! job_id);
  let js := delete job_id (jobs w) in
  if store : bool then
    let req_jobs := default ∅ (store_jobs w !! rid) in
    _ ← (if decide (job_id ∈ req_jobs) then Ok tt else Err KeyError);
    let req_jobs := req_jobs ∖ {[job_id]} in
    if decide (req_jobs = ∅ ∧ rid ∈ finished_reqs_waiting_for_store w) then
      Ok ({[rid]} ∪ sending, recving,
          mkWork (worker w) (job_counter w) js (load_job w) (delete rid (store_jobs w))
            (finished_reqs_waiting_for_store w ∖ {[rid]}))
    else
      Ok (sending, recving,
          mkWork (worker w) (job_counter w) js (load_job w) (<[rid := req_jobs]> (store_jobs w))
            (finished_reqs_waiting_for_store w))
  else
    req_job ← of_option KeyError (load_job w !! rid);
    _ ← py_assert (job_id =? req_job);
    Ok (sending, {[rid]} ∪ recving,
        mkWork (worker w) (job_counter w) js (delete rid (load_job w)) (store_jobs w)
          (finished_reqs_waiting_for_store w)).

(** The second loop: one finished request. *)
Definition finish_req (x : reports) (rid : string) : reports :=
  let '(sending, recving, w) := x in
  match store_jobs w !! rid with
  | None => (sending, recving, w)
  | Some pending =>
      if decide (pending = ∅) then
        ({[rid]} ∪ sending, recving,
         mkWork (worker w) (job_counter w) (jobs w) (load_job w) (delete rid (store_jobs w))
           (finished_reqs_waiting_for_store w))
      else
        (sending, recving,
         mkWork (worker w) (job_counter w) (jobs w) (load_job w) (store_jobs w)
           ({[rid]} ∪ finished_reqs_waiting_for_store w))
  end.

Definition get_finished (finished_req_ids : gset string) w : result reports :=
  let '(results, x) := worker_finished (worker w) in
  let w := mkWork x (job_counter w) (jobs w) (load_job w) (store_jobs w) (finished_reqs_waiting_for_store w) in
  r ← for_each finish_job results (∅, ∅, w);
  Ok (foldl finish_req r (id_order finished_req_ids)).
End work.
Arguments OffloadingConnectorWorker : clear implicits.
End Work.

(** ** The bookkeeping is exact *)

Import Work.

Section facts.
Context {W : Type} (transfer_async : Z → TransferSpec → W → result (bool * W)) (worker_finished : W → list (Z * bool) * W).
Context (id_order : gset string → list string) (Horder : ∀ X, id_order X ≡ₚ elements X).
Implicit Types (w : OffloadingConnectorWorker W) (r : string) (j : Z) (D : gset Z).
Abbreviation waiting := finished_reqs_waiting_for_store.

(** The tables agree: a request's entry holds its outstanding jobs, and a request
    that waits has one. *)
Record work_ok w : Prop := {
  wk_store r js : store_jobs w !! r = Some js → ∀ j, j ∈ js ↔ jobs w !! j = Some (r, true);
  wk_entry r j : jobs w !! j = Some (r, true) → is_Some (store_jobs w !! r);
  wk_load r j : load_job w !! r = Some j ↔ jobs w !! j = Some (r, false);
  wk_wait r : r ∈ waiting w → ∃ js, store_jobs w !! r = Some js ∧ js ≠ ∅;
  wk_fresh j : job_counter w ≤ j → jobs w !! j = None;
}.

Lemma work_init_ok x : work_ok (init x).
Proof. split; cbn; intros; rewrite ?lookup_empty in *; try done; set_solver. Qed.

Lemma submit_same j spec w w' :
  submit transfer_async j spec w = Ok w' →
  ∃ x, w' = mkWork x (job_counter w) (jobs w) (load_job w) (store_jobs w) (waiting w).
Proof. unfold submit. intros H. res_inv. by eexists. Qed.

Lemma start_load_ok req w w' : work_ok w → start_load transfer_async req w = Ok w' → work_ok w'.
Proof.
  intros Ho. unfold start_load. destruct req as [r spec]. intros H. res_inv.
  match goal with Hb : bool_decide _ = true |- _ => apply bool_decide_eq_true in Hb as Hnew end.
  match goal with Hs : submit _ _ _ _ = _ |- _ => apply submit_same in Hs as [x ->] end.
  pose proof (wk_fresh _ Ho (job_counter w) ltac:(lia)) as Hj. split; cbn.
  - intros r' js Hs j. rewrite (wk_store _ Ho _ _ Hs), lookup_insert_Some. split; [|by intros [[_ ?]|[_ ?]]].
    intros Hl. right. split; [|done]. by intros <-; rewrite Hj in Hl.
  - intros r' j [[_ ?]|[_ ?]]%lookup_insert_Some; [done|]. by eapply wk_entry.
  - intros r' j. rewrite !lookup_insert_Some, (wk_load _ Ho). split.
    + intros [[-> ->]|[Hr Hl]]; [by left|right]. split; [|done]. by intros <-; rewrite Hj in Hl.
    + intros [[-> [= ->]]|[Hne Hl]]; [by left|right]. split; [|done].
      intros ->. apply (wk_load _ Ho) in Hl. by rewrite Hnew in Hl.
  - apply (wk_wait _ Ho).
  - intros j Hle. rewrite lookup_insert_ne by lia. apply (wk_fresh _ Ho). lia.
Qed.

Lemma start_store_ok req w w' : work_ok w → start_store transfer_async req w = Ok w' → work_ok w'.
Proof.
  intros Ho. unfold start_store. destruct req as [r spec]. intros [x ->]%submit_same.
  pose proof (wk_fresh _ Ho (job_counter w) ltac:(lia)) as Hj. split; cbn.
  - intros r' js Hs j. rewrite lookup_insert_Some. destruct (decide (r' = r)) as [->|Hr].
    + rewrite lookup_insert_eq in Hs. injection Hs as <-. rewrite elem_of_union, elem_of_singleton.
      destruct (store_jobs w !! r) as [js|] eqn:Hold; simpl.
      * rewrite (wk_store _ Ho _ _ Hold). split; [intros [->|Hl]; [by left|]|by intros [[-> _]|[_ ?]]; [left|right]].
        right. split; [|done]. by intros <-; rewrite Hj in Hl.
      * split; [intros [->|?%not_elem_of_empty]; [by left|done]|]. intros [[-> _]|[_ Hl]]; [by left|].
        apply (wk_entry _ Ho) in Hl as [??]. by rewrite Hold in *.
    + rewrite lookup_insert_ne in Hs by done. rewrite (wk_store _ Ho _ _ Hs). split.
      * intros Hl. right. split; [|done]. by intros <-; rewrite Hj in Hl.
      * intros [[_ [= ?]]|[_ ?]]; [by subst|done].
  - intros r' j. rewrite lookup_insert_is_Some, lookup_insert_Some. intros [[_ [= ->]]|[_ Hl]]; [by left|].
    destruct (decide (r = r')); [by left|right]. split; [done|]. by eapply wk_entry.
  - intros r' j. rewrite (wk_load _ Ho), lookup_insert_Some. split; [|by intros [[_ ?]|[_ ?]]].
    intros Hl. right. split; [|done]. by intros <-; rewrite Hj in Hl.
  - intros r' Hr'. destruct (wk_wait _ Ho _ Hr') as (js&Hs&Hne). destruct (decide (r' = r)) as [->|Hr].
    + rewrite lookup_insert_eq. eexists. split; [done|]. set_solver.
    + rewrite lookup_insert_ne by done. by exists js.
  - intros j Hle. rewrite lookup_insert_ne by lia. apply (wk_fresh _ Ho). lia.
Qed.

Lemma for_each_keeps {A S} (f : A → S → result S) (P : S → Prop) l s s' :
  (∀ a s s', P s → f a s = Ok s' → P s') → P s → for_each f l s = Ok s' → P s'.
Proof.
  intros Hf. induction l as [|a l IH] in s |- *; simpl; intros HP H; [by injection H as <-|].
  res_inv. eapply IH; [|done]. by eapply Hf.
Qed.

(** ** One call of [get_finished] *)

(** What is left of the tables of [w] when the jobs [D] have finished, and which
    requests that makes ready to report. *)
Definition load_left w D r : option Z := j ← load_job w !! r; if decide (j ∈ D) then None else Some j.
Definition store_left w D r : option (gset Z) :=
  js ← store_jobs w !! r; if decide (r ∈ waiting w ∧ js ⊆ D) then None else Some (js ∖ D).
Definition loaded w D r : Prop := ∃ j, j ∈ D ∧ load_job w !! r = Some j.
Definition stored w D r : Prop := ∃ js, store_jobs w !! r = Some js ∧ js ⊆ D.

Record after w D (x : @reports W) : Prop := {
  af_jobs j : jobs x.2 !! j = if decide (j ∈ D) then None else jobs w !! j;
  af_load r : load_job x.2 !! r = load_left w D r;
  af_store r : store_jobs x.2 !! r = store_left w D r;
  af_wait r : r ∈ waiting x.2 ↔ r ∈ waiting w ∧ r ∉ x.1.1;
  af_sending r : r ∈ x.1.1 ↔ r ∈ waiting w ∧ stored w D r;
  af_recving r : r ∈ x.1.2 ↔ loaded w D r;
  af_counter : job_counter x.2 = job_counter w;
}.

Lemma not_stored_nothing w r : work_ok w → r ∈ waiting w → ¬ stored w ∅ r.
Proof.
  intros Ho Hw (js&Hs&Hsub). destruct (wk_wait _ Ho _ Hw) as (js'&Hs'&Hne). rewrite Hs in Hs'. simplify_eq. set_solver.
Qed.

Lemma after_nothing w y : work_ok w → after w ∅ (∅, ∅, mkWork y (job_counter w) (jobs w) (load_job w) (store_jobs w) (waiting w)).
Proof.
  intros Ho. split; cbn.
  - done.
  - intros r. unfold load_left. by destruct (load_job w !! r).
  - intros r. unfold store_left. destruct (store_jobs w !! r) as [js|] eqn:Hs; [|done]. cbn.
    rewrite decide_False; [by rewrite difference_empty_L|]. intros [Hw Hsub]. apply (not_stored_nothing w r Ho Hw). by exists js.
  - set_solver.
  - intros r. split; [by intros ?%not_elem_of_empty|]. intros [Hw Hst]. by destruct (not_stored_nothing w r Ho Hw).
  - intros r. split; [by intros ?%not_elem_of_empty|]. by intros (j&?%not_elem_of_empty&_).
  - done.
Qed.

Lemma diff_empty (X D : gset Z) : X ∖ D = ∅ ↔ X ⊆ D.
Proof.
  split; [|set_solver]. intros He j Hj. destruct (decide (j ∈ D)) as [?|Hn]; [done|].
  assert (j ∈ X ∖ D) as Hin by by apply elem_of_difference. rewrite He in Hin. by apply not_elem_of_empty in Hin.
Qed.

(** A job says nothing about the loads of a request that it does not load, nor about
    the stores of one that it does not store. *)
Lemma other_load w D j r :
  work_ok w → jobs w !! j ≠ Some (r, false) →
  load_left w ({[j]} ∪ D) r = load_left w D r ∧ (loaded w ({[j]} ∪ D) r ↔ loaded w D r).
Proof.
  intros Ho Hj. unfold load_left, loaded. destruct (load_job w !! r) as [j'|] eqn:Hl; [|by split; [|naive_solver]].
  assert (j' ≠ j) as Hne by (intros ->; apply Hj, (wk_load _ Ho), Hl). cbn. split; [apply decide_ext; set_solver|].
  split; intros (j0&Hin&[= <-]); exists j'; (split; [set_solver|done]).
Qed.
Lemma other_store w D j r :
  work_ok w → jobs w !! j ≠ Some (r, true) →
  store_left w ({[j]} ∪ D) r = store_left w D r ∧ (stored w ({[j]} ∪ D) r ↔ stored w D r).
Proof.
  intros Ho Hj. unfold store_left, stored. destruct (store_jobs w !! r) as [js|] eqn:Hs; [|by split; [|naive_solver]].
  assert (j ∉ js) as Hn by by rewrite (wk_store _ Ho _ _ Hs).
  assert (js ⊆ {[j]} ∪ D ↔ js ⊆ D) as Hsub.
  { split; [|set_solver]. intros Hsub j' Hj'. pose proof (Hsub j' Hj'). set_solver. }
  cbn. split.
  - assert (js ∖ ({[j]} ∪ D) = js ∖ D) as -> by set_solver. apply decide_ext. by rewrite Hsub.
  - split; intros (js'&[= <-]&?); exists js; (split; [done|]); tauto.
Qed.

Lemma after_jobs w D x j j' :
  after w D x → delete j (jobs x.2) !! j' = if decide (j' ∈ {[j]} ∪ D) then None else jobs w !! j'.
Proof.
  intros Ha. destruct (decide (j' = j)) as [->|Hne]; [by rewrite lookup_delete_eq, decide_True by set_solver|].
  rewrite lookup_delete_ne, (af_jobs _ _ _ Ha) by done. apply decide_ext. set_solver.
Qed.

(** One more load. *)
Lemma finish_load_ok w D x j r :
  work_ok w → after w D x → j ∉ D → jobs w !! j = Some (r, false) →
  ∃ x', finish_job (j, true) x = Ok x' ∧ after w ({[j]} ∪ D) x'.
Proof.
  intros Ho Ha Hj Hjob. destruct x as [[sending recving] w1]. pose proof (λ j', after_jobs w D _ j j' Ha) as Hjs'.
  destruct Ha as [Hjs Hl Hst Hw Hse Hre Hco]. cbn in *. pose proof (proj2 (wk_load _ Ho r j) Hjob) as Hload.
  assert (load_job w1 !! r = Some j) as Hl1 by (rewrite Hl; unfold load_left; rewrite Hload; cbn; by rewrite decide_False).
  eexists. split.
  { unfold finish_job. cbv beta iota zeta. cbn [py_assert]. rewrite ?Ok_bind, Hjs, decide_False, Hjob by done.
    cbn [of_option]. rewrite Ok_bind. cbv beta iota. rewrite Hl1. cbn [of_option]. rewrite Ok_bind, Z.eqb_refl. done. }
  assert (∀ r', jobs w !! j ≠ Some (r', true)) as Hns by (intros r'; by rewrite Hjob).
  split; cbn; try done.
  - intros r'. destruct (decide (r' = r)) as [->|Hne].
    + rewrite lookup_delete_eq. unfold load_left. rewrite Hload. cbn. by rewrite decide_True by set_solver.
    + rewrite lookup_delete_ne, Hl by done. symmetry. apply other_load; [done|]. rewrite Hjob. by intros [= ->].
  - intros r'. rewrite Hst. symmetry. by apply other_store.
  - intros r'. by rewrite Hse, (proj2 (other_store w D j r' Ho (Hns r'))).
  - intros r'. rewrite elem_of_union, elem_of_singleton, Hre. destruct (decide (r' = r)) as [->|Hne].
    + split; [|by left]. intros _. exists j. split; [set_solver|done].
    + rewrite (proj2 (other_load w D j r' Ho ltac:(rewrite Hjob; by intros [= ->]))). tauto.
Qed.

(** One more store. *)
Lemma finish_store_ok w D x j r :
  work_ok w → after w D x → j ∉ D → jobs w !! j = Some (r, true) →
  ∃ x', finish_job (j, true) x = Ok x' ∧ after w ({[j]} ∪ D) x'.
Proof.
  intros Ho Ha Hj Hjob. destruct x as [[sending recving] w1]. pose proof (λ j', after_jobs w D _ j j' Ha) as Hjs'.
  destruct Ha as [Hjs Hl Hst Hw Hse Hre Hco]. cbn in *. destruct (wk_entry _ Ho _ _ Hjob) as [js Hs].
  pose proof (proj2 (wk_store _ Ho _ _ Hs j) Hjob) as Hin. assert (¬ stored w D r) as Hnot.
  { intros (js'&Hs'&Hsub). rewrite Hs in Hs'. simplify_eq. set_solver. }
  assert (store_jobs w1 !! r = Some (js ∖ D)) as Hs1.
  { rewrite Hst. unfold store_left. rewrite Hs. cbn. rewrite decide_False; [done|]. intros [_ Hsub]. apply Hnot. by exists js. }
  assert (∀ r', jobs w !! j ≠ Some (r', false)) as Hnl by (intros r'; by rewrite Hjob).
  assert (∀ r', r' ≠ r → jobs w !! j ≠ Some (r', true)) as Hne' by (intros r' Hne; rewrite Hjob; by intros [= ->]).
  assert ((js ∖ D ∖ {[j]} = ∅ ∧ r ∈ waiting w1) ↔ r ∈ waiting w ∧ js ⊆ {[j]} ∪ D) as Hcond.
  { rewrite Hw, Hse. replace (js ∖ D ∖ {[j]}) with (js ∖ ({[j]} ∪ D)) by set_solver. rewrite diff_empty. tauto. }
  assert (stored w ({[j]} ∪ D) r ↔ js ⊆ {[j]} ∪ D) as Hstored.
  { split; [|intros; by exists js]. intros (js'&Hs'&Hsub). rewrite Hs in Hs'. by simplify_eq. }
  assert (store_left w ({[j]} ∪ D) r = if decide (r ∈ waiting w ∧ js ⊆ {[j]} ∪ D) then None else Some (js ∖ D ∖ {[j]})) as Hleft.
  { unfold store_left. rewrite Hs. cbn. by replace (js ∖ D ∖ {[j]}) with (js ∖ ({[j]} ∪ D)) by set_solver. }
  unfold finish_job. cbv beta iota zeta. cbn [py_assert]. rewrite ?Ok_bind, Hjs, decide_False, Hjob by done.
  cbn [of_option]. rewrite Ok_bind. cbv beta iota. rewrite Hs1. cbn [default from_option id].
  rewrite (decide_True (P := j ∈ js ∖ D)), ?Ok_bind by (apply elem_of_difference; by split).
  rewrite (decide_ext _ _ _ _ Hcond).
  destruct (decide (r ∈ waiting w ∧ js ⊆ {[j]} ∪ D)) as [[Hwait Hsub]|Hno]; (eexists; split; [done|]; split; cbn; try done).
  - intros r'. rewrite Hl. symmetry. by apply other_load.
  - intros r'. destruct (decide (r' = r)) as [->|Hne]; [by rewrite lookup_delete_eq|].
    rewrite lookup_delete_ne, Hst by done. symmetry. apply other_store; auto.
  - intros r'. rewrite elem_of_difference, Hw, elem_of_union, elem_of_singleton. tauto.
  - intros r'. rewrite elem_of_union, elem_of_singleton, Hse. destruct (decide (r' = r)) as [->|Hne]; [tauto|].
    rewrite (proj2 (other_store w D j r' Ho (Hne' r' Hne))). tauto.
  - intros r'. by rewrite Hre, (proj2 (other_load w D j r' Ho (Hnl r'))).
  - intros r'. rewrite Hl. symmetry. by apply other_load.
  - intros r'. destruct (decide (r' = r)) as [->|Hne]; [by rewrite lookup_insert_eq|].
    rewrite lookup_insert_ne, Hst by done. symmetry. apply other_store; auto.
  - intros r'. rewrite Hse. destruct (decide (r' = r)) as [->|Hne]; [tauto|].
    by rewrite (proj2 (other_store w D j r' Ho (Hne' r' Hne))).
  - intros r'. by rewrite Hre, (proj2 (other_load w D j r' Ho (Hnl r'))).
Qed.


Lemma finish_jobs_ok res w D x :
  work_ok w → after w D x → NoDup res.*1 →
  (∀ jb, jb ∈ res → jb.2 = true ∧ jb.1 ∉ D ∧ is_Some (jobs w !! jb.1)) →
  ∃ x', for_each finish_job res x = Ok x' ∧ after w (list_to_set res.*1 ∪ D) x'.
Proof.
  intros Ho. induction res as [|[j ok] res IH] in D, x |- *; cbn [for_each fmap list_fmap fst]; intros Ha Hnd Hres.
  { exists x. split; [done|]. by replace (list_to_set [] ∪ D) with D by set_solver. }
  apply NoDup_cons in Hnd as [Hn Hnd]. destruct (Hres (j, ok) ltac:(by left)) as (Hok&HD&[[r store] Hjob]).
  cbn in Hok, HD, Hjob. subst ok.
  assert (∃ x', finish_job (j, true) x = Ok x' ∧ after w ({[j]} ∪ D) x') as (x1&->&Ha1).
  { destruct store; [by eapply finish_store_ok|by eapply finish_load_ok]. }
  rewrite Ok_bind. destruct (IH _ x1 Ha1 Hnd) as (x2&->&Ha2).
  - intros [j' ok'] Hin. destruct (Hres (j', ok') ltac:(by right)) as (?&?&?). split_and!; [done| |done].
    cbn in *. rewrite elem_of_union, elem_of_singleton. intros [->|?]; [|done]. apply Hn, list_elem_of_fmap. by exists (j, ok').
  - exists x2. split; [done|]. cbn.
    by replace ({[j]} ∪ list_to_set res.*1 ∪ D) with (list_to_set res.*1 ∪ ({[j]} ∪ D)) by set_solver.
Qed.

(** The second loop: requests without outstanding stores are reported, those with some
    wait. *)
Record closed (l : list string) (x x' : @reports W) : Prop := {
  cl_jobs : jobs x'.2 = jobs x.2;
  cl_load : load_job x'.2 = load_job x.2;
  cl_counter : job_counter x'.2 = job_counter x.2;
  cl_recving : x'.1.2 = x.1.2;
  cl_sending r : r ∈ x'.1.1 ↔ r ∈ x.1.1 ∨ r ∈ l ∧ store_jobs x.2 !! r = Some ∅;
  cl_store r : store_jobs x'.2 !! r = if decide (r ∈ l ∧ store_jobs x.2 !! r = Some ∅) then None else store_jobs x.2 !! r;
  cl_wait r : r ∈ waiting x'.2 ↔ r ∈ waiting x.2 ∨ r ∈ l ∧ ∃ js, store_jobs x.2 !! r = Some js ∧ js ≠ ∅;
}.

Lemma finish_req_ok r x : closed [r] x (finish_req x r).
Proof.
  destruct x as [[sending recving] w]. unfold finish_req.
  destruct (store_jobs w !! r) as [js|] eqn:Hs; [destruct (decide (js = ∅)) as [->|Hne]|];
    (split; cbn; [done..|intros r'|intros r'|intros r']; destruct (decide (r' = r)) as [->|];
     rewrite ?lookup_delete_eq, ?lookup_delete_ne, ?elem_of_union, ?elem_of_singleton by done;
     try (case_decide as Hd; rewrite list_elem_of_singleton in Hd);
     try (rewrite list_elem_of_singleton)); naive_solver.
Qed.

Lemma finish_reqs_ok l x : NoDup l → closed l x (foldl finish_req x l).
Proof.
  induction l as [|r l IH] in x |- *; intros Hnd.
  { split; cbn; [done..| | |]; intros r; [|rewrite decide_False; [done|]|]; rewrite elem_of_nil; tauto. }
  apply NoDup_cons in Hnd as [Hn Hnd]. cbn. destruct (finish_req_ok r x) as [H1 H2 H3 H4 H5 H6 H7].
  destruct (IH (finish_req x r) Hnd) as [K1 K2 K3 K4 K5 K6 K7].
  assert (∀ r', r' ∈ l → store_jobs (finish_req x r).2 !! r' = store_jobs x.2 !! r') as Hl.
  { intros r' Hr'. rewrite H6, decide_False; [done|]. intros [->%list_elem_of_singleton _]. done. }
  split; [congruence..| | |]; intros r'.
  - rewrite K5, H5, list_elem_of_singleton, elem_of_cons. destruct (decide (r' ∈ l)) as [Hin|]; [rewrite (Hl r' Hin)|]; naive_solver.
  - rewrite K6. destruct (decide (r' ∈ l)) as [Hin|Hout].
    + rewrite (Hl r' Hin). apply decide_ext. rewrite elem_of_cons. tauto.
    + rewrite decide_False by by intros []. rewrite H6. apply decide_ext. rewrite list_elem_of_singleton, elem_of_cons. tauto.
  - rewrite K7, H7, list_elem_of_singleton, elem_of_cons. destruct (decide (r' ∈ l)) as [Hin|]; [rewrite (Hl r' Hin)|]; naive_solver.
Qed.

(** The jobs that the handlers say have finished: distinct, successful and
    outstanding, as the interface promises. *)
Definition results_of w : list (Z * bool) := (worker_finished (worker w)).1.
Definition finished_jobs w : gset Z := list_to_set (results_of w).*1.
Definition results_ok w : Prop :=
  NoDup (results_of w).*1 ∧ Forall (λ jb, jb.2 = true ∧ is_Some (jobs w !! jb.1)) (results_of w).

Lemma get_finished_ok fin w :
  work_ok w → results_ok w →
  ∃ x y, get_finished worker_finished id_order fin w = Ok y ∧ after w (finished_jobs w) x ∧ closed (id_order fin) x y.
Proof.
  intros Ho [Hnd Hres]. unfold get_finished, finished_jobs, results_of in *. destruct (worker_finished (worker w)) as [res v].
  cbn [fst snd] in *. rewrite Forall_forall in Hres.
  destruct (finish_jobs_ok res w ∅ _ Ho (after_nothing w v Ho) Hnd) as (x&->&Ha).
  { intros jb Hin. destruct (Hres jb Hin). split_and!; [done|apply not_elem_of_empty|done]. }
  rewrite Ok_bind. eexists x, _. split; [done|]. split; [by rewrite union_empty_r_L in Ha|].
  apply finish_reqs_ok. rewrite Horder. apply NoDup_elements.
Qed.

Lemma elem_of_order r fin : r ∈ id_order fin ↔ r ∈ fin.
Proof. rewrite Horder. apply elem_of_elements. Qed.

(** The entry of a request that finished stores leave empty. *)
Lemma store_left_empty w D r :
  store_left w D r = Some ∅ ↔ r ∉ waiting w ∧ stored w D r.
Proof.
  unfold store_left, stored. destruct (store_jobs w !! r) as [js|]; cbn; [|naive_solver]. pose proof (diff_empty js D) as Hsub.
  case_decide as Hd; split.
  - done.
  - intros [Hw _]. by destruct Hd.
  - intros [= He]. apply Hsub in He. split; [tauto|by exists js].
  - intros (Hw&js'&[= <-]&Hs). by rewrite (proj2 Hsub Hs).
Qed.

Lemma store_left_some w D r :
  is_Some (store_jobs w !! r) → (∃ js, store_left w D r = Some js ∧ js ≠ ∅) ↔ ¬ stored w D r.
Proof.
  intros [js Hs]. unfold store_left, stored. rewrite Hs. cbn. split.
  - intros (js'&Hjs'&Hne) (js0&[= <-]&Hsub). case_decide; [done|]. injection Hjs' as <-. by apply Hne, diff_empty.
  - intros Hn. assert (¬ js ⊆ D) as Hsub by (intros ?; apply Hn; by exists js). rewrite decide_False by tauto.
    exists (js ∖ D). by rewrite diff_empty.
Qed.

(** ** Reachable states *)

Inductive reachable (x : W) : OffloadingConnectorWorker W → Prop :=
  | r_init : reachable x (init x)
  | r_load w meta w' : reachable x w → start_load_kv transfer_async meta w = Ok w' → reachable x w'
  | r_store w meta w' : reachable x w → start_store_kv transfer_async meta w = Ok w' → reachable x w'
  | r_finished w fin sending recving w' :
      reachable x w → results_ok w →
      get_finished worker_finished id_order fin w = Ok (sending, recving, w') → reachable x w'.

Lemma finished_keeps fin w y :
  work_ok w → results_ok w → get_finished worker_finished id_order fin w = Ok y → work_ok y.2.
Proof.
  intros Ho Hres Hy. destruct (get_finished_ok fin w Ho Hres) as (x&y'&Hy'&Ha&Hc). rewrite Hy in Hy'. injection Hy' as <-.
  set (D := finished_jobs w) in *. destruct Ha as [Hjs Hl Hst Hw Hse Hre Hco]. destruct Hc as [K1 K2 K3 K4 K5 K6 K7].
  assert (∀ r js, store_jobs y.2 !! r = Some js → ∃ js0, store_jobs w !! r = Some js0 ∧ js = js0 ∖ D) as Hsome.
  { intros r js. rewrite K6, Hst. case_decide; [done|]. unfold store_left. destruct (store_jobs w !! r) as [js0|]; [|done].
    cbn. case_decide; [done|]. intros [= <-]. by exists js0. }
  split.
  - intros r js Hs j. destruct (Hsome _ _ Hs) as (js0&Hs0&->). rewrite K1, Hjs, elem_of_difference, (wk_store _ Ho _ _ Hs0).
    case_decide; naive_solver.
  - intros r j. rewrite K1, Hjs. case_decide as Hj; [done|]. intros Hjob. destruct (wk_entry _ Ho _ _ Hjob) as [js0 Hs0].
    assert (j ∈ js0 ∖ D) as Hin by by rewrite elem_of_difference, (wk_store _ Ho _ _ Hs0).
    rewrite K6, Hst. unfold store_left. rewrite Hs0. cbn. rewrite (decide_False (P := r ∈ waiting w ∧ _)) by set_solver.
    rewrite decide_False by (intros [_ [= He]]; set_solver). by eexists.
  - intros r j. rewrite K1, K2, Hjs, Hl. unfold load_left. destruct (load_job w !! r) as [j0|] eqn:Hlj; cbn.
    + pose proof (proj1 (wk_load _ Ho r j0) Hlj) as Hj0. repeat case_decide; split; try done.
      * intros Hjob. apply (wk_load _ Ho) in Hjob. congruence.
      * by intros [= ->].
      * intros [= ->]. done.
      * intros Hjob. apply (wk_load _ Ho) in Hjob. congruence.
    + split; [done|]. case_decide; [done|]. intros Hjob. apply (wk_load _ Ho) in Hjob. congruence.
  - intros r. rewrite K7, Hw, K6, Hst, Hse. intros [[Hwait Hn]|[Hin (js&Hs&Hne)]].
    + destruct (wk_wait _ Ho _ Hwait) as (js&Hs&Hne). assert (¬ js ⊆ D) as Hsub by (intros Hsub; apply Hn; split; [done|by exists js]).
      exists (js ∖ D). rewrite decide_False.
      * unfold store_left. rewrite Hs. cbn. rewrite decide_False by tauto. split; [done|by rewrite diff_empty].
      * intros [_ [? _]%store_left_empty]. done.
    + exists js. rewrite decide_False; [done|]. rewrite Hs. by intros [_ [= ?]].
  - intros j. rewrite K1, K3, Hjs, Hco. intros Hle. by rewrite (wk_fresh _ Ho j Hle); case_decide.
Qed.

Lemma reachable_work_ok x w : reachable x w → work_ok w.
Proof.
  induction 1 as [|w meta w' _ IH Hr|w meta w' _ IH Hr|w fin sending recving w' _ IH Hres Hr].
  - apply work_init_ok.
  - eapply (for_each_keeps _ work_ok); [|exact IH|exact Hr]. intros req s s'. apply start_load_ok.
  - eapply (for_each_keeps _ work_ok); [|exact IH|exact Hr]. intros req s s'. apply start_store_ok.
  - apply (finished_keeps fin w (sending, recving, w') IH Hres Hr).
Qed.

(** C15. In every state that the worker side of the connector can reach, a call of
    [get_finished] answers exactly.  It reports a request as saved when the scheduler has
    finished it, now or before, it has stored something and none of its store jobs is
    outstanding any more; as loaded when its load job has just finished.  Reported requests
    are forgotten, so that none is reported twice, finished requests with outstanding
    stores are remembered until these end, and no assertion or lookup fails. *)
Theorem get_finished_exact x w fin :
  reachable x w → results_ok w →
  ∃ sending recving w', get_finished worker_finished id_order fin w = Ok (sending, recving, w') ∧
    (∀ r, r ∈ sending ↔ (r ∈ waiting w ∨ r ∈ fin) ∧ stored w (finished_jobs w) r) ∧
    (∀ r, r ∈ recving ↔ loaded w (finished_jobs w) r) ∧
    (∀ j, jobs w' !! j = if decide (j ∈ finished_jobs w) then None else jobs w !! j) ∧
    (∀ r, store_jobs w' !! r = if decide (r ∈ sending) then None else (.∖ finished_jobs w) <$> store_jobs w !! r) ∧
    (∀ r, r ∈ waiting w' ↔ r ∉ sending ∧ (r ∈ waiting w ∨ r ∈ fin ∧ is_Some (store_jobs w !! r))).
Proof.
  intros Hr%reachable_work_ok Hres. destruct (get_finished_ok fin w Hr Hres) as (y&[[sending recving] w']&Hg&Ha&Hc).
  exists sending, recving, w'. split; [done|]. set (D := finished_jobs w) in *.
  destruct Ha as [Hjs Hl Hst Hw Hse Hre Hco]. destruct Hc as [K1 K2 K3 K4 K5 K6 K7]. cbn in *.
  assert (∀ r, r ∈ sending ↔ (r ∈ waiting w ∨ r ∈ fin) ∧ stored w D r) as Hs.
  { intros r. rewrite K5, Hse, Hst, store_left_empty, elem_of_order. destruct (decide (r ∈ waiting w)); tauto. }
  split_and!; [done|by rewrite K4|by rewrite K1| |].
  - intros r. rewrite K6, Hst. destruct (decide (r ∈ sending)) as [Hin|Hout].
    + case_decide as Hd; [done|]. apply Hs in Hin as [Hin Hsr]. rewrite store_left_empty, elem_of_order in Hd.
      pose proof Hsr as (js&Hjs'&Hsub). unfold store_left. rewrite Hjs'. cbn. rewrite decide_True; [done|].
      split; [|done]. destruct (decide (r ∈ waiting w)); tauto.
    + rewrite Hs in Hout. rewrite decide_False by (rewrite store_left_empty, elem_of_order; tauto).
      unfold store_left. destruct (store_jobs w !! r) as [js|] eqn:Hjs'; [|done]. cbn. rewrite decide_False; [done|].
      intros [Hwr Hsub]. apply Hout. split; [by left|by exists js].
  - intros r. rewrite K7, Hw, Hs, Hse, Hst, elem_of_order.
    destruct (decide (is_Some (store_jobs w !! r))) as [Hsome|Hnone]; [rewrite (store_left_some w D r Hsome); tauto|].
    assert (store_left w D r = None) as -> by (unfold store_left; destruct (store_jobs w !! r); [|done]; by destruct Hnone).
    assert (r ∉ waiting w) as Hnw; [|naive_solver].
    intros Hwr. destruct (wk_wait _ Hr _ Hwr) as (js&Hs'&_). apply Hnone. by exists js.
Qed.
End facts.

(** A worker that finishes one job per call, in order. *)
Definition ex_transfer (j : Z) (_ : TransferSpec) (l : list Z) : result (bool * list Z) := Ok (true, l ++ [j]).
Definition ex_finished (l : list Z) : list (Z * bool) * list Z := ((λ j, (j, true)) <$> take 1 l, drop 1 l).
Definition ex_order (X : gset string) : list string := elements X.
Definition ex_spec : TransferSpec := (GPULoadStoreSpec [4], CPULoadStoreSpec [0]).
Definition ex_meta : OffloadingConnectorMetadata := mkMeta [] [("a"%string, ex_spec); ("b"%string, ex_spec)].
Definition ex_worker : OffloadingConnectorWorker (list Z) :=
  match start_store_kv ex_transfer ex_meta (init []) with Ok w => w | Err _ => init [] end.

Example get_finished_exact_witness :
  ∃ sending recving w', get_finished ex_finished ex_order {["a"%string; "b"%string]} ex_worker = Ok (sending, recving, w') ∧
    "a"%string ∈ sending ∧ "b"%string ∉ sending.
Proof.
  assert (reachable ex_transfer ex_finished ex_order [] ex_worker) as Hr.
  { eapply (r_store _ _ _ _ (init []) ex_meta); [apply r_init|reflexivity]. }
  assert (results_ok ex_finished ex_worker) as Hres.
  { apply (bool_decide_unpack _). vm_compute. exact I. }
  destruct (get_finished_exact ex_transfer ex_finished ex_order (λ X, reflexivity _) [] ex_worker {["a"%string; "b"%string]} Hr Hres)
    as (sending&recving&w'&Hg&Hs&_).
  exists sending, recving, w'. split; [exact Hg|]. split.
  - apply Hs. split; [right; set_solver|]. exists {[0]}. split; [reflexivity|]. intros j ->%elem_of_singleton.
    apply (bool_decide_unpack _). vm_compute. exact I.
  - intros Hb. apply Hs in Hb as [_ (js&Hjs&Hsub)]. assert (store_jobs ex_worker !! "b"%string = Some {[1]}) as Hb by reflexivity.
    rewrite Hb in Hjs. injection Hjs as <-. specialize (Hsub 1 (proj2 (elem_of_singleton 1 1) eq_refl)).
    revert Hsub. apply (bool_decide_unpack _). vm_compute. exact I.
Defined.
