(* ===== verification/MmaCore.v ===== *)
(** * MMA emulation: the accumulators

    Models src/csrc/quantization/mma_emu/core/: splitting a binary32 number into
    an operand (fp32_utils.cuh), converting the fixed-point sum back to binary32
    with truncation, the two-pass accumulation of FDA and CoFDA, the decoupled
    variant (accumulator.cuh), and the sum of a GDFS group (gdfs_group.cuh).

    A [float] is the number of its 32 bits.  A template parameter is an argument.
    Integers of a fixed width are [Z] with the wrap-around of the type written out
    ([u32], [u64], [i64]); exponents are [int]s of at most a few hundred and are
    left unwrapped.  The field [is_subnormal] of a product, which nothing reads,
    is left out. *)
From S2P Require Import Prelude.

(** [__clzll]. *)
Definition clzll (x : Z) : Z := if x =? 0 then 64 else 63 - Z.log2 x.

(** ** Binary32 *)

Definition SIGN_MASK : Z := 0x80000000.
Definition ABS_MASK : Z := 0x7FFFFFFF.
Definition MANTISSA_MASK : Z := 0x007FFFFF.
Definition IMPLICIT_BIT : Z := 0x00800000.
Definition POS_INF_BITS : Z := 0x7F800000.
Definition NEG_INF_BITS : Z := 0xFF800000.
Definition QNAN_BITS : Z := 0x7FFFFFFF.
Definition MANTISSA_BITS : Z := 23.
Definition EXPONENT_BIAS : Z := 127.
Definition MIN_NORMAL_EXP : Z := -126.
Definition MAX_BIASED_EXP : Z := 255.

(** [val == 0.0f] holds for both zeros. *)
Definition float_is_zero (val : Z) : bool := Z.land val ABS_MASK =? 0.

(** ** Operands *)

Record Operand := mkOperand {
  op_sign : Z;
  op_exponent : Z;
  op_significand : Z;
  op_is_zero : bool;
  op_is_nan : bool;
  op_is_inf : bool;
}.

Record Product := mkProduct {
  pr_sign : Z;
  pr_exponent : Z;
  pr_significand : Z;
  pr_is_zero : bool;
  pr_is_nan : bool;
  pr_is_inf : bool;
}.

(** [fp32_to_operand<F>].  The fields that the source leaves unset, for a
    significand that is zero although the value is not, are 0 here; that branch
    is never taken. *)
Definition fp32_to_operand (F val : Z) : Operand :=
  if float_is_zero val then mkOperand 1 0 0 true false false
  else
    let sign := if negb (Z.land val SIGN_MASK =? 0) then -1 else 1 in
    let abs_bits := Z.land val ABS_MASK in
    let biased_exp := Z.land (Z.shiftr abs_bits MANTISSA_BITS) 0xFF in
    let mantissa := Z.land abs_bits MANTISSA_MASK in
    if biased_exp =? MAX_BIASED_EXP then
      mkOperand sign 0 0 false (negb (mantissa =? 0)) (mantissa =? 0)
    else
      let subnormal := biased_exp =? 0 in
      if subnormal && (mantissa =? 0) then mkOperand sign 0 0 true false false
      else
        let exponent := if subnormal then MIN_NORMAL_EXP else biased_exp - EXPONENT_BIAS in
        let fp32_sig := if subnormal then mantissa else Z.lor IMPLICIT_BIT mantissa in
        let shift_amount := MANTISSA_BITS - F in
        let significand := if 0 <=? shift_amount then i64 (Z.shiftr fp32_sig shift_amount)
                           else i64 (u64 (Z.shiftl fp32_sig (- shift_amount))) in
        mkOperand sign exponent significand false false false.

(** ** Fixed point to binary32 *)

(** [FINAL_TRUNC_MASK]. *)
Definition final_trunc_mask (F : Z) : Z :=
  let effective_trunc_point := if F <? MANTISSA_BITS then F else MANTISSA_BITS in
  let final_trunc_bits := MANTISSA_BITS - effective_trunc_point in
  Z.land MANTISSA_MASK (u32 (Z.lnot (u32 (Z.shiftl 1 final_trunc_bits) - 1))).

Definition fixed_to_fp32 (F mantissa_sum max_exp : Z) : Z :=
  if mantissa_sum =? 0 then 0
  else
    let result_sign := if mantissa_sum <? 0 then SIGN_MASK else 0 in
    let abs_mantissa := if mantissa_sum <? 0 then u64 (i64 (- mantissa_sum)) else u64 mantissa_sum in
    let leading_one_pos := 63 - clzll abs_mantissa in
    let final_exp := leading_one_pos + max_exp - F in
    let biased_exp := final_exp + EXPONENT_BIAS in
    if biased_exp <=? 0 then
      let shift := leading_one_pos - MANTISSA_BITS + (1 - biased_exp) in
      let subnormal_mantissa :=
        if 64 <=? shift then 0
        else if 0 <=? shift then u32 (Z.shiftr abs_mantissa shift)
        else u32 (u64 (Z.shiftl abs_mantissa (- shift))) in
      let subnormal_mantissa := Z.land subnormal_mantissa (final_trunc_mask F) in
      if subnormal_mantissa =? 0 then 0 else Z.lor result_sign subnormal_mantissa
    else if MAX_BIASED_EXP <=? biased_exp then Z.lor result_sign POS_INF_BITS
    else
      let normalized_mantissa :=
        if MANTISSA_BITS <=? leading_one_pos
        then u32 (Z.shiftr abs_mantissa (leading_one_pos - MANTISSA_BITS))
        else u32 (u64 (Z.shiftl abs_mantissa (MANTISSA_BITS - leading_one_pos))) in
      let normalized_mantissa := Z.land normalized_mantissa (final_trunc_mask F) in
      Z.lor (Z.lor result_sign (u32 (Z.shiftl biased_exp MANTISSA_BITS))) normalized_mantissa.

(** ** The two-pass accumulation *)

(** The variables of the first pass. *)
Record Scan := mkScan {
  any_nan : bool;
  any_inf : bool;
  pos_inf_count : Z;
  neg_inf_count : Z;
  sc_max_exp : Z;
  non_zero_count : Z;
  any_zero : bool;
}.

Definition scan_start (c : Operand) : Scan :=
  let finite := negb (op_is_zero c) && negb (op_is_nan c) && negb (op_is_inf c) in
  mkScan false (op_is_inf c)
    (if op_is_inf c && (0 <? op_sign c) then 1 else 0)
    (if op_is_inf c && negb (0 <? op_sign c) then 1 else 0)
    (if finite then op_exponent c else -9999)
    (if finite then 1 else 0)
    (op_is_zero c).

Definition scan_operand (s : Scan) (o : Operand) : Scan :=
  let finite := negb (op_is_zero o) && negb (op_is_nan o) && negb (op_is_inf o) in
  mkScan (any_nan s || op_is_nan o) (any_inf s || op_is_inf o)
    (pos_inf_count s + if op_is_inf o && (0 <? op_sign o) then 1 else 0)
    (neg_inf_count s + if op_is_inf o && negb (0 <? op_sign o) then 1 else 0)
    (if finite then Z.max (sc_max_exp s) (op_exponent o) else sc_max_exp s)
    (non_zero_count s + if finite then 1 else 0)
    (any_zero s || op_is_zero o).

(** A term of the second pass, aligned to the largest exponent. *)
Definition aligned (max_exp exponent significand : Z) : Z :=
  let exp_diff := max_exp - exponent in
  if 64 <=? exp_diff then 0 else Z.shiftr significand exp_diff.
Definition add_aligned (max_exp : Z) (sum : Z) (o : Operand) : Z :=
  if op_is_zero o || op_is_nan o || op_is_inf o then sum
  else i64 (sum + i64 (op_sign o * aligned max_exp (op_exponent o) (op_significand o))).

(** What the first pass decides: a special result, or the largest exponent. *)
Definition scan_result (E_ZERO : Z) (s : Scan) : Z + Z :=
  if any_nan s then inl QNAN_BITS
  else if any_inf s then
    inl (if (0 <? pos_inf_count s) && (0 <? neg_inf_count s) then QNAN_BITS
         else if 0 <? pos_inf_count s then POS_INF_BITS else NEG_INF_BITS)
  else if non_zero_count s =? 0 then inl 0
  else inr (if any_zero s then Z.max (sc_max_exp s) E_ZERO else sc_max_exp s).

(** [chunked_accumulate<F, N, E_ZERO>]. *)
Definition chunked_accumulate (F E_ZERO : Z) (operands : list Operand) (c : Z) : Z :=
  let c_operand := fp32_to_operand F c in
  if op_is_nan c_operand then QNAN_BITS
  else
    match scan_result E_ZERO (foldl scan_operand (scan_start c_operand) operands) with
    | inl special => special
    | inr max_exp =>
        let start := if negb (op_is_zero c_operand) && negb (op_is_inf c_operand)
                     then i64 (0 + i64 (op_sign c_operand * aligned max_exp (op_exponent c_operand) (op_significand c_operand)))
                     else 0 in
        fixed_to_fp32 F (foldl (add_aligned max_exp) start operands) max_exp
    end.

Definition operand_of_product (p : Product) : Operand :=
  mkOperand (pr_sign p) (pr_exponent p) (i64 (pr_significand p)) (pr_is_zero p) (pr_is_nan p) (pr_is_inf p).

(** [fda_accumulate_chunk<F, CHUNK_SIZE, E_ZERO>]. *)
Definition fda_accumulate_chunk (F E_ZERO : Z) (products : list Product) (c : Z) : Z :=
  chunked_accumulate F E_ZERO (operand_of_product <$> products) c.

(** [cofda_decoupled_accumulate_products<F, F2, CHUNK_SIZE>]. *)
Definition cofda_decoupled_accumulate_products (F F2 : Z) (products : list Product) (c : Z) : Z :=
  let partial_sum := chunked_accumulate F (-133) (operand_of_product <$> products) 0 in
  chunked_accumulate F2 (-133) [fp32_to_operand F2 partial_sum] c.

(** [gdfs_accumulate_tile<F, NUM_GROUPS>]. *)
Definition gdfs_accumulate_tile (F : Z) (groups : list Operand) (c : Z) : Z :=
  chunked_accumulate F (-139) groups c.

Definition make_zero_operand : Operand := mkOperand 1 0 0 true false false.

(** ** The sum of a group *)

Record GroupResult := mkGroupResult {
  mantissa_sum : Z;
  gr_max_exp : Z;
  all_zero : bool;
}.

(** The first and the second pass over the products, one product. *)
Definition group_scan (s : bool * Z) (p : Product) : bool * Z :=
  if pr_is_zero p then s else (false, if s.2 <? pr_exponent p then pr_exponent p else s.2).
Definition group_add (max_exp sum : Z) (p : Product) : Z :=
  if pr_is_zero p then sum
  else i64 (sum + i64 (pr_sign p * aligned max_exp (pr_exponent p) (i64 (pr_significand p)))).

(** [group_accumulate<G, N>]. *)
Definition group_accumulate (products : list Product) : GroupResult :=
  let '(zero, max_exp) := foldl group_scan (true, -9999) products in
  if zero then mkGroupResult 0 0 true
  else mkGroupResult (foldl (group_add max_exp) 0 products) max_exp false.
