(* ===== verification/MmaFacts.v ===== *)
(** * MMA emulation: facts about bits and values

    Lemmas on fixed-width integers and on the fields of a binary32 number, and
    the value of a number: [fval b] is the value of a finite [b] in units of
    [2 ^ -400], small enough for every number that occurs, so that values are
    compared exactly as integers.  [two e] is [2 ^ e] in these units. *)
From S2P Require Import Prelude MmaCore.

(** ** Bits *)

Lemma land_low x t : 0 ≤ t → Z.land x (2 ^ t - 1) = x mod 2 ^ t.
Proof. intros Ht. rewrite <-Z.land_ones by done. by rewrite Z.ones_equiv, Z.sub_1_r. Qed.

(** Clearing the low [t] of [n] bits. *)
Lemma land_between x t n : 0 ≤ t ≤ n → 0 ≤ x → Z.land x (2 ^ n - 2 ^ t) = x mod 2 ^ n / 2 ^ t * 2 ^ t.
Proof.
  intros Ht Hx.
  replace (2 ^ n - 2 ^ t) with (Z.ldiff (Z.ones n) (Z.ones t)).
  2:{ rewrite Z.ldiff_ones_r, Z.shiftr_div_pow2, Z.shiftl_mul_pow2, Z.ones_equiv by lia.
      replace n with (n - t + t) at 1 by lia. rewrite Z.pow_add_r by lia.
      rewrite <-Z.sub_1_r. pose proof (Z.pow_pos_nonneg 2 t ltac:(lia) ltac:(lia)).
      replace (2 ^ (n - t) * 2 ^ t - 1) with ((2 ^ (n - t) - 1) * 2 ^ t + (2 ^ t - 1)) by lia.
      rewrite Z.div_add_l, Z.div_small by lia. replace n with (n - t + t) at 2 by lia.
      rewrite Z.pow_add_r by lia. lia. }
  rewrite <-Z.land_ones by lia.
  rewrite <-Z.shiftr_div_pow2, <-Z.shiftl_mul_pow2, <-Z.ldiff_ones_r by lia.
  apply Z.bits_inj'. intros k Hk. rewrite !Z.land_spec, !Z.ldiff_spec, !Z.land_spec. by rewrite andb_assoc.
Qed.

Lemma lor_disjoint a n m : 0 ≤ n → 0 ≤ m < 2 ^ n → Z.lor (a * 2 ^ n) m = a * 2 ^ n + m.
Proof.
  intros Hn Hm. rewrite <-Z.shiftl_mul_pow2 by done.
  assert (Z.land (Z.shiftl a n) m = 0) as Hz.
  { apply Z.bits_inj'. intros k Hk. rewrite Z.land_spec, Z.bits_0.
    destruct (Z.lt_ge_cases k n) as [Hlt|Hge].
    - by rewrite Z.shiftl_spec_low.
    - destruct (Z.eq_dec m 0) as [->|Hm0]; [by rewrite Z.bits_0, andb_false_r|].
      rewrite (Z.bits_above_log2 m k), andb_false_r; [done|lia|].
      assert (Z.log2 m < n) by (apply Z.log2_lt_pow2; lia). lia. }
  rewrite <-Z.lxor_lor by done. by rewrite Z.add_nocarry_lxor.
Qed.

(** ** Wrap-around *)

Lemma i64_add_l a b : i64 (i64 a + b) = i64 (a + b).
Proof.
  unfold i64. f_equal.
  replace ((a + 2 ^ 63) mod 2 ^ 64 - 2 ^ 63 + b + 2 ^ 63) with ((a + 2 ^ 63) mod 2 ^ 64 + b) by lia.
  rewrite Z.add_mod_idemp_l by done. f_equal. lia.
Qed.

(** Adding up in any order. *)
Lemma i64_swap s a b : i64 (i64 (s + a) + b) = i64 (i64 (s + b) + a).
Proof. rewrite !i64_add_l. f_equal. lia. Qed.

Lemma final_trunc_mask_eq F : 0 ≤ F → final_trunc_mask F = 2 ^ 23 - 2 ^ (23 - Z.min F 23).
Proof.
  intros HF. unfold final_trunc_mask. change MANTISSA_BITS with 23.
  destruct (Z.ltb_spec F 23) as [Hlt|Hge].
  - assert (∀ k, (k < 23)%nat → Z.land MANTISSA_MASK (u32 (Z.lnot (u32 (Z.shiftl 1 (23 - Z.of_nat k)) - 1)))
      = 2 ^ 23 - 2 ^ (23 - Z.of_nat k)) as Hall.
    { intros k Hk. do 23 (destruct k as [|k]; [done|]). lia. }
    replace F with (Z.of_nat (Z.to_nat F)) by lia. rewrite Hall by lia. by rewrite Z.min_l by lia.
  - by rewrite Z.min_r by lia.
Qed.

(** ** The value of a binary32 number *)

Definition two (e : Z) : Z := 2 ^ (e + 400).

Definition f_sign (b : Z) : Z := b / 2 ^ 31.
Definition f_exp (b : Z) : Z := b / 2 ^ 23 mod 2 ^ 8.
Definition f_man (b : Z) : Z := b mod 2 ^ 23.
Definition finite (b : Z) : Prop := 0 ≤ b < 2 ^ 32 ∧ f_exp b ≠ 255.

(** The significand with the implicit bit, the exponent of its last bit, the
    magnitude and the value. *)
Definition f_sig (b : Z) : Z := if f_exp b =? 0 then f_man b else 2 ^ 23 + f_man b.
Definition f_scale (b : Z) : Z := Z.max 1 (f_exp b) - 127.
Definition fmag (b : Z) : Z := f_sig b * two (f_scale b - 23).
Definition fneg (b : Z) : Z := if f_sign b =? 0 then 1 else -1.
Definition fval (b : Z) : Z := fneg b * fmag b.

(** The last place kept with [F] fractional bits. *)
Definition ulp (F b : Z) : Z := two (f_scale b - Z.min F 23).

Lemma two_pos e : -400 ≤ e → 0 < two e.
Proof. intros He. apply Z.pow_pos_nonneg; lia. Qed.
Lemma two_shift e n : 0 ≤ n → -400 ≤ e → two (e + n) = 2 ^ n * two e.
Proof. intros Hn He. unfold two. rewrite <-Z.pow_add_r by lia. f_equal. lia. Qed.
Lemma two_le e e' : -400 ≤ e ≤ e' → two e ≤ two e'.
Proof. intros ?. apply Z.pow_le_mono_r; lia. Qed.

Lemma f_man_range b : 0 ≤ f_man b < 2 ^ 23.
Proof. by apply Z.mod_pos_bound. Qed.
Lemma f_exp_range b : 0 ≤ f_exp b < 2 ^ 8.
Proof. by apply Z.mod_pos_bound. Qed.
Lemma f_sig_range b : 0 ≤ f_sig b < 2 ^ 24.
Proof. unfold f_sig. pose proof (f_man_range b). case_match; lia. Qed.

(** Assembling a number from its fields. *)
Lemma fields_of s e m :
  0 ≤ s ≤ 1 → 0 ≤ e < 2 ^ 8 → 0 ≤ m < 2 ^ 23 →
  let b := s * 2 ^ 31 + e * 2 ^ 23 + m in
  (0 ≤ b < 2 ^ 32) ∧ f_sign b = s ∧ f_exp b = e ∧ f_man b = m.
Proof.
  intros Hs He Hm b. unfold f_sign, f_exp, f_man, b. split; [lia|]. split_and!.
  - replace (s * 2 ^ 31 + e * 2 ^ 23 + m) with (e * 2 ^ 23 + m + s * 2 ^ 31) by lia.
    rewrite Z.div_add, Z.div_small by lia. lia.
  - replace (s * 2 ^ 31 + e * 2 ^ 23 + m) with (m + (s * 2 ^ 8 + e) * 2 ^ 23) by lia.
    rewrite Z.div_add, Z.div_small by lia. rewrite Z.add_0_l, Z.add_comm, Z.mod_add, Z.mod_small by lia. done.
  - replace (s * 2 ^ 31 + e * 2 ^ 23 + m) with (m + (s * 2 ^ 8 + e) * 2 ^ 23) by lia.
    rewrite Z.mod_add, Z.mod_small by lia. done.
Qed.

Lemma fields_join b : 0 ≤ b < 2 ^ 32 → b = f_sign b * 2 ^ 31 + f_exp b * 2 ^ 23 + f_man b ∧ 0 ≤ f_sign b ≤ 1.
Proof.
  intros Hb. unfold f_sign, f_exp, f_man. split.
  - rewrite (Z.div_mod b (2 ^ 23)) at 1 by done. rewrite (Z.div_mod (b / 2 ^ 23) (2 ^ 8)) at 1 by done.
    rewrite Z.div_div by done. change (2 ^ 23 * 2 ^ 8) with (2 ^ 31). lia.
  - pose proof (Z.div_pos b (2 ^ 31)). pose proof (Z.div_lt_upper_bound b (2 ^ 31) 2). lia.
Qed.

(** The masks of the source select the fields. *)
Lemma abs_bits_eq b : 0 ≤ b < 2 ^ 32 → Z.land b ABS_MASK = f_exp b * 2 ^ 23 + f_man b.
Proof.
  intros Hb. change ABS_MASK with (2 ^ 31 - 1). rewrite land_low by done.
  destruct (fields_join b Hb) as [Hj Hs]. rewrite Hj at 1.
  pose proof (f_man_range b). pose proof (f_exp_range b).
  replace (f_sign b * 2 ^ 31 + f_exp b * 2 ^ 23 + f_man b) with (f_exp b * 2 ^ 23 + f_man b + f_sign b * 2 ^ 31) by lia.
  rewrite Z.mod_add by done. apply Z.mod_small. lia.
Qed.

Lemma mask_exp b : 0 ≤ b < 2 ^ 32 → Z.land (Z.shiftr (Z.land b ABS_MASK) MANTISSA_BITS) 0xFF = f_exp b.
Proof.
  intros Hb. rewrite abs_bits_eq by done. change 0xFF with (2 ^ 8 - 1).
  pose proof (f_man_range b). pose proof (f_exp_range b).
  rewrite land_low, Z.shiftr_div_pow2, Z.div_add_l, Z.div_small, Z.add_0_r by (done || lia).
  by apply Z.mod_small.
Qed.

Lemma mask_man b : 0 ≤ b < 2 ^ 32 → Z.land (Z.land b ABS_MASK) MANTISSA_MASK = f_man b.
Proof.
  intros Hb. rewrite abs_bits_eq by done. change MANTISSA_MASK with (2 ^ 23 - 1).
  pose proof (f_man_range b). rewrite land_low, Z.add_comm, Z.mod_add, Z.mod_small by (done || lia). done.
Qed.

Lemma mask_sign b : 0 ≤ b < 2 ^ 32 → (Z.land b SIGN_MASK =? 0) = (f_sign b =? 0).
Proof.
  intros Hb. change SIGN_MASK with (2 ^ 32 - 2 ^ 31). rewrite land_between by lia.
  rewrite Z.mod_small by done. fold (f_sign b). destruct (fields_join b Hb) as [_ Hs].
  destruct (Z.eqb_spec (f_sign b) 0) as [->|]; [done|]. apply Z.eqb_neq. lia.
Qed.

(** ** Splitting a number *)

Lemma f_scale_range b : -126 ≤ f_scale b ≤ 128.
Proof. unfold f_scale. pose proof (f_exp_range b). lia. Qed.

(** [fp32_to_operand] by the fields of its argument. *)
Lemma fp32_to_operand_fields F b :
  0 ≤ F ≤ 39 → 0 ≤ b < 2 ^ 32 →
  fp32_to_operand F b =
    if (f_exp b =? 0) && (f_man b =? 0) then mkOperand 1 0 0 true false false
    else if f_exp b =? 255 then mkOperand (fneg b) 0 0 false (negb (f_man b =? 0)) (f_man b =? 0)
    else mkOperand (fneg b) (f_scale b) (f_sig b * 2 ^ F / 2 ^ 23) false false false.
Proof.
  intros HF Hb. unfold fp32_to_operand, float_is_zero.
  rewrite mask_exp, mask_man, mask_sign, abs_bits_eq by done.
  pose proof (f_man_range b) as Hm. pose proof (f_exp_range b) as He. pose proof (f_sig_range b) as Hs.
  assert ((f_exp b * 2 ^ 23 + f_man b =? 0) = (f_exp b =? 0) && (f_man b =? 0)) as ->.
  { destruct (Z.eqb_spec (f_exp b) 0), (Z.eqb_spec (f_man b) 0), (Z.eqb_spec (f_exp b * 2 ^ 23 + f_man b) 0);
      simpl; lia. }
  destruct ((f_exp b =? 0) && (f_man b =? 0)) eqn:Hz; [done|].
  assert ((if negb (f_sign b =? 0) then -1 else 1) = fneg b) as -> by (unfold fneg; by destruct (f_sign b =? 0)).
  change MAX_BIASED_EXP with 255. destruct (Z.eqb_spec (f_exp b) 255) as [Hi|Hi]; [done|].
  assert ((if f_exp b =? 0 then f_man b else Z.lor IMPLICIT_BIT (f_man b)) = f_sig b) as ->.
  { unfold f_sig. case_match; [done|]. change IMPLICIT_BIT with (1 * 2 ^ 23). by rewrite lor_disjoint by lia. }
  assert ((if f_exp b =? 0 then MIN_NORMAL_EXP else f_exp b - EXPONENT_BIAS) = f_scale b) as ->.
  { unfold f_scale, MIN_NORMAL_EXP, EXPONENT_BIAS. destruct (Z.eqb_spec (f_exp b) 0); lia. }
  f_equal. change MANTISSA_BITS with 23. destruct (Z.leb_spec 0 (23 - F)) as [Hle|Hgt].
  - rewrite Z.shiftr_div_pow2 by lia. replace (2 ^ 23) with (2 ^ (23 - F) * 2 ^ F) by (rewrite <-Z.pow_add_r by lia; f_equal; lia).
    rewrite Z.div_mul_cancel_r by (apply Z.pow_nonzero; lia).
    apply i64_small. pose proof (Z.pow_pos_nonneg 2 (23 - F)). split; [pose proof (Z.div_pos (f_sig b) (2 ^ (23 - F))); lia|].
    apply Z.div_lt_upper_bound; nia.
  - rewrite Z.shiftl_mul_pow2 by lia. replace (- (23 - F)) with (F - 23) by lia.
    replace (2 ^ F) with (2 ^ (F - 23) * 2 ^ 23) by (rewrite <-Z.pow_add_r by lia; f_equal; lia).
    rewrite Z.mul_assoc, Z.div_mul by done.
    assert (2 ^ (F - 23) ≤ 2 ^ 16) by (apply Z.pow_le_mono_r; lia).
    pose proof (Z.pow_pos_nonneg 2 (F - 23)). rewrite u64_small by nia. apply i64_small. nia.
Qed.

(** The value of an operand with [F] fractional bits. *)
Definition op_val (F : Z) (o : Operand) : Z :=
  if op_is_zero o then 0 else op_sign o * (op_significand o * two (op_exponent o - F)).

Definition op_finite (o : Operand) : Prop := op_is_nan o = false ∧ op_is_inf o = false.

(** An operand the accumulators can take: a sign, an exponent in the range of the
    formats and a significand of at most [w] bits. *)
Record op_ok (w : Z) (o : Operand) : Prop := {
  oo_sign : op_sign o = 1 ∨ op_sign o = -1;
  oo_exponent : -300 ≤ op_exponent o ≤ 300;
  oo_significand : 0 ≤ op_significand o < 2 ^ w;
}.

(** Splitting truncates to [F] fractional bits. *)
Lemma fp32_to_operand_spec F b :
  0 ≤ F ≤ 39 → finite b →
  let o := fp32_to_operand F b in
  op_finite o ∧ op_ok (F + 1) o ∧
  (op_is_zero o = true ↔ fmag b = 0) ∧
  (op_is_zero o = false → op_sign o = fneg b ∧ op_exponent o = f_scale b ∧
     op_significand o * two (f_scale b - F) ≤ fmag b < (op_significand o + 1) * two (f_scale b - F)).
Proof.
  intros HF [Hb Hfin]. cbn zeta. rewrite fp32_to_operand_fields by done.
  pose proof (f_man_range b) as Hm. pose proof (f_sig_range b) as Hs. pose proof (f_scale_range b) as Hsc.
  pose proof (two_pos (f_scale b - 23) ltac:(lia)) as Htwo.
  destruct ((f_exp b =? 0) && (f_man b =? 0)) eqn:Hz.
  { apply andb_true_iff in Hz as [He%Z.eqb_eq Hm0%Z.eqb_eq]. split_and!; try done; [split; cbn; [by left|lia|]|].
    - split; [lia|apply Z.pow_pos_nonneg; lia].
    - split; [|done]. intros _. unfold fmag, f_sig. by rewrite He, Hm0. }
  rewrite (proj2 (Z.eqb_neq _ _) Hfin). cbn [op_is_zero op_significand op_sign op_exponent].
  pose proof (Z.pow_pos_nonneg 2 F ltac:(lia) ltac:(lia)) as HpF.
  assert (0 < f_sig b) as Hsig.
  { unfold f_sig. destruct (Z.eqb_spec (f_exp b) 0); [|lia]. apply andb_false_iff in Hz as [?|?%Z.eqb_neq]; [done|lia]. }
  split_and!; [done| | |].
  - split; cbn; [unfold fneg; case_match; auto|lia|]. split; [apply Z.div_pos; lia|].
    apply Z.div_lt_upper_bound; [lia|]. rewrite Z.pow_add_r by lia. nia.
  - split; [done|]. unfold fmag. nia.
  - intros _. split_and!; [done|done| |]; unfold fmag.
    + pose proof (Z.mul_div_le (f_sig b * 2 ^ F) (2 ^ 23) ltac:(lia)).
      replace (f_scale b - 23) with (f_scale b - F - 23 + F) by lia. rewrite two_shift by lia.
      replace (f_scale b - F) with (f_scale b - F - 23 + 23) at 1 by lia. rewrite two_shift by lia.
      pose proof (two_pos (f_scale b - F - 23) ltac:(lia)). nia.
    + pose proof (Z.mul_succ_div_gt (f_sig b * 2 ^ F) (2 ^ 23) ltac:(lia)).
      replace (f_scale b - 23) with (f_scale b - F - 23 + F) by lia. rewrite two_shift by lia.
      replace (f_scale b - F) with (f_scale b - F - 23 + 23) at 2 by lia. rewrite two_shift by lia.
      pose proof (two_pos (f_scale b - F - 23) ltac:(lia)). nia.
Qed.

(** ** Converting the sum back *)

(** Truncating [x] below [2 ^ t]. *)
Lemma trunc_bounds x t : 0 ≤ t → 0 ≤ x → x / 2 ^ t * 2 ^ t ≤ x < x / 2 ^ t * 2 ^ t + 2 ^ t.
Proof.
  intros Ht Hx. pose proof (Z.pow_pos_nonneg 2 t ltac:(lia) Ht).
  pose proof (Z.mul_div_le x (2 ^ t) ltac:(lia)). pose proof (Z.mul_succ_div_gt x (2 ^ t) ltac:(lia)). lia.
Qed.

(** The mantissa with its leading one at bit 23. *)
Lemma normalized_eq a L :
  0 < a < 2 ^ 63 → L = Z.log2 a →
  let n := if MANTISSA_BITS <=? L then u32 (Z.shiftr a (L - MANTISSA_BITS))
           else u32 (u64 (Z.shiftl a (MANTISSA_BITS - L))) in
  2 ^ 23 ≤ n < 2 ^ 24 ∧ n * 2 ^ L ≤ a * 2 ^ 23 < (n + 1) * 2 ^ L.
Proof.
  intros Ha ->. cbn zeta. change MANTISSA_BITS with 23.
  pose proof (Z.log2_spec a ltac:(lia)) as [Hl Hu]. pose proof (Z.log2_nonneg a) as HL. rewrite Z.pow_succ_r in Hu by done.
  destruct (Z.leb_spec 23 (Z.log2 a)) as [Hle|Hgt].
  - rewrite Z.shiftr_div_pow2 by lia. set (d := Z.log2 a - 23).
    assert (2 ^ Z.log2 a = 2 ^ d * 2 ^ 23) as HeL by (rewrite <-Z.pow_add_r by lia; f_equal; lia).
    pose proof (Z.pow_pos_nonneg 2 d ltac:(lia) ltac:(lia)).
    pose proof (Z.mul_div_le a (2 ^ d) ltac:(lia)). pose proof (Z.mul_succ_div_gt a (2 ^ d) ltac:(lia)).
    assert (2 ^ 23 ≤ a / 2 ^ d) by (apply Z.div_le_lower_bound; lia).
    assert (a / 2 ^ d < 2 ^ 24) by (apply Z.div_lt_upper_bound; lia).
    rewrite u32_small by lia. rewrite HeL. split; [lia|nia].
  - rewrite Z.shiftl_mul_pow2 by lia. set (d := 23 - Z.log2 a).
    assert (2 ^ Z.log2 a * 2 ^ d = 2 ^ 23) as HeL by (rewrite <-Z.pow_add_r by lia; f_equal; lia).
    pose proof (Z.pow_pos_nonneg 2 d ltac:(lia) ltac:(lia)).
    assert (2 ^ 23 ≤ a * 2 ^ d < 2 ^ 24) by nia.
    rewrite u64_small, u32_small by lia. rewrite <-HeL. split; [lia|nia].
Qed.

(** The field of a subnormal result: the sum in units of [2 ^ -149]. *)
Lemma subnormal_eq a L E F :
  0 < a < 2 ^ 63 → L = Z.log2 a → 0 ≤ F ≤ 39 → -300 ≤ E ≤ 300 → L + E - F + 127 ≤ 0 →
  let shift := L - MANTISSA_BITS + (1 - (L + E - F + EXPONENT_BIAS)) in
  let n := if 64 <=? shift then 0 else if 0 <=? shift then u32 (Z.shiftr a shift)
           else u32 (u64 (Z.shiftl a (- shift))) in
  0 ≤ n < 2 ^ 23 ∧ n * two (-149) ≤ a * two (E - F) < (n + 1) * two (-149).
Proof.
  intros Ha HL HF HE Hsub. cbn zeta. change MANTISSA_BITS with 23. change EXPONENT_BIAS with 127.
  pose proof (Z.log2_spec a ltac:(lia)) as [_ Hu]. rewrite <-HL in Hu.
  pose proof (Z.log2_nonneg a) as HL0. rewrite <-HL in HL0.
  replace (L - 23 + (1 - (L + E - F + 127))) with (F - E - 149) by lia. set (d := F - E - 149).
  destruct (Z.leb_spec 0 d) as [Hd|Hd].
  - assert (two (-149) = 2 ^ d * two (E - F)) as Ht by (rewrite <-two_shift by lia; f_equal; lia).
    pose proof (Z.pow_pos_nonneg 2 d ltac:(lia) Hd). pose proof (two_pos (E - F) ltac:(lia)).
    pose proof (Z.mul_div_le a (2 ^ d) ltac:(lia)). pose proof (Z.mul_succ_div_gt a (2 ^ d) ltac:(lia)).
    assert (0 ≤ a / 2 ^ d < 2 ^ 23) as Hn.
    { split; [apply Z.div_pos; lia|]. apply Z.div_lt_upper_bound; [lia|]. rewrite <-Z.pow_add_r by lia.
      eapply Z.lt_le_trans; [exact Hu|]. apply Z.pow_le_mono_r; lia. }
    assert ((if 64 <=? d then 0 else u32 (Z.shiftr a d)) = a / 2 ^ d) as ->.
    { rewrite Z.shiftr_div_pow2 by done. destruct (Z.leb_spec 64 d); [|apply u32_small; lia].
      symmetry. apply Z.div_small. split; [lia|]. eapply Z.lt_le_trans; [exact (proj2 Ha)|]. apply Z.pow_le_mono_r; lia. }
    rewrite Ht. split; [lia|nia].
  - rewrite (proj2 (Z.leb_gt 64 d)) by lia. rewrite Z.shiftl_mul_pow2 by lia.
    assert (two (E - F) = 2 ^ (- d) * two (-149)) as Ht by (rewrite <-two_shift by lia; f_equal; lia).
    pose proof (Z.pow_pos_nonneg 2 (- d) ltac:(lia) ltac:(lia)). pose proof (two_pos (-149) ltac:(lia)).
    assert (0 ≤ a * 2 ^ (- d) < 2 ^ 23) as Hn.
    { split; [lia|]. eapply Z.lt_le_trans; [apply Z.mul_lt_mono_pos_r; [lia|exact Hu]|].
      rewrite <-Z.pow_add_r by lia. apply Z.pow_le_mono_r; lia. }
    rewrite u64_small, u32_small by lia. rewrite Ht. split; [lia|nia].
Qed.

(** What the sum is rounded to: truncated towards zero to [min F 23] fractional
    bits, or an infinity when it is too large. *)
Record rounded (F m E r : Z) : Prop := {
  rd_finite : finite r;
  rd_sign : fmag r ≠ 0 → fneg r = if m <? 0 then -1 else 1;
  rd_zero : fmag r = 0 → r = 0;
  rd_below : fmag r ≤ Z.abs m * two (E - F) < fmag r + ulp F r;
  rd_kept : f_man r mod 2 ^ (23 - Z.min F 23) = 0;
}.

Lemma final_mask F n :
  0 ≤ F → 0 ≤ n → Z.land n (final_trunc_mask F) = n mod 2 ^ 23 / 2 ^ (23 - Z.min F 23) * 2 ^ (23 - Z.min F 23).
Proof. intros HF Hn. rewrite final_trunc_mask_eq by done. apply land_between; lia. Qed.

Lemma result_of s e n F :
  (s = 0 ∨ s = SIGN_MASK) → 0 ≤ e < 255 → 0 ≤ n < 2 ^ 23 → n mod 2 ^ (23 - Z.min F 23) = 0 →
  let r := Z.lor (Z.lor s (u32 (Z.shiftl e MANTISSA_BITS))) n in
  finite r ∧ f_exp r = e ∧ f_man r = n ∧ fneg r = (if s =? 0 then 1 else -1).
Proof.
  intros Hs He Hn Hmod. cbn zeta. change MANTISSA_BITS with 23. rewrite Z.shiftl_mul_pow2, u32_small by lia.
  assert (∃ k, s = k * 2 ^ 31 ∧ (k = 0 ∨ k = 1)) as (k&->&Hk).
  { destruct Hs as [->| ->]; [exists 0|exists 1]; split; auto. }
  rewrite lor_disjoint by lia. replace (k * 2 ^ 31 + e * 2 ^ 23) with ((k * 2 ^ 8 + e) * 2 ^ 23) by lia.
  rewrite lor_disjoint by lia. replace ((k * 2 ^ 8 + e) * 2 ^ 23 + n) with (k * 2 ^ 31 + e * 2 ^ 23 + n) by lia.
  destruct (fields_of k e n) as (Hr&Hsg&Hex&Hma); [lia..|]. unfold finite, fneg. rewrite Hsg, Hex, Hma.
  split; [split; [done|lia]|]. split_and!; [done|done|]. by destruct Hk as [->| ->].
Qed.

Lemma fixed_to_fp32_spec F m E :
  0 ≤ F ≤ 39 → -300 ≤ E ≤ 300 → m ≠ 0 → - 2 ^ 63 < m < 2 ^ 63 →
  (128 ≤ Z.log2 (Z.abs m) + E - F → fixed_to_fp32 F m E = if m <? 0 then NEG_INF_BITS else POS_INF_BITS) ∧
  (Z.log2 (Z.abs m) + E - F < 128 → rounded F m E (fixed_to_fp32 F m E)).
Proof.
  intros HF HE Hm0 Hm. unfold fixed_to_fp32. rewrite (proj2 (Z.eqb_neq m 0)) by done. cbn zeta.
  assert ((if m <? 0 then u64 (i64 (- m)) else u64 m) = Z.abs m) as ->.
  { destruct (Z.ltb_spec m 0); [rewrite i64_small by lia|]; rewrite u64_small; lia. }
  set (a := Z.abs m). assert (0 < a < 2 ^ 63) as Ha by lia.
  assert (63 - clzll a = Z.log2 a) as ->.
  { unfold clzll. rewrite (proj2 (Z.eqb_neq a 0)); lia. }
  set (L := Z.log2 a). set (s := if m <? 0 then SIGN_MASK else 0).
  assert (s = 0 ∨ s = SIGN_MASK) as Hs by (unfold s; case_match; auto).
  assert ((if s =? 0 then 1 else -1) = if m <? 0 then -1 else 1) as Hsign by (unfold s; by destruct (m <? 0)).
  assert (0 ≤ 23 - Z.min F 23 ≤ 23) as Ht by lia. set (t := 23 - Z.min F 23) in *.
  change EXPONENT_BIAS with 127. change MAX_BIASED_EXP with 255.
  destruct (Z.leb_spec (L + E - F + 127) 0) as [Hsub|Hnorm].
  - split; [lia|]. intros _. destruct (subnormal_eq a L E F Ha eq_refl HF HE Hsub) as [Hn Hval].
    change EXPONENT_BIAS with 127 in *. set (n := if 64 <=? _ then _ else _) in *.
    rewrite final_mask by lia. fold t. rewrite (Z.mod_small n) by done.
    pose proof (trunc_bounds n t ltac:(lia) ltac:(lia)) as Htr. pose proof (two_pos (-149) ltac:(lia)) as H2.
    assert (n / 2 ^ t * 2 ^ t mod 2 ^ t = 0) as Hmod by (apply Z.mod_mul, Z.pow_nonzero; lia).
    assert (0 ≤ n / 2 ^ t * 2 ^ t) as Hq0.
    { apply Z.mul_nonneg_nonneg; [|apply Z.pow_nonneg; lia]. apply Z.div_pos; [lia|apply Z.pow_pos_nonneg; lia]. }
    set (q := n / 2 ^ t * 2 ^ t) in *.
    assert (two (-126 - Z.min F 23) = 2 ^ t * two (-149)) as Hulp by (rewrite <-two_shift by lia; f_equal; lia).
    destruct (Z.eqb_spec q 0) as [Hq|Hq].
    + assert (fmag 0 = 0 ∧ ulp F 0 = two (-126 - Z.min F 23)) as [Hf Hu] by done.
      split; [done|by rewrite Hf|done| |by apply Z.mod_0_l, Z.pow_nonzero; lia]. rewrite Hf, Hu, Hulp. nia.
    + destruct (result_of s 0 q F Hs) as (Hfin&He&Hma&Hneg); [lia|lia|exact Hmod|].
      change (Z.lor (Z.lor s (u32 (Z.shiftl 0 MANTISSA_BITS))) q) with (Z.lor (Z.lor s 0) q) in *.
      rewrite Z.lor_0_r in *. assert (fmag (Z.lor s q) = q * two (-149)) as Hf.
      { unfold fmag, f_sig, f_scale. by rewrite He, Hma. }
      split; [done|by rewrite Hneg|rewrite Hf; nia| |by rewrite Hma]. rewrite Hf. unfold ulp, f_scale. rewrite He.
      change (Z.max 1 0 - 127) with (-126). rewrite Hulp. nia.
  - destruct (Z.leb_spec 255 (L + E - F + 127)) as [Hbig|Hsmall].
    { split; [|lia]. intros _. unfold s. by destruct (m <? 0). }
    split; [lia|]. intros _. destruct (normalized_eq a L Ha eq_refl) as [Hn Hval].
    set (n := if MANTISSA_BITS <=? L then _ else _) in *.
    rewrite final_mask by lia. fold t.
    assert (n mod 2 ^ 23 = n - 2 ^ 23) as ->.
    { replace n with (n - 2 ^ 23 + 1 * 2 ^ 23) at 1 by lia. rewrite Z.mod_add by done. apply Z.mod_small. lia. }
    pose proof (trunc_bounds (n - 2 ^ 23) t ltac:(lia) ltac:(lia)) as Htr.
    assert ((n - 2 ^ 23) / 2 ^ t * 2 ^ t mod 2 ^ t = 0) as Hmod by (apply Z.mod_mul, Z.pow_nonzero; lia).
    assert (0 ≤ (n - 2 ^ 23) / 2 ^ t * 2 ^ t) as Hq0.
    { apply Z.mul_nonneg_nonneg; [|apply Z.pow_nonneg; lia]. apply Z.div_pos; [lia|apply Z.pow_pos_nonneg; lia]. }
    set (q := (n - 2 ^ 23) / 2 ^ t * 2 ^ t) in *.
    destruct (result_of s (L + E - F + 127) q F Hs) as (Hfin&He&Hma&Hneg); [lia|lia|done|].
    set (r := Z.lor (Z.lor s _) q) in *.
    assert (f_scale r = L + E - F) as Hsc by (unfold f_scale; rewrite He; lia).
    assert (fmag r = (2 ^ 23 + q) * two (L + E - F - 23)) as Hf.
    { unfold fmag. rewrite Hsc. unfold f_sig. rewrite He, Hma, (proj2 (Z.eqb_neq _ 0)) by lia. done. }
    pose proof (two_pos (L + E - F - 23) ltac:(lia)) as H2. pose proof (two_pos (E - F - 23) ltac:(lia)) as H3.
    assert (two (L + E - F - 23) = 2 ^ L * two (E - F - 23)) as E1.
    { rewrite <-two_shift by (lia || apply Z.log2_nonneg). f_equal. lia. }
    assert (two (E - F) = 2 ^ 23 * two (E - F - 23)) as E2 by (rewrite <-two_shift by lia; f_equal; lia).
    assert (ulp F r = 2 ^ t * two (L + E - F - 23)) as E3.
    { unfold ulp. rewrite Hsc, <-two_shift by lia. f_equal. lia. }
    split; [done|by rewrite Hneg|rewrite Hf; nia| |by rewrite Hma].
    rewrite Hf, E3, E1, E2. clear -Htr Hval H3. set (w := two (E - F - 23)) in *. nia.
Qed.
