(* ===== verification/MmaSum.v ===== *)
(** * MMA emulation: the accumulators are correct

    What [chunked_accumulate] of [MmaCore] computes on finite terms: the terms
    truncated at the largest exponent, summed without overflow, and the sum
    truncated to the fractional bits of the accumulator.  Besides: a chunk of
    zeros leaves an accumulator alone, and the order within a chunk is irrelevant. *)
From S2P Require Import Prelude MmaCore MmaFacts.

(** ** Rounding determines the result *)

Lemma f_sig_normal b : -126 < f_scale b → 2 ^ 23 ≤ f_sig b.
Proof. unfold f_scale, f_sig. pose proof (f_man_range b). case_match; lia. Qed.

Lemma fmag_scale_le r r' : fmag r ≤ fmag r' → f_scale r ≤ f_scale r'.
Proof.
  intros Hle. destruct (Z.le_gt_cases (f_scale r) (f_scale r')) as [|Hgt]; [done|exfalso].
  pose proof (f_scale_range r'). pose proof (f_sig_normal r ltac:(lia)). pose proof (f_sig_range r').
  pose proof (f_scale_range r). unfold fmag in Hle.
  assert (two (f_scale r - 23) = 2 ^ (f_scale r - f_scale r') * two (f_scale r' - 23)) as Ht.
  { rewrite <-two_shift by lia. f_equal. lia. }
  pose proof (two_pos (f_scale r' - 23) ltac:(lia)).
  assert (2 ^ 1 ≤ 2 ^ (f_scale r - f_scale r')) by (apply Z.pow_le_mono_r; lia). nia.
Qed.

(** The magnitude is a multiple of the last place kept. *)
Lemma fmag_kept F b :
  0 ≤ F → f_man b mod 2 ^ (23 - Z.min F 23) = 0 → ∃ k, fmag b = k * ulp F b.
Proof.
  intros HF Hk. pose proof (f_scale_range b). set (t := 23 - Z.min F 23) in *. assert (0 ≤ t ≤ 23) as Ht by lia.
  assert (∃ k, f_sig b = k * 2 ^ t) as [k Hs].
  { apply Z.mod_divide in Hk as [q Hq]; [|by apply Z.pow_nonzero; lia]. unfold f_sig. case_match; [by exists q|].
    exists (2 ^ (23 - t) + q). rewrite Z.mul_add_distr_r, <-Z.pow_add_r by lia. rewrite Hq. repeat f_equal. lia. }
  exists k. unfold fmag, ulp. rewrite Hs. replace (f_scale b - Z.min F 23) with (f_scale b - 23 + t) by lia.
  rewrite two_shift by lia. lia.
Qed.

Lemma ulp_multiple F r r' :
  0 ≤ F → f_scale r ≤ f_scale r' → ∃ k, ulp F r' = k * ulp F r.
Proof.
  intros HF Hle. pose proof (f_scale_range r). pose proof (f_scale_range r'). exists (2 ^ (f_scale r' - f_scale r)).
  unfold ulp. rewrite <-two_shift by lia. f_equal. lia.
Qed.

Lemma fmag_inj r r' :
  0 ≤ r < 2 ^ 32 → 0 ≤ r' < 2 ^ 32 → fmag r = fmag r' → f_sign r = f_sign r' → r = r'.
Proof.
  intros Hr Hr' Hm Hs. assert (f_scale r = f_scale r') as Hsc.
  { apply Z.le_antisymm; apply fmag_scale_le; lia. }
  assert (f_sig r = f_sig r') as Hsig.
  { unfold fmag in Hm. rewrite Hsc in Hm. pose proof (f_scale_range r').
    apply Z.mul_cancel_r in Hm; [done|]. pose proof (two_pos (f_scale r' - 23) ltac:(lia)). lia. }
  assert (f_exp r = f_exp r' ∧ f_man r = f_man r') as [He Hma].
  { pose proof (f_man_range r). pose proof (f_man_range r'). pose proof (f_exp_range r). pose proof (f_exp_range r').
    unfold f_sig, f_scale in *. destruct (Z.eqb_spec (f_exp r) 0), (Z.eqb_spec (f_exp r') 0); lia. }
  rewrite (proj1 (fields_join r Hr)), (proj1 (fields_join r' Hr')). congruence.
Qed.

Lemma rounded_le F m E r r' : 0 ≤ F → rounded F m E r → rounded F m E r' → fmag r ≤ fmag r'.
Proof.
  intros HF Hr Hr'. destruct (Z.le_gt_cases (fmag r) (fmag r')) as [|Hgt]; [done|exfalso].
  destruct (ulp_multiple F r' r HF (fmag_scale_le r' r ltac:(lia))) as [j Hj].
  destruct (fmag_kept F r HF (rd_kept _ _ _ _ Hr)) as [k Hk].
  destruct (fmag_kept F r' HF (rd_kept _ _ _ _ Hr')) as [k' Hk'].
  pose proof (rd_below _ _ _ _ Hr). pose proof (rd_below _ _ _ _ Hr').
  assert (0 < ulp F r') as Hu by (apply two_pos; pose proof (f_scale_range r'); lia).
  rewrite Hj, Z.mul_assoc in Hk. set (n := k * j) in *. set (u := ulp F r') in *. set (x := Z.abs m * _) in *.
  assert (k' < n) by (apply (Z.mul_lt_mono_pos_r u); lia). assert (k' + 1 ≤ n) as Hn by lia.
  apply (Z.mul_le_mono_nonneg_r _ _ u) in Hn; lia.
Qed.

Lemma rounded_unique F m E r r' : 0 ≤ F → rounded F m E r → rounded F m E r' → r = r'.
Proof.
  intros HF Hr Hr'. assert (fmag r = fmag r') as Hm by (apply Z.le_antisymm; by eapply rounded_le).
  destruct (decide (fmag r = 0)) as [Hz|Hnz].
  - rewrite (rd_zero _ _ _ _ Hr Hz). rewrite (rd_zero _ _ _ _ Hr'); [done|lia].
  - pose proof (rd_sign _ _ _ _ Hr Hnz) as Hs. pose proof (rd_sign _ _ _ _ Hr' ltac:(lia)) as Hs'.
    destruct (rd_finite _ _ _ _ Hr) as [Hb _], (rd_finite _ _ _ _ Hr') as [Hb' _].
    apply fmag_inj; [done|done|done|].
    pose proof (proj2 (fields_join r Hb)). pose proof (proj2 (fields_join r' Hb')). unfold fneg in *.
    repeat case_match; lia.
Qed.

(** ** The terms and their sum *)

Definition zsum (l : list Z) : Z := foldr Z.add 0 l.

(** The terms of a chunk that are not zero, and the exponent they are aligned to. *)
Definition live (ts : list Operand) : list Operand := filter (λ o, op_is_zero o = false) ts.
Definition top_exp (E_ZERO : Z) (ts : list Operand) : Z :=
  let e := foldl Z.max (-9999) (op_exponent <$> live ts) in
  if existsb op_is_zero ts then Z.max e E_ZERO else e.

(** What a term adds to the sum, and when that is all of it. *)
Definition aligned_val (E : Z) (o : Operand) : Z :=
  if op_is_zero o then 0 else op_sign o * aligned E (op_exponent o) (op_significand o).
Definition fits (E : Z) (o : Operand) : Prop := (2 ^ (E - op_exponent o) | op_significand o).

Lemma foldl_max_le x l : x ≤ foldl Z.max x l ∧ (∀ y, y ∈ l → y ≤ foldl Z.max x l).
Proof.
  revert x. induction l as [|z l IH]; intros x; cbn; [split; [lia|by intros ? ?%elem_of_nil]|].
  destruct (IH (Z.max x z)) as [H1 H2]. split; [lia|]. intros y [->|Hy]%elem_of_cons; [lia|auto].
Qed.
Lemma foldl_max_in x l : foldl Z.max x l = x ∨ foldl Z.max x l ∈ l.
Proof.
  revert x. induction l as [|z l IH]; intros x; cbn; [by left|].
  destruct (IH (Z.max x z)) as [->|Hin]; [|right; by right].
  destruct (Z.max_spec x z) as [[_ ->]|[_ ->]]; [right; by left|by left].
Qed.
Lemma foldl_max_start x y l : foldl Z.max (Z.max x y) l = Z.max x (foldl Z.max y l).
Proof. revert y. induction l as [|z l IH]; intros y; cbn; [done|]. rewrite <-IH. f_equal. lia. Qed.

#[local] Arguments live : simpl never.
Lemma live_cons o ts : live (o :: ts) = if op_is_zero o then live ts else o :: live ts.
Proof. unfold live. rewrite filter_cons. by destruct (op_is_zero o). Qed.
Lemma elem_of_live o ts : o ∈ live ts ↔ op_is_zero o = false ∧ o ∈ ts.
Proof. unfold live. by rewrite list_elem_of_filter. Qed.

Lemma top_exp_bound E_ZERO ts o : o ∈ live ts → op_exponent o ≤ top_exp E_ZERO ts.
Proof.
  intros Ho. unfold top_exp. destruct (foldl_max_le (-9999) (op_exponent <$> live ts)) as [_ Hmax].
  specialize (Hmax (op_exponent o)). rewrite list_elem_of_fmap in Hmax.
  assert (op_exponent o ≤ foldl Z.max (-9999) (op_exponent <$> live ts)) by (apply Hmax; by exists o).
  case_match; lia.
Qed.

Lemma top_exp_range w E_ZERO ts :
  live ts ≠ [] → Forall (op_ok w) ts → -300 ≤ E_ZERO ≤ 300 → -300 ≤ top_exp E_ZERO ts ≤ 300.
Proof.
  intros Hne Hok HE. rewrite Forall_forall in Hok. destruct (live ts) as [|o l] eqn:Hl; [done|].
  assert (o ∈ live ts) as Ho by (rewrite Hl; by left).
  pose proof (top_exp_bound E_ZERO ts o Ho). apply elem_of_live in Ho as [_ Ho].
  pose proof (oo_exponent _ _ (Hok o Ho)). split; [lia|].
  assert (foldl Z.max (-9999) (op_exponent <$> live ts) ≤ 300).
  { destruct (foldl_max_in (-9999) (op_exponent <$> live ts)) as [->|Hin]; [lia|].
    apply list_elem_of_fmap in Hin as (o'&->&[_ Ho']%elem_of_live). apply (oo_exponent _ _ (Hok o' Ho')). }
  unfold top_exp. case_match; lia.
Qed.

(** ** The first pass *)

Lemma scan_finite ops s :
  Forall op_finite ops →
  foldl scan_operand s ops =
    mkScan (any_nan s) (any_inf s) (pos_inf_count s) (neg_inf_count s)
      (foldl Z.max (sc_max_exp s) (op_exponent <$> live ops))
      (non_zero_count s + len (live ops)) (any_zero s || existsb op_is_zero ops).
Proof.
  intros Hops. revert s. induction Hops as [|o ops [Hn Hi] _ IH]; intros s.
  - cbn. destruct s; cbn. rewrite Z.add_0_r, orb_false_r. done.
  - cbn [foldl]. rewrite IH. unfold scan_operand. rewrite Hn, Hi, live_cons. cbn. rewrite !orb_false_r, !Z.add_0_r.
    destruct (op_is_zero o); cbn; [by rewrite Z.add_0_r, orb_true_r|]. rewrite orb_false_r, len_cons. f_equal. lia.
Qed.

(** On finite terms [chunked_accumulate] is the second pass over all of them. *)
Lemma chunked_finite F E_ZERO ops c :
  let ts := fp32_to_operand F c :: ops in
  Forall op_finite ts → (∀ o, o ∈ ts → -300 ≤ op_exponent o) →
  chunked_accumulate F E_ZERO ops c =
    if decide (live ts = []) then 0
    else fixed_to_fp32 F (foldl (add_aligned (top_exp E_ZERO ts)) 0 ts) (top_exp E_ZERO ts).
Proof.
  intros ts Hfin Hexp. unfold chunked_accumulate. set (co := fp32_to_operand F c) in *.
  pose proof (Forall_inv Hfin) as [Hcn Hci]. rewrite Hcn. apply Forall_inv_tail in Hfin. rewrite scan_finite by done.
  unfold scan_result, scan_start. rewrite Hcn, Hci. cbn.
  assert (-300 ≤ op_exponent co) as Hce by (apply Hexp; by left).
  unfold ts, top_exp. rewrite live_cons. destruct (op_is_zero co) eqn:Hz; cbn; rewrite Hz; cbn.
  - destruct (live ops) as [|o l] eqn:Hl; [by rewrite decide_True|]. rewrite decide_False by done.
    rewrite (proj2 (Z.eqb_neq _ _)) by (rewrite len_cons; pose proof (len_nonneg l); lia).
    unfold add_aligned at 3. rewrite Hz. done.
  - rewrite decide_False by done. rewrite (proj2 (Z.eqb_neq _ _)) by (pose proof (len_nonneg (live ops)); lia).
    unfold add_aligned at 3. rewrite Hz, Hcn, Hci. cbn. by rewrite (Z.max_r (-9999)) by lia.
Qed.

(** ** The second pass *)

Lemma aligned_eq w E o :
  op_ok w o → w ≤ 62 → op_exponent o ≤ E →
  let a := aligned E (op_exponent o) (op_significand o) in
  a = op_significand o / 2 ^ (E - op_exponent o) ∧ 0 ≤ a < 2 ^ w.
Proof.
  intros [_ _ Hs] Hw HE. cbn zeta. unfold aligned. set (d := E - op_exponent o). assert (0 ≤ d) as Hd by lia.
  pose proof (Z.pow_pos_nonneg 2 d ltac:(lia) Hd) as Hp.
  assert ((if 64 <=? d then 0 else Z.shiftr (op_significand o) d) = op_significand o / 2 ^ d) as ->.
  { rewrite Z.shiftr_div_pow2 by done. destruct (Z.leb_spec 64 d); [|done]. symmetry. apply Z.div_small.
    split; [lia|]. eapply Z.lt_le_trans; [apply Hs|]. apply Z.pow_le_mono_r; lia. }
  split; [done|]. split; [apply Z.div_pos; lia|]. apply Z.div_lt_upper_bound; [done|]. nia.
Qed.

Lemma aligned_val_range w E o :
  op_ok w o → w ≤ 62 → (op_is_zero o = false → op_exponent o ≤ E) → Z.abs (aligned_val E o) < 2 ^ w.
Proof.
  intros Hok Hw HE. unfold aligned_val. destruct (op_is_zero o); cbn.
  - destruct (oo_significand _ _ Hok). lia.
  - destruct (aligned_eq w E o Hok Hw (HE eq_refl)) as [_ Ha]. destruct (oo_sign _ _ Hok) as [->| ->]; lia.
Qed.

(** The sum does not overflow. *)
Lemma sum_exact w E ts s :
  Forall op_finite ts → Forall (op_ok w) ts → 0 ≤ w ≤ 62 → (∀ o, o ∈ live ts → op_exponent o ≤ E) →
  Z.abs s + len ts * 2 ^ w < 2 ^ 63 →
  foldl (add_aligned E) s ts = s + zsum (aligned_val E <$> ts) ∧
  Z.abs (s + zsum (aligned_val E <$> ts)) ≤ Z.abs s + len ts * 2 ^ w.
Proof.
  intros Hfin Hok Hw. revert s. induction ts as [|o ts IH]; intros s HE; cbn.
  { intros Hs. change (len (@nil Operand)) with 0 in *. lia. }
  apply Forall_cons in Hfin as [[Hn Hi] Hfin], Hok as [Ho Hok]. rewrite len_cons. intros Hs.
  assert (op_is_zero o = false → op_exponent o ≤ E) as HEo by (intros Hz; apply HE; rewrite live_cons, Hz; by left).
  pose proof (aligned_val_range w E o Ho (proj2 Hw) HEo) as Hv.
  assert (2 ^ w ≤ 2 ^ 62) by (apply Z.pow_le_mono_r; lia). pose proof (len_nonneg ts).
  assert (add_aligned E s o = s + aligned_val E o) as ->.
  { unfold add_aligned, aligned_val in *. rewrite Hn, Hi, !orb_false_r. destruct (op_is_zero o); [lia|].
    set (v := op_sign o * aligned _ _ _) in *. rewrite (i64_small v) by nia. apply i64_small. nia. }
  destruct (IH Hfin Hok (s + aligned_val E o)) as [-> Hb].
  - intros o' Ho'. apply HE. rewrite live_cons. by destruct (op_is_zero o); [|right].
  - nia.
  - fold (zsum (aligned_val E <$> ts)). split; [lia|]. nia.
Qed.

(** Aligning loses less than one last place of the sum, and nothing when the term
    fits. *)
Lemma term_error w F E o :
  0 ≤ F ≤ 39 → op_ok w o → w ≤ 62 → (op_is_zero o = false → op_exponent o ≤ E ∧ E ≤ 300) →
  let e := op_val F o - aligned_val E o * two (E - F) in
  Z.abs e ≤ (if op_is_zero o then 0 else two (E - F) - 1) ∧ (op_is_zero o = false → fits E o → e = 0).
Proof.
  intros HF Hok Hw HE. cbn zeta. unfold op_val, aligned_val. destruct (op_is_zero o); [done|].
  destruct (HE eq_refl) as [HEo HE3]. destruct (aligned_eq w E o Hok Hw HEo) as [-> _].
  destruct Hok as [Hsign Hexp Hsig]. set (d := E - op_exponent o) in *.
  assert (two (E - F) = 2 ^ d * two (op_exponent o - F)) as Ht by (rewrite <-two_shift by lia; f_equal; lia).
  pose proof (Z.pow_pos_nonneg 2 d ltac:(lia) ltac:(lia)) as Hp. pose proof (two_pos (op_exponent o - F) ltac:(lia)) as H2.
  pose proof (Z.div_mod (op_significand o) (2 ^ d) ltac:(lia)) as Hdm. pose proof (Z.mod_pos_bound (op_significand o) (2 ^ d) Hp) as Hm.
  set (q := op_significand o / 2 ^ d) in *. set (r := op_significand o mod 2 ^ d) in *.
  assert (op_sign o * (op_significand o * two (op_exponent o - F)) - op_sign o * q * two (E - F)
          = op_sign o * (r * two (op_exponent o - F))) as ->.
  { rewrite Ht. replace (op_significand o) with (2 ^ d * q + r) by lia. ring. }
  rewrite Ht. split.
  - destruct Hsign as [->| ->]; nia.
  - intros _ Hfit. assert (r = 0) as ->; [|lia]. by apply Z.mod_divide; [lia|].
Qed.

Lemma sum_error w F E ts :
  0 ≤ F ≤ 39 → Forall (op_ok w) ts → w ≤ 62 → (∀ o, o ∈ live ts → op_exponent o ≤ E ∧ E ≤ 300) →
  let e := zsum (op_val F <$> ts) - zsum (aligned_val E <$> ts) * two (E - F) in
  Z.abs e ≤ len (live ts) * (two (E - F) - 1) ∧ (Forall (fits E) (live ts) → e = 0).
Proof.
  intros HF Hok Hw HE. cbn zeta. induction ts as [|o ts IH]; [by cbn|].
  apply Forall_cons in Hok as [Ho Hok]. cbn. fold (zsum (op_val F <$> ts)) (zsum (aligned_val E <$> ts)).
  destruct (term_error w F E o HF Ho Hw) as [He Hfit].
  { intros Hz. apply HE. rewrite live_cons, Hz. by left. }
  destruct IH as [IHe IHf]; [done| |].
  { intros o' Ho'. apply HE. rewrite live_cons. by destruct (op_is_zero o); [|right]. }
  rewrite live_cons, Z.mul_add_distr_r. destruct (op_is_zero o) eqn:Hz.
  - split; [lia|]. intros Hall. specialize (IHf Hall). lia.
  - rewrite len_cons. split; [lia|]. intros [Ho' Hall]%Forall_cons. specialize (IHf Hall). specialize (Hfit eq_refl Ho'). lia.
Qed.

(** ** The values of an accumulator *)

(** A finite accumulator holds no bits below its fractional bits and no [-0]. *)
Record kept (F b : Z) : Prop := {
  kp_finite : finite b;
  kp_trunc : f_man b mod 2 ^ (23 - Z.min F 23) = 0;
  kp_zero : fmag b = 0 → b = 0;
}.
Definition acc_ok (F b : Z) : Prop := kept F b ∨ b = POS_INF_BITS ∨ b = NEG_INF_BITS ∨ b = QNAN_BITS.

Lemma kept_0 F : 0 ≤ F → kept F 0.
Proof. intros HF. split; [done| |done]. apply Z.mod_0_l, Z.pow_nonzero; lia. Qed.

Lemma rounded_kept F m E r : rounded F m E r → kept F r.
Proof. intros [? ? ? ? ?]. by split. Qed.

(** Splitting a kept accumulator loses nothing. *)
Lemma kept_value F b :
  0 ≤ F ≤ 39 → kept F b → op_val F (fp32_to_operand F b) = fval b.
Proof.
  intros HF [[Hb Hfin] Hk _]. rewrite fp32_to_operand_fields by done.
  destruct ((f_exp b =? 0) && (f_man b =? 0)) eqn:Hz.
  { apply andb_true_iff in Hz as [He%Z.eqb_eq Hm%Z.eqb_eq]. unfold fval, fmag, f_sig. rewrite He, Hm. cbn. lia. }
  rewrite (proj2 (Z.eqb_neq _ _) Hfin). unfold op_val. cbn [op_is_zero op_sign op_significand op_exponent].
  unfold fval, fmag. f_equal. pose proof (f_scale_range b) as Hsc.
  set (t := 23 - Z.min F 23) in *. assert (∃ k, f_sig b = k * 2 ^ t) as [k Hs].
  { apply Z.mod_divide in Hk as [q Hq]; [|by apply Z.pow_nonzero; lia]. unfold f_sig. case_match; [by exists q|].
    exists (2 ^ (23 - t) + q). rewrite Z.mul_add_distr_r, <-Z.pow_add_r by lia. rewrite Hq. repeat f_equal. lia. }
  replace (f_scale b - 23) with (f_scale b - F - 23 + F) by lia.
  rewrite two_shift by lia. replace (f_scale b - F) with (f_scale b - F - 23 + 23) at 1 by lia. rewrite two_shift by lia.
  assert ((2 ^ 23 | f_sig b * 2 ^ F)) as [q Hq].
  { exists (k * 2 ^ (t + F - 23)). rewrite Hs, <-!Z.mul_assoc, <-!Z.pow_add_r by lia. f_equal. f_equal. lia. }
  rewrite Z.mul_assoc, Z.mul_assoc. f_equal. rewrite Hq, Z.div_mul by done. done.
Qed.

(** The terms of a chunk as the accumulators need them. *)
Record chunk_ok (F w : Z) (ops : list Operand) : Prop := {
  ck_bits : 0 ≤ F ≤ 39 ∧ F < w ≤ 62;
  ck_count : (len ops + 1) * 2 ^ w < 2 ^ 63;
  ck_finite : Forall op_finite ops;
  ck_ok : Forall (op_ok w) ops;
}.

Lemma op_ok_mono w w' o : w ≤ w' → op_ok w o → op_ok w' o.
Proof.
  intros Hw [? ? Hs]. split; [done|done|]. split; [lia|]. eapply Z.lt_le_trans; [apply Hs|].
  destruct (Z.le_gt_cases 0 w); [apply Z.pow_le_mono_r; lia|]. rewrite Z.pow_neg_r in Hs; lia.
Qed.

(** The chunk with the accumulator in front. *)
Lemma chunk_terms F w ops c :
  chunk_ok F w ops → kept F c →
  let ts := fp32_to_operand F c :: ops in
  Forall op_finite ts ∧ Forall (op_ok w) ts ∧ len ts * 2 ^ w < 2 ^ 63.
Proof.
  intros [HF Hc Hfin Hok] [Hcf _ _]. destruct (fp32_to_operand_spec F c) as (Ho1&Ho2&_); [lia|done|].
  cbn zeta. rewrite len_cons. split_and!; [by constructor| |lia]. constructor; [|done]. eapply op_ok_mono; [|done]. lia.
Qed.

Lemma rounded_0 F E r : rounded F 0 E r → r = 0.
Proof.
  intros Hr. apply (rd_zero _ _ _ _ Hr). pose proof (rd_below _ _ _ _ Hr). unfold fmag in *.
  pose proof (f_sig_range r). pose proof (f_scale_range r). pose proof (two_pos (f_scale r - 23) ltac:(lia)). nia.
Qed.

(** What [chunked_accumulate] does: [m] is the sum of the terms, each truncated at
    the exponent [E] of the largest, and the result is [m * 2 ^ (E - F)] truncated. *)
Definition sum_result (F m E r : Z) : Prop :=
  if m =? 0 then r = 0
  else if 128 <=? Z.log2 (Z.abs m) + E - F then r = if m <? 0 then NEG_INF_BITS else POS_INF_BITS
  else rounded F m E r.

Lemma accumulate_result F E_ZERO w ops c :
  chunk_ok F w ops → kept F c → -300 ≤ E_ZERO ≤ 300 →
  let ts := fp32_to_operand F c :: ops in
  let E := top_exp E_ZERO ts in
  let m := zsum (aligned_val E <$> ts) in
  let r := chunked_accumulate F E_ZERO ops c in
  (live ts = [] → r = 0) ∧ (live ts ≠ [] → -300 ≤ E ≤ 300 ∧ sum_result F m E r).
Proof.
  intros Hck Hc HE ts E m r. destruct (chunk_terms F w ops c Hck Hc) as (Hfin&Hok&Hlen). fold ts in Hfin, Hok, Hlen.
  destruct (ck_bits _ _ _ Hck) as [HF Hw].
  assert (r = if decide (live ts = []) then 0 else fixed_to_fp32 F (foldl (add_aligned E) 0 ts) E) as Hr.
  { apply chunked_finite; [done|]. intros o Ho. rewrite Forall_forall in Hok. apply (oo_exponent _ _ (Hok o Ho)). }
  split; intros Hl; rewrite Hr; [by rewrite decide_True|]. rewrite decide_False by done.
  pose proof (top_exp_range w E_ZERO ts Hl Hok HE) as HEr. split; [done|]. fold E in HEr.
  destruct (sum_exact w E ts 0 Hfin Hok ltac:(lia) (λ o, top_exp_bound E_ZERO ts o) ltac:(lia)) as [-> Hm]. fold m in Hm |- *.
  unfold sum_result. rewrite Z.add_0_l in *. destruct (Z.eqb_spec m 0) as [->|Hnz]; [done|].
  destruct (fixed_to_fp32_spec F m E HF HEr Hnz ltac:(lia)) as [Hbig Hsmall].
  destruct (Z.leb_spec 128 (Z.log2 (Z.abs m) + E - F)); auto.
Qed.

Lemma sum_result_acc F m E r : 0 ≤ F → sum_result F m E r → acc_ok F r.
Proof.
  intros HF. unfold sum_result. case_match; [intros ->; left; by apply kept_0|]. case_match; [|left; by eapply rounded_kept].
  intros ->. right. case_match; auto.
Qed.

(** The result against the aligned sum [x = m * 2 ^ (E - F)]. *)
Lemma sum_result_value F m E r :
  0 ≤ F ≤ 39 → -300 ≤ E ≤ 300 → sum_result F m E r →
  let x := m * two (E - F) in
  (kept F r ∧ Z.abs (fval r) ≤ Z.abs x < Z.abs (fval r) + ulp F r ∧ Z.abs (x - fval r) < ulp F r ∧ 0 ≤ x * fval r) ∨
  (r = POS_INF_BITS ∧ two 128 ≤ x) ∨ (r = NEG_INF_BITS ∧ two 128 ≤ - x).
Proof.
  intros HF HE Hr. cbn zeta. pose proof (two_pos (E - F) ltac:(lia)) as HU. unfold sum_result in Hr.
  destruct (Z.eqb_spec m 0) as [->|Hm].
  { subst r. left. assert (fval 0 = 0) as -> by done. assert (0 < ulp F 0) by (apply two_pos; change (f_scale 0) with (-126); lia).
    split; [apply kept_0; lia|]. lia. }
  destruct (Z.leb_spec 128 (Z.log2 (Z.abs m) + E - F)) as [Hbig|Hsmall].
  - right. assert (two 128 ≤ Z.abs m * two (E - F)) as Hx.
    { pose proof (Z.log2_spec (Z.abs m) ltac:(lia)) as [Hlog _]. pose proof (Z.log2_nonneg (Z.abs m)).
      etrans; [apply (two_le 128 (Z.log2 (Z.abs m) + E - F)); lia|].
      replace (Z.log2 (Z.abs m) + E - F) with (E - F + Z.log2 (Z.abs m)) by lia. rewrite two_shift by lia. nia. }
    destruct (Z.ltb_spec m 0); [right|left]; split; try done; nia.
  - left. split; [by eapply rounded_kept|]. destruct Hr as [Hfin Hs Hz Hb _].
    assert (0 ≤ fmag r) as Hf.
    { unfold fmag. pose proof (f_sig_range r). pose proof (f_scale_range r). pose proof (two_pos (f_scale r - 23)). nia. }
    assert (fval r = (if m <? 0 then -1 else 1) * fmag r) as ->.
    { unfold fval. destruct (Z.eq_dec (fmag r) 0) as [->|Hnz]; [lia|]. by rewrite Hs. }
    set (U := two (E - F)) in *. destruct (Z.ltb_spec m 0); split_and!; nia.
Qed.

(** C6. One step of an emulated accumulator is accurate.  For finite terms whose
    significands leave headroom, [chunked_accumulate] differs from the exact sum of
    the accumulator and the terms by less than one last place at the largest exponent
    [E] for each term that is not zero, plus one last place of the result; where no
    term loses bits in the alignment it is the exact sum truncated towards zero.  The
    64-bit sum never overflows, and an infinity is returned only when the sum reaches
    [2 ^ 128] up to the same error. *)
Theorem chunked_accumulate_accurate F E_ZERO w ops c :
  chunk_ok F w ops → kept F c → -300 ≤ E_ZERO ≤ 300 →
  let ts := fp32_to_operand F c :: ops in
  let E := top_exp E_ZERO ts in
  let S := fval c + zsum (op_val F <$> ops) in
  let err := len (live ts) * two (E - F) in
  let r := chunked_accumulate F E_ZERO ops c in
  live ts ≠ [] →
  (kept F r ∧ Z.abs (S - fval r) < err + ulp F r ∧
     (Forall (fits E) (live ts) → Z.abs (fval r) ≤ Z.abs S < Z.abs (fval r) + ulp F r ∧ 0 ≤ S * fval r)) ∨
  (r = POS_INF_BITS ∧ two 128 ≤ S + err) ∨ (r = NEG_INF_BITS ∧ two 128 ≤ - S + err).
Proof.
  intros Hck Hc HE ts E S err r Hl. destruct (chunk_terms F w ops c Hck Hc) as (Hfin&Hok&_). fold ts in Hfin, Hok.
  destruct (ck_bits _ _ _ Hck) as [HF Hw].
  destruct (proj2 (accumulate_result F E_ZERO w ops c Hck Hc HE) Hl) as [HEr Hr]. fold ts E r in HEr, Hr.
  destruct (sum_error w F E ts HF Hok ltac:(lia)) as [He Hfit].
  { intros o Ho. pose proof (top_exp_bound E_ZERO ts o Ho). fold E in H. lia. }
  assert (zsum (op_val F <$> ts) = S) as HS by (unfold ts; cbn; by rewrite kept_value).
  rewrite HS in *. pose proof (len_nonneg (live ts)). rewrite Z.mul_sub_distr_l, Z.mul_1_r in He. fold err in He.
  destruct (sum_result_value F _ E r HF HEr Hr) as [(Hk&Hb&Hd&Hs)|[[-> Hx]|[-> Hx]]].
  - left. split; [done|]. split; [lia|]. intros Hall. specialize (Hfit Hall).
    assert (zsum (aligned_val E <$> ts) * two (E - F) = S) as Hx by lia. by rewrite Hx in *.
  - right. left. split; [done|]. lia.
  - right. right. split; [done|]. lia.
Qed.

(** One plus one, both exact: the result is two. *)
Example chunked_accumulate_accurate_witness :
  let one := mkOperand 1 0 (2 ^ 13) false false false in
  let r := chunked_accumulate 13 (-133) [one] 0x3F800000 in
  kept 13 r ∧ Z.abs (fval r) ≤ Z.abs (fval 0x3F800000 + zsum (op_val 13 <$> [one])).
Proof.
  destruct (chunked_accumulate_accurate 13 (-133) 15 [mkOperand 1 0 (2 ^ 13) false false false] 0x3F800000)
    as [(Hk&_&Hfit)|[[Hr _]|[Hr _]]].
  - split; [lia|done|by repeat constructor|]. apply Forall_singleton. split; cbn; [by left|lia|lia].
  - split; [split; [lia|vm_compute; congruence]|reflexivity|vm_compute; congruence].
  - lia.
  - vm_compute. congruence.
  - split; [exact Hk|]. apply Hfit. repeat constructor; exists (2 ^ 13); reflexivity.
  - vm_compute in Hr. congruence.
  - vm_compute in Hr. congruence.
Defined.

(** ** Padding and order *)

Lemma zeros_live ops : Forall (λ o, op_is_zero o = true) ops → live ops = [].
Proof. induction 1 as [|o ops Ho _ IH]; [done|]. by rewrite live_cons, Ho. Qed.
Lemma zeros_sum E ops : Forall (λ o, op_is_zero o = true) ops → zsum (aligned_val E <$> ops) = 0.
Proof.
  induction 1 as [|o ops Ho _ IH]; [done|]. cbn. fold (zsum (aligned_val E <$> ops)). rewrite IH.
  unfold aligned_val. by rewrite Ho.
Qed.

Lemma fmag_range b : 0 ≤ fmag b < two (f_scale b + 1).
Proof.
  pose proof (f_sig_range b). pose proof (f_scale_range b). unfold fmag.
  replace (f_scale b + 1) with (f_scale b - 23 + 24) by lia. rewrite two_shift by lia.
  pose proof (two_pos (f_scale b - 23) ltac:(lia)). nia.
Qed.

(** A sum that is the value of an accumulator gives the accumulator. *)
Lemma sum_result_self F m E c r :
  0 ≤ F ≤ 39 → -300 ≤ E ≤ 300 → kept F c → fmag c ≠ 0 → m * two (E - F) = fval c → sum_result F m E r → r = c.
Proof.
  intros HF HE Hk Hnz Hx Hr. pose proof (fmag_range c) as Hf. pose proof (two_pos (E - F) ltac:(lia)) as HU.
  assert (Z.abs (fval c) = fmag c) as Habs by (unfold fval, fneg; case_match; lia).
  assert (f_scale c ≤ 127) as Hsc.
  { unfold f_scale. pose proof (f_exp_range c). destruct (kp_finite _ _ Hk). lia. }
  destruct (sum_result_value F m E r HF HE Hr) as [[[[_ Hfin] _ _] _]|Hbig].
  2:{ exfalso. rewrite Hx in Hbig. pose proof (two_le (f_scale c + 1) 128 ltac:(pose proof (f_scale_range c); lia)). lia. }
  unfold sum_result in Hr. destruct (Z.eqb_spec m 0) as [->|Hm]; [lia|].
  destruct (128 <=? _); [by subst r; destruct (m <? 0)|].
  apply (rounded_unique F m E r c); [lia|done|]. assert (Z.abs m * two (E - F) = fmag c) as Hxm by (rewrite <-Habs, <-Hx; nia).
  destruct Hk as [Hc1 Hc2 Hc3]. split; [done| |done| |done].
  - intros _. unfold fval in Hx. destruct (Z.ltb_spec m 0); unfold fneg in *; case_match; nia.
  - rewrite Hxm. split; [lia|]. assert (0 < ulp F c); [|lia]. apply two_pos. pose proof (f_scale_range c). lia.
Qed.

(** A chunk of zeros, as the padding of a tile is, leaves the accumulator alone. *)
Lemma zero_chunk F E_ZERO w ops c :
  chunk_ok F w ops → -300 ≤ E_ZERO ≤ -126 → Forall (λ o, op_is_zero o = true) ops → acc_ok F c →
  chunked_accumulate F E_ZERO ops c = c.
Proof.
  intros Hck HE Hz Hacc. destruct (ck_bits _ _ _ Hck) as [HF Hw]. pose proof (zeros_live ops Hz) as Hlive.
  destruct Hacc as [Hk|Hsp].
  2:{ unfold chunked_accumulate. rewrite scan_finite by apply (ck_finite _ _ _ Hck).
      rewrite fp32_to_operand_fields by (destruct Hsp as [->|[->| ->]]; done || lia). by destruct Hsp as [->|[->| ->]]. }
  destruct (accumulate_result F E_ZERO w ops c Hck Hk ltac:(lia)) as [H0 H1].
  destruct (fp32_to_operand_spec F c ltac:(lia) (kp_finite _ _ Hk)) as (_&_&Hcz&Hcv).
  rewrite live_cons, Hlive in *. set (co := fp32_to_operand F c) in *. destruct (op_is_zero co) eqn:Hco.
  { rewrite H0 by done. symmetry. apply (kp_zero _ _ Hk). by apply Hcz. }
  destruct (Hcv eq_refl) as (_&Hex&_). destruct (H1 ltac:(done)) as [HEr Hr]. clear H0 H1.
  assert (top_exp E_ZERO (co :: ops) = op_exponent co) as HEq.
  { unfold top_exp. rewrite live_cons, Hco, Hlive. cbn. pose proof (f_scale_range c). case_match; lia. }
  rewrite HEq in *. eapply (sum_result_self F _ (op_exponent co)); [done|done|done| |clear Hr|exact Hr].
  - intros Hf. apply Hcz in Hf. congruence.
  - cbn. fold (zsum (aligned_val (op_exponent co) <$> ops)). rewrite zeros_sum, Z.add_0_r by done.
    rewrite <-(kept_value F c HF Hk). unfold op_val, aligned_val, aligned. fold co. rewrite Hco, Z.sub_diag. cbn.
    rewrite Z.shiftr_0_r. lia.
Qed.

(** Within a chunk the order of the terms is irrelevant, whatever they are. *)
Lemma foldl_comm {A B} (f : A → B → A) (l l' : list B) (a : A) :
  (∀ a x y, f (f a x) y = f (f a y) x) → l ≡ₚ l' → foldl f a l = foldl f a l'.
Proof.
  intros Hf Hp. revert a. induction Hp as [|x l l' _ IH|x y l|l l' l'' _ IH _ IH']; intros a; cbn; [done|done| |].
  - by rewrite Hf.
  - by rewrite IH.
Qed.

Lemma scan_comm s x y : scan_operand (scan_operand s x) y = scan_operand (scan_operand s y) x.
Proof.
  unfold scan_operand; cbn. f_equal; try lia.
  - destruct (any_nan s), (op_is_nan x), (op_is_nan y); done.
  - destruct (any_inf s), (op_is_inf x), (op_is_inf y); done.
  - repeat case_match; lia.
  - destruct (any_zero s), (op_is_zero x), (op_is_zero y); done.
Qed.

Lemma add_aligned_comm E s x y : add_aligned E (add_aligned E s x) y = add_aligned E (add_aligned E s y) x.
Proof. unfold add_aligned. repeat case_match; try done. apply i64_swap. Qed.

Lemma chunked_accumulate_permutes F E_ZERO ops ops' c :
  ops ≡ₚ ops' → chunked_accumulate F E_ZERO ops c = chunked_accumulate F E_ZERO ops' c.
Proof.
  intros Hp. unfold chunked_accumulate. rewrite (foldl_comm scan_operand ops ops') by (done || apply scan_comm).
  case_match; [done|]. case_match; [done|]. f_equal. apply foldl_comm; [apply add_aligned_comm|done].
Qed.

(** ** Any term but an infinity *)

Lemma scan_any_nan ops s : any_nan (foldl scan_operand s ops) = any_nan s || existsb op_is_nan ops.
Proof.
  revert s. induction ops as [|o ops IH]; intros s; cbn; [by rewrite orb_false_r|]. rewrite IH. cbn. by rewrite orb_assoc.
Qed.

(** An accumulator stays one. *)
Lemma accumulate_acc F E_ZERO w ops c :
  0 ≤ F ≤ 39 → F < w ≤ 62 → (len ops + 1) * 2 ^ w < 2 ^ 63 → -300 ≤ E_ZERO ≤ 300 →
  Forall (op_ok w) ops → Forall (λ o, op_is_inf o = false) ops →
  acc_ok F c → acc_ok F (chunked_accumulate F E_ZERO ops c).
Proof.
  intros HF Hw Hlen HE Hok Hinf Hacc. destruct (existsb op_is_nan ops) eqn:Hnan.
  { unfold chunked_accumulate. destruct (op_is_nan (fp32_to_operand F c)); [right; auto|].
    unfold scan_result. rewrite scan_any_nan, Hnan, orb_true_r. right; auto. }
  assert (Forall op_finite ops) as Hfin.
  { rewrite Forall_forall in Hinf |- *. intros o Ho. split; [|by apply Hinf].
    destruct (op_is_nan o) eqn:Hn; [|done]. exfalso. apply not_true_iff_false in Hnan. apply Hnan.
    apply existsb_exists. exists o. split; [by apply list_elem_of_In|done]. }
  destruct Hacc as [Hk|Hsp].
  - destruct (accumulate_result F E_ZERO w ops c) as [H0 H1]; [by split|done|done|].
    destruct (decide (live (fp32_to_operand F c :: ops) = [])) as [Hl|Hl].
    + rewrite H0 by done. left. apply kept_0. lia.
    + destruct (H1 Hl) as [_ Hr]. eapply sum_result_acc; [|exact Hr]. lia.
  - unfold chunked_accumulate. rewrite scan_finite by done. rewrite fp32_to_operand_fields by (destruct Hsp as [->|[->| ->]]; done || lia).
    right. destruct Hsp as [->|[->| ->]]; cbn; auto.
Qed.
