(* ===== verification/MmaFormats.v ===== *)
(** * MMA emulation: element formats, block scales and the scale layout

    Models src/csrc/quantization/mma_emu/formats/: the E4M3 and E2M1 elements with
    their decoding at load time and their products (fp8_e4m3.cuh, fp4_e2m1.cuh), the
    UE4M3 and E8M0 block scales (nvfp4_ue4m3.cuh, mxfp4_e8m0.cuh) and the layout of
    the scales (scale_swizzle.cuh), with the accepted parameter values of
    core/design_space.cuh.

    A row of packed words, the accessor [DecodedFrag], is the list of its words.
    The loops over a row run twice over the products, as in the source. *)
From S2P Require Import Prelude MmaCore.

(** A significand of radix [radix] with [F] fractional bits, as a [uint64_t]. *)
Definition rescale (F radix raw : Z) : Z :=
  let scale_shift := F - radix in
  if 0 <=? scale_shift then u64 (Z.shiftl raw scale_shift) else Z.shiftr raw (- scale_shift).
(** The same on an [int64_t]. *)
Definition rescale_signed (F radix raw : Z) : Z :=
  let scale_shift := F - radix in
  if 0 <=? scale_shift then i64 (Z.shiftl raw scale_shift) else Z.shiftr raw (- scale_shift).

Definition zero_product : Product := mkProduct 1 0 0 true false false.
Definition nan_product : Product := mkProduct 1 0 0 false true false.
Definition nan_operand : Operand := mkOperand 1 0 0 false true false.

(** Four bytes in a word; the signed fields are stored as bytes. *)
Definition pack_word (sign sig exp flags : Z) : Z :=
  Z.lor (Z.lor (Z.lor (u8 sign) (u32 (Z.shiftl sig 8))) (u32 (Z.shiftl (u8 exp) 16))) (u32 (Z.shiftl flags 24)).
Definition word_byte (w i : Z) : Z := Z.land (Z.shiftr w (8 * i)) 0xFF.

(** ** FP8: E4M3 *)

Module Fp8.
Definition MANTISSA_BITS : Z := 3.
Definition EXPONENT_BIAS : Z := 7.
Definition IMPLICIT_ONE : Z := 8.
Definition PRODUCT_RADIX_BIT : Z := 6.
Definition NAN_PATTERN : Z := 0x7F.
Definition MAX_PRODUCT_EXP_DIFF : Z := 26.
Definition G_LOSSLESS : Z := 32.
Definition NAN_BIT : Z := 0x1.
Definition ZERO_BIT : Z := 0x2.

Record DecodedOperand := mkDecoded { sign : Z; significand : Z; exp : Z; flags : Z }.

Definition pack_decoded (d : DecodedOperand) : Z := pack_word (sign d) (significand d) (exp d) (flags d).
Definition unpack_decoded (w : Z) : DecodedOperand :=
  mkDecoded (i8 (word_byte w 0)) (word_byte w 1) (i8 (word_byte w 2)) (word_byte w 3).

Definition decode_operand (bits : Z) : DecodedOperand :=
  let sign := if negb (Z.land bits 0x80 =? 0) then -1 else 1 in
  let exponent := Z.land (Z.shiftr bits 3) 0x0F in
  let mantissa := Z.land bits 0x07 in
  if Z.land bits 0x7F =? NAN_PATTERN then mkDecoded sign 0 0 NAN_BIT
  else if (exponent =? 0) && (mantissa =? 0) then mkDecoded sign 0 0 ZERO_BIT
  else if exponent =? 0 then mkDecoded sign (u8 mantissa) (i8 (1 - EXPONENT_BIAS)) 0
  else mkDecoded sign (u8 (IMPLICIT_ONE + mantissa)) (i8 (exponent - EXPONENT_BIAS)) 0.

Definition multiply_predecoded (F : Z) (a b : DecodedOperand) : Product :=
  if negb (Z.land (flags a) NAN_BIT =? 0) || negb (Z.land (flags b) NAN_BIT =? 0) then nan_product
  else if negb (Z.land (flags a) ZERO_BIT =? 0) || negb (Z.land (flags b) ZERO_BIT =? 0) then zero_product
  else mkProduct (sign a * sign b) (exp a + exp b)
         (rescale F PRODUCT_RADIX_BIT (u64 (significand a * significand b))) false false false.

Record FP8Components := mkComponents {
  c_sign : Z; c_exponent : Z; c_mantissa : Z; c_zero : bool; c_subnormal : bool; c_nan : bool
}.

Definition decompose_fp8_e4m3 (bits : Z) : FP8Components :=
  let sign := if negb (Z.land bits 0x80 =? 0) then -1 else 1 in
  let exponent := Z.land (Z.shiftr bits 3) 0x0F in
  let mantissa := Z.land bits 0x07 in
  if Z.land bits 0x7F =? NAN_PATTERN then mkComponents sign exponent mantissa false false true
  else if (exponent =? 0) && (mantissa =? 0) then mkComponents sign exponent mantissa true false false
  else mkComponents sign exponent mantissa false (exponent =? 0) false.

(** The significand with the implicit bit and the unbiased exponent. *)
Definition component_sig (c : FP8Components) : Z := if c_subnormal c then c_mantissa c else IMPLICIT_ONE + c_mantissa c.
Definition component_exp (c : FP8Components) : Z := if c_subnormal c then 1 - EXPONENT_BIAS else c_exponent c - EXPONENT_BIAS.

Definition multiply_unnormalized (F : Z) (a b : FP8Components) : Product :=
  if c_nan a || c_nan b then nan_product
  else if c_zero a || c_zero b then zero_product
  else mkProduct (c_sign a * c_sign b) (component_exp a + component_exp b)
         (rescale F PRODUCT_RADIX_BIT (u64 (component_sig a * component_sig b))) false false false.
Definition multiply (F a_bits b_bits : Z) : Product :=
  multiply_unnormalized F (decompose_fp8_e4m3 a_bits) (decompose_fp8_e4m3 b_bits).

(** The variant that marks a product truncated to nothing as zero. *)
Definition multiply_unnormalized_g (G : Z) (a b : FP8Components) : Product :=
  let p := multiply_unnormalized G a b in
  if pr_is_nan p || pr_is_zero p then p
  else mkProduct (pr_sign p) (pr_exponent p) (pr_significand p) (pr_significand p =? 0) false false.
Definition multiply_g (G a_bits b_bits : Z) : Product :=
  multiply_unnormalized_g G (decompose_fp8_e4m3 a_bits) (decompose_fp8_e4m3 b_bits).

(** The product of the elements of two rows at one index. *)
Definition frag_product (F : Z) (ab : Z * Z) : Product :=
  multiply_predecoded F (unpack_decoded ab.1) (unpack_decoded ab.2).

Definition gdfs_group_accumulate_predecoded (G : Z) (a_frag b_frag : list Z) : GroupResult :=
  let elems := zip a_frag b_frag in
  let '(zero, max_exp) := foldl (λ s ab, group_scan s (frag_product G ab)) (true, -9999) elems in
  if zero then mkGroupResult 0 0 true
  else mkGroupResult (foldl (λ sum ab, group_add max_exp sum (frag_product G ab)) 0 elems) max_exp false.

Definition group_to_operand_fp8 (F G mantissa_sum max_exp : Z) : Operand :=
  if mantissa_sum =? 0 then make_zero_operand
  else
    let sign := if mantissa_sum <? 0 then -1 else 1 in
    let abs_sum := if mantissa_sum <? 0 then i64 (- mantissa_sum) else mantissa_sum in
    mkOperand sign max_exp (rescale_signed F G abs_sum) false false false.

(** The fused loop of CoFDA: the two passes of [chunked_accumulate] with the
    products made where they are used. *)
Definition cofda_mma (F E_ZERO : Z) (a_frag b_frag : list Z) (c : Z) : Z :=
  let elems := zip a_frag b_frag in
  let c_operand := fp32_to_operand F c in
  if op_is_nan c_operand then QNAN_BITS
  else
    match scan_result E_ZERO
      (foldl (λ s ab, scan_operand s (operand_of_product (frag_product F ab))) (scan_start c_operand) elems) with
    | inl special => special
    | inr max_exp =>
        let start := if negb (op_is_zero c_operand) && negb (op_is_inf c_operand)
                     then i64 (0 + i64 (op_sign c_operand * aligned max_exp (op_exponent c_operand) (op_significand c_operand)))
                     else 0 in
        fixed_to_fp32 F
          (foldl (λ sum ab, add_aligned max_exp sum (operand_of_product (frag_product F ab))) start elems) max_exp
    end.
End Fp8.

(** ** FP4: E2M1 *)

Module Fp4.
Definition BLOCK_SIZE : Z := 16.
Definition MANTISSA_BITS : Z := 1.
Definition EXPONENT_BIAS : Z := 1.
Definition IMPLICIT_ONE : Z := 2.
Definition PRODUCT_RADIX_BIT : Z := 2.
Definition MAX_PRODUCT_EXP_DIFF : Z := 4.
Definition G_LOSSLESS : Z := 6.
Definition ZERO_BIT : Z := 0x1.

(** An element of a tile of bytes with two of them each. *)
Definition load_fp4_from_tile (tile : Z → Z) (local_m k_local bk_packed : Z) : Z :=
  let byte := tile (local_m * bk_packed + k_local / 2) in
  if k_local mod 2 =? 0 then Z.land byte 0x0F else Z.shiftr byte 4.

Record FP4Components := mkComponents {
  c_sign : Z; c_exponent : Z; c_mantissa : Z; c_zero : bool; c_subnormal : bool
}.

Definition decompose_fp4_e2m1 (val : Z) : FP4Components :=
  let sign := if negb (Z.land val 0x8 =? 0) then -1 else 1 in
  let mag := Z.land val 0x7 in
  let exponent := Z.land (Z.shiftr mag MANTISSA_BITS) 0x3 in
  let mantissa := Z.land mag 0x1 in
  if mag =? 0 then mkComponents sign exponent mantissa true false
  else mkComponents sign exponent mantissa false (exponent =? 0).

Record DecodedFP4Operand := mkDecoded { sign : Z; sig : Z; exp : Z; flags : Z }.

Definition pack_decoded_fp4 (d : DecodedFP4Operand) : Z := pack_word (sign d) (sig d) (exp d) (flags d).
Definition unpack_decoded_fp4 (w : Z) : DecodedFP4Operand :=
  mkDecoded (i8 (word_byte w 0)) (word_byte w 1) (i8 (word_byte w 2)) (word_byte w 3).

Definition decode_fp4_operand (nibble : Z) : DecodedFP4Operand :=
  let sign := if negb (Z.land nibble 0x8 =? 0) then -1 else 1 in
  let mag := Z.land nibble 0x7 in
  let exp_field := Z.land (Z.shiftr mag MANTISSA_BITS) 0x3 in
  let mant := Z.land mag 0x1 in
  if mag =? 0 then mkDecoded sign 0 0 ZERO_BIT
  else if exp_field =? 0 then mkDecoded sign mant (i8 (1 - EXPONENT_BIAS)) 0
  else mkDecoded sign (u8 (IMPLICIT_ONE + mant)) (i8 (exp_field - EXPONENT_BIAS)) 0.

Definition multiply_predecoded (G : Z) (a b : DecodedFP4Operand) : Product :=
  if negb (Z.land (flags a) ZERO_BIT =? 0) || negb (Z.land (flags b) ZERO_BIT =? 0) then zero_product
  else
    let significand := rescale G PRODUCT_RADIX_BIT (u64 (sig a * sig b)) in
    mkProduct (sign a * sign b) (exp a + exp b) significand (significand =? 0) false false.

Definition component_sig (c : FP4Components) : Z := if c_subnormal c then c_mantissa c else IMPLICIT_ONE + c_mantissa c.
Definition component_exp (c : FP4Components) : Z := if c_subnormal c then 1 - EXPONENT_BIAS else c_exponent c - EXPONENT_BIAS.

Definition multiply_unnormalized (G : Z) (a b : FP4Components) : Product :=
  if c_zero a || c_zero b then zero_product
  else
    let significand := rescale G PRODUCT_RADIX_BIT (u64 (component_sig a * component_sig b)) in
    mkProduct (c_sign a * c_sign b) (component_exp a + component_exp b) significand (significand =? 0) false false.

Definition frag_product (G : Z) (ab : Z * Z) : Product :=
  multiply_predecoded G (unpack_decoded_fp4 ab.1) (unpack_decoded_fp4 ab.2).

Definition gdfs_group_accumulate_predecoded (G : Z) (a_frag b_frag : list Z) : GroupResult :=
  let elems := zip a_frag b_frag in
  let '(zero, max_exp) := foldl (λ s ab, group_scan s (frag_product G ab)) (true, -9999) elems in
  if zero then mkGroupResult 0 0 true
  else mkGroupResult (foldl (λ sum ab, group_add max_exp sum (frag_product G ab)) 0 elems) max_exp false.
End Fp4.

(** ** Block scales *)

(** UE4M3, the scales of NVFP4. *)
Module Ue4m3.
Definition NAN_VALUE : Z := 0x7F.
Definition EXPONENT_BIAS : Z := 7.
Definition Q1_3_SHIFT : Z := 3.

Definition is_nan (val : Z) : bool := Z.land val 0x7F =? NAN_VALUE.

(** The unbiased exponent and the significand of a masked scale. *)
Definition scale_exp (s : Z) : Z :=
  let e := Z.land (Z.shiftr s Q1_3_SHIFT) 0xF in if e =? 0 then -6 else e - EXPONENT_BIAS.
Definition scale_sig (s : Z) : Z :=
  if Z.land (Z.shiftr s Q1_3_SHIFT) 0xF =? 0 then Z.land s 0x7 else 8 + Z.land s 0x7.

Definition apply_scales (F G mantissa_sum max_exp sfa sfb : Z) : Operand :=
  let a := Z.land sfa 0x7F in
  let b := Z.land sfb 0x7F in
  if is_nan sfa || is_nan sfb then nan_operand
  else if (a =? 0) || (b =? 0) then make_zero_operand
  else
    let sign := if mantissa_sum <? 0 then -1 else 1 in
    let abs_sum := if mantissa_sum <? 0 then i64 (- mantissa_sum) else mantissa_sum in
    let sf_product := i64 (scale_sig a * scale_sig b) in
    let scaled_sum := i64 (Z.shiftl (i64 (abs_sum * sf_product)) max_exp) in
    mkOperand sign (scale_exp a + scale_exp b) (rescale_signed F (G + 6) scaled_sum) false false false.

Definition product_with_scales (F : Z) (a b : Fp4.FP4Components) (sfa sfb : Z) : Operand :=
  let ma := Z.land sfa 0x7F in
  let mb := Z.land sfb 0x7F in
  if is_nan sfa || is_nan sfb then nan_operand
  else if Fp4.c_zero a || Fp4.c_zero b || (ma =? 0) || (mb =? 0) then make_zero_operand
  else
    let raw_product := u64 (Fp4.component_sig a * Fp4.component_sig b) in
    let scaled_product := i64 (i64 (i64 raw_product * scale_sig ma) * scale_sig mb) in
    let significand := rescale_signed F (Fp4.PRODUCT_RADIX_BIT + 2 * Q1_3_SHIFT) scaled_product in
    mkOperand (Fp4.c_sign a * Fp4.c_sign b)
      (Fp4.component_exp a + Fp4.component_exp b + (scale_exp ma + scale_exp mb))
      significand (significand =? 0) false false.
End Ue4m3.

(** E8M0, the scales of MXFP4. *)
Module E8m0.
Definition BLOCK_SIZE : Z := 32.
Definition EXPONENT_BIAS : Z := 127.
Definition NAN_VALUE : Z := 0xFF.

Definition is_nan (val : Z) : bool := val =? NAN_VALUE.
Definition to_exponent (val : Z) : Z := val - EXPONENT_BIAS.

Definition apply_scales (F G mantissa_sum max_exp sfa sfb : Z) : Operand :=
  if is_nan sfa || is_nan sfb then nan_operand
  else
    let sign := if mantissa_sum <? 0 then -1 else 1 in
    let abs_sum := if mantissa_sum <? 0 then i64 (- mantissa_sum) else mantissa_sum in
    let shifted_sum := u64 (Z.shiftl (u64 abs_sum) max_exp) in
    mkOperand sign (to_exponent sfa + to_exponent sfb) (i64 (rescale F G shifted_sum)) false false false.

Definition product_with_scales (F : Z) (a b : Fp4.FP4Components) (sfa sfb : Z) : Operand :=
  if is_nan sfa || is_nan sfb then nan_operand
  else if Fp4.c_zero a || Fp4.c_zero b then make_zero_operand
  else
    let raw_product := u64 (Fp4.component_sig a * Fp4.component_sig b) in
    let significand := rescale_signed F Fp4.PRODUCT_RADIX_BIT (i64 raw_product) in
    mkOperand (Fp4.c_sign a * Fp4.c_sign b)
      (Fp4.component_exp a + Fp4.component_exp b + (to_exponent sfa + to_exponent sfb))
      significand (significand =? 0) false false.
End E8m0.

(** ** The layout of the block scales *)

Definition M_TILE_SIZE : Z := 128.
Definition K_BLOCKS_PER_TILE : Z := 4.

(** [swizzle::read_scale<BLKSZ>]; the index is an [int]. *)
Definition swizzled_idx (BLKSZ m k_block K : Z) : Z :=
  let num_k_blocks := (K + BLKSZ - 1) / BLKSZ in
  let k_tiles := (num_k_blocks + K_BLOCKS_PER_TILE - 1) / K_BLOCKS_PER_TILE in
  let m_tile := m / M_TILE_SIZE in
  let m_in_tile := m mod M_TILE_SIZE in
  let group_of_4 := m_in_tile / 32 in
  let row_in_32 := m_in_tile mod 32 in
  let k_tile := k_block / K_BLOCKS_PER_TILE in
  let k_in_tile := k_block mod K_BLOCKS_PER_TILE in
  i32 (k_in_tile + 4 * (group_of_4 + 4 * (row_in_32 + 32 * (k_tile + k_tiles * m_tile)))).
Definition read_scale (BLKSZ : Z) (sf_swizzled : list Z) (m k_block K : Z) : option Z :=
  let idx := swizzled_idx BLKSZ m k_block K in
  if idx <? 0 then None else sf_swizzled !! Z.to_nat idx.

(** ** The accepted parameter values *)

Definition kGDFS : Z := 1.
Definition kCoFDA : Z := 2.
Definition kCoFDADecoupled : Z := 3.
Definition COFDA_F : list Z := [3; 5; 7; 9; 10; 11; 12; 13; 17; 21; 25].
Definition GDFS_F : list Z := [7; 9; 10; 11; 13; 15; 25; 35].
Definition FP8_CS : list Z := [16; 32].
Definition MXFP4_CS : list Z := [16; 32].
Definition FP8_GS : list Z := [8; 16].
Definition MXFP4_GS : list Z := [16; 32].
Definition FP8_G : list Z := [3; 4; 5; 6; 8; 13; 32].
Definition FP4_G : list Z := [3; 4; 5; 6].
Definition ds_contains (set : list Z) (value : Z) : bool := existsb (λ x, x =? value) set.
