(* ===== verification/MmaFormatsFacts.v ===== *)
(** * MMA emulation: the formats are decoded faithfully

    The decoding at load time and the packing into words agree with the decomposition
    of the elements, and the products keep within the bounds that the accumulators
    need. *)
From S2P Require Import Prelude MmaCore MmaFacts MmaSum MmaFormats.

(** Checking a property of every byte, or of every nibble. *)
Lemma all_below (n : Z) (P : Z → bool) : forallb P (py_range 0 n) = true → ∀ x, 0 ≤ x < n → P x = true.
Proof.
  intros Hall x Hx. rewrite forallb_forall in Hall. apply Hall. apply list_elem_of_In. apply elem_of_seqZ. lia.
Qed.

Lemma foldl_fmap {A B C} (f : A → C → A) (g : B → C) l (s : A) : foldl f s (g <$> l) = foldl (λ s x, f s (g x)) s l.
Proof. revert s. by induction l; cbn. Qed.
Lemma foldl_ext_in {A B} (f g : A → B → A) l s :
  (∀ a x, x ∈ l → f a x = g a x) → foldl f s l = foldl g s l.
Proof.
  revert s. induction l as [|x l IH]; intros s Hf; [done|]. cbn. rewrite Hf by (by left). apply IH.
  intros a y Hy. apply Hf. by right.
Qed.

(** ** Rescaling *)

Lemma rescale_range F radix raw n :
  0 ≤ F ≤ 39 → 0 ≤ radix → 0 ≤ raw < 2 ^ n → radix ≤ n → n + F - radix ≤ 62 →
  0 ≤ rescale F radix raw < 2 ^ (n + F - radix).
Proof.
  intros HF Hr Hraw Hn Hb. unfold rescale. destruct (Z.leb_spec 0 (F - radix)).
  - rewrite Z.shiftl_mul_pow2 by done. assert (0 ≤ raw * 2 ^ (F - radix) < 2 ^ (n + F - radix)) as Hx.
    { replace (n + F - radix) with (n + (F - radix)) by lia. rewrite Z.pow_add_r by lia.
      pose proof (Z.pow_pos_nonneg 2 (F - radix)). nia. }
    rewrite u64_small; [done|]. split; [lia|]. eapply Z.lt_le_trans; [apply Hx|].
    apply (Z.pow_le_mono_r 2 _ 64); lia.
  - rewrite Z.shiftr_div_pow2 by lia. pose proof (Z.pow_pos_nonneg 2 (- (F - radix)) ltac:(lia) ltac:(lia)).
    split; [apply Z.div_pos; lia|]. apply Z.div_lt_upper_bound; [lia|]. rewrite <-Z.pow_add_r by lia.
    eapply Z.lt_le_trans; [apply Hraw|]. apply Z.pow_le_mono_r; lia.
Qed.

(** ** FP8 *)

Module Fp8Facts.
Import Fp8.

(** Decoding against decomposing, for one byte. *)
Definition decode_agrees (x : Z) : bool :=
  let d := unpack_decoded (pack_decoded (decode_operand x)) in
  let c := decompose_fp8_e4m3 x in
  eqb (negb (Z.land (flags d) NAN_BIT =? 0)) (c_nan c) &&
  eqb (negb (Z.land (flags d) ZERO_BIT =? 0)) (c_zero c) &&
  (c_nan c || c_zero c ||
    (sign d =? c_sign c) && (significand d =? component_sig c) && (exp d =? component_exp c) &&
    ((c_sign c =? 1) || (c_sign c =? -1)) && (0 <=? component_sig c) && (component_sig c <? 16) &&
    (-6 <=? component_exp c) && (component_exp c <=? 8)).

Lemma decode_agrees_all x : 0 ≤ x < 256 → decode_agrees x = true.
Proof. apply all_below. vm_compute. reflexivity. Qed.

(** The words hold what [multiply] computes from the bytes. *)
Lemma frag_product_multiply F x y :
  0 ≤ x < 256 → 0 ≤ y < 256 →
  frag_product F (pack_decoded (decode_operand x), pack_decoded (decode_operand y)) = multiply F x y.
Proof.
  intros Hx%decode_agrees_all Hy%decode_agrees_all. unfold decode_agrees in *.
  unfold frag_product, multiply, multiply_predecoded, multiply_unnormalized. cbn [fst snd].
  set (dx := unpack_decoded _) in *. set (dy := unpack_decoded (pack_decoded (decode_operand y))) in *.
  set (cx := decompose_fp8_e4m3 x) in *. set (cy := decompose_fp8_e4m3 y) in *.
  rewrite !andb_true_iff in Hx, Hy. destruct Hx as [[Hx1%eqb_prop Hx2%eqb_prop] Hx3].
  destruct Hy as [[Hy1%eqb_prop Hy2%eqb_prop] Hy3]. rewrite Hx1, Hx2, Hy1, Hy2.
  destruct (c_nan cx), (c_nan cy); try done. destruct (c_zero cx), (c_zero cy); try done. cbn in *.
  rewrite !andb_true_iff, !Z.eqb_eq in Hx3, Hy3. destruct_and!. congruence.
Qed.

Lemma empty_ok w z n i : 0 ≤ w → op_ok w (mkOperand 1 0 0 z n i).
Proof. intros Hw. split; cbn; [by left|lia|]. split; [lia|apply Z.pow_pos_nonneg; lia]. Qed.

(** A product is NaN, or a term the accumulators can take. *)
Lemma multiply_ok F x y :
  0 ≤ F ≤ 39 → 0 ≤ x < 256 → 0 ≤ y < 256 →
  let o := operand_of_product (multiply F x y) in
  op_ok (F + 2) o ∧ op_is_inf o = false ∧ -12 ≤ op_exponent o ≤ 16.
Proof.
  intros HF Hx%decode_agrees_all Hy%decode_agrees_all. unfold decode_agrees in *. cbn zeta.
  unfold multiply, multiply_unnormalized. set (cx := decompose_fp8_e4m3 x) in *. set (cy := decompose_fp8_e4m3 y) in *.
  apply andb_true_iff in Hx as [_ Hx], Hy as [_ Hy].
  destruct (c_nan cx || c_nan cy) eqn:Hn.
  { change (operand_of_product nan_product) with nan_operand. split_and!; [apply empty_ok; lia|done..]. }
  destruct (c_zero cx || c_zero cy) eqn:Hz.
  { change (operand_of_product zero_product) with make_zero_operand. split_and!; [apply empty_ok; lia|done..]. }
  apply orb_false_iff in Hn as [Hnx Hny], Hz as [Hzx Hzy]. rewrite Hnx, Hzx in Hx. rewrite Hny, Hzy in Hy. cbn in Hx, Hy.
  rewrite !andb_true_iff, !orb_true_iff, !Z.eqb_eq, !Z.leb_le, !Z.ltb_lt in Hx, Hy.
  destruct Hx as [[[[[_ Hsx] Hlx] Hux] Hex] Hfx], Hy as [[[[[_ Hsy] Hly] Huy] Hey] Hfy].
  assert (0 ≤ component_sig cx * component_sig cy ≤ 225) as Hraw by nia.
  pose proof (rescale_range F 6 (component_sig cx * component_sig cy) 8 HF ltac:(lia) ltac:(lia) ltac:(lia) ltac:(lia)) as Hr.
  replace (8 + F - 6) with (F + 2) in Hr by lia.
  assert (2 ^ (F + 2) ≤ 2 ^ 41) by (apply Z.pow_le_mono_r; lia).
  cbn. unfold PRODUCT_RADIX_BIT. rewrite u64_small by lia. split_and!; [|done|lia|lia]. split; cbn.
  - destruct Hsx as [->| ->], Hsy as [->| ->]; lia.
  - lia.
  - rewrite i64_small by lia. done.
Qed.

Lemma multiply_0 F : multiply F 0 0 = zero_product.
Proof. reflexivity. Qed.

(** The streamed loops are the loops over arrays of products. *)
Lemma cofda_mma_eq F E_ZERO a_frag b_frag c :
  cofda_mma F E_ZERO a_frag b_frag c = fda_accumulate_chunk F E_ZERO (frag_product F <$> zip a_frag b_frag) c.
Proof.
  unfold cofda_mma, fda_accumulate_chunk, chunked_accumulate. rewrite !foldl_fmap.
  case_match; [done|]. case_match; [done|]. by rewrite !foldl_fmap.
Qed.

Lemma group_accumulate_eq G a_frag b_frag :
  gdfs_group_accumulate_predecoded G a_frag b_frag = group_accumulate (frag_product G <$> zip a_frag b_frag).
Proof.
  unfold gdfs_group_accumulate_predecoded, group_accumulate. rewrite foldl_fmap. case_match. case_match; [done|].
  by rewrite foldl_fmap.
Qed.
End Fp8Facts.
