(* ===== verification/MmaExact.v ===== *)
(** * MMA emulation: when a group is exact

    The sum of a GDFS group carries [G] fractional bits.  It is exact when [G] covers
    the fractional bits of a product and the spread of the exponents of the products,
    which for E2M1 is [G = 6] and for E4M3 is [G = 34]. *)
From S2P Require Import Prelude MmaCore MmaFacts MmaSum MmaFormats MmaFormatsFacts.

(** ** FP4 decoding *)

Module Fp4Facts.
Import Fp4.

Definition decode_agrees (x : Z) : bool :=
  let d := unpack_decoded_fp4 (pack_decoded_fp4 (decode_fp4_operand x)) in
  let c := decompose_fp4_e2m1 x in
  eqb (negb (Z.land (flags d) ZERO_BIT =? 0)) (c_zero c) &&
  (c_zero c || (sign d =? c_sign c) && (sig d =? component_sig c) && (exp d =? component_exp c)).

Lemma fp4_decode_agrees_all x : 0 ≤ x < 16 → decode_agrees x = true.
Proof. apply all_below. vm_compute. reflexivity. Qed.

Definition multiply (G a b : Z) : Product := multiply_unnormalized G (decompose_fp4_e2m1 a) (decompose_fp4_e2m1 b).

Lemma fp4_frag_product_multiply G x y :
  0 ≤ x < 16 → 0 ≤ y < 16 →
  frag_product G (pack_decoded_fp4 (decode_fp4_operand x), pack_decoded_fp4 (decode_fp4_operand y)) = multiply G x y.
Proof.
  intros Hx%fp4_decode_agrees_all Hy%fp4_decode_agrees_all. unfold decode_agrees in *.
  unfold frag_product, multiply, multiply_predecoded, multiply_unnormalized. cbn [fst snd].
  set (dx := unpack_decoded_fp4 _) in *. set (dy := unpack_decoded_fp4 (pack_decoded_fp4 (decode_fp4_operand y))) in *.
  set (cx := decompose_fp4_e2m1 x) in *. set (cy := decompose_fp4_e2m1 y) in *.
  rewrite !andb_true_iff in Hx, Hy. destruct Hx as [Hx1%eqb_prop Hx2], Hy as [Hy1%eqb_prop Hy2]. rewrite Hx1, Hy1.
  destruct (c_zero cx), (c_zero cy); try done. cbn in *. rewrite !andb_true_iff, !Z.eqb_eq in Hx2, Hy2. destruct_and!. congruence.
Qed.

Lemma fp4_group_accumulate_eq G a_frag b_frag :
  gdfs_group_accumulate_predecoded G a_frag b_frag = group_accumulate (frag_product G <$> zip a_frag b_frag).
Proof.
  unfold gdfs_group_accumulate_predecoded, group_accumulate. rewrite foldl_fmap. case_match. case_match; [done|].
  by rewrite foldl_fmap.
Qed.
End Fp4Facts.

(** ** Groups of finite products *)

Lemma group_scan_spec ps s :
  foldl group_scan s ps =
    (s.1 && forallb pr_is_zero ps, foldl Z.max s.2 (op_exponent <$> live (operand_of_product <$> ps))).
Proof.
  revert s. induction ps as [|p ps IH]; intros [z e]; cbn [foldl forallb]; [by rewrite andb_true_r|].
  rewrite IH, fmap_cons, live_cons. unfold group_scan. change (op_is_zero (operand_of_product p)) with (pr_is_zero p).
  destruct (pr_is_zero p); cbn; [done|]. rewrite andb_false_r. repeat f_equal.
  destruct (Z.ltb_spec e (pr_exponent p)); lia.
Qed.

Lemma all_zero_live ps : forallb pr_is_zero ps = true ↔ live (operand_of_product <$> ps) = [].
Proof.
  induction ps as [|p ps IH]; [done|]. cbn [forallb]. rewrite fmap_cons, live_cons.
  change (op_is_zero (operand_of_product p)) with (pr_is_zero p). by destruct (pr_is_zero p).
Qed.

(** The largest exponent is that of a term. *)
Lemma max_attained w ts :
  live ts ≠ [] → Forall (op_ok w) ts →
  let E := foldl Z.max (-9999) (op_exponent <$> live ts) in
  ∃ o, o ∈ live ts ∧ E = op_exponent o ∧ ∀ o', o' ∈ live ts → op_exponent o' ≤ E.
Proof.
  intros Hl Hok E. rewrite Forall_forall in Hok.
  assert (∀ o, o ∈ live ts → op_exponent o ≤ E) as Hmax.
  { intros o Ho. destruct (foldl_max_le (-9999) (op_exponent <$> live ts)) as [_ Hm]. apply Hm. apply list_elem_of_fmap. by exists o. }
  destruct (foldl_max_in (-9999) (op_exponent <$> live ts)) as [Heq|Hin]; fold E in Heq || fold E in Hin.
  - exfalso. destruct (live ts) as [|o l] eqn:He; [done|]. assert (o ∈ live ts) as Ho by (rewrite He; by left).
    pose proof (Hmax o ltac:(by left)). apply elem_of_live in Ho as [_ Ho]. pose proof (oo_exponent _ _ (Hok o Ho)). lia.
  - apply list_elem_of_fmap in Hin as (o&Ho&Hin). by exists o.
Qed.

(** A group whose terms all fit is the exact sum. *)
Lemma group_exact G w ps :
  let ops := operand_of_product <$> ps in
  let gr := group_accumulate ps in
  0 ≤ G ≤ 39 → 0 ≤ w ≤ 62 → len ps * 2 ^ w < 2 ^ 63 → Forall op_finite ops → Forall (op_ok w) ops →
  (∀ o o', o ∈ live ops → o' ∈ live ops → op_exponent o ≤ op_exponent o' → fits (op_exponent o') o) →
  mantissa_sum gr * two (gr_max_exp gr - G) = zsum (op_val G <$> ops).
Proof.
  intros ops gr HG Hw Hlen Hfin Hok Hfit. unfold gr, group_accumulate. rewrite group_scan_spec. cbn [fst snd andb]. fold ops.
  destruct (forallb pr_is_zero ps) eqn:Hz.
  { cbn. apply all_zero_live in Hz. fold ops in Hz. symmetry. clear -Hz. induction ops as [|o ops IH]; [done|].
    cbn. rewrite live_cons in Hz. unfold op_val at 1. destruct (op_is_zero o); [|done]. by apply IH. }
  set (E := foldl Z.max (-9999) (op_exponent <$> live ops)). cbn [mantissa_sum gr_max_exp].
  assert (foldl (group_add E) 0 ps = foldl (add_aligned E) 0 ops) as ->.
  { unfold ops. rewrite foldl_fmap. apply foldl_ext_in. intros s p Hp. rewrite Forall_forall in Hfin.
    destruct (Hfin (operand_of_product p)) as [Hn Hi]; [by apply list_elem_of_fmap; exists p|].
    unfold group_add, add_aligned. rewrite Hn, Hi, !orb_false_r. done. }
  assert (live ops ≠ []) as Hl by (intros He; apply all_zero_live in He; congruence).
  destruct (max_attained w ops Hl Hok) as (om&Hom&HE&Hmax). fold E in HE, Hmax.
  assert (E ≤ 300) as HE3.
  { rewrite HE. apply elem_of_live in Hom as [_ Ho]. rewrite Forall_forall in Hok. apply (oo_exponent _ _ (Hok om Ho)). }
  destruct (sum_exact w E ops 0 Hfin Hok ltac:(lia) Hmax) as [-> _]; [unfold ops; rewrite len_fmap; lia|].
  destruct (sum_error w G E ops HG Hok ltac:(lia)) as [_ Hex]; [intros o Ho; split; [by apply Hmax|done]|].
  rewrite Z.add_0_l. cut (zsum (op_val G <$> ops) - zsum (aligned_val E <$> ops) * two (E - G) = 0); [lia|].
  apply Hex. apply Forall_forall. intros o Ho. rewrite HE. apply Hfit; [done|done|]. rewrite <-HE. by apply Hmax.
Qed.

(** ** The values of the elements *)

(** E2M1 in units of one half, E4M3 in units of [2 ^ -9]. *)
Definition e2m1 (x : Z) : Z := (if x <? 8 then 1 else -1) * [0; 1; 2; 3; 4; 6; 8; 12] !!! Z.to_nat (x mod 8).
Definition e4m3 (x : Z) : Z :=
  (if x <? 128 then 1 else -1) *
  (let e := x / 8 mod 16 in if e =? 0 then x mod 8 else (8 + x mod 8) * 2 ^ (e - 1)).
Definition e4m3_nan (x : Z) : bool := x mod 128 =? 127.

(** What the lemmas below need of a product of two elements. *)
Record product_spec (G radix lo hi : Z) (o : Operand) (v : Z) : Prop := {
  ps_finite : op_finite o;
  ps_ok : op_ok (G + 2) o;
  ps_value : op_val G o = v;
  ps_exponent : op_is_zero o = false → lo ≤ op_exponent o ≤ hi;
  ps_divides : (2 ^ (G - radix) | op_significand o);
}.

(** A product of significands below 16 with fractional bits to spare. *)
Lemma product_value G radix lo hi sx sy ex ey gx gy :
  0 ≤ radix ≤ G → G ≤ 39 → radix ≤ 6 → (gx = 1 ∨ gx = -1) → (gy = 1 ∨ gy = -1) →
  0 < sx * sy < 2 ^ (radix + 2) → lo ≤ ex + ey ≤ hi → -300 ≤ lo → hi ≤ 300 →
  rescale G radix (u64 (sx * sy)) = sx * sy * 2 ^ (G - radix) ∧
  product_spec G radix lo hi
    (operand_of_product (mkProduct (gx * gy) (ex + ey) (rescale G radix (u64 (sx * sy))) false false false))
    (gx * gy * (sx * sy) * two (ex + ey - radix)).
Proof.
  intros Hr HG Hr6 Hgx Hgy Hs He Hlo Hhi.
  assert (2 ^ (radix + 2) ≤ 2 ^ 8) by (apply Z.pow_le_mono_r; lia).
  pose proof (rescale_range G radix (sx * sy) (radix + 2) ltac:(lia) ltac:(lia) ltac:(lia) ltac:(lia) ltac:(lia)) as Hrange.
  assert (rescale G radix (sx * sy) = sx * sy * 2 ^ (G - radix)) as Heq.
  { unfold rescale in *. rewrite (proj2 (Z.leb_le 0 (G - radix))) in * by lia. rewrite Z.shiftl_mul_pow2 in * by lia.
    apply u64_small. pose proof (Z.pow_pos_nonneg 2 (G - radix) ltac:(lia) ltac:(lia)).
    assert (2 ^ (G - radix) ≤ 2 ^ 39) by (apply Z.pow_le_mono_r; lia). nia. }
  rewrite u64_small by lia. split; [done|]. replace (radix + 2 + G - radix) with (G + 2) in Hrange by lia. rewrite Heq in *.
  assert (2 ^ (G + 2) ≤ 2 ^ 41) by (apply Z.pow_le_mono_r; lia).
  assert (i64 (sx * sy * 2 ^ (G - radix)) = sx * sy * 2 ^ (G - radix)) as Hi by (apply i64_small; lia).
  unfold operand_of_product. cbn [pr_sign pr_exponent pr_significand pr_is_zero pr_is_nan pr_is_inf]. rewrite Hi.
  split; [done| | |cbn; lia|by exists (sx * sy)].
  - split; cbn; [destruct Hgx as [->| ->], Hgy as [->| ->]; auto|lia|lia].
  - unfold op_val. cbn. replace (ex + ey - radix) with (ex + ey - G + (G - radix)) by lia. rewrite two_shift by lia. ring.
Qed.

Lemma zero_product_spec G radix lo hi :
  0 ≤ G → product_spec G radix lo hi (operand_of_product zero_product) 0.
Proof. intros HG. split; [done|apply Fp8Facts.empty_ok; lia|done|done|]. apply Z.divide_0_r. Qed.

Definition e2m1_agrees (x : Z) : bool :=
  let c := Fp4.decompose_fp4_e2m1 x in
  if Fp4.c_zero c then e2m1 x =? 0
  else (e2m1 x =? Fp4.c_sign c * (Fp4.component_sig c * 2 ^ Fp4.component_exp c)) &&
       ((Fp4.c_sign c =? 1) || (Fp4.c_sign c =? -1)) && (0 <? Fp4.component_sig c) && (Fp4.component_sig c <? 4) &&
       (0 <=? Fp4.component_exp c) && (Fp4.component_exp c <=? 2).
Lemma e2m1_agrees_all x : 0 ≤ x < 16 → e2m1_agrees x = true.
Proof. apply all_below. vm_compute. reflexivity. Qed.

Lemma fp4_product G x y :
  2 ≤ G ≤ 39 → 0 ≤ x < 16 → 0 ≤ y < 16 →
  product_spec G 2 0 4 (operand_of_product (Fp4Facts.multiply G x y)) (e2m1 x * e2m1 y * two (-2)).
Proof.
  intros HG Hx%e2m1_agrees_all Hy%e2m1_agrees_all. unfold e2m1_agrees in *.
  unfold Fp4Facts.multiply, Fp4.multiply_unnormalized.
  set (cx := Fp4.decompose_fp4_e2m1 x) in *. set (cy := Fp4.decompose_fp4_e2m1 y) in *.
  destruct (Fp4.c_zero cx); [apply Z.eqb_eq in Hx; rewrite Hx; apply zero_product_spec; lia|].
  destruct (Fp4.c_zero cy); [apply Z.eqb_eq in Hy; rewrite Hy, Z.mul_0_r; apply zero_product_spec; lia|].
  rewrite !andb_true_iff, orb_true_iff, !Z.eqb_eq, !Z.leb_le, !Z.ltb_lt in Hx, Hy.
  destruct Hx as [[[[[-> Hgx] Hsx] Hsx'] Hex] Hex'], Hy as [[[[[-> Hgy] Hsy] Hsy'] Hey] Hey'].
  change Fp4.PRODUCT_RADIX_BIT with 2. cbn [orb].
  set (sx := Fp4.component_sig cx) in *. set (sy := Fp4.component_sig cy) in *.
  set (ex := Fp4.component_exp cx) in *. set (ey := Fp4.component_exp cy) in *.
  destruct (product_value G 2 0 4 sx sy ex ey (Fp4.c_sign cx) (Fp4.c_sign cy)) as [Heq Hp]; try done; try lia; [nia|].
  assert ((rescale G 2 (u64 (sx * sy)) =? 0) = false) as ->.
  { apply Z.eqb_neq. rewrite Heq. pose proof (Z.pow_pos_nonneg 2 (G - 2)). nia. }
  replace (Fp4.c_sign cx * (sx * 2 ^ ex) * (Fp4.c_sign cy * (sy * 2 ^ ey)) * two (-2))
    with (Fp4.c_sign cx * Fp4.c_sign cy * (sx * sy) * two (ex + ey - 2)); [done|].
  replace (ex + ey - 2) with (-2 + ex + ey) by lia. rewrite !two_shift by lia. ring.
Qed.

Definition e4m3_agrees (x : Z) : bool :=
  let c := Fp8.decompose_fp8_e4m3 x in
  eqb (Fp8.c_nan c) (e4m3_nan x) &&
  (e4m3_nan x ||
   if Fp8.c_zero c then e4m3 x =? 0
   else (e4m3 x =? Fp8.c_sign c * (Fp8.component_sig c * 2 ^ (Fp8.component_exp c + 6))) &&
        ((Fp8.c_sign c =? 1) || (Fp8.c_sign c =? -1)) && (0 <? Fp8.component_sig c) && (Fp8.component_sig c <? 16) &&
        (-6 <=? Fp8.component_exp c) && (Fp8.component_exp c <=? 8)).
Lemma e4m3_agrees_all x : 0 ≤ x < 256 → e4m3_agrees x = true.
Proof. apply all_below. vm_compute. reflexivity. Qed.

Lemma fp8_product G x y :
  6 ≤ G ≤ 39 → 0 ≤ x < 256 → 0 ≤ y < 256 → e4m3_nan x = false → e4m3_nan y = false →
  product_spec G 6 (-12) 16 (operand_of_product (Fp8.multiply G x y)) (e4m3 x * e4m3 y * two (-18)).
Proof.
  intros HG Hx%e4m3_agrees_all Hy%e4m3_agrees_all Hnx Hny. unfold e4m3_agrees in *.
  unfold Fp8.multiply, Fp8.multiply_unnormalized.
  set (cx := Fp8.decompose_fp8_e4m3 x) in *. set (cy := Fp8.decompose_fp8_e4m3 y) in *. rewrite Hnx in Hx. rewrite Hny in Hy.
  apply andb_true_iff in Hx as [->%eqb_prop Hx], Hy as [->%eqb_prop Hy]. cbn [orb] in *.
  destruct (Fp8.c_zero cx); [apply Z.eqb_eq in Hx; rewrite Hx; apply zero_product_spec; lia|].
  destruct (Fp8.c_zero cy); [apply Z.eqb_eq in Hy; rewrite Hy, Z.mul_0_r; apply zero_product_spec; lia|].
  rewrite !andb_true_iff, orb_true_iff, !Z.eqb_eq, !Z.leb_le, !Z.ltb_lt in Hx, Hy.
  destruct Hx as [[[[[-> Hgx] Hsx] Hsx'] Hex] Hex'], Hy as [[[[[-> Hgy] Hsy] Hsy'] Hey] Hey'].
  change Fp8.PRODUCT_RADIX_BIT with 6. cbn [orb].
  set (sx := Fp8.component_sig cx) in *. set (sy := Fp8.component_sig cy) in *.
  set (ex := Fp8.component_exp cx) in *. set (ey := Fp8.component_exp cy) in *.
  destruct (product_value G 6 (-12) 16 sx sy ex ey (Fp8.c_sign cx) (Fp8.c_sign cy)) as [Heq Hp]; try done; try lia; [nia|].
  replace (Fp8.c_sign cx * (sx * 2 ^ (ex + 6)) * (Fp8.c_sign cy * (sy * 2 ^ (ey + 6))) * two (-18))
    with (Fp8.c_sign cx * Fp8.c_sign cy * (sx * sy) * two (ex + ey - 6)); [done|].
  replace (ex + ey - 6) with (-18 + (ex + 6) + (ey + 6)) by lia. rewrite !two_shift by lia. ring.
Qed.

(** ** Groups *)

(** A group of exact products with enough fractional bits. *)
Lemma products_exact {A} G radix lo hi (mul : A → Product) (v : A → Z) xs :
  0 ≤ radix → lo ≤ hi → radix + (hi - lo) ≤ G ≤ 39 → len xs ≤ 2 ^ 20 →
  (∀ x, x ∈ xs → product_spec G radix lo hi (operand_of_product (mul x)) (v x)) →
  let gr := group_accumulate (mul <$> xs) in
  mantissa_sum gr * two (gr_max_exp gr - G) = zsum (v <$> xs).
Proof.
  intros Hr Hlohi HG Hlen Hps gr. destruct xs as [|x0 xs']; [done|]. set (xs := x0 :: xs') in *.
  assert (∀ P : Operand → Prop, (∀ o v, product_spec G radix lo hi o v → P o) → Forall P (operand_of_product <$> (mul <$> xs))) as Hall.
  { intros P HP. apply Forall_forall. intros o (p&->&(x&->&Hx)%list_elem_of_fmap)%list_elem_of_fmap. eapply HP, Hps, Hx. }
  assert (zsum (v <$> xs) = zsum (op_val G <$> (operand_of_product <$> (mul <$> xs)))) as ->.
  { f_equal. rewrite <-!list_fmap_compose. apply list_fmap_ext. intros i x Hx. symmetry. apply (ps_value _ _ _ _ _ _ (Hps x (list_elem_of_lookup_2 _ _ _ Hx))). }
  apply (group_exact G (G + 2)); [lia|lia| |by apply Hall, ps_finite|by apply Hall, ps_ok|].
  { rewrite len_fmap. assert (2 ^ (G + 2) ≤ 2 ^ 41) by (apply Z.pow_le_mono_r; lia).
    pose proof (Z.pow_pos_nonneg 2 (G + 2)). change (2 ^ 63) with (2 ^ 20 * 2 ^ 43). change (2 ^ 43) with (4 * 2 ^ 41). nia. }
  assert (∀ o, o ∈ live (operand_of_product <$> (mul <$> xs)) → lo ≤ op_exponent o ≤ hi ∧ (2 ^ (G - radix) | op_significand o)) as Hlive.
  { intros o [Ho Hz]%elem_of_live.
    specialize (Hall (λ o, (op_is_zero o = false → lo ≤ op_exponent o ≤ hi) ∧ (2 ^ (G - radix) | op_significand o))
      (λ o v Hp, conj (ps_exponent _ _ _ _ _ _ Hp) (ps_divides _ _ _ _ _ _ Hp))).
    rewrite Forall_forall in Hall. destruct (Hall o Hz) as [He Hd]. auto. }
  intros o o' Ho Ho' Hle. unfold fits. destruct (Hlive o Ho) as [He Hd]. destruct (Hlive o' Ho') as [He' _].
  etrans; [|exact Hd]. exists (2 ^ (G - radix - (op_exponent o' - op_exponent o))). rewrite <-Z.pow_add_r by lia. f_equal. lia.
Qed.

(** The words of a row of a tile. *)
Definition fp4_words (l : list Z) : list Z := (λ x, Fp4.pack_decoded_fp4 (Fp4.decode_fp4_operand x)) <$> l.
Definition fp8_words (l : list Z) : list Z := (λ x, Fp8.pack_decoded (Fp8.decode_operand x)) <$> l.
Definition dot (value : Z → Z) (xs ys : list Z) : Z := zsum ((λ '(x, y), value x * value y) <$> zip xs ys).

Lemma zsum_scale {A} (f : A → Z) (c : Z) (l : list A) : zsum ((λ x, f x * c) <$> l) = zsum (f <$> l) * c.
Proof. induction l as [|x l IH]; [done|]. unfold zsum in *. cbn. lia. Qed.

Lemma zip_words (word : Z → Z) (product : Z * Z → Product) (mul : Z → Z → Product) (valid : Z → Prop) xs ys :
  (∀ x y, valid x → valid y → product (word x, word y) = mul x y) → Forall valid xs → Forall valid ys →
  product <$> zip (word <$> xs) (word <$> ys) = (λ z, mul z.1 z.2) <$> zip xs ys.
Proof.
  intros Hw Hxs. revert ys. induction Hxs as [|x xs Hx _ IH]; [done|]. intros _ [|y ys Hy Hys]; [done|].
  cbn. rewrite Hw by done. f_equal. by apply IH.
Qed.

(** A group of a format whose products meet their specification. *)
Lemma group_exact_zip G radix lo hi (word value : Z → Z) (product : Z * Z → Product) (mul : Z → Z → Product) (unit : Z) (valid : Z → Prop) xs ys :
  0 ≤ radix → lo ≤ hi → radix + (hi - lo) ≤ G ≤ 39 → len xs ≤ 2 ^ 20 →
  (∀ x y, valid x → valid y → product (word x, word y) = mul x y) →
  (∀ x y, valid x → valid y → product_spec G radix lo hi (operand_of_product (mul x y)) (value x * value y * unit)) →
  Forall valid xs → Forall valid ys →
  let gr := group_accumulate (product <$> zip (word <$> xs) (word <$> ys)) in
  mantissa_sum gr * two (gr_max_exp gr - G) = dot value xs ys * unit.
Proof.
  intros Hr Hlohi HG Hlen Hword Hmul Hxs Hys gr. unfold gr. rewrite (zip_words word product mul valid xs ys Hword Hxs Hys).
  rewrite Forall_forall in Hxs, Hys.
  rewrite (products_exact G radix lo hi _ (λ z, value z.1 * value z.2 * unit)); [|done..| |].
  - unfold dot. rewrite zsum_scale. f_equal. f_equal. apply list_fmap_ext. by intros i [x y] _.
  - unfold len in *. rewrite length_zip_with. lia.
  - intros [x y] Hz. apply Hmul; [apply Hxs; by eapply elem_of_zip_l|apply Hys; by eapply elem_of_zip_r].
Qed.

(** C7. The sum of a GDFS group loses nothing once its fractional bits [G] cover a
    product and the spread of the exponents: for E2M1 from [G = 6], the width the
    source calls lossless, for E4M3 from [G = 34], two more than it says.  The
    mantissa at the group's largest exponent is then the exact sum of the products of
    the elements, for any group of up to a million of them without NaN. *)
Theorem group_sums_lossless G xs ys :
  len xs ≤ 2 ^ 20 →
  (6 ≤ G ≤ 39 → Forall (λ x, 0 ≤ x < 16) xs → Forall (λ x, 0 ≤ x < 16) ys →
    let gr := Fp4.gdfs_group_accumulate_predecoded G (fp4_words xs) (fp4_words ys) in
    mantissa_sum gr * two (gr_max_exp gr - G) = dot e2m1 xs ys * two (-2)) ∧
  (34 ≤ G ≤ 39 → Forall (λ x, 0 ≤ x < 256 ∧ e4m3_nan x = false) xs → Forall (λ x, 0 ≤ x < 256 ∧ e4m3_nan x = false) ys →
    let gr := Fp8.gdfs_group_accumulate_predecoded G (fp8_words xs) (fp8_words ys) in
    mantissa_sum gr * two (gr_max_exp gr - G) = dot e4m3 xs ys * two (-18)).
Proof.
  intros Hlen. split; intros HG Hxs Hys.
  - rewrite Fp4Facts.fp4_group_accumulate_eq.
    apply (group_exact_zip G 2 0 4 _ _ _ (Fp4Facts.multiply G) _ (λ x, 0 ≤ x < 16)); try done; try lia.
    + intros. by apply Fp4Facts.fp4_frag_product_multiply.
    + intros. apply fp4_product; lia.
  - rewrite Fp8Facts.group_accumulate_eq.
    apply (group_exact_zip G 6 (-12) 16 _ _ _ (Fp8.multiply G) _ (λ x, 0 ≤ x < 256 ∧ e4m3_nan x = false)); try done; try lia.
    + intros x y [Hx _] [Hy _]. by apply Fp8Facts.frag_product_multiply.
    + intros x y [Hx Hnx] [Hy Hny]. apply fp8_product; [lia|done..].
Qed.

(** One product of the largest elements and one of the smallest. *)
Example group_sums_lossless_witness :
  let gr := Fp8.gdfs_group_accumulate_predecoded 34 (fp8_words [126; 1]) (fp8_words [126; 1]) in
  mantissa_sum gr * two (gr_max_exp gr - 34) = (229376 * 229376 + 1) * two (-18).
Proof.
  destruct (group_sums_lossless 34 [126; 1] [126; 1] ltac:(done)) as [_ H].
  exact (H ltac:(lia) ltac:(by repeat constructor) ltac:(by repeat constructor)).
Defined.

(** The same group is not exact at [G = 32], the width called lossless. *)
Example fp8_g32_loses_bits :
  let gr := Fp8.gdfs_group_accumulate_predecoded 32 (fp8_words [126; 1]) (fp8_words [126; 1]) in
  mantissa_sum gr * two (gr_max_exp gr - 32) = 229376 * 229376 * two (-18).
Proof. vm_compute. reflexivity. Qed.

(** A NaN in a group disappears: the group counts the other products only. *)
Example fp8_group_swallows_nan :
  Fp8.gdfs_group_accumulate_predecoded 13 (fp8_words [127; 56]) (fp8_words [56; 56]) =
  Fp8.gdfs_group_accumulate_predecoded 13 (fp8_words [56]) (fp8_words [56]).
Proof. vm_compute. reflexivity. Qed.
