(* ===== verification/MmaGemm.v ===== *)
(** * MMA emulation: the FP8 kernels

    Models src/csrc/quantization/mma_emu/gemm/scaled_fp8_mm.cuh with the tile shapes
    of core/tiling.cuh: how a block loads its tiles into shared memory, how a thread
    computes its cells from them, and what is written.

    Memory is explicit: the matrices are flat lists read by index, a shared array is
    a finite map from the indices written so far, and a read outside is an error.
    The threads of a block meet at a barrier before and after they read the shared
    arrays and write only their own registers in between, so they are run one after
    the other over the sequence of the contents of these arrays.  The arithmetic of
    [float] outside the emulated accumulation, in the epilogue, is a parameter.
    Indices are [int]s. *)
From S2P Require Import Prelude MmaCore MmaFormats.

(** [for (x = start; x < stop; x += step)]. *)
Definition for_range (start stop step : Z) : list Z :=
  (λ i, start + i * step) <$> py_range 0 (cdiv (stop - start) step).

(** A read of a buffer or of a shared array. *)
Definition read (buf : list Z) (i : Z) : result Z :=
  if i <? 0 then Err IndexError else of_option IndexError (buf !! Z.to_nat i).
Definition read_shared (sm : gmap Z Z) (i : Z) : result Z := of_option IndexError (sm !! i).

(** ** Tile shapes *)

Record TilingConfig := mkTiling {
  BM : Z; BN : Z; BK : Z; NUM_THREADS : Z; THREAD_TILE_M : Z; THREAD_TILE_N : Z
}.
Definition FP8EmuConfig : TilingConfig := mkTiling 32 8 32 128 2 1.
Definition NVFP4EmuConfig : TilingConfig := mkTiling 32 8 64 128 2 1.
Definition MXFP4EmuConfig : TilingConfig := mkTiling 32 8 64 128 2 1.
Definition THREADS_PER_ROW (cfg : TilingConfig) : Z := BN cfg / THREAD_TILE_N cfg.
Definition elems_per_thread (cfg : TilingConfig) (size : Z) : Z := (size + NUM_THREADS cfg - 1) / NUM_THREADS cfg.

Definition get_thread_tile_position (cfg : TilingConfig) (tid : Z) : Z * Z :=
  (tid / THREADS_PER_ROW cfg * THREAD_TILE_M cfg, tid mod THREADS_PER_ROW cfg * THREAD_TILE_N cfg).

(** The padded stride of a row of a shared tile. *)
Definition BKP (cfg : TilingConfig) : Z := BK cfg + 1.

(** The indices that the threads of a block visit while they load a tile of [size]
    elements, thread by thread. *)
Definition load_indices (cfg : TilingConfig) (size : Z) : list Z :=
  py_range 0 (NUM_THREADS cfg) ≫= λ tid,
    (λ i, tid + i * NUM_THREADS cfg) <$> py_range 0 (elems_per_thread cfg size).

Module Fp8Gemm.
Section kernel.
Abbreviation cfg := FP8EmuConfig.
Context (M N K : Z) (A B : list Z).

(** ** Loading a tile *)

Definition load_a (block_m k_tile idx : Z) (sm : gmap Z Z) : result (gmap Z Z) :=
  if idx <? BM cfg * BK cfg then
    let a_row := idx / BK cfg in
    let a_col := idx mod BK cfg in
    let global_row := block_m + a_row in
    let global_col := k_tile + a_col in
    raw ← if (global_row <? M) && (global_col <? K) then read A (i32 (global_row * K + global_col)) else Ok 0;
    Ok (<[a_row * BKP cfg + a_col := Fp8.pack_decoded (Fp8.decode_operand raw)]> sm)
  else Ok sm.

Definition load_b (block_n k_tile idx : Z) (sm : gmap Z Z) : result (gmap Z Z) :=
  if idx <? BN cfg * BK cfg then
    let b_row := idx / BN cfg in
    let b_col := idx mod BN cfg in
    let global_row := k_tile + b_row in
    let global_col := block_n + b_col in
    raw ← if (global_row <? K) && (global_col <? N) then read B (i32 (global_row + global_col * K)) else Ok 0;
    Ok (<[b_col * BKP cfg + b_row := Fp8.pack_decoded (Fp8.decode_operand raw)]> sm)
  else Ok sm.

Record Shared := mkShared { As_dec : gmap Z Z; Bs_dec : gmap Z Z }.

(** The shared arrays after every load; what an earlier tile left is still there. *)
Fixpoint load_tiles (block_m block_n : Z) (k_tiles : list Z) (sm : Shared) : result (list (Z * Shared)) :=
  match k_tiles with
  | [] => Ok []
  | k_tile :: k_tiles =>
      a ← for_each (load_a block_m k_tile) (load_indices cfg (BM cfg * BK cfg)) (As_dec sm);
      b ← for_each (load_b block_n k_tile) (load_indices cfg (BN cfg * BK cfg)) (Bs_dec sm);
      rest ← load_tiles block_m block_n k_tiles (mkShared a b);
      Ok ((k_tile, mkShared a b) :: rest)
  end.

(** [n] words of a shared array, from an offset. *)
Definition frag (sm : gmap Z Z) (off n : Z) : result (list Z) := map_res (λ i, read_shared sm (off + i)) (py_range 0 n).

(** ** What a thread does with a tile *)

(** C-fused CoFDA. *)
Definition cofda_tile (F CHUNK_SIZE : Z) (m n : Z) (tile : Z * Shared) (acc : Z) : result Z :=
  let a_off := m * BKP cfg in
  let b_off := n * BKP cfg in
  for_each (λ k_start acc,
      a_frag ← frag (As_dec tile.2) (a_off + k_start) CHUNK_SIZE;
      b_frag ← frag (Bs_dec tile.2) (b_off + k_start) CHUNK_SIZE;
      Ok (Fp8.cofda_mma F (-133) a_frag b_frag acc))
    (for_range 0 (BK cfg) CHUNK_SIZE) acc.

(** C-decoupled CoFDA. *)
Definition decoupled_tile (F CHUNK_SIZE : Z) (m n : Z) (tile : Z * Shared) (acc : Z) : result Z :=
  let F2 := 23 in
  let actual_bk := Z.min (BK cfg) (K - tile.1) in
  let a_off := m * BKP cfg in
  let b_off := n * BKP cfg in
  for_each (λ k_start acc,
      a_frag ← frag (As_dec tile.2) (a_off + k_start) CHUNK_SIZE;
      b_frag ← frag (Bs_dec tile.2) (b_off + k_start) CHUNK_SIZE;
      Ok (cofda_decoupled_accumulate_products F F2 (Fp8.frag_product F <$> zip a_frag b_frag) acc))
    (for_range 0 actual_bk CHUNK_SIZE) acc.

(** GDFS. *)
Definition gdfs_group (F G GS : Z) (m n : Z) (sm : Shared) (g : Z) : result Operand :=
  a_frag ← frag (As_dec sm) (m * BKP cfg + g * GS) GS;
  b_frag ← frag (Bs_dec sm) (n * BKP cfg + g * GS) GS;
  let gr := Fp8.gdfs_group_accumulate_predecoded G a_frag b_frag in
  Ok (if all_zero gr then make_zero_operand else Fp8.group_to_operand_fp8 F G (mantissa_sum gr) (gr_max_exp gr)).
Definition gdfs_tile (F G GS : Z) (m n : Z) (tile : Z * Shared) (acc : Z) : result Z :=
  tile_groups ← map_res (gdfs_group F G GS m n tile.2) (py_range 0 (BK cfg / GS));
  Ok (gdfs_accumulate_tile F tile_groups acc).

(** ** The kernel *)

Section launch.
Context {Out : Type} (fmul fadd : Z → Z → Z) (to_output : Z → Out) (of_output : Out → Z).
Context (compute : Z → Z → Z * Shared → Z → result Z).
Context (scale_a scale_b : Z) (bias : option (list Out)).

(** The cell [(tm, tn)] of a thread, after all tiles. *)
Definition thread_cell (tiles : list (Z * Shared)) (m n : Z) : result Z := for_each (compute m n) tiles 0.

(** The epilogue of one cell. *)
Definition epilogue (out_col acc : Z) : result Out :=
  let val := fmul scale_a (fmul scale_b acc) in
  match bias with
  | None => Ok (to_output val)
  | Some l => b ← py_index l out_col; Ok (to_output (fadd val (of_output b)))
  end.

(** The threads of a block with their cells. *)
Definition thread_cells : list (Z * Z) :=
  py_range 0 (NUM_THREADS cfg) ≫= λ tid,
    let '(thread_m, thread_n) := get_thread_tile_position cfg tid in
    py_range 0 (THREAD_TILE_M cfg) ≫= λ tm, (λ tn, (thread_m + tm, thread_n + tn)) <$> py_range 0 (THREAD_TILE_N cfg).

Definition run_cell (block_m block_n : Z) (tiles : list (Z * Shared)) (cell : Z * Z) (C : gmap Z Out)
  : result (gmap Z Out) :=
  acc ← thread_cell tiles cell.1 cell.2;
  let out_row := block_m + cell.1 in
  let out_col := block_n + cell.2 in
  if (out_row <? M) && (out_col <? N) then
    v ← epilogue out_col acc;
    Ok (<[i32 (out_row * N + out_col) := v]> C)
  else Ok C.

Definition run_block (block : Z * Z) (C : gmap Z Out) : result (gmap Z Out) :=
  let block_m := block.1 * BM cfg in
  let block_n := block.2 * BN cfg in
  if (M <=? block_m) || (N <=? block_n) then Ok C
  else
    tiles ← load_tiles block_m block_n (for_range 0 K (BK cfg)) (mkShared ∅ ∅);
    for_each (run_cell block_m block_n tiles) thread_cells C.

(** The grid: [blockIdx.y] is the row. *)
Definition grid : list (Z * Z) :=
  py_range 0 ((M + BM cfg - 1) / BM cfg) ≫= λ y, (λ x, (y, x)) <$> py_range 0 ((N + BN cfg - 1) / BN cfg).

Definition run_kernel (C : gmap Z Out) : result (gmap Z Out) := for_each run_block grid C.
End launch.

(** The three kernels. *)
Definition cofda_kernel {Out} (fmul fadd : Z → Z → Z) (to_output : Z → Out) (of_output : Out → Z) (F CHUNK_SIZE : Z)
    (scale_a scale_b : Z) (bias : option (list Out)) (C : gmap Z Out) : result (gmap Z Out) :=
  run_kernel fmul fadd to_output of_output (cofda_tile F CHUNK_SIZE) scale_a scale_b bias C.
Definition cofda_decoupled_kernel {Out} (fmul fadd : Z → Z → Z) (to_output : Z → Out) (of_output : Out → Z) (F CHUNK_SIZE : Z)
    (scale_a scale_b : Z) (bias : option (list Out)) (C : gmap Z Out) : result (gmap Z Out) :=
  run_kernel fmul fadd to_output of_output (decoupled_tile F CHUNK_SIZE) scale_a scale_b bias C.
Definition gdfs_kernel {Out} (fmul fadd : Z → Z → Z) (to_output : Z → Out) (of_output : Out → Z) (F G GS : Z)
    (scale_a scale_b : Z) (bias : option (list Out)) (C : gmap Z Out) : result (gmap Z Out) :=
  run_kernel fmul fadd to_output of_output (gdfs_tile F G GS) scale_a scale_b bias C.
End kernel.
End Fp8Gemm.
