(* ===== verification/MmaGemmFacts.v ===== *)
(** * MMA emulation: loading and computing

    Lemmas about the kernels of [MmaGemm]: the indices of the loops, the contents of
    the shared arrays after a load, and what a thread computes from them. *)
From S2P Require Import Prelude MmaCore MmaFacts MmaSum MmaFormats MmaFormatsFacts MmaGemm.

(** ** Loops *)

Lemma elem_of_py_range a b x : x ∈ py_range a b ↔ a ≤ x < b.
Proof. unfold py_range. rewrite elem_of_seqZ. lia. Qed.

Lemma elem_of_for_range stop step x :
  0 < step → x ∈ for_range 0 stop step ↔ ∃ i, 0 ≤ i ∧ x = i * step ∧ x < stop.
Proof.
  intros Hs. unfold for_range. rewrite list_elem_of_fmap. rewrite Z.sub_0_r. pose proof (cdiv_spec stop step Hs) as Hc.
  split.
  - intros (i&->&Hi%elem_of_py_range). exists i. split; [lia|]. split; [lia|]. nia.
  - intros (i&Hi&->&Hlt). exists i. split; [lia|]. apply elem_of_py_range. nia.
Qed.

(** A range in steps of [s] up to a multiple of [q * s], in pieces of [q * s]. *)
Lemma for_range_split n q s :
  0 < s → 0 < q → 0 ≤ n →
  (for_range 0 (n * (q * s)) (q * s) ≫= λ t, (λ x, t + x) <$> for_range 0 (q * s) s) = for_range 0 (n * q * s) s.
Proof.
  intros Hs Hq Hn. unfold for_range. rewrite !Z.sub_0_r, !cdiv_mul by nia. unfold py_range. rewrite !Z.sub_0_r.
  rewrite <-(Z2Nat.id n) by done. induction (Z.to_nat n) as [|k IH]; [done|].
  rewrite Nat2Z.inj_succ, <-Z.add_1_r, Z.mul_add_distr_r, Z.mul_1_l, seqZ_app by lia.
  rewrite seqZ_app by nia. rewrite !fmap_app, bind_app, IH. f_equal.
  cbn [seqZ]. rewrite (seqZ_cons _ 1) by lia. rewrite (seqZ_nil _ (Z.pred 1)) by lia. cbn. rewrite app_nil_r.
  rewrite <-(Z.add_0_r (0 + Z.of_nat k * q)), <-fmap_add_seqZ.
  rewrite <-!list_fmap_compose. apply list_fmap_ext. intros i x _. cbn. lia.
Qed.

Lemma for_range_extend K L s :
  0 < s → K ≤ L * s → 0 ≤ K →
  ∃ rest, for_range 0 (L * s) s = for_range 0 K s ++ rest ∧ ∀ x, x ∈ rest → K ≤ x.
Proof.
  intros Hs HK HK0. pose proof (cdiv_spec K s Hs) as Hc. pose proof (cdiv_nonneg K s Hs HK0).
  unfold for_range. rewrite !Z.sub_0_r, cdiv_mul by done. unfold py_range. rewrite !Z.sub_0_r.
  assert (cdiv K s ≤ L) by nia. exists ((λ i, 0 + i * s) <$> seqZ (cdiv K s) (L - cdiv K s)). split.
  - rewrite <-fmap_app. f_equal. replace L with (cdiv K s + (L - cdiv K s)) at 1 by lia. rewrite seqZ_app by lia. done.
  - intros x (i&->&Hi%elem_of_seqZ)%list_elem_of_fmap. nia.
Qed.

Lemma for_each_foldl {A S} (f : A → S → result S) (g : S → A → S) l s :
  (∀ a s, a ∈ l → f a s = Ok (g s a)) → for_each f l s = Ok (foldl g s l).
Proof.
  revert s. induction l as [|a l IH]; intros s Hf; [done|]. cbn. rewrite Hf by (by left). apply IH.
  intros a' s' Ha. apply Hf. by right.
Qed.

(** A loop that writes, at most once for every key. *)
Lemma for_each_writes {X V} (f : X → gmap Z V → result (gmap Z V)) (key : X → Z) (val : X → V) (P : X → Prop)
    `{∀ x, Decision (P x)} l m :
  (∀ x m, x ∈ l → f x m = Ok (if decide (P x) then <[key x := val x]> m else m)) →
  (∀ x y, x ∈ l → y ∈ l → P x → P y → key x = key y → val x = val y) →
  ∃ m', for_each f l m = Ok m' ∧ (∀ x, x ∈ l → P x → m' !! key x = Some (val x)) ∧
    (∀ k, (∀ x, x ∈ l → P x → key x ≠ k) → m' !! k = m !! k).
Proof.
  revert m. induction l as [|x l IH] using rev_ind; intros m Hf Hinj.
  { exists m. split; [done|]. split; [by intros ? ?%elem_of_nil|done]. }
  destruct (IH m) as (m'&Hm'&Hin&Hout).
  { intros y m0 Hy. apply Hf, elem_of_app. by left. }
  { intros y z Hy Hz. apply Hinj; apply elem_of_app; by left. }
  rewrite for_each_app, Hm'. cbn. rewrite Hf by (apply elem_of_app; right; by left). cbn.
  eexists. split; [done|]. destruct (decide (P x)) as [HP|HP]; split.
  - intros y Hy HPy. destruct (decide (key x = key y)) as [He|Hne].
    + rewrite <-He, lookup_insert_eq. f_equal. apply Hinj; try done. apply elem_of_app; right; by left.
    + rewrite lookup_insert_ne by done. apply elem_of_app in Hy as [Hy|Hy%list_elem_of_singleton]; [by apply Hin|by subst].
  - intros k Hk. rewrite lookup_insert_ne by (apply Hk; [apply elem_of_app; right; by left|done]). apply Hout.
    intros y Hy. apply Hk, elem_of_app. by left.
  - intros y [Hy|Hy%list_elem_of_singleton]%elem_of_app HPy; [by apply Hin|by subst].
  - intros k Hk. apply Hout. intros y Hy. apply Hk, elem_of_app. by left.
Qed.

(** Every index of a tile is visited. *)
Lemma elem_of_load_indices cfg size idx :
  0 < NUM_THREADS cfg → 0 ≤ size → 0 ≤ idx < size → idx ∈ load_indices cfg size.
Proof.
  intros HT Hs Hi. unfold load_indices. apply list_elem_of_bind. exists (idx mod NUM_THREADS cfg). split.
  - apply list_elem_of_fmap. exists (idx / NUM_THREADS cfg). split; [pose proof (Z.div_mod idx (NUM_THREADS cfg)); lia|].
    apply elem_of_py_range. split; [apply Z.div_pos; lia|]. unfold elems_per_thread.
    apply Z.div_lt_upper_bound; [lia|]. pose proof (Z.mul_succ_div_gt (size + NUM_THREADS cfg - 1) (NUM_THREADS cfg)). lia.
  - apply elem_of_py_range. apply Z.mod_pos_bound. lia.
Qed.
Lemma load_indices_nonneg cfg size idx : 0 < NUM_THREADS cfg → idx ∈ load_indices cfg size → 0 ≤ idx.
Proof.
  intros HT. unfold load_indices. intros (tid&Hi&Ht%elem_of_py_range)%list_elem_of_bind.
  apply list_elem_of_fmap in Hi as (i&->&Hi%elem_of_py_range). nia.
Qed.

(** Row and column of an index. *)
Lemma div_mod_at n r c : 0 ≤ c < n → (r * n + c) / n = r ∧ (r * n + c) mod n = c.
Proof.
  intros Hc. rewrite Z.div_add_l, Z.div_small, Z.add_0_r by lia. split; [done|].
  rewrite Z.add_comm, Z.mod_add, Z.mod_small by lia. done.
Qed.
Lemma row_col_inj n r c r' c' : 0 ≤ c < n → 0 ≤ c' < n → r * n + c = r' * n + c' → r = r' ∧ c = c'.
Proof.
  intros Hc Hc' He. destruct (div_mod_at n r c Hc) as [H1 H2]. rewrite He in H1, H2.
  destruct (div_mod_at n r' c' Hc') as [H3 H4]. split; congruence.
Qed.

Lemma flat_bound r c n k : 0 ≤ r < n → 0 ≤ c < k → 0 ≤ r * k + c < n * k.
Proof. nia. Qed.

(** ** The shared arrays after a load *)

Module Fp8GemmFacts.
Import Fp8Gemm.
Section facts.
Abbreviation cfg := FP8EmuConfig.
Context (M N K : Z) (A B : list Z).
Hypothesis HM : 0 < M.
Hypothesis HN : 0 < N.
Hypothesis HK : 0 ≤ K.
(** The buffers have the size that their shapes say, and indices fit in an [int]. *)
Hypothesis HA : len A = M * K.
Hypothesis HB : len B = N * K.
Hypothesis HMK : M * K < 2 ^ 31.
Hypothesis HNK : N * K < 2 ^ 31.

(** The elements, zero beyond the end of a row. *)
Definition a_at (row k : Z) : Z := if (row <? M) && (k <? K) then A !!! Z.to_nat (row * K + k) else 0.
Definition b_at (k col : Z) : Z := if (k <? K) && (col <? N) then B !!! Z.to_nat (k + col * K) else 0.
Definition word (bits : Z) : Z := Fp8.pack_decoded (Fp8.decode_operand bits).

Lemma read_in (l : list Z) i : 0 ≤ i < len l → read l i = Ok (l !!! Z.to_nat i).
Proof.
  intros Hi. unfold read. rewrite (proj2 (Z.ltb_ge i 0)) by lia.
  destruct (lookup_lt_is_Some_2 l (Z.to_nat i)) as [x Hx]; [unfold len in Hi; lia|].
  by rewrite Hx, (list_lookup_total_correct _ _ _ Hx).
Qed.

Definition a_tile_ok (block_m k_tile : Z) (sm : gmap Z Z) : Prop :=
  ∀ r c, 0 ≤ r < 32 → 0 ≤ c < 32 → sm !! (r * 33 + c) = Some (word (a_at (block_m + r) (k_tile + c))).
Definition b_tile_ok (block_n k_tile : Z) (sm : gmap Z Z) : Prop :=
  ∀ r c, 0 ≤ r < 8 → 0 ≤ c < 32 → sm !! (r * 33 + c) = Some (word (b_at (k_tile + c) (block_n + r))).

Lemma load_a_ok block_m k_tile sm :
  0 ≤ block_m → 0 ≤ k_tile →
  ∃ sm', for_each (load_a M K A block_m k_tile) (load_indices cfg (BM cfg * BK cfg)) sm = Ok sm' ∧ a_tile_ok block_m k_tile sm'.
Proof.
  intros Hm Hk.
  destruct (for_each_writes (load_a M K A block_m k_tile) (λ idx, idx / 32 * 33 + idx mod 32)
    (λ idx, word (a_at (block_m + idx / 32) (k_tile + idx mod 32))) (λ idx, idx < 32 * 32)
    (load_indices cfg (BM cfg * BK cfg)) sm) as (sm'&Hsm&Hin&_).
  - intros idx m Hi%load_indices_nonneg; [|done]. unfold load_a. cbn -[Z.div Z.modulo]. change (32 * 32) with 1024.
    pose proof (Z.div_pos idx 32 Hi ltac:(lia)). pose proof (Z.mod_pos_bound idx 32 ltac:(lia)).
    destruct (Z.ltb_spec idx 1024); [rewrite decide_True by done|by rewrite decide_False by lia].
    unfold a_at. destruct (Z.ltb_spec (block_m + idx / 32) M); [|done]. destruct (Z.ltb_spec (k_tile + idx mod 32) K); [|done].
    pose proof (flat_bound (block_m + idx / 32) (k_tile + idx mod 32) M K ltac:(lia) ltac:(lia)).
    cbn [andb]. rewrite i32_small by lia. rewrite read_in by lia. done.
  - intros x y Hx%load_indices_nonneg Hy%load_indices_nonneg _ _ He; [|done..].
    apply row_col_inj in He as [-> ->]; [done|..]; pose proof (Z.mod_pos_bound x 32); pose proof (Z.mod_pos_bound y 32); lia.
  - exists sm'. split; [done|]. intros r c Hr Hc. specialize (Hin (r * 32 + c)).
    destruct (div_mod_at 32 r c Hc) as [Hd Hmod]. rewrite Hd, Hmod in Hin.
    apply Hin; [|lia]. apply elem_of_load_indices; cbn; lia.
Qed.

Lemma load_b_ok block_n k_tile sm :
  0 ≤ block_n → 0 ≤ k_tile →
  ∃ sm', for_each (load_b N K B block_n k_tile) (load_indices cfg (BN cfg * BK cfg)) sm = Ok sm' ∧ b_tile_ok block_n k_tile sm'.
Proof.
  intros Hm Hk.
  destruct (for_each_writes (load_b N K B block_n k_tile) (λ idx, idx mod 8 * 33 + idx / 8)
    (λ idx, word (b_at (k_tile + idx / 8) (block_n + idx mod 8))) (λ idx, idx < 8 * 32)
    (load_indices cfg (BN cfg * BK cfg)) sm) as (sm'&Hsm&Hin&_).
  - intros idx m Hi%load_indices_nonneg; [|done]. unfold load_b. cbn -[Z.div Z.modulo]. change (8 * 32) with 256.
    pose proof (Z.div_pos idx 8 Hi ltac:(lia)). pose proof (Z.mod_pos_bound idx 8 ltac:(lia)).
    destruct (Z.ltb_spec idx 256); [rewrite decide_True by done|by rewrite decide_False by lia].
    unfold b_at. destruct (Z.ltb_spec (k_tile + idx / 8) K); [|done]. destruct (Z.ltb_spec (block_n + idx mod 8) N); [|done].
    pose proof (flat_bound (block_n + idx mod 8) (k_tile + idx / 8) N K ltac:(lia) ltac:(lia)).
    cbn [andb]. rewrite i32_small by lia. rewrite read_in by lia. done.
  - intros x y Hx%load_indices_nonneg Hy%load_indices_nonneg Hx' Hy' He; [|done..].
    cbv beta in *. assert (x / 8 < 32) by (apply Z.div_lt_upper_bound; lia). assert (y / 8 < 32) by (apply Z.div_lt_upper_bound; lia).
    apply row_col_inj in He as [-> ->]; [done|..]; split; try apply Z.div_pos; lia.
  - exists sm'. split; [done|]. intros r c Hr Hc. specialize (Hin (c * 8 + r)).
    destruct (div_mod_at 8 c r Hr) as [Hd Hmod]. rewrite Hd, Hmod in Hin.
    apply Hin; [|lia]. apply elem_of_load_indices; cbn; lia.
Qed.

Definition tile_ok (block_m block_n : Z) (tile : Z * Shared) : Prop :=
  0 ≤ tile.1 ∧ a_tile_ok block_m tile.1 (As_dec tile.2) ∧ b_tile_ok block_n tile.1 (Bs_dec tile.2).

Lemma load_tiles_ok block_m block_n k_tiles sm :
  0 ≤ block_m → 0 ≤ block_n → (∀ k, k ∈ k_tiles → 0 ≤ k) →
  ∃ tiles, load_tiles M N K A B block_m block_n k_tiles sm = Ok tiles ∧ tiles.*1 = k_tiles ∧ Forall (tile_ok block_m block_n) tiles.
Proof.
  intros Hm Hn. revert sm. induction k_tiles as [|k k_tiles IH]; intros sm Hk; [by exists []|].
  assert (0 ≤ k) as Hk0 by (apply Hk; by left). cbn [load_tiles].
  destruct (load_a_ok block_m k (As_dec sm) Hm Hk0) as (a&->&Ha). rewrite Ok_bind.
  destruct (load_b_ok block_n k (Bs_dec sm) Hn Hk0) as (b&->&Hb). rewrite Ok_bind.
  destruct (IH (mkShared a b)) as (tiles&->&Hf&Hall); [intros k' Hk'; apply Hk; by right|].
  eexists. split; [done|]. cbn. rewrite Hf. split; [done|]. by constructor.
Qed.

(** ** What a thread computes *)

(** The products of one row with one column. *)
Definition product_at (F row col k : Z) : Product := Fp8.multiply F (a_at row k) (b_at k col).
Definition products (F row col k0 n : Z) : list Product := (λ i, product_at F row col (k0 + i)) <$> py_range 0 n.

Hypothesis HAb : Forall (λ x, 0 ≤ x < 256) A.
Hypothesis HBb : Forall (λ x, 0 ≤ x < 256) B.

Lemma byte_at (l : list Z) i : Forall (λ x, 0 ≤ x < 256) l → 0 ≤ l !!! i < 256.
Proof.
  intros Hl. rewrite list_lookup_total_alt. destruct (l !! i) as [x|] eqn:Hx; [|done].
  exact (Forall_lookup_1 _ _ _ _ Hl Hx).
Qed.
Lemma a_byte row k : 0 ≤ a_at row k < 256.
Proof. unfold a_at. case_match; [by apply byte_at|lia]. Qed.
Lemma b_byte k col : 0 ≤ b_at k col < 256.
Proof. unfold b_at. case_match; [by apply byte_at|lia]. Qed.

(** The two fragments at an offset give the products. *)
Lemma frags_ok F block_m block_n tile m n off CS :
  tile_ok block_m block_n tile → 0 ≤ m < 32 → 0 ≤ n < 8 → 0 ≤ off → off + CS ≤ 32 →
  ∃ a_frag b_frag,
    frag (As_dec tile.2) (m * 33 + off) CS = Ok a_frag ∧ frag (Bs_dec tile.2) (n * 33 + off) CS = Ok b_frag ∧
    Fp8.frag_product F <$> zip a_frag b_frag = products F (block_m + m) (block_n + n) (tile.1 + off) CS.
Proof.
  intros (_&Ha&Hb) Hm Hn Hoff HCS. exists ((λ i, word (a_at (block_m + m) (tile.1 + off + i))) <$> py_range 0 CS).
  exists ((λ i, word (b_at (tile.1 + off + i) (block_n + n))) <$> py_range 0 CS). split_and!.
  - apply map_res_ok. intros i Hi%elem_of_py_range. unfold read_shared.
    rewrite <-Z.add_assoc, Ha by lia. cbn. do 3 f_equal. lia.
  - apply map_res_ok. intros i Hi%elem_of_py_range. unfold read_shared.
    rewrite <-Z.add_assoc, Hb by lia. cbn. do 3 f_equal. lia.
  - rewrite zip_with_fmap_l, zip_with_fmap_r, zip_with_diag. unfold products. rewrite <-list_fmap_compose.
    apply list_fmap_ext. intros i x _. unfold compose, product_at, word. apply Fp8Facts.frag_product_multiply; [apply a_byte|apply b_byte].
Qed.

(** The reference: one chunk after the other through the accumulators. *)
Definition cofda_chunk (F CS row col : Z) (acc k0 : Z) : Z := fda_accumulate_chunk F (-133) (products F row col k0 CS) acc.
Definition decoupled_chunk (F CS row col : Z) (acc k0 : Z) : Z :=
  cofda_decoupled_accumulate_products F 23 (products F row col k0 CS) acc.
Definition group_operand (F G GS row col k0 : Z) : Operand :=
  let gr := group_accumulate (products G row col k0 GS) in
  if all_zero gr then make_zero_operand else Fp8.group_to_operand_fp8 F G (mantissa_sum gr) (gr_max_exp gr).
Definition gdfs_step (F G GS row col : Z) (acc k_tile : Z) : Z :=
  gdfs_accumulate_tile F ((λ g, group_operand F G GS row col (k_tile + g * GS)) <$> py_range 0 (32 / GS)) acc.

Lemma step_in q s i : 0 < s → q * s = 32 → i * s < 32 → i * s + s ≤ 32.
Proof. intros Hs Hq Hi. assert (i + 1 ≤ q) by nia. nia. Qed.

Lemma cofda_tile_ok F q CS block_m block_n tile m n acc :
  0 < CS → q * CS = 32 → tile_ok block_m block_n tile → 0 ≤ m < 32 → 0 ≤ n < 8 →
  cofda_tile F CS m n tile acc =
    Ok (foldl (cofda_chunk F CS (block_m + m) (block_n + n)) acc ((λ s, tile.1 + s) <$> for_range 0 32 CS)).
Proof.
  intros HCS Hq Htile Hm Hn. unfold cofda_tile. change (BK cfg) with 32. change (BKP cfg) with 33.
  rewrite foldl_fmap. apply for_each_foldl. intros k0 s (i&Hi&->&Hlt)%elem_of_for_range; [|done].
  destruct (frags_ok F block_m block_n tile m n (i * CS) CS) as (a&b&->&->&Hp); [done|done|done|nia|apply (step_in q); lia|].
  rewrite !Ok_bind, Fp8Facts.cofda_mma_eq, Hp. done.
Qed.

Lemma decoupled_tile_ok F q CS block_m block_n tile m n acc :
  0 < CS → q * CS = 32 → tile_ok block_m block_n tile → 0 ≤ m < 32 → 0 ≤ n < 8 →
  decoupled_tile K F CS m n tile acc =
    Ok (foldl (decoupled_chunk F CS (block_m + m) (block_n + n)) acc
      ((λ s, tile.1 + s) <$> for_range 0 (Z.min 32 (K - tile.1)) CS)).
Proof.
  intros HCS Hq Htile Hm Hn. unfold decoupled_tile. change (BK cfg) with 32. change (BKP cfg) with 33.
  rewrite foldl_fmap. apply for_each_foldl. intros k0 s (i&Hi&->&Hlt)%elem_of_for_range; [|done].
  destruct (frags_ok F block_m block_n tile m n (i * CS) CS) as (a&b&->&->&Hp); [done|done|done|nia|apply (step_in q); lia|].
  rewrite !Ok_bind, Hp. done.
Qed.

Lemma gdfs_tile_ok F G q GS block_m block_n tile m n acc :
  0 < GS → q * GS = 32 → tile_ok block_m block_n tile → 0 ≤ m < 32 → 0 ≤ n < 8 →
  gdfs_tile F G GS m n tile acc = Ok (gdfs_step F G GS (block_m + m) (block_n + n) acc tile.1).
Proof.
  intros HGS Hq Htile Hm Hn. unfold gdfs_tile, gdfs_step. change (BK cfg) with 32.
  assert (32 / GS = q) as -> by (rewrite <-Hq, Z.div_mul; lia).
  rewrite (map_res_ok _ (λ g, group_operand F G GS (block_m + m) (block_n + n) (tile.1 + g * GS))); [done|].
  intros g Hg%elem_of_py_range. unfold gdfs_group. change (BKP cfg) with 33.
  destruct (frags_ok G block_m block_n tile m n (g * GS) GS) as (a&b&->&->&Hp); [done|done|done|nia|apply (step_in q); [done|done|nia]|].
  rewrite !Ok_bind, Fp8Facts.group_accumulate_eq, Hp. done.
Qed.
End facts.
End Fp8GemmFacts.
