(* ===== verification/MmaKernel.v ===== *)
(** * MMA emulation: the FP8 kernels compute the reference

    Every cell that a kernel of [MmaGemm] writes is the reference computation on one
    row and one column, whatever the tiling: a chain of accumulator steps over the
    products of the raw bytes. *)
From S2P Require Import Prelude MmaCore MmaFacts MmaSum MmaFormats MmaFormatsFacts MmaGemm MmaGemmFacts.
Import Fp8Gemm Fp8GemmFacts.

Lemma foldl_bind {A B C} (f : C → B → C) (g : A → list B) l a :
  foldl (λ acc t, foldl f acc (g t)) a l = foldl f a (l ≫= g).
Proof. revert a. induction l as [|x l IH]; intros a; cbn; [done|]. by rewrite foldl_app. Qed.

Lemma foldl_inv {A B} (P : A → Prop) (f : A → B → A) l a :
  P a → (∀ a x, x ∈ l → P a → P (f a x)) → P (foldl f a l).
Proof.
  revert a. induction l as [|x l IH]; intros a Ha Hf; [done|]. cbn. apply IH; [apply Hf; [by left|done]|].
  intros a' y Hy. apply Hf. by right.
Qed.
Lemma foldl_noop {A B} (f : A → B → A) l a : (∀ x, x ∈ l → f a x = a) → foldl f a l = a.
Proof. induction l as [|x l IH]; intros Hf; [done|]. cbn. rewrite Hf by (by left). apply IH. intros y Hy. apply Hf. by right. Qed.

Lemma for_each_ext {X S} (f g : X → S → result S) l s : (∀ x s, x ∈ l → f x s = g x s) → for_each f l s = for_each g l s.
Proof.
  revert s. induction l as [|x l IH]; intros s Hf; [done|]. cbn. rewrite Hf by (by left).
  destruct (g x s); [|done]. apply IH. intros y s' Hy. apply Hf. by right.
Qed.
Lemma for_each_bind {X Y S} (f : X → Y → S → result S) (g : X → list Y) l s :
  for_each (λ x s, for_each (f x) (g x) s) l s = for_each (λ xy s, f xy.1 xy.2 s) (l ≫= λ x, pair x <$> g x) s.
Proof.
  revert s. induction l as [|x l IH]; intros s; [done|]. cbn. rewrite for_each_app.
  assert (for_each (λ xy s, f xy.1 xy.2 s) (pair x <$> g x) s = for_each (f x) (g x) s) as ->.
  { generalize (g x). intros k. revert s. induction k as [|y k IHk]; intros s; [done|]. cbn. destruct (f x y s); [apply IHk|done]. }
  destruct (for_each (f x) (g x) s); [|done]. apply IH.
Qed.

(** ** Ranges of chunks *)

Lemma filter_fmap (g : Z → Z) (P : Z → Prop) `{∀ x, Decision (P x)} (l : list Z) :
  filter P (g <$> l) = g <$> filter (λ x, P (g x)) l.
Proof.
  induction l as [|x l IH]; [done|]. rewrite fmap_cons, !filter_cons, IH. by case_decide.
Qed.

Lemma for_range_whole K s : 0 < s → for_range 0 K s = for_range 0 (cdiv K s * s) s.
Proof. intros Hs. unfold for_range. by rewrite !Z.sub_0_r, cdiv_mul. Qed.

(** Tile by tile, chunk by chunk. *)
Lemma chunks_of_tiles K q CS :
  0 < CS → 0 < q → 0 ≤ K →
  (for_range 0 K (q * CS) ≫= λ t, (λ s, t + s) <$> for_range 0 (q * CS) CS) = for_range 0 (cdiv K (q * CS) * q * CS) CS.
Proof.
  intros HCS Hq HK. rewrite (for_range_whole K) by nia. apply for_range_split; [done|done|]. apply cdiv_nonneg; nia.
Qed.

Lemma filter_range K L s :
  0 < s → 0 ≤ K → K ≤ L * s → filter (λ x, x < K) (for_range 0 (L * s) s) = for_range 0 K s.
Proof.
  intros Hs HK HL. destruct (for_range_extend K L s Hs HL HK) as (rest&->&Hrest). rewrite filter_app.
  rewrite filter_id by (intros x Hx; apply elem_of_for_range in Hx as (i&?&->&?); done).
  assert (filter (λ x, x < K) rest = []) as ->; [|apply app_nil_r].
  clear -Hrest. induction rest as [|x rest IH]; [done|]. rewrite filter_cons_False; [|].
  - apply IH. intros y Hy. apply Hrest. by right.
  - specialize (Hrest x ltac:(by left)). lia.
Qed.

(** A loop that stops at the end of the row visits the chunks that begin before it. *)
Lemma chunks_in_row K q CS :
  0 < CS → 0 < q → 0 ≤ K →
  (for_range 0 K (q * CS) ≫= λ t, (λ s, t + s) <$> for_range 0 (Z.min (q * CS) (K - t)) CS) = for_range 0 K CS.
Proof.
  intros HCS Hq HK. rewrite <-(filter_range K (cdiv K (q * CS) * q) CS); [|done|done|].
  2:{ pose proof (cdiv_spec K (q * CS) ltac:(nia)). nia. }
  rewrite <-chunks_of_tiles by done.
  assert (∀ t, t ∈ for_range 0 K (q * CS) → t < K) as Hin.
  { intros t Ht. apply elem_of_for_range in Ht as (i&_&_&?); [done|nia]. }
  induction (for_range 0 K (q * CS)) as [|t l IH]; [done|]. cbn. rewrite filter_app, IH by (intros t' Ht'; apply Hin; by right).
  f_equal. specialize (Hin t ltac:(by left)). rewrite filter_fmap.
  rewrite <-(filter_range (Z.min (q * CS) (K - t)) q CS) by nia. f_equal.
  apply filter_ext_elem. intros x Hx. apply elem_of_for_range in Hx as (i&?&->&?); [|done]. unfold compose. lia.
Qed.

(** ** One cell *)

Section cells.
Context (M N K : Z) (A B : list Z).
Hypothesis HM : 0 < M.
Hypothesis HN : 0 < N.
Hypothesis HK : 0 ≤ K.
Hypothesis HA : len A = M * K.
Hypothesis HB : len B = N * K.
Hypothesis HMK : M * K < 2 ^ 31.
Hypothesis HNK : N * K < 2 ^ 31.
Hypothesis HAb : Forall (λ x, 0 ≤ x < 256) A.
Hypothesis HBb : Forall (λ x, 0 ≤ x < 256) B.

(** The terms of a chunk. *)
Abbreviation terms F row col k0 n := (operand_of_product <$> products M N K A B F row col k0 n).

Lemma terms_ok F row col k0 n :
  0 ≤ F ≤ 39 → Forall (op_ok (F + 2)) (terms F row col k0 n) ∧ Forall (λ o, op_is_inf o = false) (terms F row col k0 n).
Proof.
  intros HF. rewrite !Forall_forall. split; intros o; unfold products; rewrite <-list_fmap_compose;
    intros (i&->&_)%list_elem_of_fmap; apply (Fp8Facts.multiply_ok F); (done || apply a_byte || apply b_byte); done.
Qed.

Lemma len_terms F row col k0 n : 0 ≤ n → len (terms F row col k0 n) = n.
Proof. intros Hn. unfold products. rewrite !len_fmap. unfold len, py_range. rewrite length_seqZ. lia. Qed.

Lemma count_ok F n : 0 ≤ F ≤ 39 → 0 ≤ n ≤ 32 → (n + 1) * 2 ^ (F + 2) < 2 ^ 63.
Proof.
  intros HF Hn. assert (2 ^ (F + 2) ≤ 2 ^ 41) by (apply Z.pow_le_mono_r; lia). pose proof (Z.pow_pos_nonneg 2 (F + 2)). nia.
Qed.

Lemma cofda_chunk_acc F CS row col acc k0 :
  0 ≤ F ≤ 39 → 0 < CS ≤ 32 → acc_ok F acc → acc_ok F (cofda_chunk M N K A B F CS row col acc k0).
Proof.
  intros HF HCS Hacc. destruct (terms_ok F row col k0 CS HF) as [Hok Hinf].
  apply (accumulate_acc F (-133) (F + 2)); try done; [lia|]. rewrite len_terms by lia. apply count_ok; lia.
Qed.

(** Past the end of the rows there are only zeros. *)
Lemma chunk_past_end F CS row col acc k0 :
  0 ≤ F ≤ 39 → 0 < CS ≤ 32 → K ≤ k0 → acc_ok F acc → cofda_chunk M N K A B F CS row col acc k0 = acc.
Proof.
  intros HF HCS Hk0 Hacc. destruct (terms_ok F row col k0 CS HF) as [Hok _].
  assert (∀ o, o ∈ terms F row col k0 CS → o = make_zero_operand) as Hz.
  { intros o. unfold products. rewrite <-list_fmap_compose. intros (i&->&Hi%elem_of_py_range)%list_elem_of_fmap.
    unfold compose, product_at, a_at, b_at. rewrite (proj2 (Z.ltb_ge (k0 + i) K)), andb_false_r by lia. done. }
  apply (zero_chunk F (-133) (F + 2)); [|lia| |done].
  - split; [lia|rewrite len_terms by lia; apply count_ok; lia| |done]. apply Forall_forall. by intros o ->%Hz.
  - apply Forall_forall. by intros o ->%Hz.
Qed.

(** The accumulator of a cell after all chunks. *)
Definition cofda_cell (F CS row col : Z) : Z := foldl (cofda_chunk M N K A B F CS row col) 0 (for_range 0 K CS).
Definition decoupled_cell (F CS row col : Z) : Z := foldl (decoupled_chunk M N K A B F CS row col) 0 (for_range 0 K CS).
Definition gdfs_cell (F G GS row col : Z) : Z := foldl (gdfs_step M N K A B F G GS row col) 0 (for_range 0 K 32).

(** What a kernel must compute from the tiles of a block. *)
Definition computes (compute : Z → Z → Z * Shared → Z → result Z) (cell : Z → Z → Z) : Prop :=
  ∀ block_m block_n tiles m n,
    tiles.*1 = for_range 0 K 32 → Forall (tile_ok M N K A B block_m block_n) tiles → 0 ≤ m < 32 → 0 ≤ n < 8 →
    thread_cell compute tiles m n = Ok (cell (block_m + m) (block_n + n)).

Lemma over_tiles compute (step : Z → Z → Z → Z → Z) cell :
  (∀ block_m block_n tile m n acc, tile_ok M N K A B block_m block_n tile → 0 ≤ m < 32 → 0 ≤ n < 8 →
     compute m n tile acc = Ok (step (block_m + m) (block_n + n) acc tile.1)) →
  (∀ row col, cell row col = foldl (step row col) 0 (for_range 0 K 32)) → computes compute cell.
Proof.
  intros Hstep Hcell block_m block_n tiles m n Hf Hall Hm Hn. unfold thread_cell. rewrite Hcell, <-Hf, foldl_fmap.
  apply for_each_foldl. intros tile acc Ht. rewrite Forall_forall in Hall. by apply Hstep; [apply Hall|..].
Qed.

Lemma cofda_computes F q CS :
  0 ≤ F ≤ 39 → 0 < CS → q * CS = 32 → computes (cofda_tile F CS) (cofda_cell F CS).
Proof.
  intros HF HCS Hq. assert (0 < q) as Hq0 by nia. eapply over_tiles.
  - intros block_m block_n tile m n acc Ht Hm Hn. rewrite (cofda_tile_ok M N K A B HAb HBb F q CS block_m block_n) by done.
    rewrite foldl_fmap. apply (f_equal Ok).
    instantiate (1 := λ row col acc k, foldl (λ acc s, cofda_chunk M N K A B F CS row col acc (k + s)) acc (for_range 0 32 CS)).
    done.
  - intros row col. cbn beta. unfold cofda_cell. symmetry.
    rewrite (foldl_ext_in _ (λ acc k, foldl (cofda_chunk M N K A B F CS row col) acc ((λ s, k + s) <$> for_range 0 32 CS)))
      by (intros; by rewrite foldl_fmap).
    rewrite foldl_bind. replace 32 with (q * CS) by lia. rewrite chunks_of_tiles by done.
    destruct (for_range_extend K (cdiv K (q * CS) * q) CS) as (rest&->&Hrest); [done| |done|].
    { pose proof (cdiv_spec K (q * CS) ltac:(nia)). nia. }
    rewrite foldl_app. apply foldl_noop. intros k Hk. apply chunk_past_end; [done|nia|by apply Hrest|].
    apply foldl_inv; [left; apply kept_0; lia|]. intros a x _ Ha. apply cofda_chunk_acc; [done|nia|done].
Qed.

Lemma decoupled_computes F q CS :
  0 < CS → q * CS = 32 → computes (decoupled_tile K F CS) (decoupled_cell F CS).
Proof.
  intros HCS Hq. assert (0 < q) as Hq0 by nia. eapply over_tiles.
  - intros block_m block_n tile m n acc Ht Hm Hn. rewrite (decoupled_tile_ok M N K A B HAb HBb F q CS block_m block_n) by done.
    rewrite foldl_fmap. apply (f_equal Ok).
    instantiate (1 := λ row col acc k, foldl (λ acc s, decoupled_chunk M N K A B F CS row col acc (k + s)) acc
      (for_range 0 (Z.min 32 (K - k)) CS)). done.
  - intros row col. cbn beta. unfold decoupled_cell. symmetry.
    rewrite (foldl_ext_in _ (λ acc k, foldl (decoupled_chunk M N K A B F CS row col) acc
      ((λ s, k + s) <$> for_range 0 (Z.min 32 (K - k)) CS))) by (intros; by rewrite foldl_fmap).
    rewrite foldl_bind. replace 32 with (q * CS) by lia. by rewrite chunks_in_row.
Qed.

Lemma gdfs_computes F G q GS :
  0 < GS → q * GS = 32 → computes (gdfs_tile F G GS) (gdfs_cell F G GS).
Proof.
  intros HGS Hq. eapply over_tiles; [|done]. intros block_m block_n tile m n acc Ht Hm Hn.
  by apply (gdfs_tile_ok M N K A B HAb HBb F G q GS).
Qed.
End cells.

(** ** The grid *)

(** Each cell of a block belongs to one thread. *)
Lemma thread_cells_range cell : cell ∈ thread_cells → 0 ≤ cell.1 < 32 ∧ 0 ≤ cell.2 < 8.
Proof.
  assert (Forall (λ c : Z * Z, bool_decide (0 ≤ c.1 < 32 ∧ 0 ≤ c.2 < 8) = true) thread_cells) as Hall.
  { apply Forall_forall. intros c Hc. pose proof (forallb_forall (λ c, bool_decide (0 ≤ c.1 < 32 ∧ 0 ≤ c.2 < 8)) thread_cells) as [H _].
    apply H; [vm_compute; reflexivity|by apply list_elem_of_In]. }
  rewrite Forall_forall in Hall. intros Hc. by apply Hall, bool_decide_eq_true in Hc.
Qed.
Lemma thread_cells_all m n : 0 ≤ m < 32 → 0 ≤ n < 8 → (m, n) ∈ thread_cells.
Proof.
  intros Hm Hn.
  assert (forallb (λ m, forallb (λ n, bool_decide ((m, n) ∈ thread_cells)) (py_range 0 8)) (py_range 0 32) = true) as Hall
    by (vm_compute; reflexivity).
  pose proof (all_below 32 _ Hall m Hm) as Hrow. cbn beta in Hrow. pose proof (all_below 8 _ Hrow n Hn) as Hc.
  by apply bool_decide_eq_true in Hc.
Qed.

Section grid.
Context (M N K : Z) (A B : list Z).
Hypothesis HM : 0 < M.
Hypothesis HN : 0 < N.
Hypothesis HK : 0 ≤ K.
Hypothesis HA : len A = M * K.
Hypothesis HB : len B = N * K.
Hypothesis HMK : M * K < 2 ^ 31.
Hypothesis HNK : N * K < 2 ^ 31.
Hypothesis HMN : M * N < 2 ^ 31.
Context {Out : Type} (fmul fadd : Z → Z → Z) (to_output : Z → Out) (of_output : Out → Z).
Context (scale_a scale_b : Z) (bias : option (list Out)).
Hypothesis Hbias : ∀ l, bias = Some l → len l = N.

(** The value written for an accumulator. *)
Definition output (col acc : Z) : Out :=
  let val := fmul scale_a (fmul scale_b acc) in
  match bias ≫= λ l, l !! Z.to_nat col with
  | None => to_output val
  | Some b => to_output (fadd val (of_output b))
  end.

Lemma epilogue_ok col acc : 0 ≤ col < N → epilogue fmul fadd to_output of_output scale_a scale_b bias col acc = Ok (output col acc).
Proof.
  intros Hc. unfold epilogue, output. destruct bias as [l|] eqn:Hb; [|done].
  destruct (lookup_lt_is_Some_2 l (Z.to_nat col)) as [b Hx]; [specialize (Hbias l eq_refl); unfold len in Hbias; lia|].
  cbn. rewrite (py_index_nonneg l col b) by (done || lia). cbn. by rewrite Hx.
Qed.

Context (compute : Z → Z → Z * Shared → Z → result Z) (cell : Z → Z → Z).
Hypothesis Hcompute : computes M N K A B compute cell.

(** A block, and then the grid, as one loop over the cells. *)
Definition write (bc : (Z * Z) * (Z * Z)) (C : gmap Z Out) : result (gmap Z Out) :=
  let row := bc.1.1 * 32 + bc.2.1 in
  let col := bc.1.2 * 8 + bc.2.2 in
  Ok (if decide (row < M ∧ col < N) then <[row * N + col := output col (cell row col)]> C else C).

Lemma elem_of_grid y x : (y, x) ∈ grid M N ↔ (0 ≤ y ∧ y * 32 < M) ∧ (0 ≤ x ∧ x * 8 < N).
Proof.
  unfold grid. change (BM FP8EmuConfig) with 32. change (BN FP8EmuConfig) with 8.
  assert (∀ n s i, 0 < s → i < (n + s - 1) / s ↔ i * s < n) as Hdiv.
  { intros n s i Hs. pose proof (Z.mul_div_le (n + s - 1) s Hs). pose proof (Z.mul_succ_div_gt (n + s - 1) s Hs). split; nia. }
  rewrite list_elem_of_bind. split.
  - intros (y'&Hx&Hy%elem_of_py_range). apply list_elem_of_fmap in Hx as (x'&[= -> ->]&Hx%elem_of_py_range).
    rewrite <-!Hdiv by lia. lia.
  - intros [[Hy0 Hy] [Hx0 Hx]]. exists y. split; [apply list_elem_of_fmap; exists x; split; [done|]|];
      apply elem_of_py_range; (split; [done|]); by apply Hdiv.
Qed.

Lemma run_block_ok block C :
  block ∈ grid M N →
  run_block M N K A B fmul fadd to_output of_output compute scale_a scale_b bias block C =
    for_each (λ c C, write (block, c) C) thread_cells C.
Proof.
  destruct block as [y x]. intros [[Hy0 Hy] [Hx0 Hx]]%elem_of_grid. unfold run_block. cbn [fst snd].
  change (BM FP8EmuConfig) with 32. change (BN FP8EmuConfig) with 8. change (BK FP8EmuConfig) with 32.
  rewrite (proj2 (Z.leb_gt M (y * 32))), (proj2 (Z.leb_gt N (x * 8))) by done. cbn [orb].
  destruct (load_tiles_ok M N K A B HA HB HMK HNK (y * 32) (x * 8) (for_range 0 K 32) (mkShared ∅ ∅)) as (tiles&->&Hf&Hall);
    [lia|lia| |].
  { intros k Hk. apply elem_of_for_range in Hk as (i&?&->&?); lia. }
  rewrite Ok_bind. apply for_each_ext. intros [m n] C' Hc%thread_cells_range. cbn [fst snd] in Hc. unfold run_cell, write. cbn [fst snd].
  rewrite (Hcompute (y * 32) (x * 8) tiles m n) by (done || lia). rewrite Ok_bind.
  destruct (Z.ltb_spec (y * 32 + m) M), (Z.ltb_spec (x * 8 + n) N); cbn [andb];
    [rewrite decide_True by lia|by rewrite decide_False by lia..].
  rewrite epilogue_ok by lia. rewrite Ok_bind. rewrite i32_small; [done|].
  pose proof (flat_bound (y * 32 + m) (x * 8 + n) M N ltac:(lia) ltac:(lia)). lia.
Qed.

Lemma tile_split r s : 0 < s → 0 ≤ r → r = r / s * s + r mod s ∧ 0 ≤ r / s ∧ 0 ≤ r mod s < s.
Proof.
  intros Hs Hr. pose proof (Z.div_mod r s ltac:(lia)). pose proof (Z.div_pos r s Hr Hs). pose proof (Z.mod_pos_bound r s Hs). lia.
Qed.

(** A kernel writes every cell once, and nothing else. *)
Lemma run_kernel_ok C :
  ∃ C', run_kernel M N K A B fmul fadd to_output of_output compute scale_a scale_b bias C = Ok C' ∧
    (∀ row col, 0 ≤ row < M → 0 ≤ col < N → C' !! (row * N + col) = Some (output col (cell row col))) ∧
    (∀ i, ¬ (0 ≤ i < M * N) → C' !! i = C !! i).
Proof.
  unfold run_kernel.
  rewrite (for_each_ext _ (λ block C, for_each (λ c C, write (block, c) C) thread_cells C))
    by (intros block C' Hb; by apply run_block_ok).
  rewrite (for_each_bind (λ block c C, write (block, c) C) (λ _, thread_cells)).
  set (row := λ bc : (Z * Z) * (Z * Z), bc.1.1 * 32 + bc.2.1). set (col := λ bc : (Z * Z) * (Z * Z), bc.1.2 * 8 + bc.2.2).
  set (cells := grid M N ≫= λ x, pair x <$> thread_cells).
  assert (∀ bc, bc ∈ cells → 0 ≤ row bc ∧ 0 ≤ col bc) as Hpos.
  { intros [[y x] [m n]] ([y' x']&Hc&Hb)%list_elem_of_bind. apply list_elem_of_fmap in Hc as ([m' n']&[= -> -> -> ->]&Hc%thread_cells_range).
    apply elem_of_grid in Hb as [[? _] [? _]]. unfold row, col. cbn in *. lia. }
  destruct (for_each_writes (λ bc C, write (bc.1, bc.2) C) (λ bc, row bc * N + col bc) (λ bc, output (col bc) (cell (row bc) (col bc)))
    (λ bc, row bc < M ∧ col bc < N) cells C) as (C'&HC&Hin&Hout).
  - intros [[y x] [m n]] C' _. done.
  - intros x y Hx%Hpos Hy%Hpos [_ Hx'] [_ Hy'] He. apply row_col_inj in He as [-> ->]; [done|lia..].
  - exists C'. split; [exact HC|]. split.
    + intros r c Hr Hc. specialize (Hin ((r / 32, c / 8), (r mod 32, c mod 8))). unfold row, col in Hin. cbn in Hin.
      destruct (tile_split r 32) as (Er&Hr1&Hr2); [lia|lia|]. destruct (tile_split c 8) as (Ec&Hc1&Hc2); [lia|lia|].
      rewrite <-Er, <-Ec in Hin.
      apply Hin; [|lia]. apply list_elem_of_bind. exists (r / 32, c / 8). split.
      * apply list_elem_of_fmap. exists (r mod 32, c mod 8). split; [done|]. apply thread_cells_all; lia.
      * apply elem_of_grid. lia.
    + intros i Hi. apply Hout. intros bc Hbc [HrM HcN] <-. apply Hi. apply Hpos in Hbc. apply flat_bound; lia.
Qed.
End grid.
