(* ===== verification/MmaOps.v ===== *)
(** * MMA emulation: the FP8 operator

    Models the path from Python to the kernels: [mma_emu_scaled_fp8_mm] and its
    validation in src/vllm/_custom_ops.py, the operator entry point of
    src/csrc/quantization/mma_emu/fp8_gemm_kernels.cu with the dispatch of
    gemm/scaled_fp8_mm.cuh, and the choice of the backend in
    src/vllm/model_executor/layers/quantization/utils/w8a8_utils.py.

    A tensor is its shape, its strides, its type and its storage, whose elements are
    bit patterns; the kernels index the storage.  [TORCH_CHECK] raises RuntimeError.
    The switches over template instances are membership tests in the lists of their
    cases. *)
From S2P Require Import Prelude MmaCore MmaFormats MmaGemm.

Inductive dtype : Set := Float8E4M3 | BFloat16 | Float16 | Float32 | OtherDtype.
#[export] Instance dtype_eq_dec : EqDecision dtype.
Proof. solve_decision. Defined.

Record Tensor := mkTensor { t_shape : list Z; t_strides : list Z; t_dtype : dtype; storage : list Z }.

Definition prod (l : list Z) : Z := foldr Z.mul 1 l.
Definition numel (t : Tensor) : Z := prod (t_shape t).
Fixpoint row_major (shape : list Z) : list Z :=
  match shape with [] => [] | _ :: rest => prod rest :: row_major rest end.

(** ** [view(-1, shape[-1])]

    A view is code of PyTorch.  What the wrapper relies on is that a contiguous tensor
    can be seen as its rows, over the same storage. *)

Class RowView := view_rows : Tensor → result Tensor.
Class RowViewLaws `{RowView} : Prop :=
  view_rows_contiguous t lead K :
    0 < K → Forall (λ n, 0 < n) lead → t_shape t = lead ++ [K] → t_strides t = row_major (lead ++ [K]) →
    view_rows t = Ok (mkTensor [prod lead; K] [K; 1] (t_dtype t) (storage t)).

(** ** The operator *)

Section operator.
Context `{RowView} {Out : Type} (fmul fadd : Z → Z → Z) (to_output : dtype → Z → Out) (of_output : dtype → Out → Z).
(** The elements of the bias, which have the type of the output. *)
Context (out_of_bits : dtype → Z → Out).

(** [mma_emu_scaled_fp8_mm_emu]: the kernel for the parameters. *)
Definition fp8_dispatch (out_dtype : dtype) (a b : Tensor) (M N K : Z) (scale_a scale_b : Z) (bias : option (list Out))
    (algorithm f_bits g_bits group_size chunk_size : Z) (out : gmap Z Out) : result (gmap Z Out) :=
  if negb (bool_decide (out_dtype = BFloat16) || bool_decide (out_dtype = Float16)) then Err RuntimeError
  else if algorithm =? kGDFS then
    if ds_contains [8; 16] group_size && ds_contains [7; 9; 10; 11; 13; 15; 25; 35] f_bits && ds_contains [3; 4; 5; 6; 8; 13; 32] g_bits
    then Fp8Gemm.gdfs_kernel M N K (storage a) (storage b) fmul fadd (to_output out_dtype) (of_output out_dtype)
           f_bits g_bits group_size scale_a scale_b bias out
    else Err RuntimeError
  else if algorithm =? kCoFDA then
    if ds_contains [16; 32] chunk_size && ds_contains [3; 5; 7; 9; 10; 11; 12; 13; 17; 21; 25] f_bits
    then Fp8Gemm.cofda_kernel M N K (storage a) (storage b) fmul fadd (to_output out_dtype) (of_output out_dtype)
           f_bits chunk_size scale_a scale_b bias out
    else Err RuntimeError
  else if algorithm =? kCoFDADecoupled then
    if ds_contains [16; 32] chunk_size && ds_contains [3; 5; 7; 9; 10; 11; 12; 13; 17; 21; 25] f_bits
    then Fp8Gemm.cofda_decoupled_kernel M N K (storage a) (storage b) fmul fadd (to_output out_dtype) (of_output out_dtype)
           f_bits chunk_size scale_a scale_b bias out
    else Err RuntimeError
  else Err RuntimeError.

Definition torch_check (b : bool) : result unit := if b then Ok tt else Err RuntimeError.
Definition contiguous (t : Tensor) : bool := bool_decide (t_strides t = row_major (t_shape t)).

(** [torch.ops._C.mma_emu_scaled_fp8_mm]; [out_shape] and [out_strides] are those of
    the output, [scale_a] and [scale_b] the first elements of the scales. *)
Definition fp8_entry (out_shape out_strides : list Z) (out_dtype : dtype) (a b : Tensor) (scale_a scale_b : Tensor)
    (bias : option Tensor) (algorithm f_bits g_bits group_size chunk_size : Z) (out : gmap Z Out) : result (gmap Z Out) :=
  match out_shape, out_strides, t_shape a, t_strides a, t_shape b, t_strides b with
  | [c0; c1], [_; cs1], [a0; a1], [_; as1], [b0; b1], [bs0; _] =>
      _ ← torch_check ((c0 =? a0) && (a1 =? b0) && (b1 =? c1));
      _ ← torch_check ((as1 =? 1) && (cs1 =? 1));
      _ ← torch_check (bs0 =? 1);
      _ ← match bias with
          | None => Ok tt
          | Some t => torch_check ((numel t =? b1) && contiguous t && (len (t_shape t) =? 1))
          end;
      _ ← torch_check ((1 <=? algorithm) && (algorithm <=? 3));
      _ ← (if algorithm =? kGDFS then
             _ ← torch_check (ds_contains GDFS_F f_bits);
             _ ← torch_check (ds_contains FP8_G g_bits);
             torch_check (ds_contains FP8_GS group_size)
           else
             _ ← torch_check (ds_contains COFDA_F f_bits);
             torch_check (ds_contains FP8_CS chunk_size));
      sa ← read (storage scale_a) 0;
      sb ← read (storage scale_b) 0;
      fp8_dispatch out_dtype a b (i32 a0) (i32 b1) (i32 a1) sa sb ((λ t, out_of_bits out_dtype <$> storage t) <$> bias)
        (i32 algorithm) (i32 f_bits) (i32 g_bits) (i32 group_size) (i32 chunk_size) out
  | _, _, _, _, _, _ => Err RuntimeError
  end.

(** ** The Python wrapper *)

Record MmaEnvs := mkEnvs {
  VLLM_MMAEMU_FP8_ALGORITHM : string;
  VLLM_MMAEMU_FP8_F_BITS : Z;
  VLLM_MMAEMU_FP8_G_BITS : Z;
  VLLM_MMAEMU_FP8_GROUP_SIZE : Z;
  VLLM_MMAEMU_FP8_CHUNK_SIZE : Z;
}.

(** [str.lower] on ASCII; no other character has one of the names below as its
    lower case. *)
Definition lower_ascii (c : Ascii.ascii) : Ascii.ascii :=
  let n := Ascii.nat_of_ascii c in
  if ((65 <=? n) && (n <=? 90))%nat then Ascii.ascii_of_nat (n + 32) else c.
Fixpoint lower (s : string) : string :=
  match s with EmptyString => EmptyString | String c s => String (lower_ascii c) (lower s) end.

Definition FP8_ALGORITHM_MAP : list (string * Z) := [("gdfs", 1); ("cofda", 2); ("cofda_decoupled", 3)]%string.
Definition algorithm_value (algo_str : string) : option Z :=
  snd <$> List.find (λ kv, bool_decide (kv.1 = algo_str)) FP8_ALGORITHM_MAP.

(** The parameters after the environment filled in what was not given. *)
Record Fp8Params := mkParams { algo_str : string; algo_val : Z; f_bits_val : Z; g_bits_val : Z; group_size_val : Z; chunk_size_val : Z }.

Definition value_check (b : bool) : result unit := if b then Ok tt else Err ValueError.
Definition in_range (lo hi x : Z) : bool := (lo <=? x) && (x <=? hi).

Definition resolve_params (envs : MmaEnvs) (algorithm : option string) (f_bits g_bits group_size chunk_size : option Z)
  : result Fp8Params :=
  let algo_str := lower (default (VLLM_MMAEMU_FP8_ALGORITHM envs) algorithm) in
  if bool_decide (algo_str = ""%string) then Err ValueError
  else
    algo_val ← of_option ValueError (algorithm_value algo_str);
    Ok (mkParams algo_str algo_val (default (VLLM_MMAEMU_FP8_F_BITS envs) f_bits)
          (default (VLLM_MMAEMU_FP8_G_BITS envs) g_bits) (default (VLLM_MMAEMU_FP8_GROUP_SIZE envs) group_size)
          (default (VLLM_MMAEMU_FP8_CHUNK_SIZE envs) chunk_size)).

Definition validate_params (p : Fp8Params) : result unit :=
  if bool_decide (algo_str p = "gdfs"%string) then
    _ ← value_check (in_range 7 35 (f_bits_val p));
    _ ← value_check (ds_contains [3; 4; 5; 6; 8; 10; 13; 17; 25; 32] (g_bits_val p));
    value_check (ds_contains [8; 16] (group_size_val p))
  else if bool_decide (algo_str p = "cofda"%string) then
    _ ← value_check (in_range 3 25 (f_bits_val p));
    value_check (ds_contains [4; 8; 16; 32] (chunk_size_val p))
  else if bool_decide (algo_str p = "cofda_decoupled"%string) then
    _ ← value_check (in_range 3 25 (f_bits_val p));
    value_check (ds_contains [8; 16; 32] (chunk_size_val p))
  else Ok tt.

(** [mma_emu_scaled_fp8_mm]: the shape of the result and its elements; [empty] is
    what [torch.empty] leaves in the output. *)
Definition mma_emu_scaled_fp8_mm (envs : MmaEnvs) (empty : gmap Z Out) (a b scale_a scale_b : Tensor) (out_dtype : dtype)
    (bias : option Tensor) (algorithm : option string) (f_bits g_bits group_size chunk_size : option Z)
  : result (list Z * gmap Z Out) :=
  _ ← py_assert (bool_decide (out_dtype = BFloat16) || bool_decide (out_dtype = Float16));
  b_cols ← match bias with None => Ok 0 | Some _ => py_index (t_shape b) 1 end;
  _ ← py_assert (match bias with None => true | Some t => (numel t =? b_cols) && bool_decide (t_dtype t = out_dtype) end);
  _ ← py_assert (numel scale_a =? 1);
  _ ← py_assert (numel scale_b =? 1);
  p ← resolve_params envs algorithm f_bits g_bits group_size chunk_size;
  _ ← validate_params p;
  n ← py_index (t_shape b) 1;
  let target_shape := removelast (t_shape a) ++ [n] in
  a ← view_rows a;
  rows ← py_index (t_shape a) 0;
  out ← fp8_entry [rows; n] (row_major [rows; n]) out_dtype a b scale_a scale_b bias
          (algo_val p) (f_bits_val p) (g_bits_val p) (group_size_val p) (chunk_size_val p) empty;
  Ok (target_shape, out).

(** ** The backends of a linear layer *)

Inductive backend : Set :=
  Rocm | Flashinfer | Cutlass | MmaEmu | TorchPerTensor | TorchPerToken | TorchChannelwise.

(** [dispatch_w8a8_scaled_mm]. *)
Definition dispatch_w8a8_scaled_mm (use_rowwise : bool) (preferred_backend : string) (per_tensor_weights per_tensor_activations : bool)
  : result backend :=
  if per_tensor_weights && per_tensor_activations then
    Ok (if bool_decide (preferred_backend = "rocm"%string) then Rocm
        else if bool_decide (preferred_backend = "flashinfer"%string) then Flashinfer
        else if bool_decide (preferred_backend = "cutlass"%string) then Cutlass
        else if bool_decide (preferred_backend = "mma_emu"%string) then MmaEmu
        else TorchPerTensor)
  else if bool_decide (preferred_backend = "mma_emu"%string) then Err ValueError
  else if bool_decide (preferred_backend = "cutlass"%string) || bool_decide (preferred_backend = "flashinfer"%string) then Ok Cutlass
  else if negb per_tensor_weights && negb per_tensor_activations && use_rowwise then Ok TorchPerToken
  else Ok TorchChannelwise.

(** The backend chosen by [Fp8LinearOp.__init__]; [is_rocm] and the others are the
    platform. *)
Definition preferred_backend (is_rocm is_cuda cutlass_fp8_supported has_flashinfer capability_100 capability_89 use_mma_emu : bool)
  : result string :=
  let b := if is_rocm then "rocm"
           else if is_cuda && cutlass_fp8_supported then if has_flashinfer && capability_100 then "flashinfer" else "cutlass"
           else "torch" in
  if use_mma_emu then if is_cuda && capability_89 then Ok "mma_emu"%string else Err ValueError
  else Ok b%string.
End operator.
