(* ===== verification/MmaOperator.v ===== *)
(** * MMA emulation: the FP8 operator is correct

    From the Python call to the cells of the output: which parameters are accepted
    and what the output then holds. *)
From S2P Require Import Prelude MmaCore MmaFacts MmaSum MmaFormats MmaFormatsFacts MmaGemm MmaGemmFacts MmaKernel MmaOps.
Import Fp8GemmFacts.

(** ** Parameters *)

Lemma ds_contains_elem set x : ds_contains set x = true ↔ x ∈ set.
Proof.
  unfold ds_contains. rewrite existsb_exists. split.
  - intros (y&Hy&He%Z.eqb_eq). subst. by apply list_elem_of_In.
  - intros Hx. exists x. split; [by apply list_elem_of_In|apply Z.eqb_refl].
Qed.

(** The parameters of the design space. *)
Definition accepted (p : Fp8Params) : bool :=
  if algo_val p =? kGDFS then
    ds_contains GDFS_F (f_bits_val p) && ds_contains FP8_G (g_bits_val p) && ds_contains FP8_GS (group_size_val p)
  else ds_contains COFDA_F (f_bits_val p) && ds_contains FP8_CS (chunk_size_val p).

(** The name and the number of an algorithm. *)
Definition named (p : Fp8Params) : Prop :=
  (algo_str p = "gdfs"%string ∧ algo_val p = kGDFS) ∨ (algo_str p = "cofda"%string ∧ algo_val p = kCoFDA) ∨
  (algo_str p = "cofda_decoupled"%string ∧ algo_val p = kCoFDADecoupled).

Lemma resolve_named envs algorithm f g gs cs p : resolve_params envs algorithm f g gs cs = Ok p → named p.
Proof.
  unfold resolve_params. set (s := lower _). case_bool_decide; [done|]. unfold algorithm_value. cbn.
  unfold named. case_bool_decide as H1; [intros [= <-]; cbn; auto|].
  case_bool_decide as H2; [intros [= <-]; cbn; auto|]. case_bool_decide as H3; [intros [= <-]; cbn; auto|done].
Qed.
Lemma resolve_error envs algorithm f g gs cs e : resolve_params envs algorithm f g gs cs = Err e → e = ValueError.
Proof.
  unfold resolve_params. case_bool_decide; [by intros [= <-]|]. destruct (algorithm_value _); [done|by intros [= <-]].
Qed.

Lemma in_list_range (l : list Z) lo hi x : forallb (in_range lo hi) l = true → x ∈ l → in_range lo hi x = true.
Proof. intros Hall Hx. rewrite forallb_forall in Hall. by apply Hall, list_elem_of_In. Qed.
Lemma ds_incl l l' x : forallb (ds_contains l') l = true → ds_contains l x = true → ds_contains l' x = true.
Proof. intros Hall Hx%ds_contains_elem. rewrite forallb_forall in Hall. by apply Hall, list_elem_of_In. Qed.

(** Python lets all of the design space through. *)
Lemma accepted_valid p : named p → accepted p = true → validate_params p = Ok tt.
Proof.
  unfold named, accepted, validate_params. intros [[-> ->]|[[-> ->]|[-> ->]]]; cbn [Z.eqb].
  - change (kGDFS =? kGDFS) with true. cbn [negb]. rewrite !andb_true_iff. intros [[Hf Hg] Hs].
    rewrite bool_decide_true by done. rewrite (in_list_range GDFS_F 7 35) by (done || by apply ds_contains_elem).
    rewrite (ds_incl FP8_G [3; 4; 5; 6; 8; 10; 13; 17; 25; 32]) by done. by rewrite (ds_incl FP8_GS [8; 16]) by done.
  - change (kCoFDA =? kGDFS) with false. rewrite !andb_true_iff. intros [Hf Hc].
    rewrite bool_decide_false, bool_decide_true by done.
    rewrite (in_list_range COFDA_F 3 25) by (done || by apply ds_contains_elem).
    by rewrite (ds_incl FP8_CS [4; 8; 16; 32]) by done.
  - change (kCoFDADecoupled =? kGDFS) with false. rewrite !andb_true_iff. intros [Hf Hc].
    rewrite !bool_decide_false, bool_decide_true by done.
    rewrite (in_list_range COFDA_F 3 25) by (done || by apply ds_contains_elem).
    by rewrite (ds_incl FP8_CS [8; 16; 32]) by done.
Qed.
Lemma validate_error p e : validate_params p = Err e → e = ValueError.
Proof.
  unfold validate_params, value_check. repeat case_bool_decide; repeat (case_match; cbn); by intros [= <-].
Qed.

(** ** Views of strided tensors *)

(** Dimensions and strides merged into one, where the strides allow it; a dimension
    of size one does not matter. *)
Fixpoint merge_dims (dims : list (Z * Z)) : option (Z * Z) :=
  match dims with
  | [] => None
  | [d] => Some d
  | (n, s) :: rest =>
      '(n', s') ← merge_dims rest;
      if n =? 1 then Some (n', s')
      else if n' =? 1 then Some (n, s)
      else if s =? n' * s' then Some (n * n', s') else None
  end.
#[export] Instance strided_view : RowView := λ t,
  match last (t_shape t), last (t_strides t) with
  | Some k, Some s =>
      if k =? 0 then Err RuntimeError
      else
        match removelast (t_shape t) with
        | [] => Ok (mkTensor [1; k] [k; s] (t_dtype t) (storage t))
        | lead =>
            match merge_dims (zip lead (removelast (t_strides t))) with
            | Some (n, s0) => Ok (mkTensor [n; k] [s0; s] (t_dtype t) (storage t))
            | None => Err RuntimeError
            end
        end
  | _, _ => Err IndexError
  end.

Lemma prod_pos l : Forall (λ n, 0 < n) l → 0 < prod l.
Proof. induction 1 as [|x l Hx _ IH]; cbn; [lia|]. unfold prod in IH. nia. Qed.

Lemma row_major_snoc lead K : row_major (lead ++ [K]) = ((λ s, s * K) <$> row_major lead) ++ [1].
Proof.
  induction lead as [|n lead IH]; [done|]. cbn. rewrite IH. f_equal. clear.
  induction lead as [|m lead IH]; unfold prod in *; cbn; lia.
Qed.
Lemma length_row_major l : length (row_major l) = length l.
Proof. induction l; cbn; lia. Qed.

Lemma merge_row_major lead K :
  lead ≠ [] → Forall (λ n, 0 < n) lead → merge_dims (zip lead ((λ s, s * K) <$> row_major lead)) = Some (prod lead, K).
Proof.
  induction lead as [|n lead IH]; [done|]. intros _ [Hn Hall]%Forall_cons. cbn.
  destruct lead as [|m lead]; [cbn; repeat f_equal; lia|]. rewrite IH by done. cbn.
  set (q := m * foldr Z.mul 1 lead). assert (0 < q) by (apply (prod_pos (m :: lead)); done).
  change (prod (m :: lead)) with q. change (prod (n :: m :: lead)) with (n * q).
  clearbody q. destruct (Z.eqb_spec n 1) as [->|]; [by rewrite Z.mul_1_l|].
  destruct (Z.eqb_spec q 1) as [->|]; [by rewrite Z.mul_1_l, Z.mul_1_r|]. by rewrite Z.eqb_refl.
Qed.

#[export] Instance strided_view_laws : RowViewLaws.
Proof.
  intros t lead K HK Hlead Hs Hst. unfold view_rows, strided_view. rewrite Hs, Hst, row_major_snoc, !last_snoc, !removelast_last.
  rewrite (proj2 (Z.eqb_neq K 0)) by lia. destruct lead as [|n lead]; [done|].
  by rewrite merge_row_major.
Qed.

(** ** The operator *)

Section operator.
Context `{RowViewLaws} {Out : Type} (fmul fadd : Z → Z → Z) (to_output : dtype → Z → Out) (of_output : dtype → Out → Z).
Context (out_of_bits : dtype → Z → Out).

(** A call as a linear layer makes it: [lead] are the leading dimensions of the
    activations, a row of [K] bytes each; the weights are stored column by column.
    Indices fit in an [int]. *)
Record call_ok (lead : list Z) (N K : Z) (a b scale_a scale_b : Tensor) (out_dtype : dtype) (bias : option Tensor) : Prop := {
  co_dims : Forall (λ n, 0 < n) lead ∧ 0 < N ∧ 0 < K;
  co_a : t_shape a = lead ++ [K] ∧ t_strides a = row_major (lead ++ [K]) ∧ len (storage a) = prod lead * K ∧
         Forall (λ x, 0 ≤ x < 256) (storage a);
  co_b : t_shape b = [K; N] ∧ t_strides b = [1; K] ∧ len (storage b) = N * K ∧ Forall (λ x, 0 ≤ x < 256) (storage b);
  co_sizes : prod lead * K < 2 ^ 31 ∧ N * K < 2 ^ 31 ∧ prod lead * N < 2 ^ 31;
  co_scale_a : numel scale_a = 1 ∧ storage scale_a ≠ [];
  co_scale_b : numel scale_b = 1 ∧ storage scale_b ≠ [];
  co_dtype : out_dtype = BFloat16 ∨ out_dtype = Float16;
  co_bias : ∀ t, bias = Some t → t_shape t = [N] ∧ t_strides t = [1] ∧ t_dtype t = out_dtype ∧ len (storage t) = N;
}.

(** The accumulator of a cell under the parameters. *)
Definition cell_of (p : Fp8Params) (M N K : Z) (A B : list Z) : Z → Z → Z :=
  if algo_val p =? kGDFS then gdfs_cell M N K A B (f_bits_val p) (g_bits_val p) (group_size_val p)
  else if algo_val p =? kCoFDA then cofda_cell M N K A B (f_bits_val p) (chunk_size_val p)
  else decoupled_cell M N K A B (f_bits_val p) (chunk_size_val p).

Lemma read_head (l : list Z) : l ≠ [] → read l 0 = Ok (l !!! 0%nat).
Proof. by destruct l. Qed.

Lemma contained_small l x n : ds_contains l x = true → forallb (in_range 0 n) l = true → 0 ≤ x ≤ n.
Proof.
  intros Hx%ds_contains_elem Hall. rewrite forallb_forall in Hall. specialize (Hall x).
  rewrite <-list_elem_of_In in Hall. specialize (Hall Hx). unfold in_range in Hall. lia.
Qed.

(** Chunks and groups divide a tile. *)
Lemma divides_tile l x :
  forallb (λ y, (0 <? y) && (32 / y * y =? 32)) l = true → ds_contains l x = true → 0 < x ∧ 32 / x * x = 32.
Proof.
  intros Hall Hx%ds_contains_elem. rewrite forallb_forall in Hall. specialize (Hall x). rewrite <-list_elem_of_In in Hall.
  specialize (Hall Hx). lia.
Qed.

(** What a launch leaves in the output. *)
Definition written {M N : Z} (out_dtype : dtype) (sa sb : Z) (bias : option (list Out)) (cell : Z → Z → Z) (C C' : gmap Z Out) : Prop :=
  (∀ row col, 0 ≤ row < M → 0 ≤ col < N → C' !! (row * N + col) =
     Some (output fmul fadd (to_output out_dtype) (of_output out_dtype) sa sb bias col (cell row col))) ∧
  (∀ i, ¬ (0 ≤ i < M * N) → C' !! i = C !! i).
Arguments written : clear implicits.

(** The elements of the bias. *)
Definition bias_values (out_dtype : dtype) (bias : option Tensor) : option (list Out) :=
  (λ t, out_of_bits out_dtype <$> storage t) <$> bias.

(** The kernel that is launched. *)
Lemma dispatch_ok lead N K a b scale_a scale_b out_dtype bias p C sa sb :
  call_ok lead N K a b scale_a scale_b out_dtype bias → named p → accepted p = true →
  let M := prod lead in
  ∃ C', fp8_dispatch fmul fadd to_output of_output out_dtype a b M N K sa sb (bias_values out_dtype bias)
          (algo_val p) (f_bits_val p) (g_bits_val p) (group_size_val p) (chunk_size_val p) C = Ok C' ∧
    written M N out_dtype sa sb (bias_values out_dtype bias) (cell_of p M N K (storage a) (storage b)) C C'.
Proof.
  intros [(Hl&HN&HK) (_&_&HA&HAb) (_&_&HB&HBb) (H1&H2&H3) _ _ Hd Hbias] Hp Hacc M.
  assert (∀ l, bias_values out_dtype bias = Some l → len l = N) as Hb.
  { intros l. unfold bias_values. destruct bias as [t|]; [|done]. intros [= <-]. rewrite len_fmap. by apply Hbias. }
  pose proof (prod_pos lead Hl) as HM. fold M in HM, H1, H3, HA.
  unfold fp8_dispatch. rewrite (proj2 (negb_false_iff _)) by (destruct Hd as [->| ->]; done). unfold accepted, cell_of in *.
  change [7; 9; 10; 11; 13; 15; 25; 35] with GDFS_F. change [3; 4; 5; 6; 8; 13; 32] with FP8_G. change [8; 16] with FP8_GS.
  change [16; 32] with FP8_CS. change [3; 5; 7; 9; 10; 11; 12; 13; 17; 21; 25] with COFDA_F.
  destruct Hp as [[_ Hv]|[[_ Hv]|[_ Hv]]]; rewrite Hv in *; cbn -[ds_contains] in Hacc |- *;
    rewrite !andb_true_iff in Hacc.
  - destruct Hacc as [[-> ->] Hs]. rewrite Hs. apply divides_tile in Hs as [Hs1 Hs2]; [|done]. cbn. apply run_kernel_ok; try done; try lia.
    by apply (gdfs_computes M N K _ _ HAb HBb _ _ (32 / group_size_val p)).
  - destruct Hacc as [Hf Hs]. rewrite Hf, Hs. pose proof (contained_small _ _ 25 Hf ltac:(done)).
    apply divides_tile in Hs as [Hs1 Hs2]; [|done]. cbn.
    apply run_kernel_ok; try done; try lia. apply (cofda_computes M N K _ _ ltac:(lia) HAb HBb _ (32 / chunk_size_val p)); lia.
  - destruct Hacc as [-> Hs]. rewrite Hs. apply divides_tile in Hs as [Hs1 Hs2]; [|done]. cbn.
    apply run_kernel_ok; try done; try lia. apply (decoupled_computes M N K _ _ ltac:(lia) HAb HBb _ (32 / chunk_size_val p)); lia.
Qed.
(** Once the shapes match, the entry point checks the parameters. *)
Lemma fp8_entry_ok lead N K a b scale_a scale_b out_dtype bias p C :
  call_ok lead N K a b scale_a scale_b out_dtype bias → named p →
  let M := prod lead in
  let a' := mkTensor [M; K] [K; 1] (t_dtype a) (storage a) in
  fp8_entry fmul fadd to_output of_output out_of_bits [M; N] (row_major [M; N]) out_dtype a' b scale_a scale_b bias
      (algo_val p) (f_bits_val p) (g_bits_val p) (group_size_val p) (chunk_size_val p) C =
    if accepted p
    then fp8_dispatch fmul fadd to_output of_output out_dtype a b M N K (storage scale_a !!! 0%nat) (storage scale_b !!! 0%nat)
           (bias_values out_dtype bias) (algo_val p) (i32 (f_bits_val p)) (i32 (g_bits_val p))
           (i32 (group_size_val p)) (i32 (chunk_size_val p)) C
    else Err RuntimeError.
Proof.
  intros [(Hl&HN&HK) _ (Hb1&Hb2&_) (H1&H2&H3) [_ Hsa] [_ Hsb] Hd Hbias] Hp M a'. pose proof (prod_pos lead Hl) as HM. fold M in HM, H1, H3.
  unfold fp8_entry. cbn [row_major t_shape t_strides a']. rewrite Hb1, Hb2. cbn [foldr]. rewrite !Z.eqb_refl.
  assert (match bias with None => Ok () | Some t => torch_check ((numel t =? N) && contiguous t && (len (t_shape t) =? 1)) end = Ok tt) as ->.
  { destruct bias as [t|]; [|done]. destruct (Hbias t eq_refl) as (Hts&Htst&_). unfold numel, contiguous. rewrite Hts, Htst. cbn.
    by rewrite Z.mul_1_r, Z.eqb_refl. }
  rewrite !read_head by done. rewrite (i32_small M), (i32_small N), (i32_small K) by nia. unfold accepted.
  assert (i32 (algo_val p) = algo_val p ∧ (1 <=? algo_val p) && (algo_val p <=? 3) = true) as [-> ->]
    by (by destruct Hp as [[_ ->]|[[_ ->]|[_ ->]]]).
  cbn [andb torch_check]. rewrite !Ok_bind.
  destruct (algo_val p =? kGDFS).
  - destruct (ds_contains GDFS_F _); [|done]. destruct (ds_contains FP8_G _); [|done]. by destruct (ds_contains FP8_GS _).
  - destruct (ds_contains COFDA_F _); [|done]. by destruct (ds_contains FP8_CS _).
Qed.

(** The parameters as [int]s. *)
Definition wrapped (p : Fp8Params) : Fp8Params :=
  mkParams (algo_str p) (algo_val p) (i32 (f_bits_val p)) (i32 (g_bits_val p)) (i32 (group_size_val p)) (i32 (chunk_size_val p)).

Lemma wrapped_ok p :
  accepted p = true → accepted (wrapped p) = true ∧ ∀ M N K A B, cell_of (wrapped p) M N K A B = cell_of p M N K A B.
Proof.
  assert (∀ l x, forallb (in_range 0 100) l = true → ds_contains l x = true → i32 x = x) as Hsmall.
  { intros l x Hl Hx. pose proof (contained_small l x 100 Hx Hl). apply i32_small. lia. }
  unfold accepted, cell_of, wrapped. cbn [algo_val f_bits_val g_bits_val group_size_val chunk_size_val].
  destruct (algo_val p =? kGDFS); rewrite !andb_true_iff.
  - intros [[Hf Hg] Hs]. rewrite (Hsmall GDFS_F _ eq_refl Hf), (Hsmall FP8_G _ eq_refl Hg), (Hsmall FP8_GS _ eq_refl Hs). done.
  - intros [Hf Hs]. rewrite (Hsmall COFDA_F _ eq_refl Hf), (Hsmall FP8_CS _ eq_refl Hs). done.
Qed.

End operator.

(** One row, one column, two products; the epilogue keeps the accumulator. *)
Definition ex_a : Tensor := mkTensor [1; 2] [2; 1] Float8E4M3 [0x38; 0x40].
Definition ex_b : Tensor := mkTensor [2; 1] [1; 2] Float8E4M3 [0x44; 0xB8].
Definition ex_scale : Tensor := mkTensor [1] [1] Float32 [0x3F800000].
Definition ex_envs : MmaEnvs := mkEnvs "CoFDA" 13 32 16 16.

