(* ===== verification/MmaLayout.v ===== *)
(** * MMA emulation: the layout of block scales

    Models [swizzle_blockscale] of
    src/vllm/model_executor/layers/quantization/utils/quant_utils.py, which pads the
    block scales of an FP4 tensor to tiles of 128 by 4 and interleaves them, and shows
    that [read_scale] of src/csrc/quantization/mma_emu/formats/scale_swizzle.cuh
    reads back each of them.  The tensor operations are code of PyTorch: a class with
    their documented effect on the elements, which strided tensors implement. *)
From S2P Require Import Prelude MmaCore MmaFacts MmaSum MmaFormats MmaOps.

(** ** Elements of a tensor *)

Definition offset (strides idx : list Z) : Z := foldr Z.add 0 (zip_with Z.mul strides idx).
Definition at_index (t : Tensor) (idx : list Z) : option Z := storage t !! Z.to_nat (offset (t_strides t) idx).
Definition in_dim (n i : Z) : Prop := 0 ≤ i < n.
Definition in_shape : list Z → list Z → Prop := Forall2 in_dim.
#[export] Instance in_shape_dec shape idx : Decision (in_shape shape idx).
Proof. apply Forall2_dec. intros n i. unfold in_dim. apply _. Defined.

Class TorchOps := {
  torch_zeros : list Z → dtype → Tensor;
  (** [dst[:n0, :n1, ...] = src] *)
  torch_assign : Tensor → Tensor → Tensor;
  torch_unsqueeze : Tensor → Tensor;
  torch_reshape : Tensor → list Z → result Tensor;
  torch_permute : Tensor → list nat → Tensor;
  torch_contiguous : Tensor → Tensor;
}.

(** A tensor of a shape that holds the elements given by a function. *)
Record has_elems (t : Tensor) (shape : list Z) (f : list Z → option Z) : Prop := {
  he_shape : t_shape t = shape;
  he_elems : ∀ idx x, in_shape shape idx → f idx = Some x → at_index t idx = Some x;
}.

Class TorchLaws `{TorchOps} : Prop := {
  zeros_spec shape d :
    let t := torch_zeros shape d in
    t_strides t = row_major shape ∧ t_dtype t = d ∧ has_elems t shape (λ _, Some 0);
  assign_spec dst src :
    length (t_shape dst) = length (t_shape src) → Forall2 Z.le (t_shape src) (t_shape dst) →
    t_strides dst = row_major (t_shape dst) →
    let t := torch_assign dst src in
    t_strides t = row_major (t_shape dst) ∧ t_dtype t = t_dtype dst ∧
    has_elems t (t_shape dst) (λ idx, if decide (in_shape (t_shape src) idx) then at_index src idx else at_index dst idx);
  unsqueeze_spec t :
    let t' := torch_unsqueeze t in
    t_dtype t' = t_dtype t ∧ t_shape t' = 1 :: t_shape t ∧ ∀ idx, in_shape (t_shape t) idx → at_index t' (0 :: idx) = at_index t idx;
  reshape_spec t shape :
    t_strides t = row_major (t_shape t) → prod shape = numel t →
    torch_reshape t shape = Ok (mkTensor shape (row_major shape) (t_dtype t) (storage t));
  permute_spec t p :
    p ≡ₚ seq 0 (length (t_shape t)) → length (t_strides t) = length (t_shape t) →
    t_dtype (torch_permute t p) = t_dtype t ∧ t_shape (torch_permute t p) = (λ j, t_shape t !!! j) <$> p ∧
    ∀ idx, in_shape (t_shape t) idx → at_index (torch_permute t p) ((λ j, idx !!! j) <$> p) = at_index t idx;
  contiguous_spec t :
    let t' := torch_contiguous t in
    t_strides t' = row_major (t_shape t) ∧ t_dtype t' = t_dtype t ∧ has_elems t' (t_shape t) (at_index t);
}.

(** ** [swizzle_blockscale] *)

Definition round_up (x m : Z) : Z := (x + m - 1) / m * m.

Section swizzle.
Context `{TorchOps}.

(** From the padding to [.contiguous()], for scales of three dimensions. *)
Definition interleave (B M_padded K_padded : Z) (scale : Tensor) : result Tensor :=
  let padded := torch_assign (torch_zeros [B; M_padded; K_padded] (t_dtype scale)) scale in
  padded ← torch_reshape padded [B; M_padded / 128; 4; 32; K_padded / 4; 4];
  Ok (torch_contiguous (torch_permute padded [0; 1; 4; 3; 2; 5]%nat)).

Definition swizzle_blockscale (scale : Tensor) : result Tensor :=
  _ ← py_assert (bool_decide (t_dtype scale = Float8E4M3));
  let scale_ndim := len (t_shape scale) in
  let scale := if scale_ndim =? 2 then torch_unsqueeze scale else scale in
  _ ← py_assert (len (t_shape scale) =? 3);
  match t_shape scale with
  | [B; M; K] =>
      let M_padded := round_up M 128 in
      let K_padded := round_up K 4 in
      swizzled ← interleave B M_padded K_padded scale;
      if scale_ndim =? 2 then torch_reshape swizzled [M_padded; K_padded]
      else torch_reshape swizzled [B; M_padded; K_padded]
  | _ => Err ValueError
  end.
End swizzle.

(** ** Round trip *)

Lemma round_up_spec x m : 0 < m → 0 ≤ x → x ≤ round_up x m < x + m ∧ round_up x m = round_up x m / m * m.
Proof.
  intros Hm Hx. unfold round_up. rewrite Z.div_mul by lia. pose proof (Z.div_mod (x + m - 1) m ltac:(lia)).
  pose proof (Z.mod_pos_bound (x + m - 1) m ltac:(lia)). split; [lia|done].
Qed.

Lemma in_shape_3 a b c i j k : 0 ≤ i < a → 0 ≤ j < b → 0 ≤ k < c → in_shape [a; b; c] [i; j; k].
Proof. intros. unfold in_shape. by rewrite !Forall2_cons, Forall2_nil. Qed.

Lemma in_shape_6 a b c d e f i j k l m n :
  0 ≤ i < a → 0 ≤ j < b → 0 ≤ k < c → 0 ≤ l < d → 0 ≤ m < e → 0 ≤ n < f → in_shape [a; b; c; d; e; f] [i; j; k; l; m; n].
Proof. intros. unfold in_shape. by rewrite !Forall2_cons, Forall2_nil. Qed.

(** The tile, group and row of an index, and its column. *)
Lemma tile_index m k :
  0 ≤ m → 0 ≤ k →
  m = m / 128 * 128 + m mod 128 / 32 * 32 + m mod 128 mod 32 ∧ k = k / 4 * 4 + k mod 4 ∧
  0 ≤ m mod 128 / 32 < 4 ∧ 0 ≤ m mod 128 mod 32 < 32 ∧ 0 ≤ k mod 4 < 4 ∧ 0 ≤ m / 128 ∧ 0 ≤ k / 4.
Proof.
  intros Hm Hk. pose proof (Z.div_mod m 128 ltac:(lia)). pose proof (Z.mod_pos_bound m 128 ltac:(lia)).
  pose proof (Z.div_mod (m mod 128) 32 ltac:(lia)). pose proof (Z.mod_pos_bound (m mod 128) 32 ltac:(lia)).
  pose proof (Z.div_mod k 4 ltac:(lia)). pose proof (Z.mod_pos_bound k 4 ltac:(lia)).
  pose proof (Z.div_pos m 128 Hm ltac:(lia)). pose proof (Z.div_pos k 4 Hk ltac:(lia)). lia.
Qed.

Section facts.
Context `{TorchLaws}.

(** The element of the padded tensor behind a scale. *)
Definition padded_at (M K : Z) (scale : Tensor) (b m k : Z) : option Z :=
  if decide (m < M ∧ k < K) then at_index scale [b; m; k] else Some 0.

Lemma padded_ok B M K Mp Kp scale :
  t_shape scale = [B; M; K] → M ≤ Mp → K ≤ Kp →
  let t := torch_assign (torch_zeros [B; Mp; Kp] (t_dtype scale)) scale in
  t_strides t = row_major [B; Mp; Kp] ∧ t_shape t = [B; Mp; Kp] ∧ t_dtype t = t_dtype scale ∧
  ∀ b m k x, 0 ≤ b < B → 0 ≤ m < Mp → 0 ≤ k < Kp → padded_at M K scale b m k = Some x → at_index t [b; m; k] = Some x.
Proof.
  intros Hs HM HK t. destruct (zeros_spec [B; Mp; Kp] (t_dtype scale)) as (Hz1&Hz0&[Hz2 Hz3]).
  destruct (assign_spec (torch_zeros [B; Mp; Kp] (t_dtype scale)) scale) as (Ht1&Ht0&[Ht2 Ht3]); rewrite ?Hz2, ?Hs; [done| |done|].
  { repeat constructor; lia. }
  rewrite Hz2 in *. split_and!; [done|done|by etrans; [apply Ht0|]|]. intros b m k x Hb Hm Hk Hx.
  assert (in_shape [B; Mp; Kp] [b; m; k]) as Hin by by apply in_shape_3.
  apply Ht3; [done|]. revert Hx. unfold padded_at. rewrite Hs.
  destruct (decide (in_shape _ _)) as [Hc|Hc], (decide (m < M ∧ k < K)); try done; [| |by apply Hz3].
  - exfalso. unfold in_shape, in_dim in Hc. rewrite !Forall2_cons in Hc. naive_solver.
  - exfalso. apply Hc. apply in_shape_3; lia.
Qed.

Lemma swizzle_permutes : [0; 1; 4; 3; 2; 5]%nat ≡ₚ seq 0 6.
Proof.
  apply NoDup_Permutation; [|apply NoDup_seq|]; [by apply (bool_decide_unpack _); vm_compute|].
  intros x. rewrite elem_of_seq. set_unfold. lia.
Qed.

(** The position of a scale inside its matrix. *)
Definition swizzled_at (k_tiles m k : Z) : Z :=
  k mod 4 + 4 * (m mod 128 / 32 + 4 * (m mod 128 mod 32 + 32 * (k / 4 + k_tiles * (m / 128)))).

Lemma interleave_ok B M K scale :
  t_shape scale = [B; M; K] → 0 ≤ B → 0 ≤ M → 0 ≤ K →
  let Mp := round_up M 128 in
  let Kp := round_up K 4 in
  ∃ t, interleave B Mp Kp scale = Ok t ∧ numel t = B * (Mp * Kp) ∧ t_dtype t = t_dtype scale ∧
    t_strides t = row_major (t_shape t) ∧
    ∀ b m k x, 0 ≤ b < B → 0 ≤ m < Mp → 0 ≤ k < Kp → padded_at M K scale b m k = Some x →
      storage t !! Z.to_nat (b * (Mp * Kp) + swizzled_at (Kp / 4) m k) = Some x.
Proof.
  intros Hs HB HM HK Mp Kp. unfold interleave.
  destruct (round_up_spec M 128) as [HMp HMt]; [lia..|]. destruct (round_up_spec K 4) as [HKp HKt]; [lia..|].
  fold Mp in HMp, HMt. fold Kp in HKp, HKt. clearbody Mp Kp. set (Mt := Mp / 128) in *. set (Kt := Kp / 4) in *. clearbody Mt Kt.
  pose proof (padded_ok B M K Mp Kp scale Hs ltac:(lia) ltac:(lia)) as (Hp1&Hp2&Hp4&Hp3).
  set (padded := torch_assign _ _) in *. rewrite reshape_spec; [|by rewrite Hp1, Hp2|unfold numel, prod; rewrite Hp2; subst; cbn; lia].
  rewrite Ok_bind. set (r := mkTensor _ _ _ _). eexists. split; [done|].
  destruct (permute_spec r [0; 1; 4; 3; 2; 5]%nat) as (Hq1&Hq2&Hq3); [by apply swizzle_permutes|done|].
  destruct (contiguous_spec (torch_permute r [0; 1; 4; 3; 2; 5]%nat)) as (Hc1&Hc2&[Hc3 Hc4]).
  assert (t_shape (torch_permute r [0; 1; 4; 3; 2; 5]%nat) = [B; Mt; Kt; 32; 4; 4]) as Hsh by done. rewrite Hsh in *.
  split_and!; [unfold numel, prod; rewrite Hc3; subst Mp Kp; cbn; lia|by rewrite Hc2, Hq1|by rewrite Hc1, Hc3|].
  intros b m k x Hb Hm Hk Hx%Hp3; [|lia..]. clear Hp3.
  destruct (tile_index m k) as (Hm'&Hk'&Hg&Hr&Hki&Hmt&Hkt); [lia..|]. unfold swizzled_at.
  set (mt := m / 128) in *. set (kt := k / 4) in *. set (ki := k mod 4) in *.
  set (g := m mod 128 / 32) in *. set (row := m mod 128 mod 32) in *. clearbody mt kt ki g row. subst m k.
  specialize (Hq3 [b; mt; g; row; kt; ki]). specialize (Hc4 [b; mt; kt; row; g; ki] x). cbn in Hq3. unfold at_index in Hq3, Hc4.
  etrans; [|apply Hc4; [apply in_shape_6; lia|]; etrans; [apply Hq3, in_shape_6; lia|]].
  - rewrite Hc1. do 2 f_equal. subst Mp Kp. cbn. lia.
  - rewrite <-Hx. unfold at_index. rewrite Hp1. cbn [r storage t_strides]. do 2 f_equal. subst Mp Kp. cbn. lia.
Qed.

(** Inside its matrix, and inside an [int]. *)
Lemma swizzled_at_range Mp Kp m k :
  Mp = Mp / 128 * 128 → Kp = Kp / 4 * 4 → 0 ≤ m < Mp → 0 ≤ k < Kp → 0 ≤ swizzled_at (Kp / 4) m k < Mp * Kp.
Proof.
  intros HMp HKp Hm Hk. destruct (tile_index m k) as (Hm'&Hk'&Hg&Hr&Hki&Hmt&Hkt); [lia..|]. unfold swizzled_at.
  assert (m / 128 + 1 ≤ Mp / 128) by lia. assert (k / 4 + 1 ≤ Kp / 4) by lia.
  set (Mt := Mp / 128) in *. set (Kt := Kp / 4) in *. clearbody Mt Kt. subst Mp Kp. nia.
Qed.

(** C8. Block scales survive the layout.  [swizzle_blockscale] turns the scales of an
    [M] by [K] matrix, one for each [BLKSZ] columns, into a contiguous tensor padded
    to multiples of 128 and 4.  For every row and block the kernels' [read_scale] finds
    the original scale in it, and zero in the padding, always inside the buffer. *)
Theorem swizzle_read BLKSZ M K scale :
  0 < BLKSZ → 0 ≤ M → 0 ≤ K →
  let k_blocks := (K + BLKSZ - 1) / BLKSZ in
  t_dtype scale = Float8E4M3 → t_shape scale = [M; k_blocks] →
  let Mp := round_up M 128 in
  let Kp := round_up k_blocks 4 in
  Mp * Kp < 2 ^ 31 →
  ∃ t, swizzle_blockscale scale = Ok t ∧ t_shape t = [Mp; Kp] ∧ t_dtype t = Float8E4M3 ∧
    ∀ m k x, 0 ≤ m < Mp → 0 ≤ k < Kp →
      (if decide (m < M ∧ k < k_blocks) then at_index scale [m; k] else Some 0) = Some x →
      read_scale BLKSZ (storage t) m k K = Some x.
Proof.
  intros HB HM HK kb Hd Hs Mp Kp Hsize. assert (0 ≤ kb) as Hkb by (apply Z.div_pos; lia).
  destruct (unsqueeze_spec scale) as (Hu1&Hu2&Hu3). rewrite Hs in Hu2, Hu3.
  destruct (interleave_ok 1 M kb (torch_unsqueeze scale) Hu2) as (t&Ht&Hn&Htd&Hts&Helems); [lia..|]. fold Mp Kp in Ht, Hn, Helems.
  unfold swizzle_blockscale. rewrite Hd, bool_decide_true, Hs by done. change (len [M; kb] =? 2) with true. cbv iota.
  rewrite Hu2. change (len [1; M; kb] =? 3) with true. cbn [py_assert]. rewrite !Ok_bind. fold Mp Kp. rewrite Ht, Ok_bind.
  rewrite reshape_spec; [|done|rewrite Hn; cbn; lia]. eexists. split; [done|]. cbn [t_shape t_dtype storage].
  split_and!; [done|by rewrite Htd, Hu1|]. intros m k x Hm Hk Hx.
  destruct (round_up_spec M 128) as [HMp HMt]; [lia..|]. destruct (round_up_spec kb 4) as [HKp HKt]; [lia..|].
  fold Mp in HMp, HMt. fold Kp in HKp, HKt. pose proof (swizzled_at_range Mp Kp m k HMt HKt Hm Hk) as Hrange.
  specialize (Helems 0 m k x ltac:(lia) Hm Hk). rewrite Z.mul_0_l, Z.add_0_l in Helems.
  assert (swizzled_idx BLKSZ m k K = swizzled_at (Kp / 4) m k) as Hidx.
  { unfold swizzled_idx. fold kb. change M_TILE_SIZE with 128. change K_BLOCKS_PER_TILE with 4.
    replace ((kb + 4 - 1) / 4) with (Kp / 4) by (unfold Kp, round_up; by rewrite Z.div_mul). apply (i32_small (swizzled_at (Kp / 4) m k)). lia. }
  unfold read_scale. rewrite Hidx, (proj2 (Z.ltb_ge _ 0)) by lia. apply Helems. rewrite <-Hx. unfold padded_at.
  case_decide as Hc; [|done]. apply Hu3. unfold in_shape, in_dim. rewrite !Forall2_cons, Forall2_nil. lia.
Qed.
End facts.

(** ** Strided tensors implement the operations *)

(** The indices of a shape in row-major order. *)
Fixpoint indices (shape : list Z) : list (list Z) :=
  match shape with [] => [[]] | n :: rest => i ← seqZ 0 n; (i ::.) <$> indices rest end.
Definition tabulate (shape : list Z) (d : dtype) (f : list Z → option Z) : Tensor :=
  mkTensor shape (row_major shape) d ((λ idx, default 0 (f idx)) <$> indices shape).

#[export] Instance strided_ops : TorchOps := {|
  torch_zeros shape d := tabulate shape d (λ _, Some 0);
  torch_assign dst src := tabulate (t_shape dst) (t_dtype dst)
    (λ idx, if decide (in_shape (t_shape src) idx) then at_index src idx else at_index dst idx);
  torch_unsqueeze t := mkTensor (1 :: t_shape t) (0 :: t_strides t) (t_dtype t) (storage t);
  torch_reshape t shape :=
    if prod shape =? numel t then
      Ok (mkTensor shape (row_major shape) (t_dtype t)
            (if decide (t_strides t = row_major (t_shape t)) then storage t
             else (λ idx, default 0 (at_index t idx)) <$> indices (t_shape t)))
    else Err RuntimeError;
  torch_permute t p := mkTensor ((λ j, t_shape t !!! j) <$> p) ((λ j, t_strides t !!! j) <$> p) (t_dtype t) (storage t);
  torch_contiguous t := tabulate (t_shape t) (t_dtype t) (at_index t);
|}.

Lemma lookup_blocks {A B} (l : list A) (f : A → list B) k i j x :
  (∀ y, length (f y) = k) → l !! i = Some x → (j < k)%nat → (l ≫= f) !! (i * k + j)%nat = f x !! j.
Proof.
  intros Hf. revert i. induction l as [|y l IH]; [done|]. intros [|i]; cbn.
  - intros [= ->] Hj. apply lookup_app_l. by rewrite Hf.
  - intros Hi Hj. rewrite lookup_app_r by (rewrite Hf; lia). rewrite Hf, <-(IH i Hi Hj). f_equal. lia.
Qed.

Lemma length_blocks {A B} (l : list A) (f : A → list B) k :
  (∀ y, length (f y) = k) → length (l ≫= f) = (length l * k)%nat.
Proof. intros Hf. induction l as [|y l IH]; [done|]. cbn. by rewrite length_app, IH, Hf. Qed.

Lemma length_indices shape : Forall (λ n, 0 ≤ n) shape → length (indices shape) = Z.to_nat (prod shape) ∧ 0 ≤ prod shape.
Proof.
  induction 1 as [|n shape Hn Hall [IH1 IH2]]; [done|]. cbn.
  rewrite (length_blocks _ _ (length (indices shape))) by (intros; by rewrite length_fmap).
  rewrite length_seqZ, IH1. change (foldr Z.mul 1 shape) with (prod shape). split; [by rewrite Z2Nat.inj_mul|lia].
Qed.

Lemma lookup_indices shape idx :
  in_shape shape idx →
  0 ≤ offset (row_major shape) idx < prod shape ∧ indices shape !! Z.to_nat (offset (row_major shape) idx) = Some idx.
Proof.
  intros Hin. induction Hin as [|n i shape idx Hi Hidx [IH1 IH2]]; [done|]. unfold in_dim in Hi.
  assert (length (indices shape) = Z.to_nat (prod shape)) as Hlen.
  { apply length_indices. clear -Hidx. induction Hidx as [|? ? ? ? H]; constructor; [unfold in_dim in H; lia|done]. }
  cbn. unfold offset in *. cbn. change (foldr Z.mul 1 shape) with (prod shape). set (o := foldr Z.add 0 _) in *. split; [nia|].
  replace (Z.to_nat _) with (Z.to_nat i * length (indices shape) + Z.to_nat o)%nat by (rewrite Hlen; nia).
  rewrite (lookup_blocks _ _ _ _ _ i); [by rewrite list_lookup_fmap, IH2|intros; by rewrite length_fmap| |lia].
  apply lookup_seqZ. lia.
Qed.

Lemma tabulate_spec shape d f : has_elems (tabulate shape d f) shape f.
Proof.
  split; [done|]. intros idx x Hidx Hf. unfold at_index, tabulate. cbn [storage t_strides].
  rewrite list_lookup_fmap, (proj2 (lookup_indices shape idx Hidx)). cbn. by rewrite Hf.
Qed.

(** An offset, dimension by dimension. *)
Lemma offset_sum strides idx : length strides = length idx → offset strides idx = zsum ((λ j, strides !!! j * idx !!! j) <$> seq 0 (length idx)).
Proof.
  revert strides. induction idx as [|i idx IH]; intros [|s strides]; [done..|]. intros [= Hlen].
  cbn [length seq]. rewrite fmap_cons, <-fmap_S_seq, <-list_fmap_compose. specialize (IH strides Hlen). unfold offset in *. cbn. by rewrite IH.
Qed.
Lemma offset_fmap (f g : nat → Z) (p : list nat) : offset (f <$> p) (g <$> p) = zsum ((λ j, f j * g j) <$> p).
Proof. induction p as [|j p IH]; [done|]. unfold offset, zsum in *. cbn. by rewrite IH. Qed.
Lemma zsum_permutes (l l' : list Z) : l ≡ₚ l' → zsum l = zsum l'.
Proof. induction 1; unfold zsum in *; cbn; lia. Qed.

#[export] Instance strided_ops_laws : TorchLaws.
Proof.
  split.
  - intros. split_and!; [done..|apply tabulate_spec].
  - intros dst src _ _ _. split_and!; [done..|apply tabulate_spec].
  - intros. split_and!; [done..|]. intros idx _. unfold at_index, offset. cbn. done.
  - intros t shape Ht Hn. cbn. rewrite Hn, Z.eqb_refl, decide_True by done. done.
  - intros t p Hp Hlen. split_and!; [done..|]. intros idx Hidx%Forall2_length. unfold at_index. cbn [storage t_strides torch_permute strided_ops]. do 2 f_equal.
    rewrite offset_fmap, offset_sum by congruence. apply zsum_permutes, fmap_Permutation. congruence.
  - intros. split_and!; [done..|apply tabulate_spec].
Qed.

(** One row of 20 columns, two scales. *)
Definition ex_scales : Tensor := mkTensor [1; 2] [2; 1] Float8E4M3 [56; 64].

Example swizzle_read_witness :
  ∃ t, swizzle_blockscale ex_scales = Ok t ∧ read_scale 16 (storage t) 0 1 20 = Some 64 ∧ read_scale 16 (storage t) 0 2 20 = Some 0.
Proof.
  destruct (swizzle_read 16 1 20 ex_scales) as (t&Ht&_&_&Hread); [vm_compute; congruence..|].
  exists t. split; [exact Ht|]. split; apply Hread; vm_compute; repeat split; congruence.
Defined.
